(* ===== verification/_CoqProject ===== *)
-Q . S2P
Prelude.v
Effects.v
GoNum.v
GoText.v
GoJson.v
GoJsonText.v
GoHash.v
GoPath.v
Ident.v
Domain.v
Event.v
Store.v
MemoryStore.v
Model.v
Stream.v
Policy.v
Telemetry.v
Baseline.v
Routing.v
Deterministic.v
LoopTypes.v
Conformance.v
Loop.v
LoopTools.v
Execution.v
LoopInvariant.v
LoopRun.v
Projection.v
WorkloadReplay.v
Engine.v
EngineTurn.v
LoopRecords.v
EngineRun.v
EngineInvariant.v
EngineLedger.v
EngineSafety.v
EngineBudget.v
EngineChain.v
EngineClose.v
EngineEnds.v
EngineFinish.v
EngineRestore.v
EngineCompaction.v
EngineExample.v
Sse.v
SseFrames.v
ChatStream.v
ChatStreamSpec.v
MessageStream.v
MessageStreamSpec.v
ChatTranslate.v
MessageTranslate.v
LoopTranslate.v
Http.v
ChatProvider.v
MessageProvider.v
ProviderExample.v
Sqlite.v
SqliteSpec.v
SqliteContract.v
SqliteProjection.v
SqliteOpen.v
SqliteMemory.v
SqliteExample.v
FileTree.v
ToolOp.v
ToolOpSpec.v
Sandbox.v
SandboxSpec.v
Bwrap.v
Tools.v
ToolsSpec.v
EngineTools.v
ToolExample.v
EngineToolsExample.v
