(* ===== verification/Prelude.v ===== *)
(** * Fabric Runner: verification library

    Fabric Runner (src/, a Go module) runs bounded agent workloads: a turn loop
    calls a model and tools, an engine authorises, places, budgets and records
    what the loop does, and everything durable is an append-only stream of
    events from which the state of a workload is rebuilt.  This library models
    the parts of it that decide, and proves what makes them correct.

    ** The program and its model

    Foundations, which model what the source uses of Go and its library:
    - Prelude.v: errors, results, the state and error monad [ST], tactics;
    - Effects.v: the monad [EM] of the parts that call out (value, error, panic
      or end of fuel), with triples, invariants and the tactics for them;
    - GoNum.v, GoText.v, GoJson.v, GoJsonText.v, GoHash.v: 64 bit integers and
      times, package strings, [json.Valid] as its scanner, the text
      [json.Marshal] makes of strings, SHA-256; all executable;
    - GoPath.v: path/filepath on a system with slashes, and what operation.go
      uses of package strings; FileTree.v: a directory opened by [os.OpenRoot],
      its entries by path, files by identity.

    Data and contracts (package fabricrunner):
    - Ident.v: id.go; Domain.v: domain.go; Event.v: event.go;
    - Store.v: store.go, the event store as a class of operations with a class
      of laws; MemoryStore.v: store/memory/store.go, an instance of both;
    - Model.v: model.go; Stream.v: provider.go and [DrainStream];
    - Policy.v: policy.go; Baseline.v: policy/baseline/policy.go;
    - Routing.v: routing.go; Deterministic.v: router/deterministic/router.go;
    - Telemetry.v: telemetry.go.

    The turn loop:
    - LoopTypes.v: loop.go; Loop.v: loop/engine.go, all of [Engine.Run];
    - Conformance.v: the two suites for adapters (providertest, observertest);
    - LoopTools.v, LoopInvariant.v, LoopRun.v: its theorems.

    The workload stream:
    - Execution.v: the records of execution_event.go, lifecycle.go, context.go
      and sandbox.go with their checks; Projection.v: projection.go and
      [applyExecutionRecorded]; WorkloadReplay.v: their composition with the
      in-memory store.

    The execution engine:
    - Engine.v: the state of an [engineRun] and its durable records (engine.go,
      lifecycle.go); EngineTurn.v: what the loop's callbacks do (engine.go,
      context.go); LoopRecords.v: the events of the loop in the engine's records,
      against the checks of the projection; EngineRun.v: [Run], [Resume] and
      [Replay] (engine.go, recovery.go);
    - EngineInvariant.v, EngineLedger.v: how to show invariants of a run and what
      its calls made durable; EngineSafety.v, EngineBudget.v, EngineChain.v,
      EngineClose.v, EngineEnds.v, EngineFinish.v, EngineRestore.v,
      EngineCompaction.v: its theorems; EngineExample.v: concrete runs.

    The model providers (provider/openaicompat and provider/anthropic):
    - Sse.v: what the two packages have in common of a stream of server-sent
      events (scanner, queue, [nextSSE], [Recv], [Close]) over any state, with
      the interface [SseLaws] that a kind of streams has to keep; SseFrames.v:
      the framing of server-sent events;
    - ChatStream.v, MessageStream.v: the two stream.go, each an instance of that
      interface; ChatStreamSpec.v, MessageStreamSpec.v: their theorems;
    - ChatTranslate.v, MessageTranslate.v: the two translate.go;
      LoopTranslate.v: the messages the turn loop makes through both;
    - Http.v: what the two provider.go have in common (client, credentials,
      bounded decoding); ChatProvider.v, MessageProvider.v: [New], [Models] and
      [Stream]; ProviderExample.v: concrete providers.

    The durable store (store/sqlite/store.go):
    - Sqlite.v: the tables, the statements, transactions, [Append], [Load] and
      [LoadWorkloadProjection]; SqliteOpen.v: [Open], the schema, [Diagnostics];
    - SqliteSpec.v: what each step does to the tables; SqliteContract.v: the
      laws of the event store; SqliteProjection.v: the persisted projection;
      SqliteMemory.v: the two stores side by side; SqliteExample.v: a store.

    The tools and their confinement:
    - ToolOp.v: internal/toolop, and cmd/fabricrunner-tool as [helper_main], on
      the files of FileTree.v; ToolOpSpec.v: its theorems;
    - Sandbox.v: package sandbox (executor.go, native_linux.go,
      native_darwin.go, native_other.go, process_unix.go) on a host that keeps
      what was started, what was recorded and the confinements;
      SandboxSpec.v: its theorems, and the life of one confinement as steps of
      overlapping runs; Bwrap.v: what the manual of bubblewrap says of the options
      that native_linux.go gives it;
    - Tools.v: tool/tools.go over an interface of sandboxes and files
      ([ToolWorld]), of which the two above are the instance [HostWorld];
      ToolsSpec.v: its theorems; ToolExample.v: tools on a small host;
    - EngineTools.v: the engine with these tools, and what a run can start;
      EngineToolsExample.v: two such runs.

    Names are those of the source: the Go method [T.M] is [T_M], the field [F] of
    a struct [T] is [T_F] or a short prefix with [F].  Where the body of a Go
    function is long, its loops and blocks are definitions of their own, composed
    in the order of the source.

    ** How the outside is modelled

    The loop and the engine call collaborators that may answer anything at any
    time: contexts, stores, policies, routers, providers and streams, tools,
    middleware, approvers, clocks.  The state of a run holds the history of the
    calls made so far, and what a collaborator returns is a function of that
    history ([Collaborators] in Loop.v, [EngineEnv] in Engine.v), so a
    theorem for every such function covers every behaviour over time, panics
    included, and what the program does to the outside is read off the history.

    - The loop is handed the engine's providers, streams and tool handlers; it
      holds them by an index into tables of the engine's state, which models the
      sharing of these objects between loop and engine ([engineProvider],
      [engineModelStream], the [sync.Once] of [engineToolHandler]).  The slice of
      tools that engine and loop share is only read, by index.
    - The theorems on the engine hold for every [TurnLoop], a function of the
      collaborators that returns a result and the calls it made; [loop_Engine] is
      the loop of Loop.v as one.  A callback of the loop is one atomic step, so
      of the interleavings of parallel tool calls those of whole calls are
      covered; [append] itself holds the mutex of the run.
    - A tool may report sandbox events in the course of a call: they are listed
      per call and recorded before its answer.
    - Contexts answer [Err] and [Cause] per look; which context a call uses is
      kept ([EngineContext]).  That a context, once ended, stays so is not
      assumed anywhere.
    - JSON encoding and decoding by reflection ([PayloadDecoder],
      [PayloadEncoder], [InputDecoder], [ResultDecoder]), the schema library, the
      %q verb ([Quoting]) are parameters.  No property assumes anything of them but what it says.
    - The body of an HTTP response is what reading it to its end gives; contexts
      and the select of [nextSSE] answer by a count of looks ([StreamEnv]).  A
      client may answer any request with anything ([HttpClient]); net/url, the
      default transport and the JSON of both APIs are parameters ([HttpEnv],
      [ChatJson], [MessageJson], [ChunkDecoder], [EnvelopeDecoder]).
    - A SQLite database is the tables of schemaV1 with their constraints.  Every
      call to the driver or the file system may fail instead of doing its work
      ([sql_fault], a function of the number of calls); a transaction that does
      not commit leaves the file as it was, which is what SQLite documents, and
      with _txlock=immediate transactions do not interleave, so an operation is
      one step of the file.  [SqlHealthy] is the case in which no call fails.
    - File operations may fail at any time, leave a write half done, or meet a
      context that has ended ([FileEnv], by a count of calls); open directories
      follow links the way [os.Root] documents, at most 8 of them.  A host
      answers by a count of calls too ([HostEnv]); a process is what it writes,
      how it exits and the files it leaves, any of them.  What a confinement
      program does with its command line is not assumed, so the theorems on
      confinement are about the command lines.  Only [write_tool_effect] assumes
      something of it ([HelperHost]): that the program found as bwrap, given a
      command line that by its documented options ([bwrap_parse]) shows the helper
      at the place of the command and the root, to be written, at its directory,
      runs the helper on the files of the root, or does not start or fails.
    - Calls of one tool are whole steps ([handler] holds its mutex wherever it
      reads or changes its state); overlapping runs in one confinement are the
      steps of [life_step].
    - Clone functions return their argument, values being immutable here, except
      where the clone differs from it ([CloneModelRequest]).

    ** Fuel and bounds

    Only receiving from a stream, which may go on forever, and the turns of a
    loop take fuel.  [DrainStream_spec] and [Run_terminates] give the amount that
    is enough (one more than the stream sends, one turn per model call left in
    the budget); the receive loop of a compaction has its own bound of 10000
    events, for which [compaction_fuel] is enough ([Engine_run_ends]).  [Recv] of
    a provider's stream reads until there is an event; [chatStream_ends] and
    [messageStream_ends] show that the lines of the body bound it.  Integers
    are 64 bit with wrap-around; theorems about sums say when they are exact.

    ** What the theorems show

    - Authority: [tools_authorized], [models_authorized], [Recv_releases]
      (EngineSafety.v): no tool runs, no model is called and no remote content is
      let in without a durable verdict on exactly this, whatever the loop does.
      Verdicts fail closed ([EvaluateExecutionPolicy_fail_closed],
      [EvaluateDataEgressPolicy_fail_closed]), digests bind their content
      ([manifest_digest_binding]), the baseline decides every request.
    - Placement: a selected candidate passes every gate ([EvaluateRouter_sound])
      and is the best one ([Route_selects_best], [Route_accepted],
      [score_exact]).
    - Budgets: [reservations_within_budget], [Run_budget], [addUsage_exact].
    - Durability: [appends_chained], [Engine_run_finalises],
      [Resume_only_at_boundary], [restore_scan], [compaction_durable],
      [Run_records], [Run_events_accepted] (what the projection
      checks of the loop's events, but for the placement and the end of the step).
    - The stream and its state: [memory_store_append_only],
      [Memory_Append_optimistic], [Apply_refines], [replayed_projection_sound],
      [terminal_workload_frozen], [LoadWorkloadProjection_spec],
      [append_then_load].
    - Cleanup and termination: [Engine_run_closes_tools], [Run_closes_tools],
      [Engine_run_ends], [Run_terminates].
    - Providers: whatever a server sends, streams follow the protocol and end
      ([chatStream_protocol], [messageStream_protocol], [chatStream_ends],
      [messageStream_ends]); calls are the concatenation of their fragments and
      usage is reported without loss ([chatStream_calls], [messageStream_calls],
      [messageStream_usage]); framing is read back ([chat_decoder_frames],
      [message_decoder_frames]); requests are translated completely or refused
      ([chat_translateRequest_spec], [message_translateRequest_spec]); a provider
      talks only to its endpoint ([chat_provider_exchanges],
      [message_provider_exchanges]) and lists all models ([message_Models_pages]).
    - The durable store: [Sqlite_Append_atomic], [sqlite_store_append_only],
      [Sqlite_Append_optimistic], [Sqlite_Load_verified], [row_roundtrip],
      [sqlite_projection_replayed], [stores_agree] (for workloads too, whose
      appends SQLite also puts to their projection), [Open_new], [Open_existing].
    - Tools: whatever is called in whatever order, tools start only contained
      processes ([tools_confined]) and nothing without an executor
      ([tools_denied]), and with the engine only where a recorded verdict allows
      it ([workspace_processes], [denied_tools_never_execute]); a closed tool
      refuses ([closed_tool_refuses]); outputs are valid and bounded
      ([Execute_output]); [New_tools] says what is bound.
    - Confinements: [Establish_fail_closed], [confinement_lifecycle],
      [collect_bounded]; nothing but the root can be written
      ([only_root_writable]).
    - Files: a write replaces a file as a whole or not at all
      ([Run_write_atomic], [write_tool_effect]) and succeeds where nothing fails
      ([Run_write_succeeds]); [Run_read_bounded], [ValidatePath_local].
    - Suites: what passing means ([provider_suite_spec],
      [observer_suite_spec]).
    - Where the code does not do what it means to: [decodeBoundedJSON_overflow],
      [operation_millis_overflow], [out_of_range_version],
      [message_tool_content], [CloneModelRequest_drops_extension],
      [executeBatch_interrupted_raw], [linked_helper_not_run],
      [provider_suite_refuses_extension].
    - Protocols and data: [validator_accepts_protocol], [DrainStream_spec],
      [executeBatch_outputs], [executeBatch_parallel_sequential],
      [newIDAt_sound], [NewEvent_sound] and the others.

    ** Not modelled

    - SQL text and connection strings (sqliteDSN, what databaseURL makes a URL
      of): SQLite runs the statements, of which the tables' operations are the
      meaning; the companion files a database has beside its own;
    - what bubblewrap and Seatbelt do with a command line, process groups and
      their signals, file modes: the operating system's;
    - decoding by reflection, for each use a parameter;
    - [Engine.ApprovalTimeout], the timeouts of tools and of the observer:
      durations only the contexts see;
    - the testing package, which runs the subtests of the suites, and the program
      of sandbox/testdata, which tries what a confinement forbids. *)

From Stdlib Require Import ZArith Lia Bool.
From stdpp Require Export base decidable option list strings gmap.

(* ------------------------------------------------------------------ *)
(** ** Scope and notations *)

Declare Scope go_scope.
Delimit Scope go_scope with go.
#[global] Open Scope string_scope.
#[global] Open Scope Z_scope.
#[global] Open Scope list_scope.
#[global] Open Scope go_scope.

Infix "=s" := String.eqb (at level 70, no associativity) : go_scope.
Notation "a ≠s b" := (negb (String.eqb a b)) (at level 70, no associativity) : go_scope.

(** Go strings, byte slices and raw JSON messages are byte strings. *)
Abbreviation bytes := string (only parsing).

(* ------------------------------------------------------------------ *)
(** ** Errors

    A Go error value is either a package level sentinel, identified by its
    text, or a value made by [errors.New], [fmt.Errorf] or [errors.Join] that
    carries the causes it wraps with the %w verb, or a struct type of the
    program with its fields and the error [Unwrap] returns.  Formatted operands
    are not kept in the text. *)

Inductive error : Type :=
| Sentinel (text : string)
| Errorf (text : string) (causes : list error)
| Joined (causes : list error)
| Struct (type : string) (texts : list string) (numbers : list Z) (cause : option error).

Definition errors_New (text : string) : error := Errorf text [].

(** [errors.Is]: depth first search of the tree of wrapped errors. *)
Fixpoint errors_Is (e : error) (target : string) : bool :=
  match e with
  | Sentinel text => String.eqb text target
  | Errorf _ causes => existsb (fun c => errors_Is c target) causes
  | Joined causes => existsb (fun c => errors_Is c target) causes
  | Struct _ _ _ cause => match cause with Some c => errors_Is c target | None => false end
  end.

(** [errors.Join] drops nil values and is nil when nothing is left. *)
Definition errors_Join (es : list (option error)) : option error :=
  match omap id es with
  | [] => None
  | es' => Some (Joined es')
  end.

Definition Canceled : error := Sentinel "context canceled".
Definition DeadlineExceeded : error := Sentinel "context deadline exceeded".

(* ------------------------------------------------------------------ *)
(** ** Results: the value and nil error, or the error *)

Inductive result (A : Type) : Type :=
| Ok (a : A)
| Err (e : error).
Arguments Ok {_} _.
Arguments Err {_} _.

#[global] Instance result_ret : MRet result := fun A a => Ok a.
#[global] Instance result_bind : MBind result := fun A B f m =>
  match m with Ok a => f a | Err e => Err e end.
#[global] Instance result_fmap : FMap result := fun A B f m =>
  match m with Ok a => Ok (f a) | Err e => Err e end.

Definition is_ok {A} (r : result A) : bool :=
  match r with Ok _ => true | Err _ => false end.

(** [if !cond { return errors.New(text) }] *)
Definition require (cond : bool) (text : string) : result unit :=
  if cond then Ok tt else Err (errors_New text).

(** [if !cond { return fmt.Errorf("%w: text", base) }] *)
Definition require_w (cond : bool) (base : error) (text : string) : result unit :=
  if cond then Ok tt else Err (Errorf text [base]).

(** [if err != nil { return fmt.Errorf("text: %w", err) }] *)
Definition wrapf {A} (text : string) (r : result A) : result A :=
  match r with Ok a => Ok a | Err e => Err (Errorf text [e]) end.

(** [if err != nil { return fmt.Errorf("%w: %w", base, err) }] *)
Definition wrap_base {A} (base : error) (r : result A) : result A :=
  match r with Ok a => Ok a | Err e => Err (Errorf "" [base; e]) end.

(** [if err := ctx.Err(); err != nil { return err }], from one observation of
    the context. *)
Definition check_ctx (observed : option error) : result unit :=
  match observed with None => Ok tt | Some e => Err e end.

Definition when (cond : bool) (r : result unit) : result unit :=
  if cond then r else Ok tt.

(** The error a function with only an [error] result returns. *)
Definition error_of {A} (r : result A) : option error :=
  match r with Ok _ => None | Err e => Some e end.

(** The observations a call makes of [ctx.Err()], in program order. *)
Abbreviation Context := (nat → option error) (only parsing).

(** What is left of them for a callee after [n] observations. *)
Definition ctx_after (n : nat) (ctx : nat → option error) : nat → option error :=
  fun i => ctx (n + i)%nat.

(** A context that is never cancelled. *)
Definition background : nat → option error := fun _ => None.

(* ------------------------------------------------------------------ *)
(** ** Loops over slices *)

(** [for _, x := range l { if err := f(x); err != nil { return err } }] *)
Fixpoint each {A} (f : A → result unit) (l : list A) : result unit :=
  match l with
  | [] => Ok tt
  | x :: l' => f x ;; each f l'
  end.

(** The same loop, with [f] given the index too. *)
Fixpoint each_i {A} (f : nat → A → result unit) (i : nat) (l : list A) : result unit :=
  match l with
  | [] => Ok tt
  | x :: l' => f i x ;; each_i f (S i) l'
  end.

(** The same loop with a [seen] set: an element whose key was met before is an
    error, and the element's own check runs before the test of the set. *)
Fixpoint each_fresh {A K} `{Countable K} (key : A → K) (f : A → result unit) (dup : string)
    (seen : gset K) (l : list A) : result unit :=
  match l with
  | [] => Ok tt
  | x :: l' =>
      f x ;;
      (if decide (key x ∈ seen) then Err (errors_New dup) else Ok tt) ;;
      each_fresh key f dup ({[ key x ]} ∪ seen) l'
  end.

(* ------------------------------------------------------------------ *)
(** ** Lemmas on results *)

Create Rewrite HintDb go_ok.
Create Rewrite HintDb go_bool.

Section results.
Context {A B : Type}.

Lemma bind_Ok (m : result A) (f : A → result B) b :
  (m ≫= f) = Ok b ↔ ∃ a, m = Ok a ∧ f a = Ok b.
Proof. destruct m; cbn; naive_solver. Qed.

Lemma fmap_Ok (m : result A) (f : A → B) b :
  (f <$> m) = Ok b ↔ ∃ a, m = Ok a ∧ f a = b.
Proof. destruct m; cbn; naive_solver. Qed.

Lemma seq_Ok (m : result unit) (k : result B) b :
  (m ;; k) = Ok b ↔ m = Ok tt ∧ k = Ok b.
Proof. destruct m as [[]|]; cbn; naive_solver. Qed.

Lemma wrapf_Ok t (r : result A) a : wrapf t r = Ok a ↔ r = Ok a.
Proof. destruct r; cbn; naive_solver. Qed.

Lemma wrap_base_Ok t (r : result A) a : wrap_base t r = Ok a ↔ r = Ok a.
Proof. destruct r; cbn; naive_solver. Qed.

Lemma ret_Ok (a b : A) : Ok a = Ok b ↔ a = b.
Proof. naive_solver. Qed.

Lemma is_ok_true (r : result A) : is_ok r = true ↔ ∃ a, r = Ok a.
Proof. destruct r; cbn; naive_solver. Qed.

Lemma bind_error (m : result A) (f : A → result B) e :
  m = Err e → (m ≫= f) = Err e.
Proof. by intros ->. Qed.
End results.

Lemma require_Ok c t u : require c t = Ok u ↔ c = true.
Proof. destruct c, u; cbn; naive_solver. Qed.

Lemma require_w_Ok c b t u : require_w c b t = Ok u ↔ c = true.
Proof. destruct c, u; cbn; naive_solver. Qed.

Lemma check_ctx_Ok o u : check_ctx o = Ok u ↔ o = None.
Proof. destruct o, u; cbn; naive_solver. Qed.

Lemma when_Ok c r u : when c r = Ok u ↔ (c = true → r = Ok u).
Proof. destruct c, u; cbn; naive_solver. Qed.

Lemma Ok_tt_True (u : unit) : Ok tt = Ok u ↔ True.
Proof. by destruct u. Qed.

Lemma if_dup_Ok {P : Prop} `{Decision P} e u :
  (if decide P then Err e else Ok tt) = Ok u ↔ ¬ P.
Proof. destruct u. case_decide; naive_solver. Qed.

Lemma each_Ok {A} (f : A → result unit) l u :
  each f l = Ok u ↔ Forall (fun x => f x = Ok tt) l.
Proof.
  destruct u. induction l as [|x l IH]; cbn.
  - split; [constructor | done].
  - rewrite seq_Ok, IH, Forall_cons. done.
Qed.

Lemma each_i_Ok {A} (f : nat → A → result unit) l i u :
  each_i f i l = Ok u ↔ ∀ j x, l !! j = Some x → f (i + j)%nat x = Ok tt.
Proof.
  destruct u. revert i. induction l as [|x l IH]; intros i; cbn.
  - split; [intros _ j y H; by rewrite lookup_nil in H | done].
  - rewrite seq_Ok, IH. split.
    + intros [Hx Hl] [|j] y; cbn; [intros [= <-]; by rewrite Nat.add_0_r|].
      intros Hy. rewrite Nat.add_succ_r. by apply Hl.
    + intros H. split; [specialize (H 0%nat x eq_refl); by rewrite Nat.add_0_r in H|].
      intros j y Hy. rewrite Nat.add_succ_l, <- Nat.add_succ_r. by apply H.
Qed.

Lemma each_fresh_Ok {A K} `{Countable K} (key : A → K) f dup seen l u :
  each_fresh key f dup seen l = Ok u ↔
  Forall (fun x => f x = Ok tt) l ∧ NoDup (key <$> l) ∧ ∀ x, x ∈ l → key x ∉ seen.
Proof.
  destruct u. revert seen. induction l as [|x l IH]; intros seen; cbn.
  { split; [intros _; split_and!; [constructor|constructor|set_solver] | done]. }
  rewrite !seq_Ok, if_dup_Ok, IH, Forall_cons, NoDup_cons.
  setoid_rewrite list_elem_of_fmap. setoid_rewrite elem_of_cons.
  setoid_rewrite not_elem_of_union. setoid_rewrite not_elem_of_singleton. naive_solver.
Qed.

#[export] Hint Rewrite @bind_Ok @fmap_Ok @seq_Ok @wrapf_Ok @wrap_base_Ok require_Ok
  require_w_Ok check_ctx_Ok when_Ok Ok_tt_True @if_dup_Ok @each_Ok @each_fresh_Ok @ret_Ok : go_ok.

(* ------------------------------------------------------------------ *)
(** ** Boolean conditions of the source as propositions *)

Lemma seqb_true (a b : string) : (a =s b) = true ↔ a = b.
Proof. apply String.eqb_eq. Qed.

Lemma seqb_false (a b : string) : (a =s b) = false ↔ a ≠ b.
Proof. apply String.eqb_neq. Qed.

Lemma seqb_refl (a : string) : (a =s a) = true.
Proof. apply String.eqb_refl. Qed.

#[export] Hint Rewrite andb_true_iff andb_false_iff orb_true_iff orb_false_iff negb_true_iff
  negb_false_iff seqb_true seqb_false Z.ltb_lt Z.ltb_ge Z.leb_le Z.leb_gt Z.eqb_eq Z.eqb_neq
  Z.gtb_ltb Z.geb_leb bool_decide_eq_true bool_decide_eq_false existsb_exists forallb_forall
  : go_bool.

Ltac simpl_bool := repeat (autorewrite with go_bool in *).

(** Inversion of a successful computation in the result monad. *)
Ltac inv_ok_step :=
  match goal with
  | H : Ok _ = Err _ |- _ => discriminate H
  | H : Err _ = Ok _ |- _ => discriminate H
  | H : Ok _ = Ok _ |- _ => injection H as H
  | H : (_ ≫= _) = Ok _ |- _ => apply bind_Ok in H as (? & ? & H)
  | H : (_ <$> _) = Ok _ |- _ => apply fmap_Ok in H as (? & ? & H)
  | H : wrapf _ _ = Ok _ |- _ => apply wrapf_Ok in H
  | H : wrap_base _ _ = Ok _ |- _ => apply wrap_base_Ok in H
  | H : require _ _ = Ok _ |- _ => apply require_Ok in H
  | H : require_w _ _ _ = Ok _ |- _ => apply require_w_Ok in H
  | H : check_ctx _ = Ok _ |- _ => apply check_ctx_Ok in H
  | H : when _ _ = Ok _ |- _ => apply when_Ok in H
  | u : unit |- _ => destruct u
  | H : True |- _ => clear H
  | H : _ ∧ _ |- _ => destruct H
  end.

Ltac inv_ok := repeat inv_ok_step.

(** Case analysis on the scrutinee of a match or if of hypothesis [H]. *)
Ltac case_in H :=
  match type of H with
  | context [ match ?x with _ => _ end ] => destruct x eqn:?
  end.

Ltac case_goal :=
  match goal with
  | |- context [ match ?x with _ => _ end ] => destruct x eqn:?
  end.

(* ------------------------------------------------------------------ *)
(** ** Stateful operations: Go methods that mutate their receiver and
    return an error.  The state is returned in both cases. *)

Definition ST (S A : Type) : Type := S → result A * S.

#[global] Instance st_ret {S} : MRet (ST S) := fun A a s => (Ok a, s).
#[global] Instance st_bind {S} : MBind (ST S) := fun A B f m s =>
  match m s with
  | (Ok a, s') => f a s'
  | (Err e, s') => (Err e, s')
  end.

Definition st_get {S} : ST S S := fun s => (Ok s, s).
Definition st_put {S} (s' : S) : ST S unit := fun _ => (Ok tt, s').
Definition st_modify {S} (f : S → S) : ST S unit := fun s => (Ok tt, f s).
Definition st_lift {S A} (r : result A) : ST S A := fun s => (r, s).
Definition st_fail {S A} (e : error) : ST S A := fun s => (Err e, s).

Lemma st_bind_Ok {S A B} (m : ST S A) (f : A → ST S B) s b s' :
  (m ≫= f) s = (Ok b, s') ↔ ∃ a s1, m s = (Ok a, s1) ∧ f a s1 = (Ok b, s').
Proof.
  unfold mbind, st_bind. destruct (m s) as [[a|e] s1]; naive_solver.
Qed.

Lemma st_bind_Err {S A B} (m : ST S A) (f : A → ST S B) s e s' :
  (m ≫= f) s = (Err e, s') ↔
  m s = (Err e, s') ∨ ∃ a s1, m s = (Ok a, s1) ∧ f a s1 = (Err e, s').
Proof.
  unfold mbind, st_bind. destruct (m s) as [[a|e'] s1]; naive_solver.
Qed.

(** [m] leaves the state as it was whenever it fails. *)
Definition atomic_on_error {S A} (m : ST S A) : Prop :=
  ∀ s e s', m s = (Err e, s') → s' = s.

(** [m] never changes the state. *)
Definition readonly {S A} (m : ST S A) : Prop := ∀ s, snd (m s) = s.

(** [m] never fails. *)
Definition infallible {S A} (m : ST S A) : Prop := ∀ s, ∃ a, fst (m s) = Ok a.

Create HintDb go_st discriminated.

Section st_laws.
Context {S A B : Type}.

Lemma readonly_lift (r : result A) : readonly (S:=S) (st_lift r).
Proof. done. Qed.
Lemma readonly_get : readonly (S:=S) st_get.
Proof. done. Qed.
Lemma readonly_fail e : readonly (S:=S) (A:=A) (st_fail e).
Proof. done. Qed.

Lemma readonly_bind (m : ST S A) (f : A → ST S B) :
  readonly m → (∀ a, readonly (f a)) → readonly (m ≫= f).
Proof.
  intros Hm Hf s. unfold mbind, st_bind. specialize (Hm s).
  destruct (m s) as [[a|e] s1]; cbn in *; subst; [apply Hf | done].
Qed.

Lemma atomic_readonly (m : ST S A) : readonly m → atomic_on_error m.
Proof. intros Hm s e s' H. specialize (Hm s). by rewrite H in Hm. Qed.

(** Checks first, then one block that may fail only before it writes. *)
Lemma atomic_bind (m : ST S A) (f : A → ST S B) :
  readonly m → (∀ a, atomic_on_error (f a)) → atomic_on_error (m ≫= f).
Proof.
  intros Hm Hf s e s'. rewrite st_bind_Err. specialize (Hm s).
  intros [H|(a & s1 & H1 & H2)].
  - by rewrite H in Hm.
  - rewrite H1 in Hm. cbn in Hm. subst. by eapply Hf.
Qed.

Lemma atomic_infallible (m : ST S A) : infallible m → atomic_on_error m.
Proof. intros Hm s e s' H. destruct (Hm s) as [a Ha]. by rewrite H in Ha. Qed.

Lemma infallible_modify (f : S → S) : infallible (st_modify f).
Proof. by eexists. Qed.
Lemma infallible_put (s : S) : infallible (st_put s).
Proof. by eexists. Qed.
End st_laws.

Lemma atomic_modify {S} (f : S → S) : atomic_on_error (st_modify f).
Proof. apply atomic_infallible, infallible_modify. Qed.
Lemma atomic_put {S} (s : S) : atomic_on_error (st_put s).
Proof. apply atomic_infallible, infallible_put. Qed.

Section st_run.
Context {S A B : Type}.

Lemma st_get_bind (f : S → ST S B) (s : S) : (st_get ≫= f) s = f s s.
Proof. done. Qed.

Lemma st_lift_bind_Ok (r : result A) (f : A → ST S B) s b s' :
  (st_lift r ≫= f) s = (Ok b, s') ↔ ∃ a, r = Ok a ∧ f a s = (Ok b, s').
Proof. unfold mbind, st_bind, st_lift. destruct r; naive_solver. Qed.

Lemma st_lift_seq_Ok (r : result unit) (k : ST S B) s b s' :
  (st_lift r ;; k) s = (Ok b, s') ↔ r = Ok tt ∧ k s = (Ok b, s').
Proof. unfold mbind, st_bind, st_lift. destruct r as [[]|]; naive_solver. Qed.

Lemma st_modify_Ok (f : S → S) s u s' : st_modify f s = (Ok u, s') ↔ s' = f s.
Proof. destruct u. unfold st_modify. naive_solver. Qed.

Lemma st_fail_Ok e (s : S) (a : A) (s1 : S) : st_fail e s = (Ok a, s1) ↔ False.
Proof. unfold st_fail. naive_solver. Qed.

Lemma readonly_bind_atomic (m : ST S A) (k : ST S B) :
  atomic_on_error m → infallible k → atomic_on_error (m ≫= fun _ => k).
Proof.
  intros Hm Hk s e s'. rewrite st_bind_Err. intros [H|(a & s1 & _ & H)]; [by eapply Hm|].
  destruct (Hk s1) as [b Hb]. by rewrite H in Hb.
Qed.
End st_run.

(** Every error of [m] is, in the sense of [errors.Is], the [target]. *)
Definition errors_within {S A} (target : string) (m : ST S A) : Prop :=
  ∀ s e s', m s = (Err e, s') → errors_Is e target = true.

Section error_classes.
Context {S A B : Type} (target : string).

Lemma errors_within_bind (m : ST S A) (f : A → ST S B) :
  errors_within target m → (∀ a, errors_within target (f a)) → errors_within target (m ≫= f).
Proof. intros Hm Hf s e s'. rewrite st_bind_Err. intros [H|(a & s1 & _ & H)]; [by eapply Hm | by eapply Hf]. Qed.

Lemma errors_within_infallible (m : ST S A) : infallible m → errors_within target m.
Proof. intros Hm s e s' H. destruct (Hm s) as [a Ha]. by rewrite H in Ha. Qed.

Lemma errors_within_get : errors_within (S:=S) target st_get.
Proof. done. Qed.

Lemma errors_within_wrap_base (r : result A) : errors_within (S:=S) target (st_lift (wrap_base (Sentinel target) r)).
Proof. intros s e s'. unfold st_lift. destruct r; cbn; intros [= <- _]. cbn. by rewrite String.eqb_refl. Qed.

Lemma errors_within_require_w c t : errors_within (S:=S) target (st_lift (require_w c (Sentinel target) t)).
Proof. intros s e s'. unfold st_lift. destruct c; cbn; intros [= <- _]. cbn. by rewrite String.eqb_refl. Qed.
End error_classes.

#[export] Hint Resolve errors_within_bind errors_within_get errors_within_wrap_base errors_within_require_w
  errors_within_infallible : go_st.

(** Inversion of a successful stateful computation, check by check. *)
Ltac inv_st_step :=
  match goal with
  | H : (st_get ≫= _) _ = (Ok _, _) |- _ => rewrite st_get_bind in H
  | H : (st_lift _ ≫= fun _ : unit => _) _ = (Ok _, _) |- _ => apply st_lift_seq_Ok in H as [? H]
  | H : (st_lift _ ≫= _) _ = (Ok _, _) |- _ => apply st_lift_bind_Ok in H as (? & ? & H)
  | H : st_modify _ _ = (Ok _, _) |- _ => apply st_modify_Ok in H
  | H : st_fail _ _ = (Ok _, _) |- _ => apply st_fail_Ok in H; destruct H
  end.
Ltac inv_st := repeat inv_st_step.

#[export] Hint Resolve readonly_lift readonly_get readonly_fail readonly_bind atomic_readonly
  atomic_bind atomic_modify atomic_put infallible_modify readonly_bind_atomic : go_st.

(* ------------------------------------------------------------------ *)
(** ** Generic lemmas on lists *)

Lemma lookup_snoc {A} (l : list A) x i y :
  (l ++ [x]) !! i = Some y ↔ l !! i = Some y ∨ (i = length l ∧ x = y).
Proof.
  rewrite lookup_app_Some, list_lookup_singleton_Some. split.
  - intros [?|(? & ? & ?)]; [by left | right; split; [lia | done]].
  - intros [?|[-> ->]]; [by left | right; split_and!; [done | lia | done]].
Qed.

Lemma Forall_snoc {A} (P : A → Prop) l x : Forall P (l ++ [x]) ↔ Forall P l ∧ P x.
Proof. rewrite Forall_app, Forall_singleton. done. Qed.
