(* ===== verification/Effects.v ===== *)
(** * Computations with state, errors, panics and fuel

    The monad of the parts of the program that call out: a computation from a
    state of type [S] ends with a value, with an error, with a panic or at the
    end of its fuel, and always leaves a state.  With it come triples and
    invariants, the rules by which they compose, and the tactic that takes an
    invariant down to the steps that change the state. *)

From Stdlib Require Import ZArith Lia.
From S2P Require Import Prelude.

(** A call to the outside returns or panics with a value. *)
Inductive outcome (A : Type) : Type :=
| Returns (a : A)
| Panics (value : string).
Arguments Returns {_} _.
Arguments Panics {_} _.

(** How a computation ends. *)
Inductive ending (A : Type) : Type :=
| Done (a : A)
| Failed (e : error)
| Panicked (value : string)
| Exhausted.
Arguments Done {_} _.
Arguments Failed {_} _.
Arguments Panicked {_} _.
Arguments Exhausted {_}.

Definition EM (S A : Type) : Type := S → ending A * S.

Section computations.
Context {S : Type}.

#[global] Instance lm_ret : MRet (EM S) := fun A a s => (Done a, s).
#[global] Instance lm_bind : MBind (EM S) := fun A B f m s =>
  match m s with
  | (Done a, s') => f a s'
  | (Failed e, s') => (Failed e, s')
  | (Panicked v, s') => (Panicked v, s')
  | (Exhausted, s') => (Exhausted, s')
  end.

Definition lm_get : EM S S := fun s => (Done s, s).
Definition lm_modify (f : S → S) : EM S unit := fun s => (Done tt, f s).
Definition lm_fail {A} (e : error) : EM S A := fun s => (Failed e, s).
Definition lm_panic {A} (value : string) : EM S A := fun s => (Panicked value, s).
Definition lm_exhausted {A} : EM S A := fun s => (Exhausted, s).
Definition lm_lift {A} (r : result A) : EM S A :=
  match r with Ok a => mret a | Err e => lm_fail e end.

(** [if r, err := m(); err != nil]: the error as a value. *)
Definition attempt {A} (m : EM S A) : EM S (result A) := fun s =>
  match m s with
  | (Done a, s') => (Done (Ok a), s')
  | (Failed e, s') => (Done (Err e), s')
  | (Panicked v, s') => (Panicked v, s')
  | (Exhausted, s') => (Exhausted, s')
  end.

(** A deferred function with [recover()]. *)
Definition recover {A} (m : EM S A) (handler : string → EM S A) : EM S A := fun s =>
  match m s with
  | (Panicked v, s') => handler v s'
  | r => r
  end.

(** A call to the outside: [push] notes it in the state, [answer] is what it
    returns there. *)
Definition perform {A} (push : S → S) (answer : S → outcome A) : EM S A := fun s =>
  match answer s with
  | Returns a => (Done a, push s)
  | Panics v => (Panicked v, push s)
  end.

(** Dereferencing a nil pointer panics. *)
Definition deref {A} (o : option A) : EM S A :=
  match o with Some a => mret a | None => lm_panic "nil pointer dereference" end.

(* ------------------------------------------------------------------ *)
(** ** Reasoning about computations

    [triple P m Q E]: from a state with [P], [m] ends with a value [a] and [Q a],
    or without a value and with [E]. *)

Definition triple {A} (P : S → Prop) (m : EM S A) (Q : A → S → Prop) (E : S → Prop) : Prop :=
  ∀ s, P s → match m s with (Done a, s') => Q a s' | (_, s') => E s' end.

Lemma triple_bind {A B} P (m : EM S A) Q (f : A → EM S B) R E :
  triple P m Q E → (∀ a, triple (Q a) (f a) R E) → triple P (m ≫= f) R E.
Proof.
  intros Hm Hf s Hs. specialize (Hm s Hs). unfold mbind, lm_bind. destruct (m s) as [[a|e|v|] s']; try done.
  exact (Hf a s' Hm).
Qed.

Lemma triple_conseq {A} (P P' : S → Prop) (m : EM S A) (Q Q' : A → S → Prop) (E E' : S → Prop) :
  triple P' m Q' E' → (∀ s, P s → P' s) → (∀ a s, Q' a s → Q a s) → (∀ s, E' s → E s) → triple P m Q E.
Proof.
  intros Hm HP HQ HE s Hs. specialize (Hm s (HP s Hs)). destruct (m s) as [[a|e|v|] s']; auto.
Qed.

Lemma triple_pre {A} (P P' : S → Prop) (m : EM S A) Q E :
  triple P' m Q E → (∀ s, P s → P' s) → triple P m Q E.
Proof. intros Hm HP. by eapply triple_conseq. Qed.

Lemma triple_post {A} P (m : EM S A) (Q Q' : A → S → Prop) E :
  triple P m Q' E → (∀ a s, Q' a s → Q a s) → triple P m Q E.
Proof. intros Hm HQ. by eapply triple_conseq. Qed.

Lemma triple_any {A} (P : S → Prop) (m : EM S A) : triple P m (λ _ _, True) (λ _, True).
Proof. intros s _. by destruct (m s) as [[]]. Qed.

Lemma triple_ret {A} (a : A) (Q : A → S → Prop) E : triple (Q a) (mret a) Q E.
Proof. by intros s Hs. Qed.

Lemma triple_get (P : S → Prop) E : triple P lm_get (λ a s, a = s ∧ P s) E.
Proof. by intros s Hs. Qed.

Lemma triple_modify f (P : S → Prop) (Q : unit → S → Prop) E :
  (∀ s, P s → Q tt (f s)) → triple P (lm_modify f) Q E.
Proof. intros HP s Hs. by apply HP. Qed.

Lemma triple_fail {A} e (Q : A → S → Prop) E : triple E (lm_fail e) Q E.
Proof. by intros s Hs. Qed.

Lemma triple_lift {A} (r : result A) (P : S → Prop) (E : S → Prop) :
  (∀ s, P s → E s) → triple P (lm_lift r) (λ a s, r = Ok a ∧ P s) E.
Proof. intros HE s Hs. destruct r; cbn; [done | by apply HE]. Qed.

Lemma triple_lift_bind {A B} (r : result A) (f : A → EM S B) P Q (E : S → Prop) :
  (∀ s, P s → E s) → (∀ a, r = Ok a → triple P (f a) Q E) → triple P (lm_lift r ≫= f) Q E.
Proof. intros HE Hf s Hs. destruct r as [a|e]; [by apply (Hf a) | by apply HE]. Qed.

Lemma triple_deref {A} (o : option A) (P : S → Prop) (E : S → Prop) :
  (∀ s, P s → E s) → triple P (deref o) (λ a s, o = Some a ∧ P s) E.
Proof. intros HE s Hs. destruct o; cbn; [done | by apply HE]. Qed.

Lemma triple_deref_bind {A B} (o : option A) (f : A → EM S B) P Q (E : S → Prop) :
  (∀ s, P s → E s) → (∀ a, o = Some a → triple P (f a) Q E) → triple P (deref o ≫= f) Q E.
Proof. intros HE Hf s Hs. destruct o as [a|]; [by apply (Hf a) | by apply HE]. Qed.

Lemma triple_perform {A} push (answer : S → outcome A) (P : S → Prop) (Q : A → S → Prop) (E : S → Prop) :
  (∀ s a, P s → answer s = Returns a → Q a (push s)) → (∀ s v, P s → answer s = Panics v → E (push s)) →
  triple P (perform push answer) Q E.
Proof. intros HQ HE s Hs. unfold perform. destruct (answer s) eqn:Ha; [by apply HQ | by eapply HE]. Qed.

Lemma triple_attempt {A} P (m : EM S A) (Q : A → S → Prop) (E : S → Prop) :
  triple P m Q E → triple P (attempt m) (λ r s, match r with Ok a => Q a s | Err _ => E s end) E.
Proof. intros Hm s Hs. specialize (Hm s Hs). unfold attempt. by destruct (m s) as [[a|e|v|] s']. Qed.

Lemma triple_recover {A} P (m : EM S A) handler (Q : A → S → Prop) (E : S → Prop) :
  triple P m Q E → (∀ v, triple E (handler v) Q E) → triple P (recover m handler) Q E.
Proof.
  intros Hm Hh s Hs. specialize (Hm s Hs). unfold recover. destruct (m s) as [[a|e|v|] s']; try done.
  exact (Hh v s' Hm).
Qed.

Lemma triple_if {A} (b : bool) P (m1 m2 : EM S A) Q E :
  (b = true → triple P m1 Q E) → (b = false → triple P m2 Q E) → triple P (if b then m1 else m2) Q E.
Proof. destruct b; auto. Qed.

Lemma triple_pure {A} (X : Prop) P (m : EM S A) Q E :
  (X → triple P m Q E) → triple (λ s, X ∧ P s) m Q E.
Proof. intros Hm s [HX Hs]. by apply Hm. Qed.

Lemma triple_exists {A X} (P : X → S → Prop) (c : EM S A) Q E :
  (∀ x, triple (P x) c Q E) → triple (λ s, ∃ x, P x s) c Q E.
Proof. intros Hc s [x Hs]. by apply (Hc x). Qed.

(** An invariant: kept however the computation ends. *)
Definition invariant {A} (I : S → Prop) (m : EM S A) : Prop := triple I m (λ _, I) I.

Lemma invariant_bind {A B} I (m : EM S A) (f : A → EM S B) :
  invariant I m → (∀ a, invariant I (f a)) → invariant I (m ≫= f).
Proof. intros Hm Hf. by eapply triple_bind. Qed.

Lemma invariant_ret {A} I (a : A) : invariant I (mret a).
Proof. by intros s Hs. Qed.
Lemma invariant_fail {A} I e : invariant (A:=A) I (lm_fail e).
Proof. by intros s Hs. Qed.
Lemma invariant_exhausted {A} I : invariant (A:=A) I lm_exhausted.
Proof. by intros s Hs. Qed.
Lemma invariant_get I : invariant I lm_get.
Proof. by intros s Hs. Qed.
Lemma invariant_lift {A} I (r : result A) : invariant I (lm_lift r).
Proof. by destruct r; intros s Hs. Qed.
Lemma invariant_deref {A} I (o : option A) : invariant I (deref o).
Proof. by destruct o; intros s Hs. Qed.
Lemma invariant_deref_bind {A B} I (o : option A) (f : A → EM S B) :
  (∀ a, o = Some a → invariant I (f a)) → invariant I (deref o ≫= f).
Proof. destruct o as [a|]; intros Hf s Hs; [by apply (Hf a) | done]. Qed.
Lemma invariant_lift_bind {A B} I (r : result A) (f : A → EM S B) :
  (∀ a, r = Ok a → invariant I (f a)) → invariant I (lm_lift r ≫= f).
Proof. destruct r as [a|]; intros Hf s Hs; [by apply (Hf a) | done]. Qed.
Lemma invariant_modify (I : S → Prop) f : (∀ s, I s → I (f s)) → invariant I (lm_modify f).
Proof. intros HI s Hs. by apply HI. Qed.
Lemma invariant_perform {A} (I : S → Prop) push (answer : S → outcome A) :
  (∀ s, I s → I (push s)) → invariant I (perform push answer).
Proof. intros HI. apply triple_perform; intros s ? Hs _; by apply HI. Qed.
Lemma invariant_attempt {A} I (m : EM S A) : invariant I m → invariant I (attempt m).
Proof. intros Hm s Hs. specialize (Hm s Hs). unfold attempt. by destruct (m s) as [[a|e|v|] s']. Qed.
Lemma invariant_recover {A} I (m : EM S A) handler :
  invariant I m → (∀ v, invariant I (handler v)) → invariant I (recover m handler).
Proof. intros Hm Hh. by apply triple_recover. Qed.
Lemma invariant_run {A} I (m : EM S A) s r s' : invariant I m → I s → m s = (r, s') → I s'.
Proof. intros Hm Hs E. specialize (Hm s Hs). rewrite E in Hm. by destruct r. Qed.

(** The steps of a computation that returned a value. *)
Lemma bind_Done {A B} (m : EM S A) (f : A → EM S B) b s s' :
  (m ≫= f) s = (Done b, s') ↔ ∃ a s1, m s = (Done a, s1) ∧ f a s1 = (Done b, s').
Proof.
  unfold mbind, lm_bind. split.
  - destruct (m s) as [[a|e|v|] s1]; try done. intros H. by exists a, s1.
  - by intros (a & s1 & -> & H).
Qed.

Lemma lift_Done {A} (r : result A) a s s' : lm_lift r s = (Done a, s') ↔ r = Ok a ∧ s' = s.
Proof. destruct r; cbn; [unfold mret, lm_ret|unfold lm_fail]; naive_solver. Qed.

Lemma attempt_Done {A} (m : EM S A) r s s' :
  attempt m s = (Done r, s') ↔
  match r with Ok a => m s = (Done a, s') | Err e => m s = (Failed e, s') end.
Proof. unfold attempt. destruct (m s) as [[a|e|v|] s1], r; naive_solver. Qed.

(** [total P m Q F]: from a state with [P], [m] ends with a value and [Q], or with
    an error and [F]; it neither panics nor runs out of fuel. *)
Definition total {A} (P : S → Prop) (m : EM S A) (Q : A → S → Prop) (F : error → S → Prop) : Prop :=
  ∀ s, P s → match m s with (Done a, s') => Q a s' | (Failed e, s') => F e s' | _ => False end.

Lemma total_bind {A B} P (m : EM S A) Q (f : A → EM S B) R F :
  total P m Q F → (∀ a, total (Q a) (f a) R F) → total P (m ≫= f) R F.
Proof.
  intros Hm Hf s Hs. specialize (Hm s Hs). unfold mbind, lm_bind. destruct (m s) as [[a|e|v|] s']; try done.
  exact (Hf a s' Hm).
Qed.

Lemma total_conseq {A} (P P' : S → Prop) (m : EM S A) (Q Q' : A → S → Prop) (F F' : error → S → Prop) :
  total P' m Q' F' → (∀ s, P s → P' s) → (∀ a s, Q' a s → Q a s) → (∀ e s, F' e s → F e s) → total P m Q F.
Proof. intros Hm HP HQ HF s Hs. specialize (Hm s (HP s Hs)). destruct (m s) as [[a|e|v|] s']; auto. Qed.

Lemma total_pre {A} (P P' : S → Prop) (m : EM S A) Q F : total P' m Q F → (∀ s, P s → P' s) → total P m Q F.
Proof. intros Hm HP. by eapply total_conseq. Qed.

Lemma total_failure {A} P (m : EM S A) Q (F F' : error → S → Prop) :
  total P m Q F' → (∀ e s, F' e s → F e s) → total P m Q F.
Proof. intros Hm HF. by eapply total_conseq. Qed.

Lemma total_ret {A} (a : A) (P : S → Prop) (Q : A → S → Prop) F : (∀ s, P s → Q a s) → total P (mret a) Q F.
Proof. intros HP s Hs. by apply HP. Qed.
Lemma total_fail {A} e (P : S → Prop) (Q : A → S → Prop) F : (∀ s, P s → F e s) → total P (lm_fail e) Q F.
Proof. intros HP s Hs. by apply HP. Qed.
Lemma total_get (P : S → Prop) F : total P lm_get (λ a s, a = s ∧ P s) F.
Proof. by intros s Hs. Qed.
Lemma total_modify f (P : S → Prop) (Q : unit → S → Prop) F : (∀ s, P s → Q tt (f s)) → total P (lm_modify f) Q F.
Proof. intros HP s Hs. by apply HP. Qed.
Lemma total_lift {A} (r : result A) (P : S → Prop) (Q : A → S → Prop) F :
  (∀ a, r = Ok a → ∀ s, P s → Q a s) → (∀ e, r = Err e → ∀ s, P s → F e s) → total P (lm_lift r) Q F.
Proof. intros HQ HF s Hs. destruct r as [a|e]; [by apply (HQ a) | by apply (HF e)]. Qed.
Lemma total_attempt {A} P (m : EM S A) (Q : A → S → Prop) F G :
  total P m Q F → total P (attempt m) (λ r s, match r with Ok a => Q a s | Err e => F e s end) G.
Proof. intros Hm s Hs. specialize (Hm s Hs). unfold attempt. by destruct (m s) as [[a|e|v|] s']. Qed.
Lemma total_pure {A} (X : Prop) P (m : EM S A) Q F : (X → total P m Q F) → total (λ s, X ∧ P s) m Q F.
Proof. intros Hm s [HX Hs]. by apply Hm. Qed.

(** A look at the state. *)
Lemma total_get_bind {A} (P : S → Prop) (f : S → EM S A) Q F :
  (∀ s0, P s0 → total (λ s, s = s0) (f s0) Q F) → total P (lm_get ≫= f) Q F.
Proof. intros Hf s Hs. exact (Hf s Hs s eq_refl). Qed.

(** A computation that ends within its fuel. *)
Definition ends_from {A} (P : S → Prop) (m : EM S A) : Prop := ∀ s, P s → fst (m s) ≠ Exhausted.
Definition ends {A} (m : EM S A) : Prop := ∀ s, fst (m s) ≠ Exhausted.

Lemma ends_from_bind {A B} P (m : EM S A) Q E (f : A → EM S B) :
  triple P m Q E → ends_from P m → (∀ a, ends_from (Q a) (f a)) → ends_from P (m ≫= f).
Proof.
  intros Ht Hm Hf s Hs. specialize (Ht s Hs). specialize (Hm s Hs). unfold mbind, lm_bind.
  destruct (m s) as [[a|e|v|] s']; try done. by apply (Hf a).
Qed.

Lemma ends_bind {A B} (m : EM S A) (f : A → EM S B) : ends m → (∀ a, ends (f a)) → ends (m ≫= f).
Proof.
  intros Hm Hf s. specialize (Hm s). unfold mbind, lm_bind. destruct (m s) as [[a|e|v|] s']; try done. by apply (Hf a).
Qed.

Lemma ends_weaken {A} P (m : EM S A) : ends m → ends_from P m.
Proof. intros Hm s _. apply Hm. Qed.

Lemma ends_perform {A} push (answer : S → outcome A) : ends (perform push answer).
Proof. intros s. unfold perform. by destruct (answer s). Qed.

Lemma ends_lift {A} (r : result A) : ends (lm_lift r).
Proof. by destruct r; intros s. Qed.

Lemma ends_deref {A} (o : option A) : ends (deref o).
Proof. by destruct o; intros s. Qed.

Lemma ends_ret {A} (a : A) : ends (mret a).
Proof. by intros s. Qed.
Lemma ends_fail {A} e : ends (A:=A) (lm_fail e).
Proof. by intros s. Qed.
Lemma ends_get : ends lm_get.
Proof. by intros s. Qed.
Lemma ends_modify f : ends (lm_modify f).
Proof. by intros s. Qed.
Lemma ends_attempt {A} (m : EM S A) : ends m → ends (attempt m).
Proof. intros Hm s. specialize (Hm s). unfold attempt. by destruct (m s) as [[a|e|v|] s']. Qed.
Lemma ends_recover {A} (m : EM S A) handler : ends m → (∀ v, ends (handler v)) → ends (recover m handler).
Proof. intros Hm Hh s. specialize (Hm s). unfold recover. destruct (m s) as [[a|e|v|] s']; try done. apply Hh. Qed.

End computations.

(** Shows that a computation without loops ends. *)
Ltac ends_step :=
  match goal with
  | |- ends (_ ≫= _) => apply ends_bind; [|intros ?]
  | |- ends (mret _) => apply ends_ret
  | |- ends (lm_fail _) => apply ends_fail
  | |- ends lm_get => apply ends_get
  | |- ends (lm_lift _) => apply ends_lift
  | |- ends (deref _) => apply ends_deref
  | |- ends (lm_modify _) => apply ends_modify
  | |- ends (perform _ _) => apply ends_perform
  | |- ends (attempt _) => apply ends_attempt
  | |- ends (recover _ _) => apply ends_recover; [|intros ?]
  | |- ends (if ?b then _ else _) => destruct b
  | |- ends (match ?x with _ => _ end) => destruct x
  | |- ends (let '(_, _) := ?x in _) => destruct x
  end.
Ltac ends_steps := repeat ends_step.

(** Decomposes an invariant of a computation down to its modifications and calls. *)
Ltac invariant_step :=
  match goal with
  | |- invariant _ (_ ≫= _) => apply invariant_bind; [|intros ?]
  | |- invariant _ (mret _) => apply invariant_ret
  | |- invariant _ (lm_fail _) => apply invariant_fail
  | |- invariant _ lm_exhausted => apply invariant_exhausted
  | |- invariant _ lm_get => apply invariant_get
  | |- invariant _ (lm_lift _) => apply invariant_lift
  | |- invariant _ (deref _) => apply invariant_deref
  | |- invariant _ (attempt _) => apply invariant_attempt
  | |- invariant _ (recover _ _) => apply invariant_recover; [|intros ?]
  | |- invariant _ (lm_modify _) => apply invariant_modify
  | |- invariant _ (perform _ _) => apply invariant_perform
  | |- invariant _ (if ?b then _ else _) => destruct b eqn:?
  | |- invariant _ (match ?x with _ => _ end) => destruct x eqn:?
  | |- invariant _ (let '(_, _) := ?x in _) => destruct x eqn:?
  end.
Ltac invariant_steps := repeat invariant_step.
