(* ===== verification/GoNum.v ===== *)
(** * Go numbers and times

    Fixed width integers are [Z] with the wrap-around written out; [int] is
    64 bits wide.  [time.Duration] is an [int64] count of nanoseconds.  A
    [time.Time] is the number of nanoseconds since the zero time (January 1 of
    year 1, UTC), so the monotonic reading and the location are not kept. *)

From Stdlib Require Import ZArith Lia.
From S2P Require Import Prelude.

(* ------------------------------------------------------------------ *)
(** ** Machine integers *)

Definition int64_min : Z := - 2 ^ 63.
Definition int64_max : Z := 2 ^ 63 - 1.
Definition uint64_mod : Z := 2 ^ 64.

Definition is_int64 (z : Z) : Prop := int64_min <= z <= int64_max.
Definition is_uint64 (z : Z) : Prop := 0 <= z < uint64_mod.

(** Two's complement wrap-around of [int64] (and [int]) arithmetic. *)
Definition wrap64 (z : Z) : Z := (z + 2 ^ 63) mod 2 ^ 64 - 2 ^ 63.
(** The conversion [uint64(z)] of any integer. *)
Definition wrapu64 (z : Z) : Z := z mod 2 ^ 64.

Definition add64 (a b : Z) : Z := wrap64 (a + b).
Definition sub64 (a b : Z) : Z := wrap64 (a - b).
Definition mul64 (a b : Z) : Z := wrap64 (a * b).

(** Go's integer division truncates toward zero. *)
Definition quot64 (a b : Z) : Z := wrap64 (Z.quot a b).

(** [bits.Mul64]: the 128 bit product as (hi, lo). *)
Definition bits_Mul64 (x y : Z) : Z * Z := ((x * y) / 2 ^ 64, (x * y) mod 2 ^ 64).

(** [bits.Div64]: [None] is the run-time panic for a zero divisor or a
    quotient that does not fit ([y <= hi]). *)
Definition bits_Div64 (hi lo y : Z) : option (Z * Z) :=
  if (y =? 0) || (y <=? hi) then None
  else Some ((hi * 2 ^ 64 + lo) / y, (hi * 2 ^ 64 + lo) mod y).

(* ------------------------------------------------------------------ *)
(** ** Times *)

(** Nanoseconds from the zero time to the Unix epoch. *)
Definition unix_epoch : Z := 62135596800 * 10 ^ 9.

Definition Time_IsZero (t : Z) : bool := t =? 0.
Definition Time_After (t u : Z) : bool := u <? t.
Definition Time_Equal (t u : Z) : bool := t =? u.
Definition Time_Add (t d : Z) : Z := t + d.
(** [t.Sub(u)] saturates to the [Duration] range. *)
Definition Time_Sub (t u : Z) : Z := Z.max int64_min (Z.min int64_max (t - u)).
(** An [int64]: it wraps around for times outside its range. *)
Definition Time_UnixMilli (t : Z) : Z := wrap64 ((t - unix_epoch) / 10 ^ 6).
(** [t.UTC()] denotes the same instant. *)
Definition Time_UTC (t : Z) : Z := t.

(* ------------------------------------------------------------------ *)
(** ** Lemmas *)

Lemma wrap64_range z : is_int64 (wrap64 z).
Proof.
  unfold is_int64, wrap64, int64_min, int64_max.
  pose proof (Z.mod_pos_bound (z + 2 ^ 63) (2 ^ 64) eq_refl). lia.
Qed.

Lemma wrap64_id z : is_int64 z → wrap64 z = z.
Proof.
  unfold is_int64, wrap64, int64_min, int64_max. intros H.
  rewrite Z.mod_small; lia.
Qed.

Lemma wrapu64_range z : is_uint64 (wrapu64 z).
Proof. apply Z.mod_pos_bound. done. Qed.

Lemma wrapu64_id z : is_uint64 z → wrapu64 z = z.
Proof. apply Z.mod_small. Qed.

Lemma add64_exact a b : is_int64 (a + b) → add64 a b = a + b.
Proof. apply wrap64_id. Qed.

Lemma mul64_exact a b : is_int64 (a * b) → mul64 a b = a * b.
Proof. apply wrap64_id. Qed.

Lemma sub64_exact a b : is_int64 (a - b) → sub64 a b = a - b.
Proof. apply wrap64_id. Qed.

Lemma bits_Mul64_exact x y :
  let '(hi, lo) := bits_Mul64 x y in hi * 2 ^ 64 + lo = x * y.
Proof.
  cbn [bits_Mul64]. pose proof (Z.div_mod (x * y) (2 ^ 64)). lia.
Qed.

Lemma bits_Div64_Mul64 x y d :
  0 < d → 0 <= x * y → (x * y) / 2 ^ 64 < d →
  (let '(hi, lo) := bits_Mul64 x y in bits_Div64 hi lo d)
  = Some ((x * y) / d, (x * y) mod d).
Proof.
  intros Hd Hxy Hhi. unfold bits_Mul64, bits_Div64.
  destruct (Z.eqb_spec d 0); [lia|]. destruct (Z.leb_spec d ((x * y) / 2 ^ 64)); [lia|].
  cbn [orb]. do 2 f_equal; f_equal; pose proof (Z.div_mod (x * y) (2 ^ 64)); lia.
Qed.

Lemma Time_Sub_range t u : is_int64 (Time_Sub t u).
Proof. unfold is_int64, Time_Sub, int64_min, int64_max. lia. Qed.

Lemma Time_Sub_exact t u : is_int64 (t - u) → Time_Sub t u = t - u.
Proof. unfold is_int64, Time_Sub. lia. Qed.

Create HintDb go_num discriminated.
#[export] Hint Resolve wrap64_range wrapu64_range Time_Sub_range : go_num.

Ltac unfold_int64 := unfold is_int64, is_uint64, int64_min, int64_max, uint64_mod in *.

(** Remove the wrap-around of additions, subtractions and products that fit, innermost first. *)
Ltac no_op64 t :=
  lazymatch t with
  | context [ add64 _ _ ] => fail
  | context [ mul64 _ _ ] => fail
  | context [ sub64 _ _ ] => fail
  | _ => idtac
  end.
Ltac exact64 :=
  repeat match goal with
  | |- context [ mul64 ?a ?b ] => no_op64 a; no_op64 b; rewrite (mul64_exact a b) by (unfold_int64; lia)
  | |- context [ add64 ?a ?b ] => no_op64 a; no_op64 b; rewrite (add64_exact a b) by (unfold_int64; lia)
  | |- context [ sub64 ?a ?b ] => no_op64 a; no_op64 b; rewrite (sub64_exact a b) by (unfold_int64; lia)
  end.
