(* ===== verification/GoText.v ===== *)
(** * Go strings: the functions of packages strings and encoding/hex

    A Go string is a byte string.  White space is that of [unicode.IsSpace] on
    the UTF-8 encoding; raw bytes of arrays are [Z] between 0 and 255. *)

From Stdlib Require Import ZArith Lia Ascii String.
From S2P Require Import Prelude.

Definition byte_of (a : ascii) : Z := Z.of_N (N_of_ascii a).

(* ------------------------------------------------------------------ *)
(** ** strings.TrimSpace *)

(** The one byte spaces: \t \n \v \f \r and the blank. *)
Definition is_space1 (a : ascii) : bool :=
  let b := byte_of a in ((9 <=? b) && (b <=? 13)) || (b =? 32).

(** U+0085 and U+00A0. *)
Definition is_space2 (a b : ascii) : bool :=
  (byte_of a =? 0xC2) && ((byte_of b =? 0x85) || (byte_of b =? 0xA0)).

(** U+1680, U+2000 to U+200A, U+2028, U+2029, U+202F, U+205F and U+3000. *)
Definition is_space3 (a b c : ascii) : bool :=
  let x := byte_of a in let y := byte_of b in let z := byte_of c in
  ((x =? 0xE1) && (y =? 0x9A) && (z =? 0x80)) ||
  ((x =? 0xE2) && (y =? 0x80) &&
     (((0x80 <=? z) && (z <=? 0x8A)) || (z =? 0xA8) || (z =? 0xA9) || (z =? 0xAF))) ||
  ((x =? 0xE2) && (y =? 0x81) && (z =? 0x9F)) ||
  ((x =? 0xE3) && (y =? 0x80) && (z =? 0x80)).

(** Remove leading spaces; with [reversed] the bytes are read last to first. *)
Fixpoint trim_front (reversed : bool) (s : string) : string :=
  match s with
  | EmptyString => EmptyString
  | String a s1 =>
      if is_space1 a then trim_front reversed s1 else
      match s1 with
      | EmptyString => s
      | String b s2 =>
          if (if reversed then is_space2 b a else is_space2 a b)
          then trim_front reversed s2 else
          match s2 with
          | EmptyString => s
          | String c s3 =>
              if (if reversed then is_space3 c b a else is_space3 a b c)
              then trim_front reversed s3 else s
          end
      end
  end.

Fixpoint rev_onto (s acc : string) : string :=
  match s with
  | EmptyString => acc
  | String a s' => rev_onto s' (String a acc)
  end.
Definition rev_string (s : string) : string := rev_onto s "".

Definition strings_TrimSpace (s : string) : string :=
  rev_string (trim_front true (rev_string (trim_front false s))).

(** [strings.TrimSpace(s) == ""] *)
Definition blank (s : string) : bool := strings_TrimSpace s =s "".
(** [s == strings.TrimSpace(s)] *)
Definition trimmed (s : string) : bool := s =s strings_TrimSpace s.

(* ------------------------------------------------------------------ *)
(** ** Prefixes, suffixes, searching *)

Fixpoint strings_HasPrefix (s prefix : string) : bool :=
  match prefix, s with
  | EmptyString, _ => true
  | String p prefix', String a s' => Ascii.eqb p a && strings_HasPrefix s' prefix'
  | String _ _, EmptyString => false
  end.

Fixpoint drop_bytes (n : nat) (s : string) : string :=
  match n, s with
  | O, _ => s
  | S n', String _ s' => drop_bytes n' s'
  | S _, EmptyString => ""
  end.

Fixpoint take_bytes (n : nat) (s : string) : string :=
  match n, s with
  | S n', String a s' => String a (take_bytes n' s')
  | _, _ => ""
  end.

Definition strings_TrimPrefix (s prefix : string) : string :=
  if strings_HasPrefix s prefix then drop_bytes (String.length prefix) s else s.

Definition strings_HasSuffix (s suffix : string) : bool :=
  strings_HasPrefix (rev_string s) (rev_string suffix).

Definition strings_TrimSuffix (s suffix : string) : string :=
  if strings_HasSuffix s suffix
  then take_bytes (String.length s - String.length suffix) s else s.

Fixpoint contains_byte (a : ascii) (s : string) : bool :=
  match s with
  | EmptyString => false
  | String b s' => Ascii.eqb a b || contains_byte a s'
  end.

(** [strings.ContainsAny], for a set of ASCII characters. *)
Fixpoint strings_ContainsAny (s chars : string) : bool :=
  match s with
  | EmptyString => false
  | String a s' => contains_byte a chars || strings_ContainsAny s' chars
  end.

(** [strings.Cut] at a one byte separator: before, after, found. *)
Fixpoint strings_Cut (s : string) (sep : ascii) : string * string * bool :=
  match s with
  | EmptyString => ("", "", false)
  | String a s' =>
      if Ascii.eqb a sep then ("", s', true)
      else let '(before, after, found) := strings_Cut s' sep in
           (String a before, after, found)
  end.

(** [strings.ToLower] of an ASCII string. *)
Definition lower_ascii (a : ascii) : ascii :=
  let b := N_of_ascii a in
  if ((65 <=? b) && (b <=? 90))%N then ascii_of_N (b + 32) else a.
Fixpoint strings_ToLower (s : string) : string :=
  match s with
  | EmptyString => ""
  | String a s' => String (lower_ascii a) (strings_ToLower s')
  end.

Definition newline : string := String "010"%char "".
Definition carriage_return : string := String "013"%char "".
Definition nul : string := String "000"%char "".
Definition dquote : string := String "034"%char "".

(* ------------------------------------------------------------------ *)
(** ** encoding/hex *)

(** The value of a hexadecimal digit, of either case. *)
Definition hex_value (a : ascii) : option Z :=
  let b := byte_of a in
  if (48 <=? b) && (b <=? 57) then Some (b - 48)
  else if (97 <=? b) && (b <=? 102) then Some (b - 87)
  else if (65 <=? b) && (b <=? 70) then Some (b - 55)
  else None.

(** The lower case digit of a value below 16. *)
Definition hex_digit (v : Z) : ascii :=
  ascii_of_N (Z.to_N (if v <? 10 then 48 + v else 87 + v)).

(** [hex.DecodeString] and [hex.Decode]: [None] for an odd length or a byte
    that is no hexadecimal digit. *)
Fixpoint hex_Decode (s : string) : option (list Z) :=
  match s with
  | EmptyString => Some []
  | String _ EmptyString => None
  | String a (String b s') =>
      match hex_value a, hex_value b, hex_Decode s' with
      | Some x, Some y, Some rest => Some (16 * x + y :: rest)
      | _, _, _ => None
      end
  end.

Fixpoint hex_Encode (raw : list Z) : string :=
  match raw with
  | [] => ""
  | b :: raw' => String (hex_digit (b / 16)) (String (hex_digit (b mod 16)) (hex_Encode raw'))
  end.

Definition is_byte (b : Z) : Prop := 0 <= b < 256.

(* ------------------------------------------------------------------ *)
(** ** Lemmas on strings *)

Lemma append_nil_l (t : string) : "" +:+ t = t.
Proof. done. Qed.

Lemma append_cons a (s t : string) : String a s +:+ t = String a (s +:+ t).
Proof. done. Qed.

Ltac simpl_append := rewrite ?append_nil_l, ?append_cons in *.

Lemma length_append (s t : string) :
  String.length (s +:+ t) = (String.length s + String.length t)%nat.
Proof. induction s as [|a s IH]; [done|]. simpl_append. cbn. by rewrite IH. Qed.

Lemma append_nil_r (s : string) : s +:+ "" = s.
Proof. induction s as [|a s IH]; [done|]. simpl_append. cbn. by rewrite IH. Qed.

Lemma append_assoc (s t u : string) : (s +:+ t) +:+ u = s +:+ (t +:+ u).
Proof. induction s as [|a s IH]; [done|]. simpl_append. cbn. by rewrite IH. Qed.

Lemma length_take_bytes n (s : string) : String.length (take_bytes n s) = min n (String.length s).
Proof. revert s. induction n as [|n IH]; intros s; [done|]. destruct s; cbn; [done|]. by rewrite IH. Qed.

Lemma take_bytes_ge n (s : string) : (String.length s <= n)%nat → take_bytes n s = s.
Proof.
  revert s. induction n as [|n IH]; intros [|a s]; cbn; try done; [lia|]. intros Hn. by rewrite IH by lia.
Qed.

Lemma take_bytes_app n (s t : string) : take_bytes n (s +:+ t) = take_bytes n s +:+ take_bytes (n - String.length s) t.
Proof.
  revert s. induction n as [|n IH]; intros s; [done|]. destruct s as [|a s]; [done|]. cbn [take_bytes String.length Nat.sub].
  rewrite !append_cons. cbn [take_bytes]. by rewrite IH.
Qed.

Lemma take_take_bytes n m (s : string) : (n <= m)%nat → take_bytes n (take_bytes m s) = take_bytes n s.
Proof.
  revert m s. induction n as [|n IH]; intros [|m] s Hn; try done; [lia|]. destruct s as [|a s]; [done|].
  cbn. by rewrite IH by lia.
Qed.

Lemma concat_snoc sep l x :
  String.concat sep (l ++ [x]) = if decide (l = []) then x else String.concat sep l +:+ sep +:+ x.
Proof.
  induction l as [|y l IH]; [done|]. destruct l as [|z l]; [done|].
  change (String.concat sep ((y :: z :: l) ++ [x])) with (y +:+ sep +:+ String.concat sep ((z :: l) ++ [x])).
  rewrite IH. cbn [decide]. change (String.concat sep (y :: z :: l)) with (y +:+ sep +:+ String.concat sep (z :: l)).
  by rewrite !append_assoc.
Qed.

Lemma concat_nil_cons x l : String.concat "" (x :: l) = x +:+ String.concat "" l.
Proof. destruct l; cbn; [by rewrite append_nil_r | by rewrite append_nil_l]. Qed.

Lemma concat_nil_snoc l x : String.concat "" (l ++ [x]) = String.concat "" l +:+ x.
Proof. rewrite concat_snoc. by destruct (decide _) as [->|]. Qed.

Lemma append_inj (s1 s2 t1 t2 : string) :
  String.length s1 = String.length s2 → s1 +:+ t1 = s2 +:+ t2 → s1 = s2 ∧ t1 = t2.
Proof.
  revert s2. induction s1 as [|a s1 IH]; intros [|b s2] Hl; try discriminate; [done|].
  simpl_append. intros [= -> H]. injection Hl as Hl. destruct (IH s2 Hl H). split; congruence.
Qed.

Lemma append_inj_r (s1 s2 t1 t2 : string) :
  String.length t1 = String.length t2 → s1 +:+ t1 = s2 +:+ t2 → s1 = s2 ∧ t1 = t2.
Proof.
  intros Hl H. apply append_inj; [|done].
  apply (f_equal String.length) in H. rewrite !length_append in H. lia.
Qed.

Lemma rev_onto_app (s acc : string) : rev_onto s acc = rev_string s +:+ acc.
Proof.
  unfold rev_string. revert acc. induction s as [|a s IH]; intros acc; [done|].
  cbn [rev_onto]. rewrite IH, (IH (String a "")), append_assoc. done.
Qed.

Lemma rev_string_cons a (s : string) : rev_string (String a s) = rev_string s +:+ String a "".
Proof. unfold rev_string at 1. cbn. apply rev_onto_app. Qed.

Lemma rev_string_app (s t : string) : rev_string (s +:+ t) = rev_string t +:+ rev_string s.
Proof.
  induction s as [|a s IH]; [by rewrite append_nil_r|].
  simpl_append. by rewrite !rev_string_cons, IH, append_assoc.
Qed.

Lemma rev_string_involutive (s : string) : rev_string (rev_string s) = s.
Proof.
  induction s as [|a s IH]; [done|]. by rewrite rev_string_cons, rev_string_app, IH.
Qed.

Lemma rev_string_nil (s : string) : rev_string s = "" → s = "".
Proof. intros H. rewrite <-(rev_string_involutive s), H. done. Qed.

(** A printable ASCII byte is part of no encoding of a space. *)
Definition solid (a : ascii) : bool := (33 <=? byte_of a) && (byte_of a <=? 126).

Lemma solid_not_space a b c :
  solid a = true →
  is_space1 a = false ∧ is_space2 a b = false ∧ is_space2 b a = false ∧
  is_space3 a b c = false ∧ is_space3 b a c = false ∧ is_space3 b c a = false.
Proof.
  unfold solid, is_space1, is_space2, is_space3. intros H.
  apply andb_true_iff in H as [H1 H2]. apply Z.leb_le in H1, H2.
  assert (∀ n, n < 33 ∨ 126 < n → (byte_of a =? n) = false) as E.
  { intros n Hn. apply Z.eqb_neq. lia. }
  assert (byte_of a <=? 13 = false) by (apply Z.leb_gt; lia).
  assert (0x80 <=? byte_of a = false) by (apply Z.leb_gt; lia).
  rewrite !E by lia.
  split_and!; repeat (rewrite ?H, ?H0, ?andb_false_r, ?andb_false_l, ?orb_false_r); done.
Qed.

Lemma trim_front_solid r (s : string) a t :
  solid a = true → trim_front r (s +:+ String a t) ≠ "".
Proof.
  intros Ha. revert s.
  enough (∀ n s, (String.length s <= n)%nat → trim_front r (s +:+ String a t) ≠ "") by eauto.
  assert (trim_front r (String a t) = String a t) as E0.
  { cbn. pose proof (solid_not_space a) as Hs.
    rewrite (proj1 (Hs a a Ha)). destruct t as [|b t]; [done|].
    destruct (Hs b b Ha) as (_ & H2 & H2' & _).
    replace (if r then is_space2 b a else is_space2 a b) with false by (destruct r; done).
    destruct t as [|c t]; [done|]. destruct (Hs b c Ha) as (_ & _ & _ & H3 & _).
    destruct (Hs c b Ha) as (_ & _ & _ & _ & _ & H3').
    by replace (if r then is_space3 c b a else is_space3 a b c) with false by (destruct r; done). }
  induction n as [|n IH]; intros s Hl.
  { destruct s; [simpl_append; rewrite E0; done | cbn in Hl; lia]. }
  destruct s as [|b s]; [simpl_append; rewrite E0; done|].
  simpl_append. cbn [trim_front]. cbn in Hl.
  destruct (is_space1 b); [apply IH; lia|].
  pose proof (solid_not_space a b) as Hs.
  destruct s as [|c s]; simpl_append.
  { destruct (Hs b Ha) as (_ & H2 & H2' & _).
    replace (if r then is_space2 a b else is_space2 b a) with false by (destruct r; done).
    destruct t as [|d t]; [done|]. destruct (Hs d Ha) as (_ & _ & _ & _ & H3 & _).
    pose proof (solid_not_space a d b Ha) as (_ & _ & _ & _ & H3' & _).
    by replace (if r then is_space3 d a b else is_space3 b a d) with false by (destruct r; done). }
  cbn in Hl. destruct (if r then _ else _); [apply IH; lia|].
  destruct s as [|d s]; simpl_append.
  { destruct (Hs c Ha) as (_ & _ & _ & _ & _ & H3).
    pose proof (solid_not_space a c b Ha) as (_ & _ & _ & H3' & _).
    by replace (if r then is_space3 a c b else is_space3 b c a) with false by (destruct r; done). }
  cbn in Hl. destruct (if r then is_space3 d c b else _); [apply IH; lia | done].
Qed.

(** A text that starts with a printable ASCII character is not blank. *)
Lemma blank_solid a (t : string) : solid a = true → blank (String a t) = false.
Proof.
  intros Ha. apply seqb_false. unfold strings_TrimSpace. intros H. apply rev_string_nil in H.
  destruct (trim_front false (String a t)) as [|b u] eqn:E.
  { by eapply (trim_front_solid false ""). }
  assert (String b u = String a t) as Hbu.
  { revert E. cbn. pose proof (solid_not_space a) as Hs. rewrite (proj1 (Hs a a Ha)).
    destruct t as [|c t]; [done|]. destruct (Hs c c Ha) as (_ & -> & _).
    destruct t as [|d t]; [done|]. destruct (Hs c d Ha) as (_ & _ & _ & -> & _). done. }
  rewrite Hbu, rev_string_cons in H. by eapply trim_front_solid.
Qed.

Lemma blank_empty : blank "" = true.
Proof. reflexivity. Qed.

Lemma not_blank_nonempty (s : string) : blank s = false → s ≠ "".
Proof. by intros H ->. Qed.

(* ------------------------------------------------------------------ *)
(** ** Lemmas on hexadecimal *)

(** Reasoning on all bytes by enumeration. *)
Definition all_bytes : list Z := Z.of_nat <$> seq 0 256.

Lemma is_byte_in b : is_byte b → b ∈ all_bytes.
Proof.
  intros [H1 H2]. apply list_elem_of_fmap. exists (Z.to_nat b).
  rewrite Z2Nat.id by lia. split; [done|]. apply elem_of_seq. lia.
Qed.

Lemma for_all_bytes (P : Z → bool) : forallb P all_bytes = true → ∀ b, is_byte b → P b = true.
Proof.
  intros H b Hb. eapply forallb_forall in H; [done|]. by apply list_elem_of_In, is_byte_in.
Qed.

Definition option_eqb (x y : option Z) : bool :=
  match x, y with
  | Some a, Some b => a =? b
  | None, None => true
  | _, _ => false
  end.

Definition hex_digits_ok (b : Z) : bool :=
  option_eqb (hex_value (hex_digit (b / 16))) (Some (b / 16)) &&
  option_eqb (hex_value (hex_digit (b mod 16))) (Some (b mod 16)) &&
  Ascii.eqb (lower_ascii (hex_digit (b / 16))) (hex_digit (b / 16)) &&
  Ascii.eqb (lower_ascii (hex_digit (b mod 16))) (hex_digit (b mod 16)).

Lemma hex_digits_ok_all : forallb hex_digits_ok all_bytes = true.
Proof. vm_compute. reflexivity. Qed.

Lemma option_eqb_true x y : option_eqb x y = true → x = y.
Proof. destruct x, y; cbn; intros H; simpl_bool; congruence. Qed.

Lemma hex_digits_value b :
  is_byte b →
  hex_value (hex_digit (b / 16)) = Some (b / 16) ∧
  hex_value (hex_digit (b mod 16)) = Some (b mod 16) ∧
  lower_ascii (hex_digit (b / 16)) = hex_digit (b / 16) ∧
  lower_ascii (hex_digit (b mod 16)) = hex_digit (b mod 16).
Proof.
  intros Hb. pose proof (for_all_bytes _ hex_digits_ok_all b Hb) as H.
  unfold hex_digits_ok in H. rewrite !andb_true_iff, !Ascii.eqb_eq in H.
  destruct H as [[[H1 H2] H3] H4]. apply option_eqb_true in H1, H2. done.
Qed.

Lemma hex_Decode_Encode raw : Forall is_byte raw → hex_Decode (hex_Encode raw) = Some raw.
Proof.
  induction 1 as [|b raw Hb _ IH]; [done|]. cbn [hex_Encode hex_Decode].
  destruct (hex_digits_value b Hb) as (-> & -> & _). rewrite IH.
  do 2 f_equal. pose proof (Z.div_mod b 16). lia.
Qed.

Lemma hex_Encode_lower raw : Forall is_byte raw → strings_ToLower (hex_Encode raw) = hex_Encode raw.
Proof.
  induction 1 as [|b raw Hb _ IH]; [done|]. cbn [hex_Encode strings_ToLower].
  destruct (hex_digits_value b Hb) as (_ & _ & -> & ->). by rewrite IH.
Qed.

Lemma length_hex_Encode raw : String.length (hex_Encode raw) = (2 * length raw)%nat.
Proof. induction raw as [|b raw IH]; [done|]. cbn [hex_Encode String.length length]. rewrite IH. lia. Qed.

Lemma hex_value_range a v : hex_value a = Some v → 0 <= v < 16.
Proof.
  unfold hex_value. intros H. repeat case_in H; simplify_eq; simpl_bool; lia.
Qed.

Lemma hex_Decode_byte (s : string) raw : hex_Decode s = Some raw → Forall is_byte raw.
Proof.
  revert raw.
  enough (∀ n (s : string) raw, (String.length s <= n)%nat →
          hex_Decode s = Some raw → Forall is_byte raw) by eauto.
  induction n as [|n IH]; intros [|a [|b t]] raw Hl H; cbn in *; try lia; simplify_eq; try constructor.
  repeat case_in H; simplify_eq. constructor; [|eapply IH; [|done]; lia].
  repeat match goal with E : hex_value _ = Some _ |- _ => apply hex_value_range in E end.
  unfold is_byte. lia.
Qed.

Lemma hex_Encode_app l1 l2 : hex_Encode (l1 ++ l2) = hex_Encode l1 +:+ hex_Encode l2.
Proof. induction l1 as [|b l1 IH]; [done|]. simpl_append. cbn. by rewrite IH. Qed.

#[export] Hint Resolve blank_solid hex_Decode_Encode hex_Encode_lower : go_ok.
