(* ===== verification/GoJson.v ===== *)
(** * encoding/json: [json.Valid]

    The checking scanner of Go's encoding/json as the state machine it is: one
    step function per byte, a stack of what is being parsed, at most 10000
    levels deep. *)

From Stdlib Require Import ZArith Lia Ascii String.
From S2P Require Import Prelude GoText.

Inductive parse_state : Type := parseObjectKey | parseObjectValue | parseArrayValue.

Inductive scan_state : Type :=
| stateBeginValue | stateBeginValueOrEmpty | stateBeginString | stateBeginStringOrEmpty
| stateEndValue | stateEndTop
| stateInString | stateInStringEsc | stateInStringEscU (more : nat)
| stateNeg | state1 | state0 | stateDot | stateDot0 | stateE | stateESign | stateE0
| stateLiteral (rest : string).

Definition maxNestingDepth : nat := Z.to_nat 10000.

(** The scanner between two bytes: next step, parse stack (top first). *)
Record scanner : Type := Scanner { step : scan_state; parseState : list parse_state }.

(** [None] is [scanError]. *)
Definition goto (st : scan_state) (ps : list parse_state) : option scanner :=
  Some {| step := st; parseState := ps |}.

Definition isSpace (c : ascii) : bool :=
  Ascii.eqb c " " || Ascii.eqb c "009" || Ascii.eqb c "013" || Ascii.eqb c "010".
Definition is_digit (c : ascii) : bool := (48 <=? byte_of c) && (byte_of c <=? 57).
Definition is_digit19 (c : ascii) : bool := (49 <=? byte_of c) && (byte_of c <=? 57).
Definition is_exp (c : ascii) : bool := Ascii.eqb c "e" || Ascii.eqb c "E".
Definition quote_char : ascii := "034".
Definition backslash_char : ascii := "092".

Definition pushParseState (p : parse_state) (st : scan_state) (ps : list parse_state) : option scanner :=
  if decide (S (length ps) <= maxNestingDepth)%nat then goto st (p :: ps) else None.

Definition popParseState (ps : list parse_state) : option scanner :=
  match ps with
  | [] | [_] => goto stateEndTop []
  | _ :: ps' => goto stateEndValue ps'
  end.

Definition step_EndValue (ps : list parse_state) (c : ascii) : option scanner :=
  match ps with
  | [] => if isSpace c then goto stateEndTop [] else None
  | p :: ps' =>
      if isSpace c then goto stateEndValue ps else
      match p with
      | parseObjectKey =>
          if Ascii.eqb c ":" then goto stateBeginValue (parseObjectValue :: ps') else None
      | parseObjectValue =>
          if Ascii.eqb c "," then goto stateBeginString (parseObjectKey :: ps')
          else if Ascii.eqb c "}" then popParseState ps else None
      | parseArrayValue =>
          if Ascii.eqb c "," then goto stateBeginValue ps
          else if Ascii.eqb c "]" then popParseState ps else None
      end
  end.

Definition step_BeginValue (ps : list parse_state) (c : ascii) : option scanner :=
  if isSpace c then goto stateBeginValue ps
  else if Ascii.eqb c "{" then pushParseState parseObjectKey stateBeginStringOrEmpty ps
  else if Ascii.eqb c "[" then pushParseState parseArrayValue stateBeginValueOrEmpty ps
  else if Ascii.eqb c quote_char then goto stateInString ps
  else if Ascii.eqb c "-" then goto stateNeg ps
  else if Ascii.eqb c "0" then goto state0 ps
  else if Ascii.eqb c "t" then goto (stateLiteral "rue") ps
  else if Ascii.eqb c "f" then goto (stateLiteral "alse") ps
  else if Ascii.eqb c "n" then goto (stateLiteral "ull") ps
  else if is_digit19 c then goto state1 ps
  else None.

Definition step_BeginString (ps : list parse_state) (c : ascii) : option scanner :=
  if isSpace c then goto stateBeginString ps
  else if Ascii.eqb c quote_char then goto stateInString ps else None.

Definition step_0 (ps : list parse_state) (c : ascii) : option scanner :=
  if Ascii.eqb c "." then goto stateDot ps
  else if is_exp c then goto stateE ps
  else step_EndValue ps c.

Definition step_ESign (ps : list parse_state) (c : ascii) : option scanner :=
  if is_digit c then goto stateE0 ps else None.

Definition scan_step (s : scanner) (c : ascii) : option scanner :=
  let ps := parseState s in
  match step s with
  | stateBeginValue => step_BeginValue ps c
  | stateBeginValueOrEmpty =>
      if isSpace c then goto stateBeginValueOrEmpty ps
      else if Ascii.eqb c "]" then step_EndValue ps c
      else step_BeginValue ps c
  | stateBeginString => step_BeginString ps c
  | stateBeginStringOrEmpty =>
      if isSpace c then goto stateBeginStringOrEmpty ps
      else if Ascii.eqb c "}" then step_EndValue (parseObjectValue :: tail ps) c
      else step_BeginString ps c
  | stateEndValue => step_EndValue ps c
  | stateEndTop => if isSpace c then goto stateEndTop ps else None
  | stateInString =>
      if Ascii.eqb c quote_char then goto stateEndValue ps
      else if Ascii.eqb c backslash_char then goto stateInStringEsc ps
      else if byte_of c <? 32 then None else goto stateInString ps
  | stateInStringEsc =>
      if existsb (Ascii.eqb c) ["b"; "f"; "n"; "r"; "t"; backslash_char; "/"; quote_char]%char
      then goto stateInString ps
      else if Ascii.eqb c "u" then goto (stateInStringEscU 3) ps else None
  | stateInStringEscU more =>
      match hex_value c, more with
      | Some _, O => goto stateInString ps
      | Some _, S more1 => goto (stateInStringEscU more1) ps
      | None, _ => None
      end
  | stateNeg =>
      if Ascii.eqb c "0" then goto state0 ps
      else if is_digit19 c then goto state1 ps else None
  | state1 => if is_digit c then goto state1 ps else step_0 ps c
  | state0 => step_0 ps c
  | stateDot => if is_digit c then goto stateDot0 ps else None
  | stateDot0 =>
      if is_digit c then goto stateDot0 ps
      else if is_exp c then goto stateE ps else step_EndValue ps c
  | stateE =>
      if Ascii.eqb c "+" || Ascii.eqb c "-" then goto stateESign ps else step_ESign ps c
  | stateESign => step_ESign ps c
  | stateE0 => if is_digit c then goto stateE0 ps else step_EndValue ps c
  | stateLiteral rest =>
      match rest with
      | EmptyString => None
      | String a EmptyString => if Ascii.eqb c a then goto stateEndValue ps else None
      | String a rest' => if Ascii.eqb c a then goto (stateLiteral rest') ps else None
      end
  end.

Fixpoint scan (s : scanner) (data : string) : option scanner :=
  match data with
  | EmptyString => Some s
  | String c data' => match scan_step s c with Some s' => scan s' data' | None => None end
  end.

(** [scanner.eof]: a blank completes a number at top level. *)
Definition scan_eof (s : scanner) : bool :=
  match step s with
  | stateEndTop => true
  | _ => match scan_step s " " with
         | Some s' => match step s' with stateEndTop => true | _ => false end
         | None => false
         end
  end.

Definition json_Valid (data : bytes) : bool :=
  match scan {| step := stateBeginValue; parseState := [] |} data with
  | Some s => scan_eof s
  | None => false
  end.

(* ------------------------------------------------------------------ *)
(** ** Lemmas *)

Lemma scan_append s data1 data2 :
  scan s (data1 +:+ data2) = match scan s data1 with Some s' => scan s' data2 | None => None end.
Proof.
  revert s. induction data1 as [|c data1 IH]; intros s; [done|].
  simpl_append. cbn [scan]. destruct (scan_step s c); [apply IH | done].
Qed.

(** Every reachable parse stack respects the depth limit. *)
Lemma scan_step_depth s c s' :
  scan_step s c = Some s' → (length (parseState s) <= maxNestingDepth)%nat →
  (length (parseState s') <= maxNestingDepth)%nat.
Proof.
  assert (1 <= maxNestingDepth)%nat as H1 by (unfold maxNestingDepth; lia). revert H1.
  generalize (eq_refl maxNestingDepth). generalize maxNestingDepth at 2 3 4 5 as d.
  intros d Hd H1 H Hl. revert H. destruct s as [st ps]. cbn [step parseState] in *.
  unfold scan_step, step_BeginValue, step_BeginString, step_ESign, step_0, step_EndValue,
    pushParseState, popParseState, goto. cbn [step parseState] in *. rewrite Hd.
  intros H. repeat case_in H; simplify_eq; cbn [parseState length tail] in *; try lia.
  all: destruct ps; cbn in *; simplify_eq; cbn in *; lia.
Qed.

Lemma json_Valid_empty : json_Valid "" = false.
Proof. reflexivity. Qed.

Lemma json_Valid_nonempty data : json_Valid data = true → data ≠ "".
Proof. by intros H ->. Qed.
