(* ===== verification/GoJsonText.v ===== *)
(** * encoding/json: the text [json.Marshal] makes of strings

    [json.Marshal] with HTML escaping, on strings and on the one object the
    program builds in place; invalid UTF-8 becomes the replacement escape. *)

From Stdlib Require Import ZArith Lia Ascii String.
From S2P Require Import Prelude GoText GoJson.

(** [htmlSafeSet], for bytes below [utf8.RuneSelf]. *)
Definition html_safe (a : ascii) : bool :=
  (32 <=? byte_of a) && negb (existsb (Ascii.eqb a) [quote_char; backslash_char; "<"; ">"; "&"]%char).

Definition escape (a : ascii) : string := String backslash_char (String a "").

(** [`\u00` + hex + hex] *)
Definition escape_u (a b c d : ascii) : string :=
  escape "u" +:+ String a (String b (String c (String d ""))).

Definition escape_ascii (a : ascii) : string :=
  if html_safe a then String a ""
  else if Ascii.eqb a quote_char || Ascii.eqb a backslash_char then escape a
  else if Ascii.eqb a "008" then escape "b"
  else if Ascii.eqb a "012" then escape "f"
  else if Ascii.eqb a "010" then escape "n"
  else if Ascii.eqb a "013" then escape "r"
  else if Ascii.eqb a "009" then escape "t"
  else escape_u "0" "0" (hex_digit (byte_of a / 16)) (hex_digit (byte_of a mod 16)).

(** What follows a lead byte in UTF-8: the number of continuation bytes and the
    range of the first of them. *)
Definition utf8_rest (lead : Z) : option (nat * (Z * Z)) :=
  if (0xc2 <=? lead) && (lead <=? 0xdf) then Some (1%nat, (0x80, 0xbf))
  else if lead =? 0xe0 then Some (2%nat, (0xa0, 0xbf))
  else if lead =? 0xed then Some (2%nat, (0x80, 0x9f))
  else if (0xe1 <=? lead) && (lead <=? 0xef) then Some (2%nat, (0x80, 0xbf))
  else if lead =? 0xf0 then Some (3%nat, (0x90, 0xbf))
  else if (0xf1 <=? lead) && (lead <=? 0xf3) then Some (3%nat, (0x80, 0xbf))
  else if lead =? 0xf4 then Some (3%nat, (0x80, 0x8f))
  else None.

Fixpoint continuation (n : nat) (range : Z * Z) (s : string) : bool :=
  match n, s with
  | O, _ => true
  | S n', String b s' => (range.1 <=? byte_of b) && (byte_of b <=? range.2) && continuation n' (0x80, 0xbf) s'
  | S _, EmptyString => false
  end.

(** [utf8.DecodeRuneInString] at a lead byte: the continuation bytes of the
    rune, [None] for the error rune. *)
Definition rune_rest (lead : ascii) (s : string) : option nat :=
  match utf8_rest (byte_of lead) with
  | Some (n, range) => if continuation n range s then Some n else None
  | None => None
  end.

(** U+2028 and U+2029 are escaped: their last digit. *)
Definition line_separator (lead : ascii) (s : string) : option ascii :=
  match s with
  | String b (String c _) =>
      if (byte_of lead =? 0xe2) && (byte_of b =? 0x80) then
        if byte_of c =? 0xa8 then Some "8"%char else if byte_of c =? 0xa9 then Some "9"%char else None
      else None
  | _ => None
  end.

(** The loop of [appendString], with the number of bytes of the current rune
    that are still to be copied, or dropped. *)
Fixpoint string_body (skip : nat) (keep : bool) (s : string) : string :=
  match s with
  | EmptyString => ""
  | String a s' =>
      match skip with
      | S n => if keep then String a (string_body n keep s') else string_body n keep s'
      | O =>
          if byte_of a <? 0x80 then escape_ascii a +:+ string_body 0 true s'
          else match rune_rest a s' with
               | None => escape_u "f" "f" "f" "d" +:+ string_body 0 true s'
               | Some n => match line_separator a s' with
                           | Some digit => escape_u "2" "0" "2" digit +:+ string_body n false s'
                           | None => String a (string_body n true s')
                           end
               end
      end
  end.

Definition json_quote (s : string) : string := dquote +:+ string_body 0 true s +:+ dquote.

(** [json.Marshal(map[string]any{"error": map[string]string{"code": code,
    "message": message}})]: the keys of a map are sorted. *)
Definition error_payload (code message : string) : bytes :=
  "{" +:+ json_quote "error" +:+ ":{" +:+ json_quote "code" +:+ ":" +:+ json_quote code +:+ "," +:+
  json_quote "message" +:+ ":" +:+ json_quote message +:+ "}}".

(* ------------------------------------------------------------------ *)
(** ** The text is valid JSON *)

Definition in_string (ps : list parse_state) : scanner := {| step := stateInString; parseState := ps |}.

(** Bytes that end neither a string nor start an escape. *)
Lemma scan_plain ps a s :
  32 <= byte_of a → Ascii.eqb a quote_char = false → Ascii.eqb a backslash_char = false →
  scan (in_string ps) (String a s) = scan (in_string ps) s.
Proof.
  intros H1 H2 H3. unfold in_string. cbn [scan scan_step step parseState]. rewrite H2, H3.
  destruct (Z.ltb_spec (byte_of a) 32); [lia | done].
Qed.

Lemma byte_of_range a : 0 <= byte_of a < 256.
Proof.
  unfold byte_of. pose proof (N_ascii_bounded a) as H. apply N2Z.inj_lt in H.
  change (Z.of_N 256) with 256 in H. lia.
Qed.

Lemma scan_high ps a s : 128 <= byte_of a → scan (in_string ps) (String a s) = scan (in_string ps) s.
Proof.
  intros H. apply scan_plain; [lia | |];
    (destruct (Ascii.eqb_spec a quote_char) as [->|]; [vm_compute in H; congruence|];
     destruct (Ascii.eqb_spec a backslash_char) as [->|]; [vm_compute in H; congruence|]; done).
Qed.

(** Every byte below 128 becomes a text that stays inside the string. *)
Lemma scan_escape_ascii ps a : byte_of a < 128 → scan (in_string ps) (escape_ascii a) = Some (in_string ps).
Proof.
  destruct a as [[] [] [] [] [] [] [] []]; intros H; first [vm_compute in H; congruence | vm_compute; reflexivity].
Qed.

Lemma scan_string_body ps skip keep s :
  (∃ range, keep = true → continuation skip range s = true ∧ 128 <= range.1) →
  scan (in_string ps) (string_body skip keep s) = Some (in_string ps).
Proof.
  revert skip keep. induction s as [|a s IH]; intros skip keep Hc; [by destruct skip|].
  destruct skip as [|n]; cbn [string_body].
  - assert (∃ range : Z * Z, true = true → continuation 0 range s = true ∧ 128 <= range.1) as H0
      by (by exists (128, 0); destruct s).
    destruct (Z.ltb_spec (byte_of a) 0x80).
    { rewrite scan_append, scan_escape_ascii by lia. by apply IH. }
    unfold rune_rest. destruct (utf8_rest (byte_of a)) as [[n range]|] eqn:Hr.
    2: { rewrite scan_append. by apply IH. }
    destruct (continuation n range s) eqn:Hn; [|rewrite scan_append; by apply IH].
    destruct (line_separator a s) as [digit|] eqn:Hl.
    + rewrite scan_append. assert (scan (in_string ps) (escape_u "2" "0" "2" digit) = Some (in_string ps)) as ->.
      { unfold line_separator in Hl. repeat case_in Hl; simplify_eq; reflexivity. }
      apply IH. by exists (0, 0).
    + rewrite scan_high by lia. apply IH. exists range. intros _. split; [done|].
      unfold utf8_rest in Hr. repeat case_in Hr; simplify_eq; cbn; lia.
  - destruct keep; [|apply IH; by exists (0, 0)].
    destruct Hc as [range [Hc Hr]]; [done|]. cbn [continuation] in Hc.
    rewrite !andb_true_iff, Z.leb_le in Hc. destruct Hc as [[Hlo _] Hc].
    rewrite scan_high by lia. apply IH. exists (0x80, 0xbf). intros _. by split.
Qed.

(** A quoted string is read from where a value or a key may begin. *)
Lemma scan_quote st ps s :
  st = stateBeginValue ∨ st = stateBeginString ∨ st = stateBeginStringOrEmpty →
  scan {| step := st; parseState := ps |} (json_quote s) = Some {| step := stateEndValue; parseState := ps |}.
Proof.
  intros Hst. unfold json_quote. rewrite scan_append.
  assert (scan {| step := st; parseState := ps |} dquote = Some (in_string ps)) as ->
    by (destruct Hst as [->|[->| ->]]; reflexivity).
  rewrite scan_append, scan_string_body; [reflexivity|]. exists (128, 0). by destruct s.
Qed.

Lemma scan_quote_append st ps s t :
  st = stateBeginValue ∨ st = stateBeginString ∨ st = stateBeginStringOrEmpty →
  scan {| step := st; parseState := ps |} (json_quote s +:+ t) = scan {| step := stateEndValue; parseState := ps |} t.
Proof. intros Hst. by rewrite scan_append, scan_quote. Qed.

Lemma error_payload_valid code message : json_Valid (error_payload code message) = true.
Proof.
  unfold json_Valid, error_payload.
  rewrite (scan_append _ "{"). cbn [scan scan_step step parseState].
  change (step_BeginValue [] "{") with (goto stateBeginStringOrEmpty [parseObjectKey]). cbn [goto].
  rewrite scan_quote_append by auto. rewrite (scan_append _ ":{").
  change (scan {| step := stateEndValue; parseState := [parseObjectKey] |} ":{")
    with (goto stateBeginStringOrEmpty [parseObjectKey; parseObjectValue]). cbn [goto].
  rewrite scan_quote_append by auto. rewrite (scan_append _ ":").
  change (scan {| step := stateEndValue; parseState := [parseObjectKey; parseObjectValue] |} ":")
    with (goto stateBeginValue [parseObjectValue; parseObjectValue]). cbn [goto].
  rewrite scan_quote_append by auto. rewrite (scan_append _ ",").
  change (scan {| step := stateEndValue; parseState := [parseObjectValue; parseObjectValue] |} ",")
    with (goto stateBeginString [parseObjectKey; parseObjectValue]). cbn [goto].
  rewrite scan_quote_append by auto. rewrite (scan_append _ ":").
  change (scan {| step := stateEndValue; parseState := [parseObjectKey; parseObjectValue] |} ":")
    with (goto stateBeginValue [parseObjectValue; parseObjectValue]). cbn [goto].
  rewrite scan_quote_append by auto. reflexivity.
Qed.
