(* ===== verification/GoHash.v ===== *)
(** * crypto/sha256: [sha256.Sum256] and its hexadecimal text

    SHA-256 of FIPS 180-4 on 32 bit words, executable. *)

From Stdlib Require Import ZArith Lia Ascii String.
From S2P Require Import Prelude GoText.

Definition w32 (x : Z) : Z := Z.land x 0xffffffff.
Definition rotr (n x : Z) : Z := Z.lor (Z.shiftr x n) (w32 (Z.shiftl x (32 - n))).
Definition ch (x y z : Z) : Z := Z.lxor (Z.land x y) (Z.land (Z.lxor x 0xffffffff) z).
Definition maj (x y z : Z) : Z := Z.lxor (Z.lxor (Z.land x y) (Z.land x z)) (Z.land y z).
Definition bsig0 (x : Z) : Z := Z.lxor (Z.lxor (rotr 2 x) (rotr 13 x)) (rotr 22 x).
Definition bsig1 (x : Z) : Z := Z.lxor (Z.lxor (rotr 6 x) (rotr 11 x)) (rotr 25 x).
Definition ssig0 (x : Z) : Z := Z.lxor (Z.lxor (rotr 7 x) (rotr 18 x)) (Z.shiftr x 3).
Definition ssig1 (x : Z) : Z := Z.lxor (Z.lxor (rotr 17 x) (rotr 19 x)) (Z.shiftr x 10).

(** The constants, as the standard defines them: the first 32 bits of the
    fractional parts of the cube roots of the first 64 primes, and of the
    square roots of the first 8.  [root k n] is the integer k-th root of [n],
    found bit by bit from [2 ^ bits]. *)
Fixpoint root (k : Z) (bits : nat) (n acc : Z) : Z :=
  match bits with
  | O => acc
  | S bits' =>
      let candidate := acc + 2 ^ Z.of_nat bits' in
      root k bits' n (if candidate ^ k <=? n then candidate else acc)
  end.

Definition prime (n : nat) : bool :=
  forallb (fun d => negb (n mod d =? 0)%nat) (seq 2 (n - 2)).

Definition primes : list Z := Z.of_nat <$> List.filter prime (seq 2 310).

Definition sha_k : list Z := Eval vm_compute in (fun p => w32 (root 3 36 (p * 2 ^ 96) 0)) <$> primes.

Definition sha_init : list Z := Eval vm_compute in (fun p => w32 (root 2 38 (p * 2 ^ 64) 0)) <$> take 8 primes.

(** The big endian bytes of a word. *)
Fixpoint be_bytes (n : nat) (v : Z) : list Z :=
  match n with
  | O => []
  | S n' => be_bytes n' (v / 256) ++ [v mod 256]
  end.

Definition be_word (bs : list Z) : Z := fold_left (fun acc b => 256 * acc + b) bs 0.

(** The message schedule, newest word first. *)
Fixpoint schedule (n : nat) (ws : list Z) : list Z :=
  match n with
  | O => ws
  | S n' =>
      let w i := nth i ws 0 in
      schedule n' (w32 (ssig1 (w 1%nat) + w 6%nat + ssig0 (w 14%nat) + w 15%nat) :: ws)
  end.

Definition sha_round (h : list Z) (kw : Z * Z) : list Z :=
  match h with
  | [a; b; c; d; e; f; g; hh] =>
      let t1 := hh + bsig1 e + ch e f g + kw.1 + kw.2 in
      let t2 := bsig0 a + maj a b c in
      [w32 (t1 + t2); a; b; c; w32 (d + t1); e; f; g]
  | _ => h
  end.

Fixpoint words_of (n : nat) (bs : list Z) : list Z :=
  match n with
  | O => []
  | S n' => be_word (take 4 bs) :: words_of n' (drop 4 bs)
  end.

Definition sha_block (h block : list Z) : list Z :=
  let ws := rev (schedule 48 (rev (words_of 16 block))) in
  zip_with (fun x y => w32 (x + y)) h (fold_left sha_round (combine sha_k ws) h).

Fixpoint sha_blocks (n : nat) (h bs : list Z) : list Z :=
  match n with
  | O => h
  | S n' => sha_blocks n' (sha_block h (take 64 bs)) (drop 64 bs)
  end.

Fixpoint bytes_of_string (s : string) : list Z :=
  match s with
  | EmptyString => []
  | String a s' => byte_of a :: bytes_of_string s'
  end.

Definition sha_pad (msg : list Z) : list Z :=
  let l := Z.of_nat (length msg) in
  msg ++ [0x80] ++ repeat 0 (Z.to_nat ((55 - l) mod 64)) ++ be_bytes 8 (8 * l).

Definition sha256_Sum256 (data : bytes) : list Z :=
  let m := sha_pad (bytes_of_string data) in
  concat (map (be_bytes 4) (sha_blocks (length m / 64)%nat sha_init m)).

(** [hex.EncodeToString(sha256.Sum256(data)[:])] *)
Definition sha256_hex (data : bytes) : string := hex_Encode (sha256_Sum256 data).

Lemma sha256_abc :
  sha256_hex "abc" = "ba7816bf8f01cfea414140de5dae2223b00361a396177a9cb410ff61f20015ad".
Proof. vm_compute. reflexivity. Qed.

Lemma sha256_empty :
  sha256_hex "" = "e3b0c44298fc1c149afbf4c8996fb92427ae41e4649b934ca495991b7852b855".
Proof. vm_compute. reflexivity. Qed.

(* ------------------------------------------------------------------ *)
(** ** The digest is 32 bytes *)

Lemma be_bytes_is_byte n v : Forall is_byte (be_bytes n v).
Proof.
  revert v. induction n as [|n IH]; intros v; cbn; [constructor|].
  rewrite Forall_app, Forall_singleton. split; [apply IH|].
  unfold is_byte. pose proof (Z.mod_pos_bound v 256). lia.
Qed.

Lemma length_be_bytes n v : length (be_bytes n v) = n.
Proof. revert v. induction n as [|n IH]; intros v; cbn; [done|]. rewrite length_app, IH. cbn. lia. Qed.

Lemma length_sha_round h kw : length h = 8%nat → length (sha_round h kw) = 8%nat.
Proof. by destruct h as [|? [|? [|? [|? [|? [|? [|? [|? [|? ?]]]]]]]]]. Qed.

Lemma length_sha_rounds l h : length h = 8%nat → length (fold_left sha_round l h) = 8%nat.
Proof. revert h. induction l as [|kw l IH]; intros h H; [done|]. cbn. by apply IH, length_sha_round. Qed.

Lemma length_sha_blocks n h bs : length h = 8%nat → length (sha_blocks n h bs) = 8%nat.
Proof.
  revert h bs. induction n as [|n IH]; intros h bs H; [done|]. cbn. apply IH. unfold sha_block.
  rewrite length_zip_with, length_sha_rounds by done. lia.
Qed.

Lemma length_concat_be4 l : length (concat (map (be_bytes 4) l)) = (4 * length l)%nat.
Proof. induction l as [|x l IH]; [done|]. cbn [map concat]. rewrite length_app, length_be_bytes, IH. cbn. lia. Qed.

Lemma length_sha256_hex data : String.length (sha256_hex data) = 64%nat.
Proof.
  unfold sha256_hex, sha256_Sum256. rewrite length_hex_Encode, length_concat_be4.
  by rewrite length_sha_blocks.
Qed.

Lemma sha256_bytes data : Forall is_byte (sha256_Sum256 data).
Proof.
  unfold sha256_Sum256. generalize (sha_blocks (length (sha_pad (bytes_of_string data)) / 64)%nat
    sha_init (sha_pad (bytes_of_string data))) as l.
  induction l as [|x l IH]; cbn [map concat]; [constructor|].
  apply Forall_app. split; [apply be_bytes_is_byte | done].
Qed.

Lemma hex_Decode_sha256 data : hex_Decode (sha256_hex data) = Some (sha256_Sum256 data).
Proof. apply hex_Decode_Encode, sha256_bytes. Qed.

Lemma sha256_hex_lower data : strings_ToLower (sha256_hex data) = sha256_hex data.
Proof. apply hex_Encode_lower, sha256_bytes. Qed.

(** The proofs use the digest only through these lemmas. *)
#[global] Opaque sha256_Sum256.

#[export] Hint Resolve hex_Decode_sha256 sha256_hex_lower length_sha256_hex : go_ok.
