(* ===== verification/GoPath.v ===== *)
(** * Package path/filepath, on Unix, and the searches of package strings

    What tool, internal/toolop and sandbox use of them: [Clean], [Dir], [Join],
    [IsLocal] and [Rel] on slash separated paths, [Count] and [Replace]. *)

From Stdlib Require Import ZArith Lia Ascii.
From S2P Require Import Prelude GoText.

(* ------------------------------------------------------------------ *)
(** ** Paths as names *)

Definition slash : ascii := "/"%char.

(** [strings.Split(s, "/")] *)
Fixpoint split_slash (s : string) : list string :=
  match s with
  | EmptyString => [""]
  | String a s' =>
      if Ascii.eqb a slash then "" :: split_slash s'
      else match split_slash s' with
           | [] => [String a ""]
           | name :: names => String a name :: names
           end
  end.

Definition is_abs (path : string) : bool := strings_HasPrefix path "/".

(** The names of a path: empty ones and dots are skipped. *)
Definition name_kept (name : string) : Prop := name ≠ "" ∧ name ≠ ".".
#[global] Instance name_kept_dec name : Decision (name_kept name).
Proof. unfold name_kept. apply _. Defined.

Definition path_names (path : string) : list string := filter name_kept (split_slash path).

(** A [..] takes back the name before it, or stays in front of a relative path;
    [kept] holds the names so far, the last one first. *)
Fixpoint clean_names (rooted : bool) (kept names : list string) : list string :=
  match names with
  | [] => reverse kept
  | name :: names' =>
      if name =s ".."
      then match kept with
           | top :: kept' => if top =s ".." then clean_names rooted (".." :: kept) names' else clean_names rooted kept' names'
           | [] => if rooted then clean_names rooted [] names' else clean_names rooted [".."] names'
           end
      else clean_names rooted (name :: kept) names'
  end.

(** [filepath.Clean] *)
Definition filepath_Clean (path : string) : string :=
  let names := clean_names (is_abs path) [] (path_names path) in
  if is_abs path then "/" +:+ String.concat "/" names
  else match names with [] => "." | _ => String.concat "/" names end.

(** [filepath.IsLocal]: not empty, not absolute, and clean it does not begin with
    [..]. *)
Definition filepath_IsLocal (path : string) : bool :=
  negb (is_abs path) && (path ≠s "") && negb (bool_decide (head (clean_names false [] (path_names path)) = Some "..")).

(** [filepath.Dir]: clean what comes before the last separator, with it. *)
Definition filepath_Dir (path : string) : string :=
  let names := removelast (split_slash path) in
  filepath_Clean (match names with [] => "" | _ => String.concat "/" names +:+ "/" end).

(** [filepath.Join] of a nonempty directory and a name. *)
Definition filepath_Join (dir name : string) : string := filepath_Clean (dir +:+ "/" +:+ name).

(** [filepath.Rel] of absolute paths, which it cleans: up from the end of what they
    share, then down. *)
Fixpoint rel_names (base target : list string) : list string :=
  match base, target with
  | b :: base', t :: target' => if b =s t then rel_names base' target' else ((λ _, "..") <$> base) ++ target
  | _, _ => ((λ _, "..") <$> base) ++ target
  end.
Definition abs_names (path : string) : list string := clean_names true [] (path_names path).
Definition filepath_Rel (base target : string) : string :=
  match rel_names (abs_names base) (abs_names target) with [] => "." | names => String.concat "/" names end.

(* ------------------------------------------------------------------ *)
(** ** Searching *)

(** [strings.Cut] at [sep]: what comes before and after the first occurrence. *)
Fixpoint cut_at (sep s : string) : option (string * string) :=
  if strings_HasPrefix s sep then Some ("", drop_bytes (String.length sep) s)
  else match s with
       | EmptyString => None
       | String a s' => match cut_at sep s' with Some (before, after) => Some (String a before, after) | None => None end
       end.

(** [strings.Count] of a nonempty [sep]: occurrences that do not overlap, from
    the left; every occurrence takes a byte of [fuel]. *)
Fixpoint count_from (fuel : nat) (sep s : string) : Z :=
  match fuel with
  | O => 0
  | S fuel' => match cut_at sep s with Some (_, after) => 1 + count_from fuel' sep after | None => 0 end
  end.
Definition strings_Count (s sep : string) : Z := count_from (S (String.length s)) sep s.

(** [strings.Replace(s, old, new, 1)] *)
Definition replace_first (s old new : string) : string :=
  match cut_at old s with Some (before, after) => before +:+ new +:+ after | None => s end.

(** [s] contains [sep]. *)
Definition occurs (sep s : string) : Prop := ∃ before after, s = before +:+ sep +:+ after.

(* ------------------------------------------------------------------ *)
(** ** Lemmas *)

Lemma split_slash_nonempty s : split_slash s ≠ [].
Proof. destruct s as [|a s]; [done|]. cbn. destruct (Ascii.eqb a slash), (split_slash s); done. Qed.

(** No name holds a separator. *)
Definition slashless (name : string) : Prop := contains_byte slash name = false.

Lemma split_slash_names s : Forall slashless (split_slash s).
Proof.
  induction s as [|a s IH]; [by repeat constructor|]. cbn [split_slash].
  destruct (Ascii.eqb a slash) eqn:E; [by constructor|].
  assert (Ascii.eqb slash a = false) as E' by (by rewrite Ascii.eqb_sym).
  destruct (split_slash s) as [|name names].
  - constructor; [|done]. unfold slashless. cbn [contains_byte]. by rewrite E'.
  - apply Forall_cons in IH as [Hn IH]. constructor; [|done]. unfold slashless in *. cbn [contains_byte]. by rewrite E', Hn.
Qed.

Lemma split_slash_slashless name : slashless name → split_slash name = [name].
Proof.
  unfold slashless. induction name as [|a s IH]; [done|]. cbn [split_slash contains_byte]. intros [Ha Hs]%orb_false_iff.
  rewrite Ascii.eqb_sym, Ha, IH; done.
Qed.

Lemma split_slash_app name s : slashless name → split_slash (name +:+ String slash s) = name :: split_slash s.
Proof.
  unfold slashless. induction name as [|a n IH]; [done|]. cbn [contains_byte]. intros [Ha Hs]%orb_false_iff.
  rewrite append_cons. cbn [split_slash]. by rewrite Ascii.eqb_sym, Ha, IH.
Qed.

(** Joining names and splitting again. *)
Lemma split_slash_concat names : names ≠ [] → Forall slashless names → split_slash (String.concat "/" names) = names.
Proof.
  induction names as [|n names IH]; [done|]. intros _ [Hn H]%Forall_cons.
  destruct names as [|m names]; [by apply split_slash_slashless|].
  change (String.concat "/" (n :: m :: names)) with (n +:+ String slash (String.concat "/" (m :: names))).
  by rewrite split_slash_app, IH.
Qed.

(** The depth below the start never becomes negative along the names. *)
Fixpoint stays_below (depth : nat) (names : list string) : Prop :=
  match names with
  | [] => True
  | name :: names' =>
      if name =s ".." then match depth with O => False | S d => stays_below d names' end
      else stays_below (S depth) names'
  end.

Lemma clean_names_head rooted kept names :
  kept ≠ [] → last kept = Some ".." → head (clean_names rooted kept names) = Some "..".
Proof.
  revert kept. induction names as [|n names IH]; intros kept Hk Hl; cbn [clean_names].
  { rewrite <-last_reverse, reverse_involutive. done. }
  destruct (String.eqb_spec n "..") as [->|Hn].
  - destruct kept as [|top kept]; [done|]. destruct (String.eqb_spec top "..") as [->|Ht].
    + apply IH; [done|]. by rewrite last_cons_cons.
    + assert (kept ≠ []) as Hk' by (by intros ->; cbn in Hl; simplify_eq). apply IH; [done|].
      destruct kept as [|x kept]; [done|]. by rewrite last_cons_cons in Hl.
  - apply IH; [done|]. destruct kept as [|x kept]; [done|]. by rewrite last_cons_cons.
Qed.

Lemma clean_names_local kept names :
  Forall (λ n, n ≠ "..") kept →
  head (clean_names false kept names) ≠ Some ".." ↔ stays_below (length kept) names.
Proof.
  revert kept. induction names as [|n names IH]; intros kept Hk; cbn [clean_names stays_below].
  { split; [done|]. intros _ Hh. destruct kept as [|x kept]; [done|].
    assert (".." ∈ reverse (x :: kept)) as Hin by (destruct (reverse (x :: kept)); [done|]; cbn in Hh; simplify_eq; left).
    rewrite elem_of_reverse in Hin. rewrite Forall_forall in Hk. by apply (Hk _ Hin). }
  destruct (String.eqb_spec n "..") as [->|Hn].
  - destruct kept as [|top kept]; cbn [length].
    + split; [|done]. intros H. exfalso. apply H, clean_names_head; done.
    + apply Forall_cons in Hk as [Ht Hk]. rewrite (proj2 (String.eqb_neq _ _) Ht). by apply IH.
  - apply (IH (n :: kept)). by constructor.
Qed.

(** A local path goes nowhere above its start. *)
Lemma IsLocal_stays path :
  filepath_IsLocal path = true ↔ is_abs path = false ∧ path ≠ "" ∧ stays_below 0 (path_names path).
Proof.
  unfold filepath_IsLocal. rewrite !andb_true_iff, !negb_true_iff, String.eqb_neq, bool_decide_eq_false.
  rewrite (clean_names_local [] (path_names path)) by done. cbn. naive_solver.
Qed.

Lemma HasPrefix_app s p : strings_HasPrefix s p = true ↔ ∃ t, s = p +:+ t.
Proof.
  revert s. induction p as [|a p IH]; intros s.
  { split; [intros _; by exists s | by destruct s]. }
  destruct s as [|b s].
  { split; [done|]. intros [t H]. by rewrite append_cons in H. }
  cbn [strings_HasPrefix]. rewrite andb_true_iff, Ascii.eqb_eq, IH. split.
  - intros [-> [t ->]]. exists t. by rewrite append_cons.
  - intros [t H]. rewrite append_cons in H. injection H as -> ->. eauto.
Qed.

Lemma drop_bytes_app p t : drop_bytes (String.length p) (p +:+ t) = t.
Proof. induction p as [|a p IH]; [by destruct t|]. by rewrite append_cons. Qed.

(** [Cut] finds the first occurrence. *)
Lemma HasPrefix_cut s p : strings_HasPrefix s p = true → s = "" +:+ p +:+ drop_bytes (String.length p) s.
Proof. intros [t Ht]%HasPrefix_app. subst s. by rewrite drop_bytes_app, append_nil_l. Qed.

Lemma cut_at_Some sep s before after :
  cut_at sep s = Some (before, after) → s = before +:+ sep +:+ after.
Proof.
  revert before. induction s as [|a s IH]; intros before; cbn [cut_at];
    destruct (strings_HasPrefix _ sep) eqn:E; [| done | |].
  1,2: intros [= <- <-]; by apply HasPrefix_cut.
  destruct (cut_at sep s) as [[b' x]|] eqn:C; [|done]. intros [= <- <-]. rewrite append_cons. f_equal. by apply IH.
Qed.

Lemma HasPrefix_not sep s : strings_HasPrefix s sep = false → ∀ after, s ≠ sep +:+ after.
Proof. intros H after E. assert (strings_HasPrefix s sep = true) by (apply HasPrefix_app; by exists after). congruence. Qed.

Lemma cut_at_None sep s : cut_at sep s = None → ¬ occurs sep s.
Proof.
  induction s as [|a s IH]; cbn [cut_at]; destruct (strings_HasPrefix _ sep) eqn:E; try done.
  - intros _ (before & after & H). destruct before as [|b before]; [|done]. rewrite append_nil_l in H. by eapply HasPrefix_not.
  - destruct (cut_at sep s) as [[b' x]|] eqn:C; [done|]. intros _ (before & after & H). destruct before as [|b before].
    + rewrite append_nil_l in H. by eapply HasPrefix_not.
    + rewrite append_cons in H. injection H as -> ->. by apply IH; [|exists before, after].
Qed.

Lemma count_from_nonneg n sep s : 0 <= count_from n sep s.
Proof.
  revert s. induction n as [|n IH]; intros s; cbn [count_from]; [lia|].
  destruct (cut_at sep s) as [[b x]|]; [specialize (IH x) |]; lia.
Qed.

(** One occurrence that does not overlap another: the string is cut there, and
    there is none in the rest. *)
Lemma Count_one s sep :
  sep ≠ "" → strings_Count s sep = 1 ↔ ∃ before after, cut_at sep s = Some (before, after) ∧ ¬ occurs sep after.
Proof.
  intros Hsep. unfold strings_Count. cbn [count_from]. destruct (cut_at sep s) as [[before after]|] eqn:C.
  - apply cut_at_Some in C. destruct (String.length s) as [|n] eqn:L; cbn [count_from].
    { rewrite C, !length_append in L. destruct sep; [done|]. cbn in L. lia. }
    destruct (cut_at sep after) as [[b x]|] eqn:C'.
    + pose proof (count_from_nonneg n sep x). split; [lia|].
      intros (? & ? & [= <- <-] & H'). exfalso. apply H'. exists b, x. by apply cut_at_Some.
    + split; [|done]. intros _. exists before, after. split; [done|]. by apply cut_at_None.
  - split; [lia | by intros (? & ? & ? & _)].
Qed.

(** Splitting around a separator. *)
Lemma split_slash_mid s t : split_slash (s +:+ String slash t) = split_slash s ++ split_slash t.
Proof.
  induction s as [|a s IH]; [done|]. rewrite append_cons. cbn [split_slash]. rewrite IH.
  destruct (Ascii.eqb a slash); [done|]. destruct (split_slash s) as [|n names] eqn:E; [by apply split_slash_nonempty in E | done].
Qed.

(** A name that stands for an entry of a directory. *)
Definition plain_name (name : string) : Prop := slashless name ∧ name_kept name ∧ name ≠ "..".

Definition kept_names (names : list string) : Prop := Forall slashless names ∧ Forall name_kept names.

Lemma path_names_kept path : kept_names (path_names path).
Proof.
  pose proof (split_slash_names path) as H. rewrite Forall_forall in H.
  split; apply Forall_forall; intros n [Hk Hn]%list_elem_of_filter; [by apply H | done].
Qed.

Lemma clean_names_kept rooted kept names : kept_names kept → kept_names names → kept_names (clean_names rooted kept names).
Proof.
  assert (slashless ".." ∧ name_kept "..") as [Hs Hk] by done.
  revert kept. induction names as [|n names IH]; intros kept [K1 K2] [N1 N2]; cbn [clean_names].
  { split; by apply Forall_reverse. }
  apply Forall_cons in N1 as [Hn1 N1]. apply Forall_cons in N2 as [Hn2 N2].
  destruct (n =s ".."); [|by apply IH; split; [constructor|constructor|..]].
  destruct kept as [|top kept]; [destruct rooted; by apply IH; split; repeat constructor|].
  destruct (top =s ".."); [by apply IH; split; [constructor|constructor|..]|].
  apply Forall_cons in K1 as [_ K1]. apply Forall_cons in K2 as [_ K2]. by apply IH.
Qed.

Lemma clean_names_snoc rooted kept names name :
  name ≠ ".." → ∃ pre, clean_names rooted kept (names ++ [name]) = pre ++ [name].
Proof.
  intros Hn. revert kept. induction names as [|n names IH]; intros kept; cbn [clean_names app].
  { rewrite (proj2 (String.eqb_neq _ _) Hn). exists (reverse kept). by rewrite reverse_cons. }
  destruct (n =s ".."); [|apply IH]. destruct kept as [|top kept]; [destruct rooted; apply IH|].
  destruct (top =s ".."); apply IH.
Qed.

Lemma filter_all (names : list string) : Forall name_kept names → filter name_kept names = names.
Proof. induction 1 as [|n names Hn _ IH]; [done|]. by rewrite filter_cons_True, IH. Qed.

(** The names of a cleaned path. *)
Lemma Clean_split path names :
  clean_names (is_abs path) [] (path_names path) = names → names ≠ [] → kept_names names →
  path_names (filepath_Clean path) = names ∧ last (split_slash (filepath_Clean path)) = last names.
Proof.
  intros E Hne [H1 H2]. unfold filepath_Clean. rewrite E. destruct (is_abs path).
  - unfold path_names. change ("/" +:+ ?s) with ("" +:+ String slash s).
    rewrite split_slash_app, split_slash_concat by done.
    rewrite filter_cons_False by (by intros [? _]). split; [by apply filter_all | by destruct names].
  - destruct names as [|n names]; [done|]. unfold path_names. rewrite split_slash_concat by done.
    split; [by apply filter_all | done].
Qed.

(** Joining a name: it is the last one of the path. *)
Lemma Join_names dir name :
  plain_name name →
  ∃ pre, path_names (filepath_Join dir name) = pre ++ [name] ∧ last (split_slash (filepath_Join dir name)) = Some name.
Proof.
  intros (Hs & Hk & Hd). unfold filepath_Join. set (path := dir +:+ "/" +:+ name).
  assert (path_names path = path_names dir ++ [name]) as E.
  { unfold path, path_names. change ("/" +:+ name) with (String slash name).
    rewrite split_slash_mid, filter_app, (split_slash_slashless name) by done. by rewrite filter_cons_True. }
  destruct (clean_names_snoc (is_abs path) [] (path_names dir) name Hd) as [pre Hpre]. rewrite <-E in Hpre.
  exists pre. destruct (Clean_split path (pre ++ [name])) as [H1 H2]; [done | by destruct pre| |].
  - rewrite <-Hpre. apply clean_names_kept; [done | apply path_names_kept].
  - by rewrite H1, H2, last_snoc.
Qed.

(* ------------------------------------------------------------------ *)
(** ** Relative paths *)

(** Clean absolute paths hold no [..]. *)
Lemma clean_abs_names kept names :
  Forall (λ n, n ≠ "..") kept → Forall (λ n, n ≠ "..") (clean_names true kept names).
Proof.
  revert kept. induction names as [|n names IH]; intros kept Hk; cbn [clean_names]; [by apply Forall_reverse|].
  destruct (String.eqb_spec n "..") as [->|Hn]; [|apply IH; by constructor].
  destruct kept as [|top kept]; [by apply IH|]. apply Forall_cons in Hk as [Ht Hk].
  rewrite (proj2 (String.eqb_neq _ _) Ht). by apply IH.
Qed.

Lemma abs_names_kept path : kept_names (abs_names path).
Proof. apply clean_names_kept; [done | apply path_names_kept]. Qed.

Lemma clean_plain kept names :
  Forall (λ n, n ≠ "..") names → clean_names false kept names = reverse kept ++ names.
Proof.
  revert kept. induction names as [|n names IH]; intros kept; cbn [clean_names]; [by rewrite app_nil_r|].
  intros [Hn H]%Forall_cons. rewrite (proj2 (String.eqb_neq _ _) Hn), IH by done. by rewrite reverse_cons, <-app_assoc.
Qed.

(** A nonempty path of names is relative and splits into them. *)
Lemma concat_names names :
  names ≠ [] → kept_names names →
  is_abs (String.concat "/" names) = false ∧ String.concat "/" names ≠ "" ∧ path_names (String.concat "/" names) = names.
Proof.
  intros Hne [H1 H2].
  assert (path_names (String.concat "/" names) = names) as E.
  { unfold path_names. rewrite split_slash_concat by done. by apply filter_all. }
  assert (∃ a s, String.concat "/" names = String a s ∧ Ascii.eqb a slash = false) as (a & s & Hs & Ha).
  { destruct names as [|n names]; [done|]. apply Forall_cons in H1 as [Hn _]. apply Forall_cons in H2 as [[Hn' _] _].
    destruct n as [|a s]; [done|]. unfold slashless in Hn. cbn [contains_byte] in Hn. apply orb_false_iff in Hn as [Ha _].
    rewrite Ascii.eqb_sym in Ha. destruct names as [|m names]; [by exists a, s|].
    exists a, (s +:+ "/" +:+ String.concat "/" (m :: names)). split; [|done].
    change (String.concat "/" (String a s :: m :: names)) with (String a s +:+ "/" +:+ String.concat "/" (m :: names)). by rewrite append_cons. }
  split_and!; [|by rewrite Hs|done]. rewrite Hs. unfold is_abs. cbn [strings_HasPrefix].
  change (Ascii.eqb "/" a) with (Ascii.eqb slash a). by rewrite Ascii.eqb_sym, Ha.
Qed.

Lemma rel_names_kept base target : kept_names target → kept_names (rel_names base target).
Proof.
  revert target. induction base as [|b base IH]; intros target Ht; [by destruct target|].
  assert (∀ l, kept_names l → kept_names (((λ _, "..") <$> (b :: base)) ++ l)) as Hup.
  { intros l [L1 L2]. split; (apply Forall_app; split; [|done]); apply Forall_fmap, Forall_forall; intros ? _; [done | by split]. }
  destruct target as [|t target]; cbn [rel_names]; [by apply Hup|]. destruct (b =s t); [|by apply Hup].
  apply IH. destruct Ht as [T1 T2]. apply Forall_cons in T1 as [_ T1]. apply Forall_cons in T2 as [_ T2]. done.
Qed.

Lemma rel_names_head base target :
  Forall (λ n, n ≠ "..") target →
  if decide (base `prefix_of` target) then Forall (λ n, n ≠ "..") (rel_names base target)
  else head (rel_names base target) = Some "..".
Proof.
  revert target. induction base as [|b base IH]; intros target Ht.
  { rewrite decide_True by apply prefix_nil. by destruct target. }
  destruct target as [|t target]; cbn [rel_names]; [by rewrite decide_False by (by intros ?%prefix_nil_inv)|].
  apply Forall_cons in Ht as [Ht0 Ht]. destruct (String.eqb_spec b t) as [->|Hbt].
  - specialize (IH target Ht). destruct (decide (base `prefix_of` target)) as [Hp|Hp].
    + rewrite decide_True by by apply prefix_cons. done.
    + rewrite decide_False by (by intros ?%prefix_cons_inv_2). done.
  - rewrite decide_False by (by intros ?%prefix_cons_inv_1). done.
Qed.

(** The relative path from one absolute path to another is local exactly when the
    first is above the second. *)
Lemma Rel_local base target :
  filepath_IsLocal (filepath_Rel base target) = true ↔ abs_names base `prefix_of` abs_names target.
Proof.
  unfold filepath_Rel. set (b := abs_names base). set (t := abs_names target).
  assert (Forall (λ n, n ≠ "..") t) as Ht by (by apply clean_abs_names).
  pose proof (rel_names_head b t Ht) as Hh. pose proof (rel_names_kept b t (abs_names_kept target)) as Hk.
  destruct (rel_names b t) as [|n names] eqn:E.
  { destruct (decide (b `prefix_of` t)); [by split | done]. }
  destruct (concat_names (n :: names)) as (Ha & Hne & Hp); [done..|].
  unfold filepath_IsLocal. rewrite Ha, (proj2 (String.eqb_neq _ _) Hne), Hp. cbn [negb andb]. rewrite negb_true_iff, bool_decide_eq_false.
  destruct (decide (b `prefix_of` t)) as [Hb|Hb].
  - split; [done|]. intros _. rewrite clean_plain by done. cbn. apply Forall_cons in Hh as [Hn _]. congruence.
  - split; [|done]. intros H. exfalso. apply H. cbn [head] in Hh. injection Hh as ->. cbn [clean_names]. by apply clean_names_head.
Qed.
