(* ===== verification/Ident.v ===== *)
(** * Identifiers: src/id.go

    [ID] is the text of a UUIDv7.  [ParseID] validates a text, [newIDAt] makes
    an identifier from a time and 16 bytes of entropy, an [io.Reader] being the
    list of the bytes it still has. *)

From Stdlib Require Import ZArith Lia Ascii String.
From S2P Require Import Prelude GoNum GoText GoHash.

Abbreviation ID := string (only parsing).

Definition ErrInvalidID : error := Sentinel "invalid fabricrunner ID".

(* ------------------------------------------------------------------ *)
(** ** Operations *)

(** [value[i] == '-'] for the separators. *)
Definition dash_at (n : nat) (value : string) : bool :=
  match String.get n value with Some a => Ascii.eqb a "-" | None => false end.

Arguments dash_at n%_nat value.

(** The slice expression [value[i:j]]. *)
Definition slice (i j : nat) (value : string) : string := take_bytes (j - i) (drop_bytes i value).
Arguments slice (i j)%_nat value.

Definition ParseID (value : string) : result ID :=
  if (negb (Z.of_nat (String.length value) =? 36) || negb (dash_at 8 value) ||
      negb (dash_at 13 value) || negb (dash_at 18 value) || negb (dash_at 23 value))
  then Err (Errorf "malformed UUID" [ErrInvalidID])
  else
    let compact := (slice 0 8 value +:+ slice 9 13 value +:+ slice 14 18 value +:+
                    slice 19 23 value +:+ slice 24 36 value) in
    match hex_Decode compact with
    | None => Err (Errorf "hex" [ErrInvalidID])
    | Some raw =>
        if negb (Z.shiftr (nth 6 raw 0) 4 =? 7)
        then Err (Errorf "UUID version is not 7" [ErrInvalidID])
        else if negb (Z.land (nth 8 raw 0) 0xc0 =? 0x80)
        then Err (Errorf "UUID variant is not RFC 9562" [ErrInvalidID])
        else Ok value
    end.

(** [io.ReadFull] of [n] bytes: the bytes and the rest of the reader. *)
Definition io_ReadFull (reader : list Z) (n : nat) : result (list Z * list Z) :=
  if decide (n <= length reader)%nat then Ok (take n reader, drop n reader)
  else Err (Sentinel (match reader with [] => "EOF" | _ => "unexpected EOF" end)).

(** [byte(ms >> n)] *)
Definition shift_byte (ms n : Z) : Z := Z.land (Z.shiftr ms n) 255.

(** The 16 bytes of the identifier: 48 bits of time, then the entropy with the
    version and the variant written over it. *)
Definition id_bytes (ms : Z) (raw : list Z) : list Z :=
  [ shift_byte ms 40; shift_byte ms 32; shift_byte ms 24; shift_byte ms 16; shift_byte ms 8;
    shift_byte ms 0 ] ++
  [ Z.lor (Z.land (nth 6 raw 0) 0x0f) 0x70; nth 7 raw 0 ] ++
  [ Z.lor (Z.land (nth 8 raw 0) 0x3f) 0x80 ] ++ drop 9 raw.

(** The five hexadecimal groups and their separators. *)
Definition id_text (raw : list Z) : string :=
  (hex_Encode (take 4 raw) +:+ "-" +:+ hex_Encode (take 2 (drop 4 raw)) +:+ "-" +:+
   hex_Encode (take 2 (drop 6 raw)) +:+ "-" +:+ hex_Encode (take 2 (drop 8 raw)) +:+ "-" +:+
   hex_Encode (take 6 (drop 10 raw))).

Definition newIDAt (now : Z) (entropy : list Z) : result ID :=
  let millis := Time_UnixMilli now in
  if (millis <? 0) || (2 ^ 48 <=? wrapu64 millis)
  then Err (Errorf "timestamp outside UUIDv7 range" [ErrInvalidID])
  else
    '(raw, _) ← wrapf "create ID" (io_ReadFull entropy 16);
    Ok (id_text (id_bytes (wrapu64 millis) raw)).

(** [NewID], with the clock and the entropy source as arguments. *)
Definition NewID (now : Z) (entropy : list Z) : result ID := newIDAt (Time_UTC now) entropy.

Definition ID_String (id : ID) : string := id.
Definition ID_IsZero (id : ID) : bool := id =s "".

Definition ID_Validate (id : ID) : result unit :=
  if ID_IsZero id then Err (Errorf "empty" [ErrInvalidID])
  else _ ← ParseID id; Ok tt.

(** The creation time, in milliseconds, an identifier carries. *)
Definition id_millis (id : ID) : option Z :=
  match hex_Decode (slice 0 8 id +:+ slice 9 13 id) with
  | Some raw => Some (be_word raw)
  | None => None
  end.

(* ------------------------------------------------------------------ *)
(** ** Validation *)

Lemma ParseID_same value id : ParseID value = Ok id → id = value.
Proof. unfold ParseID. intros H. repeat case_in H; congruence. Qed.

Lemma ParseID_empty : is_ok (ParseID "") = false.
Proof. reflexivity. Qed.

Lemma ParseID_error value e : ParseID value = Err e → errors_Is e "invalid fabricrunner ID" = true.
Proof. unfold ParseID. intros H. repeat case_in H; simplify_eq; reflexivity. Qed.

Lemma ID_Validate_Ok id : ID_Validate id = Ok tt ↔ ParseID id = Ok id.
Proof.
  unfold ID_Validate, ID_IsZero. destruct (id =s "") eqn:E; simpl_bool.
  { subst. split; intros H; discriminate H. }
  rewrite bind_Ok. split; [intros (a & H & _); by rewrite (ParseID_same _ _ H) in H | eauto].
Qed.

Lemma ID_Validate_error id e : ID_Validate id = Err e → errors_Is e "invalid fabricrunner ID" = true.
Proof.
  unfold ID_Validate. case_match; [intros; simplify_eq; reflexivity|].
  destruct (ParseID id) as [|e'] eqn:E; intros [= <-]. by eapply ParseID_error.
Qed.

Lemma ID_Validate_nonempty id : ID_Validate id = Ok tt → id ≠ "".
Proof. by intros H ->. Qed.

Lemma ID_Validate_length id : ID_Validate id = Ok tt → String.length id = 36%nat.
Proof.
  rewrite ID_Validate_Ok. unfold ParseID. intros H.
  destruct (Z.of_nat (String.length id) =? 36) eqn:E; [apply Z.eqb_eq in E; lia | done].
Qed.

#[export] Hint Resolve ID_Validate_nonempty : go_ok.

(* ------------------------------------------------------------------ *)
(** ** Text layout of a generated identifier *)

Lemma take_bytes_append n (s t : string) : String.length s = n → take_bytes n (s +:+ t) = s.
Proof.
  revert n. induction s as [|a s IH]; intros n <-; simpl_append; cbn [String.length take_bytes]; [by destruct t|].
  by rewrite IH.
Qed.

Lemma drop_bytes_append n (s t : string) : String.length s = n → drop_bytes n (s +:+ t) = t.
Proof.
  revert n. induction s as [|a s IH]; intros n <-; simpl_append; cbn [String.length drop_bytes]; [by destruct t|].
  by rewrite IH.
Qed.

Lemma take_bytes_all n (s : string) : String.length s = n → take_bytes n s = s.
Proof. intros H. rewrite <-(append_nil_r s) at 1. by apply take_bytes_append. Qed.

Lemma drop_bytes_add n m (s : string) : drop_bytes (n + m) s = drop_bytes m (drop_bytes n s).
Proof. revert s. induction n as [|n IH]; intros s; [done|]. cbn. destruct s; [by destruct m | apply IH]. Qed.

Lemma get_append n (s t : string) : String.length s = n → String.get n (s +:+ t) = String.get 0 t.
Proof.
  revert n. induction s as [|a s IH]; intros n <-; simpl_append; cbn [String.length String.get]; [done|].
  by apply IH.
Qed.

(** The value of five groups of the right lengths, by position. *)
Lemma groups_layout (a b c d e : string) :
  String.length a = 8%nat → String.length b = 4%nat → String.length c = 4%nat →
  String.length d = 4%nat → String.length e = 12%nat →
  let v := (a +:+ "-" +:+ b +:+ "-" +:+ c +:+ "-" +:+ d +:+ "-" +:+ e) in
  String.length v = 36%nat ∧ slice 0 8 v = a ∧ slice 9 13 v = b ∧ slice 14 18 v = c ∧
  slice 19 23 v = d ∧ slice 24 36 v = e ∧
  dash_at 8 v = true ∧ dash_at 13 v = true ∧ dash_at 18 v = true ∧ dash_at 23 v = true.
Proof.
  intros Ha Hb Hc Hd He v.
  assert (v = a +:+ ("-" +:+ (b +:+ ("-" +:+ (c +:+ ("-" +:+ (d +:+ ("-" +:+ e)))))))) as Hv.
  { unfold v. by rewrite ?append_assoc. }
  clearbody v. subst v.
  assert (∀ n m (s t : string), String.length s = n → drop_bytes (n + m) (s +:+ t) = drop_bytes m t) as Hdrop.
  { intros. by rewrite drop_bytes_add, drop_bytes_append. }
  assert (∀ n m (s t : string), String.length s = n → String.get (n + m) (s +:+ t) = String.get m t) as Hget.
  { intros n m s t <-. clear. induction s as [|x s IH]; [done|]. simpl_append. apply IH. }
  rewrite !length_append, Ha, Hb, Hc, Hd, He.
  unfold slice, dash_at. split_and!; [done | ..].
  - by apply take_bytes_append.
  - rewrite (Hdrop 8 1)%nat, (Hdrop 1 0)%nat by done. by apply take_bytes_append.
  - rewrite (Hdrop 8 6)%nat, (Hdrop 1 5)%nat, (Hdrop 4 1)%nat, (Hdrop 1 0)%nat by done. by apply take_bytes_append.
  - rewrite (Hdrop 8 11)%nat, (Hdrop 1 10)%nat, (Hdrop 4 6)%nat, (Hdrop 1 5)%nat, (Hdrop 4 1)%nat, (Hdrop 1 0)%nat by done.
    by apply take_bytes_append.
  - rewrite (Hdrop 8 16)%nat, (Hdrop 1 15)%nat, (Hdrop 4 11)%nat, (Hdrop 1 10)%nat, (Hdrop 4 6)%nat,
      (Hdrop 1 5)%nat, (Hdrop 4 1)%nat, (Hdrop 1 0)%nat by done. by apply take_bytes_all.
  - by rewrite (Hget 8 0)%nat.
  - by rewrite (Hget 8 5)%nat, (Hget 1 4)%nat, (Hget 4 0)%nat.
  - by rewrite (Hget 8 10)%nat, (Hget 1 9)%nat, (Hget 4 5)%nat, (Hget 1 4)%nat, (Hget 4 0)%nat.
  - by rewrite (Hget 8 15)%nat, (Hget 1 14)%nat, (Hget 4 10)%nat, (Hget 1 9)%nat, (Hget 4 5)%nat, (Hget 1 4)%nat, (Hget 4 0)%nat.
Qed.

Lemma id_text_groups raw :
  length raw = 16%nat →
  let v := id_text raw in
  String.length v = 36%nat ∧
  slice 0 8 v = hex_Encode (take 4 raw) ∧ slice 9 13 v = hex_Encode (take 2 (drop 4 raw)) ∧
  slice 14 18 v = hex_Encode (take 2 (drop 6 raw)) ∧ slice 19 23 v = hex_Encode (take 2 (drop 8 raw)) ∧
  slice 24 36 v = hex_Encode (take 6 (drop 10 raw)) ∧
  dash_at 8 v = true ∧ dash_at 13 v = true ∧ dash_at 18 v = true ∧ dash_at 23 v = true.
Proof.
  intros Hl. apply groups_layout; rewrite length_hex_Encode, length_take, ?length_drop, Hl; done.
Qed.

Lemma id_text_decode raw :
  length raw = 16%nat → Forall is_byte raw →
  let v := id_text raw in
  hex_Decode (slice 0 8 v +:+ slice 9 13 v +:+ slice 14 18 v +:+ slice 19 23 v +:+ slice 24 36 v)
  = Some raw.
Proof.
  intros Hl Hb v. destruct (id_text_groups raw Hl) as (_ & H1 & H2 & H3 & H4 & H5 & _).
  fold v in H1, H2, H3, H4, H5. rewrite H1, H2, H3, H4, H5, <-!hex_Encode_app.
  replace (_ ++ _) with raw; [by apply hex_Decode_Encode|].
  do 17 (destruct raw as [|? raw]; [done || (cbn in Hl; lia)|]). cbn in Hl. lia.
Qed.

(* ------------------------------------------------------------------ *)
(** ** The bytes of a generated identifier *)

Lemma shift_byte_spec ms n : 0 <= n → shift_byte ms n = (ms / 2 ^ n) mod 256.
Proof.
  intros Hn. unfold shift_byte. change 255 with (Z.ones 8).
  by rewrite Z.land_ones, Z.shiftr_div_pow2 by lia.
Qed.

Lemma shift_byte_is_byte ms n : 0 <= n → is_byte (shift_byte ms n).
Proof. intros Hn. rewrite shift_byte_spec by done. unfold is_byte. pose proof (Z.mod_pos_bound (ms / 2 ^ n) 256). lia. Qed.

(** Version and variant bits, checked on every byte. *)
Definition version_byte_ok (b : Z) : bool :=
  let v := Z.lor (Z.land b 0x0f) 0x70 in
  (Z.shiftr v 4 =? 7) && (0 <=? v) && (v <? 256).
Definition variant_byte_ok (b : Z) : bool :=
  let v := Z.lor (Z.land b 0x3f) 0x80 in
  (Z.land v 0xc0 =? 0x80) && (0 <=? v) && (v <? 256).

Lemma version_byte_spec b :
  is_byte b → Z.shiftr (Z.lor (Z.land b 0x0f) 0x70) 4 = 7 ∧ is_byte (Z.lor (Z.land b 0x0f) 0x70).
Proof.
  intros Hb. assert (forallb version_byte_ok all_bytes = true) as Hall by (vm_compute; reflexivity).
  pose proof (for_all_bytes _ Hall b Hb) as H. unfold version_byte_ok in H. unfold is_byte.
  simpl_bool. lia.
Qed.

Lemma variant_byte_spec b :
  is_byte b → Z.land (Z.lor (Z.land b 0x3f) 0x80) 0xc0 = 0x80 ∧ is_byte (Z.lor (Z.land b 0x3f) 0x80).
Proof.
  intros Hb. assert (forallb variant_byte_ok all_bytes = true) as Hall by (vm_compute; reflexivity).
  pose proof (for_all_bytes _ Hall b Hb) as H. unfold variant_byte_ok in H. unfold is_byte.
  simpl_bool. lia.
Qed.

Lemma nth_is_byte i raw : Forall is_byte raw → is_byte (nth i raw 0).
Proof.
  intros H. destruct (nth_in_or_default i raw 0) as [Hin| ->]; [|unfold is_byte; lia].
  rewrite Forall_forall in H. apply H. by apply list_elem_of_In.
Qed.

Lemma id_bytes_spec ms raw :
  length raw = 16%nat → Forall is_byte raw →
  length (id_bytes ms raw) = 16%nat ∧ Forall is_byte (id_bytes ms raw).
Proof.
  intros Hl Hb. unfold id_bytes. split.
  { rewrite !length_app, length_drop, Hl. reflexivity. }
  rewrite !Forall_app, ?Forall_cons, ?Forall_nil.
  repeat match goal with |- _ ∧ _ => split end;
    try exact I; try (by apply shift_byte_is_byte); try (by apply nth_is_byte).
  - by apply version_byte_spec, nth_is_byte.
  - by apply variant_byte_spec, nth_is_byte.
  - by apply Forall_drop.
Qed.

(** The first six bytes are the time, big endian. *)
Definition time_bytes (ms : Z) : list Z :=
  [ shift_byte ms 40; shift_byte ms 32; shift_byte ms 24; shift_byte ms 16; shift_byte ms 8; shift_byte ms 0 ].

Lemma be_word_time_bytes ms : 0 <= ms < 2 ^ 48 → be_word (time_bytes ms) = ms.
Proof.
  intros H. unfold be_word, time_bytes. cbn [fold_left]. rewrite !shift_byte_spec by lia.
  change (2 ^ 40) with 1099511627776. change (2 ^ 32) with 4294967296. change (2 ^ 24) with 16777216.
  change (2 ^ 16) with 65536. change (2 ^ 8) with 256. change (2 ^ 0) with 1. change (2 ^ 48) with 281474976710656 in H.
  Z.div_mod_to_equations. lia.
Qed.

Lemma take_time_bytes ms raw : take 4 (id_bytes ms raw) ++ take 2 (drop 4 (id_bytes ms raw)) = time_bytes ms.
Proof. reflexivity. Qed.

(* ------------------------------------------------------------------ *)
(** ** What [newIDAt] makes *)

Lemma newIDAt_Ok now entropy id :
  newIDAt now entropy = Ok id ↔
  0 <= Time_UnixMilli now < 2 ^ 48 ∧ (16 <= length entropy)%nat ∧
  id = id_text (id_bytes (Time_UnixMilli now) (take 16 entropy)).
Proof.
  unfold newIDAt, io_ReadFull. pose proof (wrap64_range ((now - unix_epoch) / 10 ^ 6)) as Hm.
  fold (Time_UnixMilli now) in Hm. set (m := Time_UnixMilli now) in *. unfold_int64.
  destruct (m <? 0) eqn:E; simpl_bool; [cbn; split; [discriminate | lia]|].
  rewrite wrapu64_id by (unfold_int64; lia). cbn [orb].
  destruct (2 ^ 48 <=? m) eqn:E2; simpl_bool; [split; [discriminate | lia]|].
  case_decide; cbn [wrapf mbind result_bind]; [|split; [discriminate | lia]].
  split; [intros [= <-]; split_and!; (done || lia) | by intros (_ & _ & ->)].
Qed.

Lemma newIDAt_parses now entropy id :
  Forall is_byte entropy → newIDAt now entropy = Ok id → ParseID id = Ok id.
Proof.
  rewrite newIDAt_Ok. intros Hb (Hm & Hl & ->).
  set (m := Time_UnixMilli now) in *. set (e := take 16 entropy).
  assert (length e = 16%nat) as He by (unfold e; rewrite length_take; lia).
  assert (Forall is_byte e) as Hbe by (by apply Forall_take).
  destruct (id_bytes_spec m e He Hbe) as [Hl' Hb'].
  unfold ParseID. rewrite (id_text_decode _ Hl' Hb').
  destruct (id_text_groups _ Hl') as (-> & _ & _ & _ & _ & _ & -> & -> & -> & ->).
  unfold id_bytes. cbn [nth app].
  rewrite (proj1 (version_byte_spec _ (nth_is_byte 6 e Hbe))),
    (proj1 (variant_byte_spec _ (nth_is_byte 8 e Hbe))). reflexivity.
Qed.

Lemma newIDAt_Validate now entropy id :
  Forall is_byte entropy → newIDAt now entropy = Ok id → ID_Validate id = Ok tt.
Proof. intros Hb H. apply ID_Validate_Ok. by eapply newIDAt_parses. Qed.

Lemma NewID_Validate now entropy id :
  Forall is_byte entropy → NewID now entropy = Ok id → ID_Validate id = Ok tt.
Proof. apply newIDAt_Validate. Qed.

Lemma newIDAt_millis now entropy id :
  Forall is_byte entropy → newIDAt now entropy = Ok id → id_millis id = Some (Time_UnixMilli now).
Proof.
  rewrite newIDAt_Ok. intros Hb (Hm & Hl & ->). set (m := Time_UnixMilli now) in *.
  destruct (id_bytes_spec m (take 16 entropy)) as [Hl' Hb'];
    [rewrite length_take; lia | by apply Forall_take|].
  destruct (id_text_groups _ Hl') as (_ & H1 & H2 & _). unfold id_millis.
  rewrite H1, H2, <-hex_Encode_app, take_time_bytes, hex_Decode_Encode;
    [|rewrite <-(take_time_bytes m (take 16 entropy)); apply Forall_app;
      split; [|apply Forall_take]; by (apply Forall_take || apply Forall_drop)].
  by rewrite be_word_time_bytes.
Qed.

(* ------------------------------------------------------------------ *)
(** ** Text order *)

(** Go's [<] on strings: bytewise lexicographic. *)
Definition string_lt (s t : string) : bool := String.ltb s t.

Fixpoint lex_lt (l1 l2 : list Z) : bool :=
  match l1, l2 with
  | [], [] => false
  | [], _ :: _ => true
  | _ :: _, [] => false
  | a :: l1', b :: l2' => (a <? b) || ((a =? b) && lex_lt l1' l2')
  end.

Lemma string_lt_lex s t : string_lt s t = lex_lt (bytes_of_string s) (bytes_of_string t).
Proof.
  unfold string_lt, String.ltb. revert t. induction s as [|a s IH]; intros [|b t]; try done.
  cbn [String.compare bytes_of_string lex_lt]. unfold Ascii.compare. rewrite <-IH. unfold byte_of.
  destruct (N.compare_spec (N_of_ascii a) (N_of_ascii b)) as [E|E|E].
  - rewrite E, Z.ltb_irrefl, Z.eqb_refl. by destruct (String.compare s t).
  - by rewrite (proj2 (Z.ltb_lt _ _)) by lia.
  - rewrite (proj2 (Z.ltb_ge _ _)), (proj2 (Z.eqb_neq _ _)) by lia. done.
Qed.

Lemma lex_lt_irrefl l : lex_lt l l = false.
Proof. induction l as [|a l IH]; [done|]. cbn. by rewrite Z.ltb_irrefl, Z.eqb_refl, IH. Qed.

Lemma lex_lt_trans l1 l2 l3 : lex_lt l1 l2 = true → lex_lt l2 l3 = true → lex_lt l1 l3 = true.
Proof.
  revert l2 l3. induction l1 as [|a l1 IH]; intros [|b l2] [|c l3]; try done. cbn.
  rewrite !orb_true_iff, !andb_true_iff, !Z.ltb_lt, !Z.eqb_eq.
  intros [?|[-> H1]] [?|[-> H2]]; [left; lia | left; lia | left; lia | right; split; [done | by eapply IH]].
Qed.

Lemma string_lt_irrefl s : string_lt s s = false.
Proof. rewrite string_lt_lex. apply lex_lt_irrefl. Qed.

Lemma string_lt_trans s t u : string_lt s t = true → string_lt t u = true → string_lt s u = true.
Proof. rewrite !string_lt_lex. apply lex_lt_trans. Qed.

Lemma lex_lt_total l1 l2 : lex_lt l1 l2 = true ∨ l1 = l2 ∨ lex_lt l2 l1 = true.
Proof.
  revert l2. induction l1 as [|a l1 IH]; intros [|b l2]; cbn; auto.
  destruct (Z.lt_trichotomy a b) as [?|[->|?]].
  - left. by rewrite (proj2 (Z.ltb_lt _ _)).
  - rewrite Z.ltb_irrefl, Z.eqb_refl. destruct (IH l2) as [->|[->| ->]]; auto.
  - right; right. by rewrite (proj2 (Z.ltb_lt _ _)).
Qed.

Lemma bytes_of_string_inj s t : bytes_of_string s = bytes_of_string t → s = t.
Proof.
  revert t. induction s as [|a s IH]; intros [|b t]; try done. cbn. intros [= Hab H].
  apply IH in H as ->. f_equal. unfold byte_of in Hab. apply N2Z.inj in Hab.
  by rewrite <-(ascii_N_embedding a), Hab, ascii_N_embedding.
Qed.

Lemma string_lt_total s t : string_lt s t = true ∨ s = t ∨ string_lt t s = true.
Proof.
  rewrite !string_lt_lex. destruct (lex_lt_total (bytes_of_string s) (bytes_of_string t)) as [?|[H|?]]; auto.
  right; left. by apply bytes_of_string_inj.
Qed.

Lemma lex_lt_app l1 l2 k1 k2 :
  length l1 = length l2 →
  lex_lt (l1 ++ k1) (l2 ++ k2) = lex_lt l1 l2 || (bool_decide (l1 = l2) && lex_lt k1 k2).
Proof.
  revert l2. induction l1 as [|a l1 IH]; intros [|b l2] Hl; try discriminate.
  { cbn [app lex_lt]. by rewrite bool_decide_true. }
  cbn [app lex_lt]. rewrite IH by (cbn in Hl; lia).
  destruct (Z.ltb_spec a b), (Z.eqb_spec a b); subst; cbn [orb andb]; try done.
  - case_bool_decide; case_bool_decide; naive_solver.
  - rewrite bool_decide_false by congruence. done.
Qed.

Lemma bytes_of_string_append (s t : string) :
  bytes_of_string (s +:+ t) = bytes_of_string s ++ bytes_of_string t.
Proof. induction s as [|a s IH]; [done|]. simpl_append. cbn. by rewrite IH. Qed.

Lemma length_bytes_of_string (s : string) : length (bytes_of_string s) = String.length s.
Proof. induction s as [|a s IH]; cbn; congruence. Qed.

Lemma string_lt_prefix (s1 s2 t1 t2 : string) :
  String.length s1 = String.length s2 → string_lt s1 s2 = true →
  string_lt (s1 +:+ t1) (s2 +:+ t2) = true.
Proof.
  rewrite !string_lt_lex, !bytes_of_string_append. intros Hl H.
  rewrite lex_lt_app, H by (by rewrite !length_bytes_of_string). done.
Qed.

Lemma string_lt_same (s t1 t2 : string) : string_lt t1 t2 = true → string_lt (s +:+ t1) (s +:+ t2) = true.
Proof.
  rewrite !string_lt_lex, !bytes_of_string_append. intros H.
  rewrite lex_lt_app, bool_decide_true, H by done. by rewrite orb_true_r.
Qed.

(** The character codes of the two digits of a byte. *)
Definition digit_code (v : Z) : Z := if v <? 10 then 48 + v else 87 + v.
Definition digit_codes_ok (b : Z) : bool :=
  (byte_of (hex_digit (b / 16)) =? digit_code (b / 16)) &&
  (byte_of (hex_digit (b mod 16)) =? digit_code (b mod 16)).

Lemma digit_codes_all : forallb digit_codes_ok all_bytes = true.
Proof. vm_compute. reflexivity. Qed.

Lemma bytes_of_hex_byte b :
  is_byte b → bytes_of_string (hex_Encode [b]) = [digit_code (b / 16); digit_code (b mod 16)].
Proof.
  intros Hb. pose proof (for_all_bytes _ digit_codes_all b Hb) as H.
  apply andb_true_iff in H as [H1%Z.eqb_eq H2%Z.eqb_eq].
  cbn [hex_Encode bytes_of_string]. by rewrite H1, H2.
Qed.

(** Hexadecimal digits are in the order of their values. *)
Lemma hex_byte_lt a b : is_byte a → is_byte b → a < b → string_lt (hex_Encode [a]) (hex_Encode [b]) = true.
Proof.
  intros Ha Hb Hlt. rewrite string_lt_lex, !bytes_of_hex_byte by done. cbn [lex_lt].
  unfold digit_code, is_byte in *.
  pose proof (Z.div_mod a 16). pose proof (Z.div_mod b 16).
  pose proof (Z.mod_pos_bound a 16). pose proof (Z.mod_pos_bound b 16).
  destruct (Z.ltb_spec (a / 16) 10), (Z.ltb_spec (b / 16) 10), (Z.ltb_spec (a mod 16) 10),
    (Z.ltb_spec (b mod 16) 10); simpl_bool; lia.
Qed.

Lemma hex_Encode_lt l1 l2 :
  length l1 = length l2 → Forall is_byte l1 → Forall is_byte l2 →
  lex_lt l1 l2 = true → string_lt (hex_Encode l1) (hex_Encode l2) = true.
Proof.
  revert l2. induction l1 as [|a l1 IH]; intros [|b l2] Hl H1 H2; try discriminate.
  apply Forall_cons in H1 as [Ha H1], H2 as [Hb H2]. cbn in Hl.
  change (a :: l1) with ([a] ++ l1). change (b :: l2) with ([b] ++ l2). rewrite !hex_Encode_app.
  cbn [app lex_lt]. intros [H|H]%orb_true_iff.
  - apply string_lt_prefix; [done|]. apply Z.ltb_lt in H. by apply hex_byte_lt.
  - apply andb_true_iff in H as [->%Z.eqb_eq H]. apply string_lt_same, IH; (done || lia).
Qed.

Lemma lex_lt_be_word l1 l2 :
  length l1 = length l2 → Forall is_byte l1 → Forall is_byte l2 →
  be_word l1 < be_word l2 → lex_lt l1 l2 = true.
Proof.
  assert (∀ l acc, fold_left (fun acc b => 256 * acc + b) l acc
    = acc * 256 ^ Z.of_nat (length l) + be_word l) as Hf.
  { induction l as [|b l IHl]; intros acc; cbn [fold_left length]; [unfold be_word; cbn; lia|].
    rewrite IHl. unfold be_word at 2. cbn [fold_left]. rewrite IHl, Nat2Z.inj_succ, Z.pow_succ_r by lia. lia. }
  assert (∀ l, Forall is_byte l → 0 <= be_word l < 256 ^ Z.of_nat (length l)) as Hr.
  { induction 1 as [|b l Hb _ IHl]; [unfold be_word; cbn; lia|].
    unfold be_word. cbn [fold_left length]. rewrite Hf, Nat2Z.inj_succ, Z.pow_succ_r by lia.
    unfold is_byte in Hb. nia. }
  revert l2. induction l1 as [|a l1 IH]; intros [|b l2] Hl H1 H2; try discriminate.
  apply Forall_cons in H1 as [Ha H1], H2 as [Hb H2]. cbn in Hl.
  assert (∀ x l, be_word (x :: l) = x * 256 ^ Z.of_nat (length l) + be_word l) as Hc.
  { intros x l. unfold be_word at 1. cbn [fold_left]. rewrite Hf. lia. }
  rewrite !Hc. intros H. cbn [lex_lt]. apply orb_true_iff.
  pose proof (Hr _ H1). pose proof (Hr _ H2). injection Hl as Hl. rewrite Hl in *.
  destruct (Z.lt_trichotomy a b) as [?|[->|?]].
  - left. by apply Z.ltb_lt.
  - right. rewrite Z.eqb_refl. apply IH; (done || lia).
  - nia.
Qed.

Lemma newIDAt_ordered now1 now2 entropy1 entropy2 id1 id2 :
  Forall is_byte entropy1 → Forall is_byte entropy2 →
  newIDAt now1 entropy1 = Ok id1 → newIDAt now2 entropy2 = Ok id2 →
  Time_UnixMilli now1 < Time_UnixMilli now2 → string_lt id1 id2 = true.
Proof.
  rewrite !newIDAt_Ok. intros Hb1 Hb2 (Hm1 & Hl1 & ->) (Hm2 & Hl2 & ->) Hlt.
  revert Hm1 Hm2 Hlt. generalize (Time_UnixMilli now1) as m1, (Time_UnixMilli now2) as m2.
  intros m1 m2 Hm1 Hm2 Hlt.
  assert (lex_lt (time_bytes m1) (time_bytes m2) = true) as Hlex.
  { apply lex_lt_be_word; rewrite ?be_word_time_bytes by done; [done| | |done];
    unfold time_bytes; rewrite ?Forall_cons, ?Forall_nil;
    repeat match goal with |- _ ∧ _ => split end; try exact I; by apply shift_byte_is_byte. }
  assert (∀ m e, take 4 (id_bytes m e) = take 4 (time_bytes m)) as E1 by done.
  assert (∀ m e, take 2 (drop 4 (id_bytes m e)) = drop 4 (time_bytes m)) as E2 by done.
  unfold id_text. rewrite !E1, !E2.
  assert (∀ m, Forall is_byte (time_bytes m)) as Htb.
  { intros m. unfold time_bytes; rewrite ?Forall_cons, ?Forall_nil;
    repeat match goal with |- _ ∧ _ => split end; try exact I; by apply shift_byte_is_byte. }
  rewrite <-(take_drop 4 (time_bytes m1)), <-(take_drop 4 (time_bytes m2)), lex_lt_app in Hlex by done.
  apply orb_true_iff in Hlex as [H|[->%bool_decide_eq_true H]%andb_true_iff].
  - apply string_lt_prefix; [by rewrite !length_hex_Encode|].
    apply hex_Encode_lt; [done | by apply Forall_take, Htb.. | done].
  - apply string_lt_same, string_lt_same, string_lt_prefix; [by rewrite !length_hex_Encode|].
    apply hex_Encode_lt; [done | by apply Forall_drop, Htb.. | done].
Qed.

(* ------------------------------------------------------------------ *)
(** ** Properties *)

(** Generated identifiers are valid UUIDv7 texts, accepted by [ParseID] and
    [ID.Validate], that carry the creation time; generation fails exactly when
    the time is outside the 48 bit range or the reader has fewer than 16 bytes. *)
Theorem newIDAt_sound now entropy :
  Forall is_byte entropy →
  (is_ok (newIDAt now entropy) = true ↔
     0 <= Time_UnixMilli now < 2 ^ 48 ∧ (16 <= length entropy)%nat) ∧
  ∀ id, newIDAt now entropy = Ok id →
    ParseID id = Ok id ∧ ID_Validate id = Ok tt ∧ String.length id = 36%nat ∧
    id_millis id = Some (Time_UnixMilli now).
Proof.
  intros Hb. split.
  - rewrite is_ok_true. setoid_rewrite newIDAt_Ok. naive_solver.
  - intros id H. pose proof (newIDAt_Validate _ _ _ Hb H) as Hv.
    split_and!; [by eapply newIDAt_parses | done | by apply ID_Validate_length | by eapply newIDAt_millis].
Qed.

Example newIDAt_sound_witness :
  newIDAt (unix_epoch + 1700000000123 * 10 ^ 6) (repeat 0xab 20)
    = Ok "018bcfe5-687b-7bab-abab-abababababab" ∧
  ParseID "018bcfe5-687b-7bab-abab-abababababab" = Ok "018bcfe5-687b-7bab-abab-abababababab".
Proof.
  assert (newIDAt (unix_epoch + 1700000000123 * 10 ^ 6) (repeat 0xab 20)
    = Ok "018bcfe5-687b-7bab-abab-abababababab") as E by (vm_compute; reflexivity).
  split; [exact E|].
  refine (proj1 (proj2 (newIDAt_sound _ (repeat 0xab 20) _) _ E)).
  repeat (constructor; [unfold is_byte; lia|]). constructor.
Defined.

(** The text of identifiers sorts by creation time: an identifier of an earlier
    millisecond is below every identifier of a later one. *)
Theorem newIDAt_text_order now1 now2 entropy1 entropy2 id1 id2 :
  Forall is_byte entropy1 → Forall is_byte entropy2 →
  newIDAt now1 entropy1 = Ok id1 → newIDAt now2 entropy2 = Ok id2 →
  Time_UnixMilli now1 < Time_UnixMilli now2 → string_lt id1 id2 = true.
Proof. apply newIDAt_ordered. Qed.

Example newIDAt_text_order_witness :
  string_lt (id_text (id_bytes 1 (repeat 0xff 16))) (id_text (id_bytes 2 (repeat 0 16))) = true.
Proof.
  apply (newIDAt_text_order (unix_epoch + 1 * 10 ^ 6) (unix_epoch + 2 * 10 ^ 6) (repeat 0xff 16) (repeat 0 16)).
  1, 2: repeat (constructor; [unfold is_byte; lia|]); constructor.
  all: vm_compute; reflexivity.
Defined.
