(* ===== verification/Domain.v ===== *)
(** * The domain types: src/domain.go

    Go's enumerated string types are strings with named constants, as in the
    source: any string is a value of the type, [Validate] says which are good. *)

From Stdlib Require Import ZArith Lia.
From S2P Require Import Prelude GoNum GoText Ident.

(* ------------------------------------------------------------------ *)
(** ** Zone, Classification *)

Abbreviation Zone := string (only parsing).
Definition ZonePersonal : Zone := "personal".
Definition ZoneSelfCloud : Zone := "self_cloud".
Definition ZoneManagedCloud : Zone := "managed_cloud".

(** [switch s { case c1, c2, ...: return nil; default: error }] *)
Definition one_of (cases : list string) (s : string) (text : string) : result unit :=
  require (existsb (String.eqb s) cases) text.

Definition Zone_Validate (z : Zone) : result unit :=
  one_of [ZonePersonal; ZoneSelfCloud; ZoneManagedCloud] z "unknown zone".

Abbreviation Classification := string (only parsing).
Definition ClassPublic : Classification := "public".
Definition ClassInternal : Classification := "internal".
Definition ClassConfidential : Classification := "confidential".
Definition ClassSecret : Classification := "secret".

Definition Classification_Validate (c : Classification) : result unit :=
  one_of [ClassPublic; ClassInternal; ClassConfidential; ClassSecret] c "unknown classification".

(* ------------------------------------------------------------------ *)
(** ** Budget *)

(** Millionths of a dollar, an [int64]. *)
Abbreviation CostMicros := Z (only parsing).

Record Budget : Type := {
  MaxSteps : Z;
  MaxInputTokens : Z;
  MaxOutputTokens : Z;
  MaxModelCalls : Z;
  MaxToolCalls : Z;
  MaxChildSteps : Z;
  MaxCost : CostMicros;
  MaxWallTime : Z;
}.

#[global] Instance Budget_eq_dec : EqDecision Budget.
Proof. solve_decision. Defined.

Definition Budget_Validate (b : Budget) : result unit :=
  if (MaxSteps b <? 0) || (MaxInputTokens b <? 0) || (MaxOutputTokens b <? 0) ||
     (MaxModelCalls b <? 0) || (MaxToolCalls b <? 0) || (MaxChildSteps b <? 0) ||
     (MaxCost b <? 0) || (MaxWallTime b <? 0)
  then Err (errors_New "budget values cannot be negative") else Ok tt.

Definition zero_Budget : Budget :=
  {| MaxSteps := 0; MaxInputTokens := 0; MaxOutputTokens := 0; MaxModelCalls := 0;
     MaxToolCalls := 0; MaxChildSteps := 0; MaxCost := 0; MaxWallTime := 0 |}.

Lemma Budget_Validate_Ok b u :
  Budget_Validate b = Ok u ↔
  0 <= MaxSteps b ∧ 0 <= MaxInputTokens b ∧ 0 <= MaxOutputTokens b ∧ 0 <= MaxModelCalls b ∧
  0 <= MaxToolCalls b ∧ 0 <= MaxChildSteps b ∧ 0 <= MaxCost b ∧ 0 <= MaxWallTime b.
Proof.
  unfold Budget_Validate. destruct u. case_match eqn:E; simpl_bool.
  - split; [discriminate | lia].
  - split; [lia | done].
Qed.

(* ------------------------------------------------------------------ *)
(** ** Workload *)

Abbreviation WorkloadState := string (only parsing).
Definition WorkloadCreated : WorkloadState := "created".
Definition WorkloadRunning : WorkloadState := "running".
Definition WorkloadWaiting : WorkloadState := "waiting".
Definition WorkloadSucceeded : WorkloadState := "succeeded".
Definition WorkloadFailed : WorkloadState := "failed".
Definition WorkloadCancelled : WorkloadState := "cancelled".

Definition workload_states : list WorkloadState :=
  [WorkloadCreated; WorkloadRunning; WorkloadWaiting; WorkloadSucceeded; WorkloadFailed; WorkloadCancelled].

Definition WorkloadState_Validate (s : WorkloadState) : result unit :=
  one_of workload_states s "unknown workload state".

Record Workload : Type := {
  Workload_ID : ID;
  Workload_SessionID : ID;
  Workload_Goal : string;
  Workload_State : WorkloadState;
  Workload_Budget : Budget;
  Workload_CreatedAt : Z;
  Workload_UpdatedAt : Z;
}.

#[global] Instance Workload_eq_dec : EqDecision Workload.
Proof. solve_decision. Defined.

(* ------------------------------------------------------------------ *)
(** ** Step *)

Abbreviation StepKind := string (only parsing).
Definition StepModelTurn : StepKind := "model_turn".
Definition StepTool : StepKind := "tool".
Definition StepDelegate : StepKind := "delegate".
Definition StepTransform : StepKind := "transform".
Definition StepVerify : StepKind := "verify".

Definition StepKind_Validate (k : StepKind) : result unit :=
  one_of [StepModelTurn; StepTool; StepDelegate; StepTransform; StepVerify] k "unknown step kind".

Abbreviation StepState := string (only parsing).
Definition StepPending : StepState := "pending".
Definition StepReady : StepState := "ready".
Definition StepLeased : StepState := "leased".
Definition StepRunning : StepState := "running".
Definition StepWaitingApproval : StepState := "waiting_approval".
Definition StepUncertain : StepState := "uncertain".
Definition StepSucceeded : StepState := "succeeded".
Definition StepFailed : StepState := "failed".
Definition StepCancelled : StepState := "cancelled".

Definition step_states : list StepState :=
  [StepPending; StepReady; StepLeased; StepRunning; StepWaitingApproval; StepUncertain;
   StepSucceeded; StepFailed; StepCancelled].

Definition StepState_Validate (s : StepState) : result unit :=
  one_of step_states s "unknown step state".

Record Requirements : Type := {
  Modalities : list string;
  RequiredTools : list string;
  MinContextTokens : Z;
  MinQualityClass : string;
  AllowedZones : list Zone;
  NativeToolUse : bool;
  StructuredOutput : bool;
}.

#[global] Instance Requirements_eq_dec : EqDecision Requirements.
Proof. solve_decision. Defined.

Definition zero_Requirements : Requirements :=
  {| Modalities := []; RequiredTools := []; MinContextTokens := 0; MinQualityClass := "";
     AllowedZones := []; NativeToolUse := false; StructuredOutput := false |}.

Definition Requirements_Validate (r : Requirements) : result unit :=
  require (negb (MinContextTokens r <? 0)) "minimum context tokens cannot be negative" ;;
  each (fun zone => wrapf "allowed zone" (Zone_Validate zone)) (AllowedZones r).

Record Step : Type := {
  Step_ID : ID;
  Step_WorkloadID : ID;
  Step_ParentStepID : ID;
  Step_Kind : StepKind;
  Step_State : StepState;
  Step_Requirements : Requirements;
  Step_Budget : Budget;
  Step_Attempt : Z;
  Step_IdempotencyKey : string;
  Step_CreatedAt : Z;
  Step_UpdatedAt : Z;
}.

#[global] Instance Step_eq_dec : EqDecision Step.
Proof. solve_decision. Defined.

(* ------------------------------------------------------------------ *)
(** ** Transitions *)

Definition ErrInvalidTransition : error := Sentinel "invalid state transition".

Definition CanTransitionWorkload (from to : WorkloadState) : bool :=
  if from =s WorkloadCreated then (to =s WorkloadRunning) || (to =s WorkloadCancelled)
  else if from =s WorkloadRunning then
    (to =s WorkloadWaiting) || (to =s WorkloadSucceeded) || (to =s WorkloadFailed) || (to =s WorkloadCancelled)
  else if from =s WorkloadWaiting then
    (to =s WorkloadRunning) || (to =s WorkloadFailed) || (to =s WorkloadCancelled)
  else false.

Definition CanTransitionStep (from to : StepState) : bool :=
  if from =s StepPending then (to =s StepReady) || (to =s StepCancelled)
  else if from =s StepReady then
    (to =s StepLeased) || (to =s StepFailed) || (to =s StepCancelled)
  else if from =s StepLeased then
    (to =s StepRunning) || (to =s StepReady) || (to =s StepUncertain) || (to =s StepCancelled)
  else if from =s StepRunning then
    (to =s StepSucceeded) || (to =s StepFailed) || (to =s StepWaitingApproval) || (to =s StepUncertain) ||
    (to =s StepCancelled)
  else if from =s StepWaitingApproval then
    (to =s StepRunning) || (to =s StepFailed) || (to =s StepCancelled)
  else if from =s StepUncertain then
    (to =s StepSucceeded) || (to =s StepFailed) || (to =s StepReady) || (to =s StepCancelled)
  else false.

(** [Workload.Transition]: the receiver is changed only on success. *)
Definition Workload_Transition (to : WorkloadState) (at_ : Z) : ST Workload unit := fun w =>
  if CanTransitionWorkload (Workload_State w) to
  then (Ok tt, {| w with Workload_State := to; Workload_UpdatedAt := Time_UTC at_ |})
  else (Err (Errorf "workload" [ErrInvalidTransition]), w).

Definition Step_Transition (to : StepState) (at_ : Z) : ST Step unit := fun s =>
  if CanTransitionStep (Step_State s) to
  then (Ok tt, {| s with Step_State := to; Step_UpdatedAt := Time_UTC at_ |})
  else (Err (Errorf "step" [ErrInvalidTransition]), s).

(** The terminal states: those [CanTransition] allows no way out of. *)
Definition workload_terminal (s : WorkloadState) : bool :=
  (s =s WorkloadSucceeded) || (s =s WorkloadFailed) || (s =s WorkloadCancelled).
Definition step_terminal (s : StepState) : bool :=
  (s =s StepSucceeded) || (s =s StepFailed) || (s =s StepCancelled).

(* ------------------------------------------------------------------ *)
(** ** The state machines as relations *)

(** One successful [Transition] of a workload. *)
Inductive workload_step : Workload → Workload → Prop :=
| workload_step_intro w to at_ w' :
    Workload_Transition to at_ w = (Ok tt, w') → workload_step w w'.

Inductive step_step : Step → Step → Prop :=
| step_step_intro s to at_ s' :
    Step_Transition to at_ s = (Ok tt, s') → step_step s s'.

Lemma one_of_Ok cases s t u : one_of cases s t = Ok u ↔ s ∈ cases.
Proof.
  unfold one_of. rewrite require_Ok, existsb_exists, list_elem_of_In.
  setoid_rewrite String.eqb_eq. naive_solver.
Qed.

#[export] Hint Rewrite one_of_Ok : go_ok.

Ltac solve_transition :=
  repeat match goal with
  | H : (if ?c =s ?d then _ else _) = true |- _ => destruct (String.eqb_spec c d); [subst c|]
  | H : (_ || _) = true |- _ => apply orb_true_iff in H as [H|H]
  | H : (_ =s _) = true |- _ => apply String.eqb_eq in H; subst
  | H : false = true |- _ => discriminate H
  end.

Lemma CanTransitionWorkload_valid from to :
  CanTransitionWorkload from to = true → from ∈ workload_states ∧ to ∈ workload_states.
Proof.
  unfold CanTransitionWorkload. intros H. solve_transition; split; vm_compute; repeat constructor.
Qed.

Lemma CanTransitionStep_valid from to :
  CanTransitionStep from to = true → from ∈ step_states ∧ to ∈ step_states.
Proof. unfold CanTransitionStep. intros H. solve_transition; split; vm_compute; repeat constructor. Qed.

Lemma CanTransitionWorkload_terminal s :
  s ∈ workload_states → workload_terminal s = true ↔ ∀ to, CanTransitionWorkload s to = false.
Proof.
  intros Hs. unfold workload_states in Hs. rewrite !elem_of_cons, elem_of_nil in Hs.
  destruct Hs as [->|[->|[->|[->|[->|[->|[]]]]]]]; (split; [try discriminate; done|]);
    intros H; try done; by specialize (H WorkloadCancelled).
Qed.

Lemma CanTransitionStep_terminal s :
  s ∈ step_states → step_terminal s = true ↔ ∀ to, CanTransitionStep s to = false.
Proof.
  intros Hs. unfold step_states in Hs. rewrite !elem_of_cons, elem_of_nil in Hs.
  destruct Hs as [->|[->|[->|[->|[->|[->|[->|[->|[->|[]]]]]]]]]]; (split; [try discriminate; done|]);
    intros H; try done; by specialize (H StepCancelled).
Qed.

Lemma Workload_Transition_Ok to at_ w w' :
  Workload_Transition to at_ w = (Ok tt, w') ↔
  CanTransitionWorkload (Workload_State w) to = true ∧
  w' = {| w with Workload_State := to; Workload_UpdatedAt := at_ |}.
Proof. unfold Workload_Transition. case_match; naive_solver. Qed.

Lemma Step_Transition_Ok to at_ s s' :
  Step_Transition to at_ s = (Ok tt, s') ↔
  CanTransitionStep (Step_State s) to = true ∧
  s' = {| s with Step_State := to; Step_UpdatedAt := at_ |}.
Proof. unfold Step_Transition. case_match; naive_solver. Qed.

(* ------------------------------------------------------------------ *)
(** ** Properties *)

(** Along any sequence of successful transitions of a workload, its identity,
    goal, budget and creation time are kept and its state stays one of the six
    named states; a workload in a terminal state has no successful transition
    at all, and every other one can be cancelled. *)
Theorem workload_lifecycle w w' :
  Workload_State w ∈ workload_states → rtc workload_step w w' →
  Workload_State w' ∈ workload_states ∧
  (Workload_ID w', Workload_SessionID w', Workload_Goal w', Workload_Budget w', Workload_CreatedAt w')
    = (Workload_ID w, Workload_SessionID w, Workload_Goal w, Workload_Budget w, Workload_CreatedAt w) ∧
  (workload_terminal (Workload_State w) = true → w' = w) ∧
  (workload_terminal (Workload_State w') = true ↔ ¬ ∃ w'', workload_step w' w'') ∧
  (workload_terminal (Workload_State w') = false →
   CanTransitionWorkload (Workload_State w') WorkloadCancelled = true).
Proof.
  intros Hw Hr.
  assert (∀ v, Workload_State v ∈ workload_states →
    (workload_terminal (Workload_State v) = true ↔ ¬ ∃ v', workload_step v v')) as Hterm.
  { intros v Hv. rewrite CanTransitionWorkload_terminal by done. split.
    - intros H [v' Hs]. inversion Hs as [? ? ? ? [Hc _]%Workload_Transition_Ok]; subst. by rewrite H in Hc.
    - intros H to. apply not_true_is_false. intros Hc. apply H. eexists.
      apply workload_step_intro with to 0. by apply Workload_Transition_Ok. }
  assert (Workload_State w' ∈ workload_states ∧ (Workload_ID w', Workload_SessionID w', Workload_Goal w',
    Workload_Budget w', Workload_CreatedAt w') = (Workload_ID w, Workload_SessionID w, Workload_Goal w,
    Workload_Budget w, Workload_CreatedAt w)) as [Hv Hk].
  { induction Hr as [|w w1 w2 Hs _ IH]; [done|].
    inversion Hs as [? to ? ? [Hc ->]%Workload_Transition_Ok]; subst.
    by destruct IH as [IH1 IH2]; [apply CanTransitionWorkload_valid in Hc as [_ Hc]|]. }
  split_and!; [done | done | | by apply Hterm |].
  - intros Ht. destruct Hr as [|w w1 w2 Hs Hr]; [done|]. apply Hterm in Ht; [|done]. destruct Ht. eauto.
  - intros Ht. unfold workload_states in Hv. rewrite !elem_of_cons, elem_of_nil in Hv.
    by destruct Hv as [E|[E|[E|[E|[E|[E|[]]]]]]]; rewrite E in *.
Qed.

(** The same for steps, whose nine states include approval and uncertainty. *)
Theorem step_lifecycle s s' :
  Step_State s ∈ step_states → rtc step_step s s' →
  Step_State s' ∈ step_states ∧
  s' = {| s with Step_State := Step_State s'; Step_UpdatedAt := Step_UpdatedAt s' |} ∧
  (step_terminal (Step_State s) = true → s' = s) ∧
  (step_terminal (Step_State s') = true ↔ ¬ ∃ s'', step_step s' s'') ∧
  (step_terminal (Step_State s') = false →
   CanTransitionStep (Step_State s') StepCancelled = true).
Proof.
  intros Hw Hr.
  assert (∀ v, Step_State v ∈ step_states →
    (step_terminal (Step_State v) = true ↔ ¬ ∃ v', step_step v v')) as Hterm.
  { intros v Hv. rewrite CanTransitionStep_terminal by done. split.
    - intros H [v' Hs]. inversion Hs as [? ? ? ? [Hc _]%Step_Transition_Ok]; subst. by rewrite H in Hc.
    - intros H to. apply not_true_is_false. intros Hc. apply H. eexists.
      apply step_step_intro with to 0. by apply Step_Transition_Ok. }
  assert (Step_State s' ∈ step_states ∧
    s' = {| s with Step_State := Step_State s'; Step_UpdatedAt := Step_UpdatedAt s' |}) as [Hv Hk].
  { induction Hr as [s|s s1 s2 Hs _ IH]; [by destruct s|].
    inversion Hs as [? to ? ? [Hc ->]%Step_Transition_Ok]; subst.
    by destruct IH as [IH1 IH2]; [apply CanTransitionStep_valid in Hc as [_ Hc]|]. }
  split_and!; [done | done | | by apply Hterm |].
  - intros Ht. destruct Hr as [|s s1 s2 Hs Hr]; [done|]. apply Hterm in Ht; [|done]. destruct Ht. eauto.
  - intros Ht. unfold step_states in Hv. rewrite !elem_of_cons, elem_of_nil in Hv.
    by destruct Hv as [E|[E|[E|[E|[E|[E|[E|[E|[E|[]]]]]]]]]]; rewrite E in *.
Qed.

Definition example_workload (s : WorkloadState) (t : Z) : Workload :=
  {| Workload_ID := "w"; Workload_SessionID := "s"; Workload_Goal := "g"; Workload_State := s;
     Workload_Budget := zero_Budget; Workload_CreatedAt := 1; Workload_UpdatedAt := t |}.

Example workload_lifecycle_witness :
  workload_terminal (Workload_State (example_workload WorkloadSucceeded 3)) = true ↔
  ¬ ∃ w'', workload_step (example_workload WorkloadSucceeded 3) w''.
Proof.
  refine (proj1 (proj2 (proj2 (proj2
    (workload_lifecycle (example_workload WorkloadCreated 1) (example_workload WorkloadSucceeded 3) _ _))))).
  - vm_compute. constructor.
  - eapply rtc_l; [by apply (workload_step_intro _ WorkloadRunning 2)|].
    eapply rtc_l; [by apply (workload_step_intro _ WorkloadSucceeded 3)|]. apply rtc_refl.
Defined.

Definition example_step (s : StepState) (t : Z) : Step :=
  {| Step_ID := "i"; Step_WorkloadID := "w"; Step_ParentStepID := ""; Step_Kind := StepTool; Step_State := s;
     Step_Requirements := zero_Requirements; Step_Budget := zero_Budget; Step_Attempt := 1;
     Step_IdempotencyKey := "k"; Step_CreatedAt := 1; Step_UpdatedAt := t |}.

Example step_lifecycle_witness :
  Step_State (example_step StepUncertain 3) ∈ step_states.
Proof.
  refine (proj1 (step_lifecycle (example_step StepReady 1) (example_step StepUncertain 3) _ _)).
  - vm_compute. repeat constructor.
  - eapply rtc_l; [by apply (step_step_intro _ StepLeased 2)|].
    eapply rtc_l; [by apply (step_step_intro _ StepUncertain 3)|]. apply rtc_refl.
Defined.
