(* ===== verification/Event.v ===== *)
(** * Events: src/event.go

    Aggregate references, drafts and events with their validation, and
    [NewEvent], which reads the clock and the entropy source of the process. *)

From Stdlib Require Import ZArith Lia.
From S2P Require Import Prelude GoNum GoText GoJson GoHash Ident.

(* ------------------------------------------------------------------ *)
(** ** The world: what [time.Now] and [rand.Reader] return

    The n-th observation of either is the value at n; [tick] counts them. *)

Record World : Type := {
  clock : nat → Z;
  entropy : nat → list Z;
  tick : nat;
}.

(** [time.Now()] *)
Definition time_Now : ST World Z := fun w =>
  (Ok (clock w (tick w)), {| w with tick := S (tick w) |}).

(** [NewID()]: one reading of the clock and one of the entropy source. *)
Definition NewID_now : ST World ID := fun w =>
  (NewID (clock w (tick w)) (entropy w (tick w)), {| w with tick := S (tick w) |}).

(** The entropy source delivers bytes. *)
Definition world_ok (w : World) : Prop := ∀ n, Forall is_byte (entropy w n).

(* ------------------------------------------------------------------ *)
(** ** AggregateRef *)

Record AggregateRef : Type := { Ref_Type : string; Ref_ID : ID }.

#[global] Instance AggregateRef_eq_dec : EqDecision AggregateRef.
Proof. solve_decision. Defined.

Definition AggregateRef_Validate (r : AggregateRef) : result unit :=
  require (negb (Ref_Type r =s "")) "aggregate type is required" ;;
  wrapf "aggregate ID" (ID_Validate (Ref_ID r)).

(* ------------------------------------------------------------------ *)
(** ** EventDraft *)

Record EventDraft : Type := {
  Draft_Type : string;
  Draft_SchemaVersion : Z;
  Draft_CausationID : ID;
  Draft_CorrelationID : ID;
  Draft_AttemptID : ID;
  Draft_Payload : bytes;
}.

#[global] Instance EventDraft_eq_dec : EqDecision EventDraft.
Proof. solve_decision. Defined.

(** The schema version is a uint32. *)
Definition max_uint32 : Z := 2 ^ 32 - 1.
Definition draft_typed (d : EventDraft) : Prop := 0 <= Draft_SchemaVersion d <= max_uint32.

(** The optional identifiers, in the order the map literal lists them. *)
Definition draft_ids (d : EventDraft) : list (string * ID) :=
  [("causation ID", Draft_CausationID d); ("correlation ID", Draft_CorrelationID d);
   ("attempt ID", Draft_AttemptID d)].

(** The body of the loop over the map of identifiers. *)
Definition draft_id_check (entry : string * ID) : result unit :=
  when (negb (ID_IsZero entry.2)) (wrapf entry.1 (ID_Validate entry.2)).

(** [EventDraft.Validate], the map being iterated in the order of [ids]. *)
Definition EventDraft_Validate_in (ids : list (string * ID)) (d : EventDraft) : result unit :=
  require (negb (Draft_Type d =s "")) "event type is required" ;;
  require (negb (Draft_SchemaVersion d =? 0)) "event schema version must be positive" ;;
  require (negb ((Z.of_nat (String.length (Draft_Payload d)) =? 0) || negb (json_Valid (Draft_Payload d))))
    "event payload must be valid JSON" ;;
  each draft_id_check ids.

Definition EventDraft_Validate (d : EventDraft) : result unit := EventDraft_Validate_in (draft_ids d) d.

(* ------------------------------------------------------------------ *)
(** ** Event *)

Record Event : Type := {
  Event_ID : ID;
  Event_Aggregate : AggregateRef;
  Event_Sequence : Z;
  Event_Type : string;
  Event_SchemaVersion : Z;
  Event_CausationID : ID;
  Event_CorrelationID : ID;
  Event_AttemptID : ID;
  Event_OccurredAt : Z;
  Event_Payload : bytes;
  Event_PayloadSHA256 : string;
}.

#[global] Instance Event_eq_dec : EqDecision Event.
Proof. solve_decision. Defined.

(** The event a draft becomes. *)
Definition make_event (id : ID) (ref : AggregateRef) (sequence : Z) (draft : EventDraft) (occurredAt : Z) : Event :=
  {| Event_ID := id;
     Event_Aggregate := ref;
     Event_Sequence := sequence;
     Event_Type := Draft_Type draft;
     Event_SchemaVersion := Draft_SchemaVersion draft;
     Event_CausationID := Draft_CausationID draft;
     Event_CorrelationID := Draft_CorrelationID draft;
     Event_AttemptID := Draft_AttemptID draft;
     Event_OccurredAt := Time_UTC occurredAt;
     Event_Payload := Draft_Payload draft;
     Event_PayloadSHA256 := sha256_hex (Draft_Payload draft) |}.

Definition NewEvent (ref : AggregateRef) (sequence : Z) (draft : EventDraft) (occurredAt : Z) : ST World Event :=
  st_lift (AggregateRef_Validate ref) ;;
  st_lift (require (negb (sequence =? 0)) "event sequence must be positive") ;;
  st_lift (EventDraft_Validate draft) ;;
  st_lift (require (negb (Time_IsZero occurredAt)) "event occurrence time is required") ;;
  id ← NewID_now;
  mret (make_event id ref sequence draft occurredAt).

(** The draft inside an event, as [Event.Validate] rebuilds it. *)
Definition event_draft (e : Event) : EventDraft :=
  {| Draft_Type := Event_Type e;
     Draft_SchemaVersion := Event_SchemaVersion e;
     Draft_CausationID := Event_CausationID e;
     Draft_CorrelationID := Event_CorrelationID e;
     Draft_AttemptID := Event_AttemptID e;
     Draft_Payload := Event_Payload e |}.

Definition Event_Validate (e : Event) : result unit :=
  wrapf "event ID" (ID_Validate (Event_ID e)) ;;
  AggregateRef_Validate (Event_Aggregate e) ;;
  require (negb (Event_Sequence e =? 0)) "event sequence must be positive" ;;
  EventDraft_Validate (event_draft e) ;;
  require (negb (Time_IsZero (Event_OccurredAt e))) "event occurrence time is required" ;;
  require (Event_PayloadSHA256 e =s sha256_hex (Event_Payload e)) "event payload hash mismatch".

(* ------------------------------------------------------------------ *)
(** ** Lemmas *)

Lemma AggregateRef_Validate_Ok r u :
  AggregateRef_Validate r = Ok u ↔ Ref_Type r ≠ "" ∧ ID_Validate (Ref_ID r) = Ok tt.
Proof.
  unfold AggregateRef_Validate. destruct u.
  by autorewrite with go_ok go_bool.
Qed.

Lemma draft_id_check_Ok entry u :
  draft_id_check entry = Ok u ↔ entry.2 = "" ∨ ID_Validate entry.2 = Ok tt.
Proof.
  unfold draft_id_check, ID_IsZero. destruct u. autorewrite with go_ok.
  destruct (String.eqb_spec entry.2 ""); cbn; naive_solver.
Qed.

Lemma draft_id_check_Err entry e :
  draft_id_check entry = Err e → errors_Is e "invalid fabricrunner ID" = true.
Proof.
  unfold draft_id_check, when. destruct (negb _); [|done].
  destruct (ID_Validate entry.2) as [|e'] eqn:E; cbn; [done|].
  intros [= <-]. cbn. by rewrite (ID_Validate_error _ _ E).
Qed.

Lemma event_draft_make id ref n d t : event_draft (make_event id ref n d t) = d.
Proof. by destruct d. Qed.

(** Whether a draft validates does not depend on the iteration order. *)
Lemma EventDraft_Validate_order ids d u :
  ids ≡ₚ draft_ids d → EventDraft_Validate_in ids d = Ok u ↔ EventDraft_Validate d = Ok u.
Proof.
  intros Hp. unfold EventDraft_Validate, EventDraft_Validate_in. rewrite !seq_Ok, !each_Ok.
  by rewrite Hp.
Qed.

Lemma NewEvent_Ok ref n d t w e w' :
  NewEvent ref n d t w = (Ok e, w') ↔
  AggregateRef_Validate ref = Ok tt ∧ n ≠ 0 ∧ EventDraft_Validate d = Ok tt ∧ t ≠ 0 ∧
  ∃ id, NewID (clock w (tick w)) (entropy w (tick w)) = Ok id ∧ e = make_event id ref n d t ∧
        w' = {| w with tick := S (tick w) |}.
Proof.
  unfold NewEvent, Time_IsZero. unfold mbind, st_bind, st_lift, NewID_now, mret, st_ret.
  destruct (AggregateRef_Validate ref) as [[]|]; [|naive_solver].
  destruct (Z.eqb_spec n 0); cbn [require negb]; [naive_solver|].
  destruct (EventDraft_Validate d) as [[]|]; [|naive_solver].
  destruct (Z.eqb_spec t 0); cbn [require negb]; [naive_solver|].
  destruct (NewID _ _); naive_solver.
Qed.

Lemma NewEvent_world ref n d t w r w' :
  NewEvent ref n d t w = (r, w') → clock w' = clock w ∧ entropy w' = entropy w.
Proof.
  unfold NewEvent. unfold mbind, st_bind, st_lift, NewID_now, mret, st_ret.
  intros H. repeat case_in H; simplify_eq; done.
Qed.

Lemma Event_Validate_make id ref n d t :
  AggregateRef_Validate ref = Ok tt → n ≠ 0 → EventDraft_Validate d = Ok tt → t ≠ 0 →
  ID_Validate id = Ok tt → Event_Validate (make_event id ref n d t) = Ok tt.
Proof.
  intros Hr Hn Hd Ht Hid. unfold Event_Validate. rewrite event_draft_make, Hd. cbn. rewrite Hid, Hr. cbn.
  unfold Time_IsZero, Time_UTC. rewrite (proj2 (Z.eqb_neq _ _) Hn), (proj2 (Z.eqb_neq _ _) Ht), seqb_refl. done.
Qed.

Lemma NewEvent_valid ref n d t w e w' :
  world_ok w → NewEvent ref n d t w = (Ok e, w') → Event_Validate e = Ok tt.
Proof.
  rewrite NewEvent_Ok. intros Hw (Hr & Hn & Hd & Ht & id & Hid & -> & _).
  apply Event_Validate_make; try done. by eapply NewID_Validate.
Qed.

(* ------------------------------------------------------------------ *)
(** ** Properties *)

(** [NewEvent] only makes events that [Event.Validate] accepts, with the given
    aggregate, sequence and draft and the digest of the payload; an event whose
    payload was changed afterwards is rejected unless the digests collide. *)
Theorem NewEvent_sound ref n d t w e w' :
  world_ok w → NewEvent ref n d t w = (Ok e, w') →
  Event_Validate e = Ok tt ∧ event_draft e = d ∧ Event_Aggregate e = ref ∧ Event_Sequence e = n ∧
  Event_OccurredAt e = t ∧
  ∀ p, sha256_hex p ≠ sha256_hex (Draft_Payload d) → is_ok (Event_Validate {| e with Event_Payload := p |}) = false.
Proof.
  intros Hw H. split; [by eapply NewEvent_valid|].
  apply NewEvent_Ok in H as (Hr & Hn & Hd & Ht & id & Hid & -> & _).
  split_and!; try done; [apply event_draft_make|].
  intros p Hp. apply not_true_is_false. rewrite is_ok_true. intros [[] Hok]. unfold Event_Validate in Hok.
  apply seq_Ok in Hok as [_ Hok]. do 4 apply seq_Ok in Hok as [_ Hok].
  apply require_Ok, String.eqb_eq in Hok. cbn in Hok. by rewrite Hok in Hp.
Qed.

Definition example_id : ID := "018bcfe5-687b-7bab-abab-abababababab".
Definition example_world : World :=
  {| clock := fun _ => unix_epoch + 1700000000123 * 10 ^ 6; entropy := fun _ => repeat 0xab 16; tick := 0 |}.
Definition example_ref : AggregateRef := {| Ref_Type := "workload"; Ref_ID := example_id |}.
Definition example_draft : EventDraft :=
  {| Draft_Type := "noted"; Draft_SchemaVersion := 1; Draft_CausationID := ""; Draft_CorrelationID := example_id;
     Draft_AttemptID := ""; Draft_Payload := "{}" |}.

Lemma example_world_ok : world_ok example_world.
Proof. intros n. cbn. repeat (constructor; [unfold is_byte; lia|]). constructor. Qed.

Example NewEvent_sound_witness :
  Event_Validate (make_event example_id example_ref 1 example_draft 5) = Ok tt.
Proof.
  refine (proj1 (NewEvent_sound example_ref 1 example_draft 5 example_world _ _ example_world_ok _)).
  apply NewEvent_Ok. split_and!; [reflexivity | lia | vm_compute; reflexivity | lia |].
  exists example_id. split_and!; [vm_compute; reflexivity | reflexivity..].
Defined.

(** The result of [EventDraft.Validate] is the same for every order in which
    Go iterates the map of identifiers: acceptance does not depend on it, and
    when only an identifier is wrong the error is always the identifier error. *)
Theorem EventDraft_Validate_any_order ids d :
  ids ≡ₚ draft_ids d →
  is_ok (EventDraft_Validate_in ids d) = is_ok (EventDraft_Validate d) ∧
  ∀ e, is_ok (EventDraft_Validate_in [] d) = true → EventDraft_Validate_in ids d = Err e →
       errors_Is e "invalid fabricrunner ID" = true.
Proof.
  intros Hp. split.
  - apply eq_true_iff_eq. rewrite !is_ok_true. by setoid_rewrite (EventDraft_Validate_order _ _ _ Hp).
  - intros e. unfold EventDraft_Validate_in. rewrite is_ok_true. intros [[] H0].
    rewrite !seq_Ok in H0. destruct H0 as (-> & -> & -> & _). cbn [mbind result_bind].
    clear Hp. induction ids as [|entry ids IH]; cbn [each]; [done|].
    destruct (draft_id_check entry) as [[]|e'] eqn:E; cbn; [exact IH|].
    intros [= <-]. by eapply draft_id_check_Err.
Qed.

Example EventDraft_Validate_any_order_witness :
  is_ok (EventDraft_Validate_in (rev (draft_ids example_draft)) example_draft) = is_ok (EventDraft_Validate example_draft).
Proof.
  refine (proj1 (EventDraft_Validate_any_order (rev (draft_ids example_draft)) example_draft _)).
  cbn. etransitivity; [apply perm_swap|]. etransitivity; [apply perm_skip, perm_swap|]. apply perm_swap.
Defined.
