(* ===== verification/Store.v ===== *)
(** * The event store interface: src/store.go

    [EventStore] is the Go interface; [EventStoreSpec] is what an
    implementation promises, an append-only log per aggregate, with which
    clients such as [Replay] are verified. *)

From Stdlib Require Import ZArith Lia.
From S2P Require Import Prelude GoNum GoText Ident Event.

Definition ErrVersionConflict : error := Sentinel "event stream version conflict".

(** [&VersionConflictError{...}], which unwraps to [ErrVersionConflict]. *)
Definition VersionConflictError (aggregate : AggregateRef) (expected actual : Z) : error :=
  Struct "VersionConflictError" [Ref_Type aggregate; Ref_ID aggregate] [expected; actual] (Some ErrVersionConflict).

(** The interface, for an implementation with state [S]. *)
Class EventStore (S : Type) := {
  Append : (nat → option error) → AggregateRef → Z → list EventDraft → ST S (list Event);
  Load : (nat → option error) → AggregateRef → Z → ST S (list Event);
}.

(** [Replay]: [Load] observes its own context values, the loop those of [ctx];
    [apply] is a closure over a state [T]. *)
Fixpoint replay_loop {T} (apply : Event → ST T unit) (ctx : nat → option error) (i : nat)
    (events : list Event) : ST T unit :=
  match events with
  | [] => mret tt
  | event :: events' =>
      st_lift (check_ctx (ctx i)) ;;
      (fun t => match apply event t with
                | (Ok _, t') => (Ok tt, t')
                | (Err e, t') => (Err (Errorf "apply event" [e]), t')
                end) ;;
      replay_loop apply ctx (S i) events'
  end.

Definition Replay {S T} `{EventStore S} (load_ctx ctx : nat → option error) (aggregate : AggregateRef)
    (apply : Event → ST T unit) : ST (S * T) unit := fun '(s, t) =>
  match Load load_ctx aggregate 0 s with
  | (Err e, s') => (Err e, (s', t))
  | (Ok events, s') => let '(r, t') := replay_loop apply ctx 0 events t in (r, (s', t'))
  end.

(* ------------------------------------------------------------------ *)
(** ** The contract *)

(** A stream is well formed: each event validates, belongs to the aggregate
    and has its position, from 1, as its sequence. *)
Definition stream_ok (ref : AggregateRef) (l : list Event) : Prop :=
  ∀ i e, l !! i = Some e →
    Event_Validate e = Ok tt ∧ Event_Aggregate e = ref ∧ Event_Sequence e = wrapu64 (Z.of_nat i + 1).

(** [created] materialises [drafts] after a stream of [n] events. *)
Definition materialises (ref : AggregateRef) (n : nat) (drafts : list EventDraft) (created : list Event) : Prop :=
  event_draft <$> created = drafts ∧
  ∀ i e, created !! i = Some e →
    Event_Validate e = Ok tt ∧ Event_Aggregate e = ref ∧ Event_Sequence e = wrapu64 (Z.of_nat (n + i) + 1).

Definition valid_ref (ref : AggregateRef) : Prop := AggregateRef_Validate ref = Ok tt.

Class EventStoreSpec (S : Type) `{EventStore S} := {
  stream : S → AggregateRef → list Event;
  store_inv : S → Prop;

  stream_wf s ref : store_inv s → valid_ref ref → stream_ok ref (stream s ref);

  (** A successful append extends exactly one stream, at the expected version. *)
  append_ok ctx ref expected drafts s created s' :
    store_inv s → Forall draft_typed drafts → Append ctx ref expected drafts s = (Ok created, s') →
    store_inv s' ∧ valid_ref ref ∧ Forall (fun d => EventDraft_Validate d = Ok tt) drafts ∧
    (drafts ≠ [] → expected = Z.of_nat (length (stream s ref))) ∧
    materialises ref (length (stream s ref)) drafts created ∧
    stream s' ref = stream s ref ++ created ∧
    ∀ r, valid_ref r → r ≠ ref → stream s' r = stream s r;

  (** A failed append changes no stream. *)
  append_err ctx ref expected drafts s e s' :
    store_inv s → Forall draft_typed drafts → Append ctx ref expected drafts s = (Err e, s') →
    store_inv s' ∧ ∀ r, valid_ref r → stream s' r = stream s r;

  (** Optimistic concurrency: a stale version is a conflict, for versions within
      the range every store has. *)
  append_conflict ctx ref expected drafts s :
    store_inv s → (∀ n, ctx n = None) → valid_ref ref →
    Forall (fun d => EventDraft_Validate d = Ok tt) drafts → drafts ≠ [] →
    expected + Z.of_nat (length drafts) <= int64_max → expected ≠ Z.of_nat (length (stream s ref)) →
    ∃ s', Append ctx ref expected drafts s
      = (Err (VersionConflictError ref expected (Z.of_nat (length (stream s ref)))), s');

  (** Loading reads the suffix of a stream and changes none. *)
  load_ok ctx ref after s evs s' :
    store_inv s → 0 <= after → Load ctx ref after s = (Ok evs, s') →
    store_inv s' ∧ valid_ref ref ∧ evs = drop (Z.to_nat after) (stream s ref) ∧
    ∀ r, valid_ref r → stream s' r = stream s r;
  load_err ctx ref after s e s' :
    store_inv s → Load ctx ref after s = (Err e, s') →
    store_inv s' ∧ ∀ r, valid_ref r → stream s' r = stream s r;
  load_live ctx ref after s :
    store_inv s → (∀ n, ctx n = None) → valid_ref ref → 0 <= after → is_ok (fst (Load ctx ref after s)) = true;
}.

(* ------------------------------------------------------------------ *)
(** ** Replay *)

(** The reference: fold [apply] over the events until it fails. *)
Fixpoint apply_all {T} (apply : Event → ST T unit) (l : list Event) (t : T) : option error * T :=
  match l with
  | [] => (None, t)
  | e :: l' => match apply e t with
               | (Ok _, t') => apply_all apply l' t'
               | (Err err, t') => (Some (Errorf "apply event" [err]), t')
               end
  end.

Lemma replay_loop_apply_all {T} (apply : Event → ST T unit) ctx i l t :
  (∀ n, ctx n = None) →
  replay_loop apply ctx i l t =
  (match (apply_all apply l t).1 with None => Ok tt | Some e => Err e end, (apply_all apply l t).2).
Proof.
  intros Hctx. revert i t. induction l as [|e l IH]; intros i t; [done|].
  cbn [replay_loop apply_all]. unfold mbind, st_bind, st_lift. rewrite Hctx. cbn [check_ctx].
  destruct (apply e t) as [[u|err] t']; [apply IH | done].
Qed.

(** Cancelled before the i-th event: exactly the events before it were applied. *)
Lemma replay_loop_cancelled {T} (apply : Event → ST T unit) ctx n l t e t' :
  (∀ i, (i < n)%nat → ctx i = None) → ctx n = Some e → (n < length l)%nat →
  apply_all apply (take n l) t = (None, t') → replay_loop apply ctx 0 l t = (Err e, t').
Proof.
  intros Hctx Hn Hl H.
  enough (∀ i k, (i + k = n)%nat → ∀ l t, (k < length l)%nat → apply_all apply (take k l) t = (None, t') →
    replay_loop apply ctx i l t = (Err e, t')) as Hg by (by eapply Hg).
  clear l t Hl H. intros i k. revert i. induction k as [|k IH]; intros i Hi l t Hl H;
    (destruct l as [|x l]; [cbn in Hl; lia|]); cbn [replay_loop]; unfold mbind, st_bind, st_lift.
  - replace i with n by lia. rewrite Hn. cbn in H. naive_solver.
  - rewrite Hctx by lia. cbn [check_ctx]. cbn [take apply_all] in H.
    destruct (apply x t) as [[u|err] t1] eqn:E; [|done].
    apply (IH (S i)); [lia | cbn in Hl; lia | done].
Qed.

Lemma apply_all_app {T} (apply : Event → ST T unit) l1 l2 t :
  apply_all apply (l1 ++ l2) t =
  match apply_all apply l1 t with (None, t1) => apply_all apply l2 t1 | (Some e, t1) => (Some e, t1) end.
Proof. revert t. induction l1 as [|e l1 IH]; intros t; [done|]. cbn. by destruct (apply e t) as [[]]. Qed.

Lemma apply_all_readonly_prefix {T} (apply : Event → ST T unit) l1 l2 t t1 :
  apply_all apply l1 t = (None, t1) → apply_all apply (l1 ++ l2) t = apply_all apply l2 t1.
Proof.
  revert t. induction l1 as [|e l1 IH]; intros t H; cbn in *; [by simplify_eq|].
  destruct (apply e t) as [[u|err] t']; [by apply IH | done].
Qed.

Section replay.
Context {S T : Type} `{EventStoreSpec S}.

Lemma Replay_live load_ctx ctx ref (apply : Event → ST T unit) s t :
  store_inv s → (∀ n, load_ctx n = None) → (∀ n, ctx n = None) → valid_ref ref →
  ∃ s', Replay load_ctx ctx ref apply (s, t) =
    (match (apply_all apply (stream s ref) t).1 with None => Ok tt | Some e => Err e end,
     (s', (apply_all apply (stream s ref) t).2)) ∧
    store_inv s' ∧ ∀ r, valid_ref r → stream s' r = stream s r.
Proof.
  intros Hs Hl Hc Hr. pose proof (load_live load_ctx ref 0 s Hs Hl Hr (Z.le_refl 0)) as Hlive.
  unfold Replay. destruct (Load load_ctx ref 0 s) as [[evs|e] s'] eqn:E; [|done].
  apply load_ok in E as (Hs' & _ & -> & Hsame); [|done|lia].
  rewrite replay_loop_apply_all by done. exists s'. by rewrite drop_0.
Qed.
End replay.

(* ------------------------------------------------------------------ *)
(** ** Properties *)

(** For every store that keeps the contract: when no context is cancelled,
    [Replay] applies exactly the events of the stream, from the first and in
    order, stops at the first one [apply] refuses with an error that wraps its
    error, and leaves every stream as it was. *)
Theorem Replay_folds {S T} `{EventStoreSpec S} load_ctx ctx ref (apply : Event → ST T unit) (s : S) (t : T) :
  store_inv s → (∀ n, load_ctx n = None) → (∀ n, ctx n = None) → valid_ref ref →
  ∃ s', Replay load_ctx ctx ref apply (s, t) =
    (match (apply_all apply (stream s ref) t).1 with None => Ok tt | Some e => Err e end,
     (s', (apply_all apply (stream s ref) t).2)) ∧
    store_inv s' ∧ ∀ r, valid_ref r → stream s' r = stream s r.
Proof. apply Replay_live. Qed.
