(* ===== verification/MemoryStore.v ===== *)
(** * The in-memory event store: src/store/memory/store.go

    The map of streams and the process's clock and entropy.  The store's mutex
    makes every operation one atomic step, so an operation is a function of the
    state. *)

From Stdlib Require Import ZArith Lia.
From S2P Require Import Prelude GoNum GoText Ident Event Store.

Record MemoryStore : Type := {
  streams : gmap string (list Event);
  world : World;
}.

(** [New()] *)
Definition New (w : World) : MemoryStore := {| streams := ∅; world := w |}.

Definition streamKey (ref : AggregateRef) : string := Ref_Type ref +:+ nul +:+ ID_String (Ref_ID ref).

(** [s.streams[key]]: a missing key is the nil slice. *)
Definition stream_at (s : MemoryStore) (key : string) : list Event := default [] (streams s !! key).

(** The copy of the slice and its payloads; payloads are values here. *)
Definition cloneEvents (events : list Event) : list Event := events.

(** The loop that materialises the drafts, the i-th with sequence
    [actual + uint64(i) + 1]. *)
Fixpoint materialize (aggregate : AggregateRef) (actual : Z) (i : nat) (drafts : list EventDraft) :
    ST World (list Event) :=
  match drafts with
  | [] => mret []
  | draft :: drafts' =>
      now ← time_Now;
      event ← (fun w => match NewEvent aggregate (wrapu64 (actual + Z.of_nat i + 1)) draft now w with
                        | (Ok e, w') => (Ok e, w')
                        | (Err e, w') => (Err (Errorf "materialize draft" [e]), w')
                        end);
      rest ← materialize aggregate actual (S i) drafts';
      mret (event :: rest)
  end.

Definition Memory_Append (ctx : nat → option error) (aggregate : AggregateRef) (expectedSequence : Z)
    (drafts : list EventDraft) : ST MemoryStore (list Event) := fun s =>
  match check_ctx (ctx 0%nat) ;; AggregateRef_Validate aggregate ;;
        each (fun draft => wrapf "draft" (EventDraft_Validate draft)) drafts with
  | Err e => (Err e, s)
  | Ok _ =>
      match drafts with
      | [] => (Ok [], s)
      | _ =>
          let key := streamKey aggregate in
          let actual := Z.of_nat (length (stream_at s key)) in
          if negb (actual =? expectedSequence)
          then (Err (VersionConflictError aggregate expectedSequence actual), s)
          else
            match materialize aggregate actual 0 drafts (world s) with
            | (Err e, w) => (Err e, {| s with world := w |})
            | (Ok created, w) =>
                (Ok (cloneEvents created),
                 {| streams := <[key := stream_at s key ++ cloneEvents created]> (streams s); world := w |})
            end
      end
  end.

Definition Memory_Load (ctx : nat → option error) (aggregate : AggregateRef) (afterSequence : Z) :
    ST MemoryStore (list Event) := fun s =>
  match check_ctx (ctx 0%nat) ;; AggregateRef_Validate aggregate with
  | Err e => (Err e, s)
  | Ok _ =>
      let events := stream_at s (streamKey aggregate) in
      if Z.of_nat (length events) <=? afterSequence then (Ok [], s)
      else (Ok (cloneEvents (drop (Z.to_nat afterSequence) events)), s)
  end.

#[global] Instance Memory_EventStore : EventStore MemoryStore :=
  {| Append := Memory_Append; Load := Memory_Load |}.

(* ------------------------------------------------------------------ *)
(** ** Lemmas *)

(** Keys of valid references are different for different references. *)
Lemma streamKey_inj r1 r2 : valid_ref r1 → valid_ref r2 → streamKey r1 = streamKey r2 → r1 = r2.
Proof.
  unfold valid_ref. rewrite !AggregateRef_Validate_Ok. intros [_ H1] [_ H2]. unfold streamKey, ID_String.
  intros H. apply ID_Validate_length in H1, H2. destruct r1 as [t1 i1], r2 as [t2 i2]. cbn in *.
  apply append_inj_r in H as [-> H]; [|rewrite !length_append; congruence].
  apply append_inj in H as [_ ->]; done.
Qed.

Lemma materialize_Ok aggregate actual i drafts w created w' :
  world_ok w → materialize aggregate actual i drafts w = (Ok created, w') →
  world_ok w' ∧ event_draft <$> created = drafts ∧
  ∀ j e, created !! j = Some e →
    Event_Validate e = Ok tt ∧ Event_Aggregate e = aggregate ∧
    Event_Sequence e = wrapu64 (actual + Z.of_nat (i + j) + 1).
Proof.
  revert i w created. induction drafts as [|d drafts IH]; intros i w created Hw; cbn [materialize].
  { unfold mret, st_ret. intros [= <- <-]. by split_and!. }
  unfold mbind, st_bind, mret, st_ret. cbn [time_Now].
  set (w1 := {| w with tick := S (tick w) |}). assert (world_ok w1) as Hw1 by exact Hw.
  destruct (NewEvent _ _ _ _ w1) as [[ev|e] w2] eqn:E; [|done].
  assert (world_ok w2) as Hw2.
  { destruct (NewEvent_world _ _ _ _ _ _ _ E) as [_ He]. intros n. rewrite He. apply Hw1. }
  destruct (materialize _ _ _ drafts w2) as [[rest|e] w3] eqn:Em; [|done].
  intros [= <- <-]. apply IH in Em as (Hw3 & Hd & Hall); [|done].
  pose proof (NewEvent_valid _ _ _ _ _ _ _ Hw1 E) as Hv.
  apply NewEvent_Ok in E as (_ & _ & _ & _ & id & _ & -> & _).
  split_and!; [done | by rewrite fmap_cons, event_draft_make, Hd |].
  intros [|j] e; cbn [lookup list_lookup].
  - intros [= <-]. split_and!; [done..|]. cbn. f_equal. lia.
  - intros (H1 & H2 & H3)%Hall. split_and!; [done..|]. rewrite H3. f_equal. lia.
Qed.

Lemma materialize_world aggregate actual i drafts w r w' :
  world_ok w → materialize aggregate actual i drafts w = (r, w') → world_ok w'.
Proof.
  revert i w r. induction drafts as [|d drafts IH]; intros i w r Hw; cbn [materialize].
  { unfold mret, st_ret. by intros [= _ <-]. }
  unfold mbind, st_bind, mret, st_ret. cbn [time_Now].
  set (w1 := {| w with tick := S (tick w) |}). assert (world_ok w1) as Hw1 by exact Hw.
  destruct (NewEvent _ _ _ _ w1) as [[ev|e] w2] eqn:E;
    destruct (NewEvent_world _ _ _ _ _ _ _ E) as [_ He];
    assert (world_ok w2) as Hw2 by (intros n; rewrite He; apply Hw1); [|by intros [= _ <-]].
  destruct (materialize _ _ _ drafts w2) as [[rest|e] w3] eqn:Em; intros [= _ <-]; by eapply IH.
Qed.

(** The invariant of the store: keys of valid references hold well formed streams. *)
Definition memory_inv (s : MemoryStore) : Prop :=
  world_ok (world s) ∧ ∀ ref, valid_ref ref → stream_ok ref (stream_at s (streamKey ref)).

Lemma stream_ok_app ref l created drafts :
  stream_ok ref l → materialises ref (length l) drafts created → stream_ok ref (l ++ created).
Proof.
  intros Hl [_ Hc] i e. rewrite lookup_app_Some. intros [H|[Hi H]]; [by apply Hl|].
  apply Hc in H as (H1 & H2 & ->). split_and!; try done. f_equal. lia.
Qed.

Lemma stream_at_insert s key l w key' :
  stream_at {| streams := <[key := l]> (streams s); world := w |} key' =
  if decide (key = key') then l else stream_at s key'.
Proof.
  unfold stream_at. cbn [streams]. case_decide; subst; [by rewrite lookup_insert_eq|by rewrite lookup_insert_ne].
Qed.

(** The three outcomes of [Append]. *)
Lemma Memory_Append_Ok ctx ref expected drafts s created s' :
  memory_inv s → Memory_Append ctx ref expected drafts s = (Ok created, s') →
  valid_ref ref ∧ Forall (fun d => EventDraft_Validate d = Ok tt) drafts ∧
  (drafts ≠ [] → expected = Z.of_nat (length (stream_at s (streamKey ref)))) ∧
  materialises ref (length (stream_at s (streamKey ref))) drafts created ∧
  world_ok (world s') ∧
  ∀ key, stream_at s' key = if decide (streamKey ref = key) then stream_at s key ++ created else stream_at s key.
Proof.
  intros [Hw Hs]. unfold Memory_Append. destruct (_ ;; _) as [[]|e] eqn:Hc; [|done].
  rewrite !seq_Ok, each_Ok in Hc. destruct Hc as (_ & Hr & Hd).
  assert (Forall (fun d => EventDraft_Validate d = Ok tt) drafts) as Hd'.
  { eapply Forall_impl; [exact Hd|]. intros d. apply wrapf_Ok. }
  destruct drafts as [|d drafts'].
  { intros [= <- <-]. split_and!; [done.. | | done | ].
    - done.
    - intros key. case_decide; [by rewrite app_nil_r | done]. }
  set (drafts := d :: drafts') in *.
  destruct (Z.eqb_spec (Z.of_nat (length (stream_at s (streamKey ref)))) expected) as [He|]; [|done].
  cbn [negb]. destruct (materialize _ _ _ _ _) as [[cr|e] w] eqn:Em; [|done].
  intros [= <- <-]. unfold cloneEvents. apply materialize_Ok in Em as (Hw' & Hds & Hall); [|done].
  split_and!; try done.
  - split; [done|]. intros i e H. apply Hall in H as (H1 & H2 & ->). split_and!; try done.
    f_equal. lia.
  - intros key. rewrite stream_at_insert. case_decide; by subst.
Qed.

Lemma Memory_Append_Err ctx ref expected drafts s e s' :
  memory_inv s → Memory_Append ctx ref expected drafts s = (Err e, s') →
  streams s' = streams s ∧ world_ok (world s').
Proof.
  intros [Hw Hs]. unfold Memory_Append. destruct (_ ;; _) as [[]|e'] eqn:Hc; [|by intros [= _ <-]].
  destruct drafts as [|d drafts]; [done|]. destruct (negb _); [by intros [= _ <-]|].
  destruct (materialize _ _ _ _ _) as [[cr|e'] w] eqn:Em; [done|]. intros [= _ <-].
  split; [done|]. by eapply materialize_world.
Qed.

Lemma memory_inv_append ctx ref expected drafts s r s' :
  memory_inv s → Memory_Append ctx ref expected drafts s = (r, s') → memory_inv s'.
Proof.
  intros Hinv H. destruct r as [created|e].
  - apply Memory_Append_Ok in H as (Hr & _ & _ & Hm & Hw & Hst); [|done].
    split; [done|]. intros ref' Hr'. rewrite Hst. case_decide as Hk.
    + apply streamKey_inj in Hk as <-; [|done..]. eapply stream_ok_app; [by apply Hinv | done].
    + by apply Hinv.
  - destruct (Memory_Append_Err _ _ _ _ _ _ _ Hinv H) as [Hst Hw]. split; [done|].
    intros ref' Hr'. unfold stream_at. rewrite Hst. by apply Hinv.
Qed.

Lemma Memory_Load_state ctx ref after s : snd (Memory_Load ctx ref after s) = s.
Proof. unfold Memory_Load. by repeat case_match. Qed.

Lemma Memory_Load_Ok ctx ref after s evs s' :
  0 <= after → Memory_Load ctx ref after s = (Ok evs, s') →
  valid_ref ref ∧ evs = drop (Z.to_nat after) (stream_at s (streamKey ref)).
Proof.
  intros Ha. unfold Memory_Load. destruct (_ ;; _) as [[]|e] eqn:Hc; [|done].
  apply seq_Ok in Hc as [_ Hr].
  destruct (Z.leb_spec (Z.of_nat (length (stream_at s (streamKey ref)))) after); intros [= <- _].
  - split; [done|]. symmetry. apply drop_ge. lia.
  - done.
Qed.

(** A successful append extends exactly one stream, at the expected version. *)
Lemma Memory_append_extends ctx ref expected drafts s created s' :
  memory_inv s → Memory_Append ctx ref expected drafts s = (Ok created, s') →
  memory_inv s' ∧ valid_ref ref ∧ Forall (fun d => EventDraft_Validate d = Ok tt) drafts ∧
  (drafts ≠ [] → expected = Z.of_nat (length (stream_at s (streamKey ref)))) ∧
  materialises ref (length (stream_at s (streamKey ref))) drafts created ∧
  stream_at s' (streamKey ref) = stream_at s (streamKey ref) ++ created ∧
  ∀ r, valid_ref r → r ≠ ref → stream_at s' (streamKey r) = stream_at s (streamKey r).
Proof.
  intros Hs H. split; [by eapply memory_inv_append|].
  apply Memory_Append_Ok in H as (Hr & Hd & He & Hm & _ & Hst); [|done].
  split_and!; try done; [by rewrite Hst, decide_True|].
  intros r Hr' Hne. rewrite Hst, decide_False; [done|]. intros Hk. by apply streamKey_inj in Hk as ->.
Qed.

(** A stale version is a conflict, whatever its range. *)
Lemma Memory_append_stale ctx ref expected drafts s :
  (∀ n, ctx n = None) → valid_ref ref → Forall (fun d => EventDraft_Validate d = Ok tt) drafts → drafts ≠ [] →
  expected ≠ Z.of_nat (length (stream_at s (streamKey ref))) →
  Memory_Append ctx ref expected drafts s = (Err (VersionConflictError ref expected (Z.of_nat (length (stream_at s (streamKey ref))))), s).
Proof.
  intros Hc Hr Hd Hne Hv. unfold Memory_Append. rewrite Hc, Hr. cbn [check_ctx mbind result_bind].
  assert (each (fun draft => wrapf "draft" (EventDraft_Validate draft)) drafts = Ok tt) as ->.
  { apply each_Ok. eapply Forall_impl; [exact Hd|]. intros d. by rewrite wrapf_Ok. }
  destruct drafts as [|d drafts]; [done|].
  destruct (Z.eqb_spec (Z.of_nat (length (stream_at s (streamKey ref)))) expected); [done|]. done.
Qed.

#[global] Program Instance Memory_EventStoreSpec : EventStoreSpec MemoryStore :=
  {| stream := fun s ref => stream_at s (streamKey ref); store_inv := memory_inv |}.
Next Obligation. intros s ref Hs Hr. by apply Hs. Qed.
Next Obligation. intros ctx ref expected drafts s created s' Hs _ H. by eapply Memory_append_extends. Qed.
Next Obligation.
  intros ctx ref expected drafts s e s' Hs _ H. cbn in H.
  split; [by eapply memory_inv_append|]. intros r _. unfold stream_at.
  by rewrite (proj1 (Memory_Append_Err _ _ _ _ _ _ _ Hs H)).
Qed.
Next Obligation.
  intros ctx ref expected drafts s Hs Hc Hr Hd Hne _ Hv. exists s. by apply Memory_append_stale.
Qed.
Next Obligation.
  intros ctx ref after s evs s' Hs Ha H. pose proof (Memory_Load_state ctx ref after s) as Hst.
  cbn in H. rewrite H in Hst. cbn in Hst. subst s'.
  apply Memory_Load_Ok in H as [Hr ->]; [|done]. done.
Qed.
Next Obligation.
  intros ctx ref after s e s' Hs H. pose proof (Memory_Load_state ctx ref after s) as Hst.
  cbn in H. rewrite H in Hst. cbn in Hst. by subst s'.
Qed.
Next Obligation.
  intros ctx ref after s Hs Hc Hr _. cbn. unfold Memory_Load. rewrite Hc, Hr. cbn. by case_match.
Qed.

(* ------------------------------------------------------------------ *)
(** ** Runs of the store *)

(** One call of a store method, successful or not. *)
Inductive memory_step : MemoryStore → MemoryStore → Prop :=
| memory_append ctx ref expected drafts r s s' :
    Memory_Append ctx ref expected drafts s = (r, s') → memory_step s s'
| memory_load ctx ref after r s s' :
    Memory_Load ctx ref after s = (r, s') → memory_step s s'.

Lemma memory_inv_New w : world_ok w → memory_inv (New w).
Proof.
  intros Hw. split; [done|]. intros ref _ i e. unfold stream_at, New. cbn. by rewrite lookup_empty.
Qed.

Lemma memory_step_inv s s' :
  memory_inv s → memory_step s s' →
  memory_inv s' ∧ ∀ ref, valid_ref ref → stream_at s (streamKey ref) `prefix_of` stream_at s' (streamKey ref).
Proof.
  intros Hs Hstep. destruct Hstep as [ctx ref expected drafts r s0 s1 H|ctx ref after r s0 s1 H].
  - split; [by eapply memory_inv_append|]. intros ref' _. destruct r as [created|e].
    + apply Memory_Append_Ok in H as (_ & _ & _ & _ & _ & ->); [|done].
      case_decide; [by apply prefix_app_r | done].
    + apply Memory_Append_Err in H as [H _]; [|done]. unfold stream_at. by rewrite H.
  - pose proof (Memory_Load_state ctx ref after s0) as E. rewrite H in E. cbn in E. by subst.
Qed.

(** In every run of a new store each stream only grows at its end, and at any
    moment its events are valid, belong to its aggregate and carry the
    sequence numbers 1, 2, 3, ... *)
Theorem memory_store_append_only w s s' ref :
  world_ok w → rtc memory_step (New w) s → rtc memory_step s s' → valid_ref ref →
  stream_at s (streamKey ref) `prefix_of` stream_at s' (streamKey ref) ∧
  stream_ok ref (stream_at s' (streamKey ref)).
Proof.
  intros Hw H1 H2 Hr.
  assert (∀ s1 s2, memory_inv s1 → rtc memory_step s1 s2 →
    memory_inv s2 ∧ stream_at s1 (streamKey ref) `prefix_of` stream_at s2 (streamKey ref)) as Hrun.
  { intros s1 s2 Hi H. induction H as [|a b c Hs _ IH]; [done|].
    destruct (memory_step_inv _ _ Hi Hs) as [Hb Hp]. destruct (IH Hb) as [Hc Hq].
    split; [done|]. etransitivity; [by apply Hp | done]. }
  destruct (Hrun _ _ (memory_inv_New w Hw) H1) as [Hs _].
  destruct (Hrun _ _ Hs H2) as [Hs' Hp]. split; [done | by apply Hs'].
Qed.

(** [Append] is optimistic: with the current version it extends exactly the
    stream of its aggregate with the materialised drafts, which it returns;
    with any other version and at least one draft it is a version conflict,
    which is [ErrVersionConflict], and changes nothing. *)
Theorem Memory_Append_optimistic ctx ref expected drafts s r s' :
  memory_inv s → (∀ n, ctx n = None) → valid_ref ref → drafts ≠ [] →
  Forall (fun d => EventDraft_Validate d = Ok tt) drafts →
  Memory_Append ctx ref expected drafts s = (r, s') →
  let n := length (stream_at s (streamKey ref)) in
  (expected ≠ Z.of_nat n → s' = s ∧ r = Err (VersionConflictError ref expected (Z.of_nat n)) ∧
     ∀ e, r = Err e → errors_Is e "event stream version conflict" = true) ∧
  ∀ created, r = Ok created →
    expected = Z.of_nat n ∧ materialises ref n drafts created ∧
    stream_at s' (streamKey ref) = stream_at s (streamKey ref) ++ created ∧
    ∀ ref', valid_ref ref' → ref' ≠ ref → stream_at s' (streamKey ref') = stream_at s (streamKey ref').
Proof.
  intros Hs Hc Hr Hne Hd H n. split.
  - intros Hv. rewrite Memory_append_stale in H by done. injection H as <- <-. split_and!; try done. by intros e [= <-].
  - intros created ->. destruct (Memory_append_extends ctx ref expected drafts s created s' Hs H) as (_ & _ & _ & He & Hm & Hst & Hother).
    split_and!; try done. by apply He.
Qed.

(** What is appended is what is loaded: after an append to a store, loading the
    aggregate from the expected version gives the created events back. *)
Theorem Memory_append_load ctx ref expected drafts s created s' ctx' :
  memory_inv s → drafts ≠ [] → Memory_Append ctx ref expected drafts s = (Ok created, s') →
  (∀ n, ctx' n = None) →
  Memory_Load ctx' ref expected s' = (Ok created, s') ∧ event_draft <$> created = drafts.
Proof.
  intros Hs Hne H Hc.
  pose proof (load_live (S:=MemoryStore)) as Hlive.
  destruct (Memory_append_extends ctx ref expected drafts s created s' Hs H) as (Hs' & Hr & _ & He & [Hd _] & Hst & _).
  split; [|done]. pose proof (Hlive ctx' ref expected s' Hs' Hc Hr ltac:(rewrite (He Hne); lia)) as Hl.
  pose proof (Memory_Load_state ctx' ref expected s') as Hss. cbn in Hl.
  destruct (Memory_Load ctx' ref expected s') as [[evs|] s1] eqn:E; [|done]. cbn in Hss. subst s1.
  apply Memory_Load_Ok in E as [_ ->]; [|rewrite (He Hne); lia].
  rewrite (He Hne), Nat2Z.id. cbn in Hst. rewrite Hst. by rewrite drop_app_length.
Qed.

Definition example_store1 : MemoryStore :=
  snd (Memory_Append background example_ref 0 [example_draft; example_draft] (New example_world)).

Example memory_store_append_only_witness :
  [make_event example_id example_ref 1 example_draft (clock example_world 0);
   make_event example_id example_ref 2 example_draft (clock example_world 0)]
  `prefix_of` stream_at (snd (Memory_Append background example_ref 2 [example_draft] example_store1)) (streamKey example_ref).
Proof.
  refine (proj1 (memory_store_append_only example_world example_store1
    (snd (Memory_Append background example_ref 2 [example_draft] example_store1)) example_ref
    example_world_ok _ _ _)).
  - apply rtc_once. eapply memory_append, surjective_pairing.
  - apply rtc_once. eapply memory_append, surjective_pairing.
  - vm_compute. reflexivity.
Defined.

Example Memory_Append_optimistic_witness :
  Memory_Append background example_ref 5 [example_draft] (New example_world)
  = (Err (VersionConflictError example_ref 5 0), New example_world) ∧
  errors_Is (VersionConflictError example_ref 5 0) "event stream version conflict" = true.
Proof.
  assert (Memory_Append background example_ref 5 [example_draft] (New example_world)
    = (Err (VersionConflictError example_ref 5 0), New example_world)) as E by (vm_compute; reflexivity).
  split; [exact E|].
  refine (proj2 (proj2 (proj1 (Memory_Append_optimistic background example_ref 5 [example_draft]
    (New example_world) _ _ (memory_inv_New _ example_world_ok) _ _ _ _ E) _)) _ eq_refl);
    try done.
  repeat constructor.
Defined.

Example Memory_append_load_witness :
  Memory_Load background example_ref 0 example_store1 =
  (Ok [make_event example_id example_ref 1 example_draft (clock example_world 0);
       make_event example_id example_ref 2 example_draft (clock example_world 0)], example_store1).
Proof.
  refine (proj1 (Memory_append_load background example_ref 0 [example_draft; example_draft] (New example_world)
    _ example_store1 background (memory_inv_New _ example_world_ok) _ _ _)); [done | | done].
  vm_compute. reflexivity.
Defined.

Lemma example_store1_inv : memory_inv example_store1.
Proof.
  exact (memory_inv_append _ _ _ _ _ _ _ (memory_inv_New _ example_world_ok)
    (surjective_pairing (Memory_Append background example_ref 0 [example_draft; example_draft] (New example_world)))).
Qed.

Example Replay_folds_witness :
  ∃ s', Replay background background example_ref (fun e => st_modify (fun l => l ++ [Event_Sequence e])) (example_store1, [])
    = (Ok tt, (s', [1; 2])) ∧ memory_inv s' ∧ ∀ r, valid_ref r → stream_at s' (streamKey r) = stream_at example_store1 (streamKey r).
Proof.
  pose proof (Replay_folds (S:=MemoryStore) (T:=list Z)) as Hfolds.
  destruct (Hfolds background background example_ref
    (fun e => st_modify (fun l => l ++ [Event_Sequence e])) example_store1 []
    example_store1_inv (fun _ => eq_refl) (fun _ => eq_refl) eq_refl) as (s' & H & Hs').
  exists s'. split; [|exact Hs']. rewrite H.
  assert ((apply_all (fun e => st_modify (fun l => l ++ [Event_Sequence e]))
    (stream_at example_store1 (streamKey example_ref)) []) = (None, [1; 2])) as E by (vm_compute; reflexivity).
  cbn [stream Memory_EventStoreSpec]. rewrite E. reflexivity.
Defined.
