(* ===== verification/Model.v ===== *)
(** * The model protocol: src/model.go

    Messages, tools, requests, capabilities, descriptors and stream events of
    the provider neutral model protocol, each with its [Validate].  A Go map
    is an optional [gmap], [None] being the nil map; a pointer to an optional
    struct is an option. *)

From Stdlib Require Import ZArith Lia.
From S2P Require Import Prelude GoNum GoText GoJson Ident Domain.

(** [strings.TrimSpace(s) == "" || s != strings.TrimSpace(s)] *)
Definition bad_name (s : string) : bool := blank s || negb (trimmed s).

(** [len(b) == 0 || !json.Valid(b)] *)
Definition bad_json (b : bytes) : bool := (Z.of_nat (String.length b) =? 0) || negb (json_Valid b).

(** [len(b) > 0 && !json.Valid(b)] *)
Definition bad_optional_json (b : bytes) : bool := (0 <? Z.of_nat (String.length b)) && negb (json_Valid b).

(* ------------------------------------------------------------------ *)
(** ** Messages *)

Definition RoleSystem : string := "system".
Definition RoleUser : string := "user".
Definition RoleAssistant : string := "assistant".
Definition RoleTool : string := "tool".

Definition ContentText : string := "text".
Definition ContentImage : string := "image".
Definition ContentDocument : string := "document".
Definition ContentArtifact : string := "artifact".
Definition ContentToolCall : string := "tool_call".
Definition ContentToolResult : string := "tool_result".

Record ContentPart : Type := {
  Part_Type : string;
  Part_Classification : Classification;
  Part_Text : string;
  Part_MediaType : string;
  Part_ArtifactID : ID;
  Part_ToolCallID : string;
  Part_ToolName : string;
  Part_JSON : bytes;
  Part_IsError : bool;
  Part_Extension : option (gmap string bytes);
}.

#[global] Instance ContentPart_eq_dec : EqDecision ContentPart.
Proof. solve_decision. Defined.

Record Message : Type := { Message_Role : string; Message_Content : list ContentPart }.

#[global] Instance Message_eq_dec : EqDecision Message.
Proof. solve_decision. Defined.

Definition ContentPart_Validate (p : ContentPart) : result unit :=
  Classification_Validate (Part_Classification p) ;;
  if Part_Type p =s ContentText then Ok tt
  else if (Part_Type p =s ContentImage) || (Part_Type p =s ContentDocument) || (Part_Type p =s ContentArtifact) then
    wrapf "artifact ID" (ID_Validate (Part_ArtifactID p))
  else if Part_Type p =s ContentToolCall then
    require (negb ((Part_ToolCallID p =s "") || (Part_ToolName p =s ""))) "tool call ID and name are required" ;;
    require (negb (bad_json (Part_JSON p))) "tool call input must be valid JSON"
  else if Part_Type p =s ContentToolResult then
    require (negb (Part_ToolCallID p =s "")) "tool result call ID is required" ;;
    require (negb (bad_optional_json (Part_JSON p))) "tool result JSON must be valid"
  else Err (errors_New "unknown content type").

Definition Message_Validate (m : Message) : result unit :=
  one_of [RoleSystem; RoleUser; RoleAssistant; RoleTool] (Message_Role m) "unknown message role" ;;
  require (negb (Z.of_nat (length (Message_Content m)) =? 0)) "message content is required" ;;
  each (fun part => wrapf "content part" (ContentPart_Validate part)) (Message_Content m).

(* ------------------------------------------------------------------ *)
(** ** Tools and models *)

Record ToolDefinition : Type := {
  Tool_SideEffecting : bool;
  Tool_Name : string;
  Tool_Description : string;
  Tool_InputSchema : bytes;
  Tool_OutputSchema : bytes;
  Tool_Strict : bool;
}.

#[global] Instance ToolDefinition_eq_dec : EqDecision ToolDefinition.
Proof. solve_decision. Defined.

Definition ToolDefinition_Validate (t : ToolDefinition) : result unit :=
  require (negb (Tool_Name t =s "")) "tool name is required" ;;
  require (negb (bad_json (Tool_InputSchema t))) "input schema must be valid JSON" ;;
  require (negb (bad_optional_json (Tool_OutputSchema t))) "output schema must be valid JSON".

Record ModelRef : Type := { ModelRef_Provider : string; ModelRef_Model : string }.

#[global] Instance ModelRef_eq_dec : EqDecision ModelRef.
Proof. solve_decision. Defined.

Definition zero_ModelRef : ModelRef := {| ModelRef_Provider := ""; ModelRef_Model := "" |}.

Definition ModelRef_Validate (r : ModelRef) : result unit :=
  require (negb (bad_name (ModelRef_Provider r))) "provider is required without surrounding whitespace" ;;
  require (negb (bad_name (ModelRef_Model r))) "model is required without surrounding whitespace".

(* ------------------------------------------------------------------ *)
(** ** Requests *)

Definition ToolChoiceAuto : string := "auto".
Definition ToolChoiceNone : string := "none".
Definition ToolChoiceRequired : string := "required".
Definition ToolChoiceNamed : string := "named".

Record ToolChoice : Type := { ToolChoice_Mode : string; ToolChoice_Name : string }.

#[global] Instance ToolChoice_eq_dec : EqDecision ToolChoice.
Proof. solve_decision. Defined.

Record OutputConstraint : Type := { Output_Name : string; Output_Schema : bytes; Output_Strict : bool }.

#[global] Instance OutputConstraint_eq_dec : EqDecision OutputConstraint.
Proof. solve_decision. Defined.

Record ModelRequest : Type := {
  Request_AutomaticCompaction : bool;
  Request_Model : ModelRef;
  Request_Messages : list Message;
  Request_Tools : list ToolDefinition;
  Request_ToolChoice : ToolChoice;
  Request_Output : option OutputConstraint;
  Request_MaxOutputTokens : Z;
  Request_Metadata : option (gmap string string);
  Request_Extension : option (gmap string bytes);
}.

#[global] Instance ModelRequest_eq_dec : EqDecision ModelRequest.
Proof. solve_decision. Defined.

Definition ModelRequest_Validate (r : ModelRequest) : result unit :=
  ModelRef_Validate (Request_Model r) ;;
  require (negb (Z.of_nat (length (Request_Messages r)) =? 0)) "at least one message is required" ;;
  require (negb (Request_MaxOutputTokens r <? 0)) "maximum output tokens cannot be negative" ;;
  each (fun message => wrapf "message" (Message_Validate message)) (Request_Messages r) ;;
  each_fresh Tool_Name (fun tool => wrapf "tool" (ToolDefinition_Validate tool)) "duplicate tool name" ∅
    (Request_Tools r) ;;
  require (match Request_Output r with Some output => negb (bad_json (Output_Schema output)) | None => true end)
    "output constraint schema must be valid JSON" ;;
  require (negb ((ToolChoice_Mode (Request_ToolChoice r) =s ToolChoiceNamed) &&
                 (ToolChoice_Name (Request_ToolChoice r) =s ""))) "named tool choice requires a name" ;;
  one_of [ToolChoiceAuto; ToolChoiceNone; ToolChoiceRequired; ToolChoiceNamed]
    (ToolChoice_Mode (Request_ToolChoice r)) "unknown tool choice mode" ;;
  when (ToolChoice_Mode (Request_ToolChoice r) =s ToolChoiceNamed)
    (require (existsb (fun tool => Tool_Name tool =s ToolChoice_Name (Request_ToolChoice r)) (Request_Tools r))
       "named tool choice is not defined").

(* ------------------------------------------------------------------ *)
(** ** Capabilities and descriptors *)

Definition ToolUseNone : string := "none".
Definition ToolUseNative : string := "native".
Definition ToolUseConstrained : string := "constrained".
Definition ToolUseParsed : string := "parsed".

Definition ToolUseMode_Validate (mode : string) : result unit :=
  one_of [ToolUseNone; ToolUseNative; ToolUseConstrained; ToolUseParsed] mode "unknown tool-use mode".

Record ModelCapabilities : Type := {
  Cap_ContextTokens : Z;
  Cap_MaxOutputTokens : Z;
  Cap_Modalities : list string;
  Cap_ToolUse : string;
  Cap_ParallelToolCalls : bool;
  Cap_StrictToolSchemas : bool;
  Cap_DynamicTools : bool;
  Cap_MultimodalToolResults : bool;
  Cap_Streaming : bool;
  Cap_StructuredOutput : bool;
  Cap_PromptCaching : bool;
  Cap_AutomaticCompaction : bool;
  Cap_ReasoningSummaries : bool;
}.

#[global] Instance ModelCapabilities_eq_dec : EqDecision ModelCapabilities.
Proof. solve_decision. Defined.

Definition ModelCapabilities_Validate (c : ModelCapabilities) : result unit :=
  require (negb (Cap_ContextTokens c <? 0)) "context tokens cannot be negative" ;;
  require (negb (Cap_MaxOutputTokens c <? 0)) "maximum output tokens cannot be negative" ;;
  require (negb ((0 <? Cap_ContextTokens c) && (Cap_ContextTokens c <? Cap_MaxOutputTokens c)))
    "maximum output tokens cannot exceed context tokens" ;;
  ToolUseMode_Validate (Cap_ToolUse c) ;;
  require (negb ((Cap_ToolUse c =s ToolUseNone) &&
                 (Cap_ParallelToolCalls c || Cap_StrictToolSchemas c || Cap_DynamicTools c ||
                  Cap_MultimodalToolResults c))) "tool capabilities require a tool-use mode" ;;
  each_fresh id (fun modality => require (negb (bad_name modality)) "modality is empty or has surrounding whitespace")
    "modality duplicates" ∅ (Cap_Modalities c).

Record ModelDescriptor : Type := {
  Descriptor_Ref : ModelRef;
  Descriptor_Capabilities : ModelCapabilities;
  Descriptor_Labels : option (gmap string string);
}.

#[global] Instance ModelDescriptor_eq_dec : EqDecision ModelDescriptor.
Proof. solve_decision. Defined.

(** The entries of a map, in some order; ranging over nil is the empty loop. *)
Definition map_entries {V} (m : option (gmap string V)) : list (string * V) :=
  match m with Some m => map_to_list m | None => [] end.

Definition ModelDescriptor_Validate (d : ModelDescriptor) : result unit :=
  ModelRef_Validate (Descriptor_Ref d) ;;
  wrapf "model capabilities" (ModelCapabilities_Validate (Descriptor_Capabilities d)) ;;
  each (fun entry => require (negb (bad_name entry.1)) "model label key is empty or has surrounding whitespace")
    (map_entries (Descriptor_Labels d)).

(** [cloneStringMap] of loop.go: the nil map stays nil, every entry is copied. *)
Definition cloneStringMap {V} (m : option (gmap string V)) : option (gmap string V) :=
  match m with
  | None => None
  | Some m => Some (foldr (fun entry acc => <[entry.1 := entry.2]> acc) ∅ (map_to_list m))
  end.

Definition ModelDescriptor_Clone (d : ModelDescriptor) : ModelDescriptor :=
  {| d with Descriptor_Labels := cloneStringMap (Descriptor_Labels d) |}.

(* ------------------------------------------------------------------ *)
(** ** Stream events *)

Definition ModelEventStart : string := "start".
Definition ModelEventTextDelta : string := "text_delta".
Definition ModelEventToolCallDelta : string := "tool_call_delta".
Definition ModelEventToolCall : string := "tool_call".
Definition ModelEventUsage : string := "usage".
Definition ModelEventStop : string := "stop".
Definition ModelEventError : string := "error".

Record ToolCall : Type := { Call_ID : string; Call_Name : string; Call_Input : bytes }.

#[global] Instance ToolCall_eq_dec : EqDecision ToolCall.
Proof. solve_decision. Defined.

Record ToolCallDelta : Type := {
  Delta_Index : Z;
  Delta_ID : string;
  Delta_Name : string;
  Delta_InputFragment : string;
}.

#[global] Instance ToolCallDelta_eq_dec : EqDecision ToolCallDelta.
Proof. solve_decision. Defined.

Definition ToolCallDelta_Validate (d : ToolCallDelta) : result unit :=
  require (negb (Delta_Index d <? 0)) "tool-call delta index cannot be negative" ;;
  require (negb ((Delta_ID d =s "") && (Delta_Name d =s "") && (Delta_InputFragment d =s "")))
    "tool-call delta requires an ID, name, or input fragment" ;;
  require (negb ((Delta_ID d ≠s "") && bad_name (Delta_ID d))) "tool-call delta ID has invalid whitespace" ;;
  require (negb ((Delta_Name d ≠s "") && bad_name (Delta_Name d))) "tool-call delta name has invalid whitespace".

Record Usage : Type := {
  Usage_InputTokens : Z;
  Usage_OutputTokens : Z;
  Usage_CacheReadTokens : Z;
  Usage_CacheWriteTokens : Z;
  Usage_Cost : CostMicros;
}.

#[global] Instance Usage_eq_dec : EqDecision Usage.
Proof. solve_decision. Defined.

Definition zero_Usage : Usage :=
  {| Usage_InputTokens := 0; Usage_OutputTokens := 0; Usage_CacheReadTokens := 0;
     Usage_CacheWriteTokens := 0; Usage_Cost := 0 |}.

Definition Usage_Validate (u : Usage) : result unit :=
  require (negb ((Usage_InputTokens u <? 0) || (Usage_OutputTokens u <? 0) || (Usage_CacheReadTokens u <? 0) ||
                 (Usage_CacheWriteTokens u <? 0) || (Usage_Cost u <? 0))) "usage values cannot be negative".

Definition StopEndTurn : string := "end_turn".
Definition StopToolUse : string := "tool_use".
Definition StopMaxTokens : string := "max_tokens".
Definition StopRefusal : string := "refusal".
Definition StopCancelled : string := "cancelled".
Definition StopUnknown : string := "unknown".

Definition StopReason_Validate (reason : string) : result unit :=
  one_of [StopEndTurn; StopToolUse; StopMaxTokens; StopRefusal; StopCancelled; StopUnknown] reason
    "unknown stop reason".

Record ModelError : Type := {
  ModelError_Code : string;
  ModelError_Message : string;
  ModelError_Retryable : bool;
  ModelError_SafeToReroute : bool;
}.

#[global] Instance ModelError_eq_dec : EqDecision ModelError.
Proof. solve_decision. Defined.

Record ModelEvent : Type := {
  ModelEvent_Type : string;
  ModelEvent_Sequence : Z;
  ModelEvent_Text : string;
  ModelEvent_ToolCallDelta : option ToolCallDelta;
  ModelEvent_ToolCall : option ToolCall;
  ModelEvent_Usage : option Usage;
  ModelEvent_Stop : string;
  ModelEvent_Error : option ModelError;
  ModelEvent_Extension : option (gmap string bytes);
}.

#[global] Instance ModelEvent_eq_dec : EqDecision ModelEvent.
Proof. solve_decision. Defined.

Definition is_some {A} (o : option A) : bool := match o with Some _ => true | None => false end.

(** [validatePayload]: no payload but the allowed one is set. *)
Definition validatePayload (e : ModelEvent) (text delta call usage stop : bool) : result unit :=
  require (negb (negb text && (ModelEvent_Text e ≠s ""))) "model event contains text payload" ;;
  require (negb (negb delta && is_some (ModelEvent_ToolCallDelta e))) "model event contains tool-call delta payload" ;;
  require (negb (negb call && is_some (ModelEvent_ToolCall e))) "model event contains completed tool-call payload" ;;
  require (negb (negb usage && is_some (ModelEvent_Usage e))) "model event contains usage payload" ;;
  require (negb (negb stop && (ModelEvent_Stop e ≠s ""))) "model event contains stop payload" ;;
  require (negb ((ModelEvent_Type e ≠s ModelEventError) && is_some (ModelEvent_Error e)))
    "model event contains error payload".

(** The completed call of a tool_call event. *)
Definition bad_tool_call (c : ToolCall) : bool :=
  bad_name (Call_ID c) || bad_name (Call_Name c) || bad_json (Call_Input c).

Definition ModelEvent_Validate (e : ModelEvent) : result unit :=
  require (negb (ModelEvent_Sequence e =? 0)) "model event sequence must be positive" ;;
  let type := ModelEvent_Type e in
  if type =s ModelEventStart then validatePayload e false false false false false
  else if type =s ModelEventTextDelta then
    require (negb (ModelEvent_Text e =s "")) "text delta is empty" ;;
    validatePayload e true false false false false
  else if type =s ModelEventToolCallDelta then
    match ModelEvent_ToolCallDelta e with
    | None => Err (errors_New "tool-call delta event requires a delta")
    | Some delta => ToolCallDelta_Validate delta ;; validatePayload e false true false false false
    end
  else if type =s ModelEventUsage then
    match ModelEvent_Usage e with
    | None => Err (errors_New "usage event requires usage")
    | Some usage => Usage_Validate usage ;; validatePayload e false false false true false
    end
  else if type =s ModelEventToolCall then
    require (match ModelEvent_ToolCall e with Some call => negb (bad_tool_call call) | None => false end)
      "completed tool-call event is invalid" ;;
    validatePayload e false false true false false
  else if type =s ModelEventStop then
    StopReason_Validate (ModelEvent_Stop e) ;; validatePayload e false false false false true
  else if type =s ModelEventError then
    require (match ModelEvent_Error e with
             | Some err => negb (bad_name (ModelError_Code err) || blank (ModelError_Message err))
             | None => false
             end) "error event requires a code and message" ;;
    validatePayload e false false false false false
  else Err (errors_New "unknown model event type").

(** [ModelEvent.Clone] copies what the pointers and the map refer to. *)
Definition ModelEvent_Clone (e : ModelEvent) : ModelEvent :=
  {| e with ModelEvent_Extension := cloneStringMap (ModelEvent_Extension e) |}.

(* ------------------------------------------------------------------ *)
(** ** Lemmas *)

Lemma cloneStringMap_id {V} (m : option (gmap string V)) : cloneStringMap m = m.
Proof.
  destruct m as [m|]; [|done]. cbn. f_equal.
  change (list_to_map (M := gmap string V) (map_to_list m) = m). apply list_to_map_to_list.
Qed.

Lemma ModelEvent_Clone_id e : ModelEvent_Clone e = e.
Proof. unfold ModelEvent_Clone. rewrite cloneStringMap_id. by destruct e. Qed.

Lemma ModelDescriptor_Clone_id d : ModelDescriptor_Clone d = d.
Proof. unfold ModelDescriptor_Clone. rewrite cloneStringMap_id. by destruct d. Qed.

(** An accepted request has distinct tool names and every named choice resolves. *)
Lemma ModelRequest_Validate_tools r u :
  ModelRequest_Validate r = Ok u →
  NoDup (Tool_Name <$> Request_Tools r) ∧
  (ToolChoice_Mode (Request_ToolChoice r) = ToolChoiceNamed →
   ∃ tool, tool ∈ Request_Tools r ∧ Tool_Name tool = ToolChoice_Name (Request_ToolChoice r)).
Proof.
  intros H. unfold ModelRequest_Validate in H. do 4 apply seq_Ok in H as [_ H].
  apply seq_Ok in H as [Ht H]. apply each_fresh_Ok in Ht as (_ & Hnd & _). split; [done|].
  intros Hm. do 3 apply seq_Ok in H as [_ H]. rewrite when_Ok in H.
  specialize (H (proj2 (String.eqb_eq _ _) Hm)). destruct u. apply require_Ok, existsb_exists in H as (t & Hin & Ht).
  exists t. split; [by apply list_elem_of_In | by apply String.eqb_eq].
Qed.
