(* ===== verification/Stream.v ===== *)
(** * Model streams: src/provider.go and DrainStream of src/model.go

    The validator of the event protocol of a model stream, the discovery of a
    provider's catalog and the consumption of a whole stream. *)

From Stdlib Require Import ZArith Lia.
From S2P Require Import Prelude GoNum GoText GoJson Ident Domain Model.

Definition ErrProviderCatalog : error := Sentinel "invalid provider catalog".
Definition ErrModelStreamProtocol : error := Sentinel "invalid model stream protocol".
Definition io_EOF : error := Sentinel "EOF".

(* ------------------------------------------------------------------ *)
(** ** The validator *)

Record ModelStreamValidator : Type := {
  lastSequence : Z;
  started : bool;
  terminal : bool;
}.

Definition zero_validator : ModelStreamValidator := {| lastSequence := 0; started := false; terminal := false |}.

Definition is_terminal (e : ModelEvent) : bool :=
  (ModelEvent_Type e =s ModelEventStop) || (ModelEvent_Type e =s ModelEventError).

(** [Accept].  As in the code, [started] is set before the sequence is checked. *)
Definition Validator_Accept (event : ModelEvent) : ST ModelStreamValidator unit :=
  v ← st_get;
  st_lift (require_w (negb (terminal v)) ErrModelStreamProtocol "event followed terminal event") ;;
  st_lift (wrap_base ErrModelStreamProtocol (ModelEvent_Validate event)) ;;
  (if negb (started v)
   then st_lift (require_w (ModelEvent_Type event =s ModelEventStart) ErrModelStreamProtocol "first event") ;;
        st_modify (fun v => {| v with started := true |})
   else st_lift (require_w (negb (ModelEvent_Type event =s ModelEventStart)) ErrModelStreamProtocol
                   "repeated start event")) ;;
  st_lift (require_w (ModelEvent_Sequence event =? wrapu64 (lastSequence v + 1)) ErrModelStreamProtocol "sequence") ;;
  st_modify (fun v => {| v with lastSequence := ModelEvent_Sequence event; terminal := is_terminal event |}).

Definition Validator_Complete : ST ModelStreamValidator unit :=
  v ← st_get;
  st_lift (require_w (started v) ErrModelStreamProtocol "stream ended before start") ;;
  st_lift (require_w (terminal v) ErrModelStreamProtocol "stream ended without a terminal event").

(* ------------------------------------------------------------------ *)
(** ** DrainStream *)

(** A stream: the result of its i-th [Recv], and what [Close] returns. *)
Record ModelStream : Type := {
  Stream_Recv : nat → result ModelEvent;
  Stream_Close : option error;
}.

(** The receive loop, at most [fuel] rounds: the events and the error. *)
Fixpoint drain_loop (fuel : nat) (ctx : nat → option error) (stream : ModelStream) (i : nat)
    (validator : ModelStreamValidator) (events : list ModelEvent) : option (list ModelEvent * option error) :=
  match fuel with
  | O => None
  | S fuel' =>
      match Stream_Recv stream i with
      | Err err =>
          if errors_Is err "EOF" then Some (events, error_of (fst (Validator_Complete validator)))
          else match ctx 0%nat with
               | Some _ => Some (events, ctx 1%nat)
               | None => Some (events, Some err)
               end
      | Ok event =>
          match Validator_Accept event validator with
          | (Err err, _) => Some (events, Some err)
          | (Ok _, validator') => drain_loop fuel' ctx stream (S i) validator' (events ++ [ModelEvent_Clone event])
          end
      end
  end.

(** [DrainStream]: [None] is a run of more than [fuel] receives; the deferred
    [Close] is joined to the error. *)
Definition DrainStream (fuel : nat) (ctx : nat → option error) (stream : option ModelStream)
    : option (list ModelEvent * option error) :=
  match stream with
  | None => Some ([], Some (errors_New "model stream is nil"))
  | Some s =>
      match drain_loop fuel ctx s 0 zero_validator [] with
      | None => None
      | Some (events, err) => Some (events, errors_Join [err; Stream_Close s])
      end
  end.

(* ------------------------------------------------------------------ *)
(** ** DiscoverModels *)

(** A provider: its name and what [Models] returns. *)
Record Provider : Type := {
  Provider_Name : string;
  Provider_Models : result (list ModelDescriptor);
}.

(** The loop over the descriptors, with the set of model names seen. *)
Fixpoint discover_loop (name : string) (seen : gset string) (descriptors : list ModelDescriptor)
    : result (list ModelDescriptor) :=
  match descriptors with
  | [] => Ok []
  | d :: rest =>
      wrap_base ErrProviderCatalog (ModelDescriptor_Validate d) ;;
      require_w (ModelRef_Provider (Descriptor_Ref d) =s name) ErrProviderCatalog "model belongs to provider" ;;
      require_w (negb (bool_decide (ModelRef_Model (Descriptor_Ref d) ∈ seen))) ErrProviderCatalog "duplicate model" ;;
      rest' ← discover_loop name ({[ ModelRef_Model (Descriptor_Ref d) ]} ∪ seen) rest;
      Ok (ModelDescriptor_Clone d :: rest')
  end.

Definition DiscoverModels (ctx : nat → option error) (provider : option Provider) : result (list ModelDescriptor) :=
  check_ctx (ctx 0%nat) ;;
  match provider with
  | None => Err (Errorf "provider is nil" [ErrProviderCatalog])
  | Some p =>
      require_w (negb (bad_name (Provider_Name p))) ErrProviderCatalog
        "provider name is empty or has surrounding whitespace" ;;
      match Provider_Models p with
      | Err err => match ctx 1%nat with
                   | Some _ => match ctx 2%nat with Some e => Err e | None => Ok [] end
                   | None => Err err
                   end
      | Ok descriptors =>
          check_ctx (ctx 1%nat) ;;
          discover_loop (Provider_Name p) ∅ descriptors
      end
  end.

(* ------------------------------------------------------------------ *)
(** ** The protocol, declaratively *)

(** The events of a stream so far: numbered from 1, each valid, the start
    event first and only there, a terminal event at most at the end. *)
Definition protocol_prefix (events : list ModelEvent) : Prop :=
  ∀ i e, events !! i = Some e →
    ModelEvent_Validate e = Ok tt ∧ ModelEvent_Sequence e = Z.of_nat i + 1 ∧
    (ModelEvent_Type e = ModelEventStart ↔ i = 0%nat) ∧
    (is_terminal e = true → S i = length events).

(** A whole stream also ends with a terminal event. *)
Definition protocol_complete (events : list ModelEvent) : Prop :=
  protocol_prefix events ∧ ∃ e, last events = Some e ∧ is_terminal e = true.

Fixpoint accept_all (events : list ModelEvent) : ST ModelStreamValidator unit :=
  match events with
  | [] => mret tt
  | e :: events' => Validator_Accept e ;; accept_all events'
  end.

(** The state of the validator after the events of a stream. *)
Definition validator_after (events : list ModelEvent) : ModelStreamValidator :=
  {| lastSequence := Z.of_nat (length events);
     started := match events with [] => false | _ => true end;
     terminal := match last events with Some e => is_terminal e | None => false end |}.

(** One accepted event, as conditions and effect. *)
Lemma Validator_Accept_Ok event v v' :
  Validator_Accept event v = (Ok tt, v') ↔
  terminal v = false ∧ ModelEvent_Validate event = Ok tt ∧
  (ModelEvent_Type event = ModelEventStart ↔ started v = false) ∧
  ModelEvent_Sequence event = wrapu64 (lastSequence v + 1) ∧
  v' = {| lastSequence := ModelEvent_Sequence event; started := true; terminal := is_terminal event |}.
Proof.
  unfold Validator_Accept, mbind, st_bind, st_get, st_lift, st_modify.
  destruct v as [l s t]. cbn [terminal started lastSequence].
  destruct t; cbn [negb require_w]; [naive_solver|].
  destruct (ModelEvent_Validate event) as [[]|]; cbn [wrap_base]; [|naive_solver].
  destruct s, (String.eqb_spec (ModelEvent_Type event) ModelEventStart); cbn [negb require_w];
    try naive_solver;
    destruct (Z.eqb_spec (ModelEvent_Sequence event) (wrapu64 (l + 1))); cbn [require_w]; naive_solver.
Qed.

Lemma Validator_Complete_Ok v : fst (Validator_Complete v) = Ok tt ↔ started v = true ∧ terminal v = true.
Proof.
  unfold Validator_Complete, mbind, st_bind, st_get, st_lift.
  destruct (started v), (terminal v); cbn; naive_solver.
Qed.

Lemma ModelEvent_Validate_sequence e : ModelEvent_Validate e = Ok tt → ModelEvent_Sequence e ≠ 0.
Proof.
  unfold ModelEvent_Validate. rewrite seq_Ok, require_Ok, negb_true_iff, Z.eqb_neq. tauto.
Qed.

Lemma protocol_prefix_snoc events e :
  protocol_prefix (events ++ [e]) ↔
  protocol_prefix events ∧ terminal (validator_after events) = false ∧
  ModelEvent_Validate e = Ok tt ∧ ModelEvent_Sequence e = Z.of_nat (length events) + 1 ∧
  (ModelEvent_Type e = ModelEventStart ↔ events = []).
Proof.
  unfold protocol_prefix, validator_after. cbn [terminal]. split.
  - intros H. pose proof (H (length events) e) as He.
    rewrite lookup_app_r, Nat.sub_diag in He by lia. destruct (He eq_refl) as (H1 & H2 & H3 & _).
    split_and!; try done.
    + intros i x Hx. destruct (H i x) as (Hv & Hs & Ht & Hl); [by apply lookup_app_l_Some|].
      split_and!; try done. intros Hterm. apply Hl in Hterm. rewrite length_app in Hterm. cbn in Hterm.
      apply lookup_lt_Some in Hx. lia.
    + destruct (last events) as [x|] eqn:El; [|done]. apply not_true_is_false. intros Hterm.
      rewrite last_lookup in El. pose proof (lookup_lt_Some _ _ _ El).
      destruct (H (pred (length events)) x) as (_ & _ & _ & Hl); [by apply lookup_app_l_Some|].
      specialize (Hl Hterm). rewrite length_app in Hl. cbn in Hl. lia.
    + rewrite H3. destruct events; naive_solver.
  - intros (H & Hterm & Hv & Hs & Ht) i x. rewrite lookup_snoc. intros [Hx|[-> <-]].
    + destruct (H i x Hx) as (? & ? & ? & Hl). split_and!; try done. intros Hxt. pose proof (Hl Hxt) as Hlen.
      assert (last events = Some x) as El by (by rewrite last_lookup, <-Hlen).
      rewrite El, Hxt in Hterm. done.
    + split_and!; try done; [rewrite Ht; destruct events; naive_solver|].
      intros _. rewrite length_app. cbn. lia.
Qed.

(** The validator accepts exactly the prefixes of the protocol, and its state
    is a function of the events accepted. *)
Lemma accept_all_after events1 events2 v' :
  protocol_prefix events1 → Z.of_nat (length events1) < uint64_mod →
  accept_all events2 (validator_after events1) = (Ok tt, v') →
  protocol_prefix (events1 ++ events2) ∧ v' = validator_after (events1 ++ events2) ∧
  Z.of_nat (length (events1 ++ events2)) < uint64_mod.
Proof.
  revert events1. induction events2 as [|e events2 IH]; intros events1 Hp Hlen.
  { cbn. unfold mret, st_ret. rewrite app_nil_r. intros [= <-]. done. }
  cbn [accept_all]. rewrite st_bind_Ok. intros ([] & v1 & Ha & Hrest).
  apply Validator_Accept_Ok in Ha as (Ht & Hv & Hstart & Hs & ->).
  assert (ModelEvent_Sequence e = Z.of_nat (length events1) + 1 ∧
          Z.of_nat (length events1) + 1 < uint64_mod) as [Hs' Hlt].
  { pose proof (ModelEvent_Validate_sequence _ Hv) as Hnz. cbn [validator_after lastSequence] in Hs.
    destruct (decide (Z.of_nat (length events1) + 1 = uint64_mod)) as [E|E].
    - rewrite E in Hs. unfold wrapu64, uint64_mod in *. rewrite Z.mod_same in Hs by done. done.
    - rewrite wrapu64_id in Hs by (unfold is_uint64; lia). lia. }
  assert (protocol_prefix (events1 ++ [e])) as Hp'.
  { apply protocol_prefix_snoc. split_and!; try done. rewrite Hstart. cbn. destruct events1; naive_solver. }
  replace (events1 ++ e :: events2) with ((events1 ++ [e]) ++ events2) by (by rewrite <-app_assoc).
  apply (IH (events1 ++ [e])); [done | rewrite length_app; cbn; lia |].
  rewrite <-Hrest. f_equal. unfold validator_after. rewrite length_app, last_snoc, Hs'. cbn.
  f_equal; [lia | by destruct events1].
Qed.

Lemma accept_all_complete events1 events2 :
  protocol_prefix (events1 ++ events2) → Z.of_nat (length (events1 ++ events2)) < uint64_mod →
  accept_all events2 (validator_after events1) = (Ok tt, validator_after (events1 ++ events2)).
Proof.
  revert events1. induction events2 as [|e events2 IH]; intros events1 Hp Hlen.
  { by rewrite app_nil_r. }
  replace (events1 ++ e :: events2) with ((events1 ++ [e]) ++ events2) in * by (by rewrite <-app_assoc).
  cbn [accept_all]. rewrite st_bind_Ok. exists tt, (validator_after (events1 ++ [e])). split; [|by apply IH].
  assert (protocol_prefix (events1 ++ [e])) as Hp1.
  { clear IH. revert Hp Hlen. pattern events2. apply rev_ind; [by rewrite app_nil_r|].
    intros x l IHl Hp Hlen. rewrite app_assoc in Hp, Hlen. apply protocol_prefix_snoc in Hp as (Hp & _).
    apply IHl; [done|]. rewrite length_app in Hlen. lia. }
  apply protocol_prefix_snoc in Hp1 as (_ & Ht & Hv & Hs & Hst).
  rewrite !length_app in Hlen. cbn in Hlen.
  apply Validator_Accept_Ok. split_and!; try done.
  - rewrite Hst. cbn. destruct events1; naive_solver.
  - cbn [validator_after lastSequence]. rewrite wrapu64_id; [done|]. unfold is_uint64. lia.
  - unfold validator_after. rewrite length_app, last_snoc, Hs. cbn. f_equal; [lia | by destruct events1].
Qed.

Lemma accept_all_zero events v' :
  accept_all events zero_validator = (Ok tt, v') ↔
  protocol_prefix events ∧ Z.of_nat (length events) < uint64_mod ∧ v' = validator_after events.
Proof.
  change zero_validator with (validator_after []). split.
  - intros H. apply (accept_all_after []) in H as (H1 & H2 & H3); done.
  - intros (H1 & H2 & ->). by apply (accept_all_complete []).
Qed.

(** The receive loop on the events still to come. *)
Lemma drain_loop_spec fuel ctx s rest acc e :
  (∀ j x, rest !! j = Some x → Stream_Recv s (length acc + j) = Ok x) →
  Stream_Recv s (length acc + length rest)%nat = Err e → (length rest < fuel)%nat →
  protocol_prefix acc → Z.of_nat (length acc) < uint64_mod →
  ∃ evs err, drain_loop fuel ctx s (length acc) (validator_after acc) acc = Some (evs, err) ∧
    protocol_prefix evs ∧ evs `prefix_of` acc ++ rest ∧
    (err = None ↔ evs = acc ++ rest ∧
       if errors_Is e "EOF" then protocol_complete evs else is_some (ctx 0%nat) = true ∧ ctx 1%nat = None).
Proof.
  revert acc fuel. induction rest as [|x rest IH]; intros acc fuel Hx He Hf Hp Hlen;
    (destruct fuel as [|fuel]; [cbn in Hf; lia|]); cbn [drain_loop].
  - rewrite app_nil_r. rewrite Nat.add_0_r in He. rewrite He.
    destruct (errors_Is e "EOF").
    + eexists _, _. split; [reflexivity|]. split_and!; [done | done |].
      destruct (Validator_Complete (validator_after acc)) as [r v] eqn:E. cbn [fst].
      pose proof (Validator_Complete_Ok (validator_after acc)) as Hc. rewrite E in Hc. cbn [fst] in Hc.
      unfold protocol_complete. cbn [validator_after started terminal] in Hc.
      destruct r as [[]|err]; cbn.
      * destruct Hc as [Hc _]. destruct (Hc eq_refl) as [_ Ht]. split; [|done]. intros _.
        split_and!; try done. destruct (last acc) as [y|]; [|done]. by exists y.
      * split; [done|]. intros (_ & _ & y & Hy & Ht). rewrite Hy in Hc.
        destruct Hc as [_ Hc]. destruct acc; [done|]. by specialize (Hc (conj eq_refl Ht)).
    + destruct (ctx 0%nat) eqn:E0; (eexists _, _; split; [reflexivity|]); cbn; naive_solver.
  - pose proof (Hx 0%nat x eq_refl) as H0. rewrite Nat.add_0_r in H0. rewrite H0.
    destruct (Validator_Accept x (validator_after acc)) as [[[]|err] v'] eqn:Ea.
    + destruct (accept_all_after acc [x] v') as (Hp' & -> & Hlen'); [done..| |].
      { cbn [accept_all]. rewrite st_bind_Ok. by exists tt, v'. }
      rewrite ModelEvent_Clone_id.
      replace (S (length acc)) with (length (acc ++ [x])) by (rewrite length_app; cbn; lia).
      destruct (IH (acc ++ [x]) fuel) as (evs & err & H1 & H2 & H3 & H4); try done.
      * intros j y Hy. rewrite length_app. cbn. rewrite <-Nat.add_assoc. apply (Hx (S j)). done.
      * rewrite length_app. cbn. rewrite <-Nat.add_assoc. exact He.
      * cbn in Hf. lia.
      * exists evs, err. rewrite <-app_assoc in H3, H4. done.
    + eexists _, _. split; [reflexivity|]. split_and!; [done | by apply prefix_app_r |].
      split; [done|]. intros [H _]. apply (f_equal length) in H. rewrite length_app in H. cbn in H. lia.
Qed.

Lemma discover_loop_Ok name seen descriptors ds :
  discover_loop name seen descriptors = Ok ds ↔
  ds = descriptors ∧
  Forall (fun d => ModelDescriptor_Validate d = Ok tt ∧ ModelRef_Provider (Descriptor_Ref d) = name) descriptors ∧
  NoDup ((fun d => ModelRef_Model (Descriptor_Ref d)) <$> descriptors) ∧
  ∀ d, d ∈ descriptors → ModelRef_Model (Descriptor_Ref d) ∉ seen.
Proof.
  revert seen ds. induction descriptors as [|d rest IH]; intros seen ds; cbn [discover_loop].
  { rewrite ret_Ok. split; [intros <-; split_and!; [done|constructor|constructor|set_solver] | by intros [-> _]]. }
  rewrite !seq_Ok, wrap_base_Ok, !require_w_Ok, negb_true_iff, bool_decide_eq_false, seqb_true, bind_Ok.
  setoid_rewrite IH. setoid_rewrite ret_Ok. rewrite ModelDescriptor_Clone_id, Forall_cons, fmap_cons, NoDup_cons.
  setoid_rewrite elem_of_cons. setoid_rewrite not_elem_of_union. setoid_rewrite not_elem_of_singleton.
  rewrite list_elem_of_fmap. naive_solver.
Qed.

(* ------------------------------------------------------------------ *)
(** ** Properties *)

(** C32. The validator's [Accept] calls followed by [Complete] all succeed exactly on
    the event lists of the protocol: valid events numbered 1, 2, ..., one start
    event at the front, one terminal event (stop or error) at the end. *)
Theorem validator_accepts_protocol events :
  fst ((accept_all events ;; Validator_Complete) zero_validator) = Ok tt ↔
  protocol_complete events ∧ Z.of_nat (length events) < uint64_mod.
Proof.
  unfold mbind at 1, st_bind. destruct (accept_all events zero_validator) as [[[]|e] v] eqn:E; cbn [fst].
  - apply accept_all_zero in E as (Hp & Hlen & ->). rewrite Validator_Complete_Ok.
    unfold protocol_complete. cbn. destruct events as [|x l]; [naive_solver|].
    destruct (last (x :: l)) eqn:El; naive_solver.
  - split; [done|]. intros [[Hp _] Hlen].
    assert (accept_all events zero_validator = (Ok tt, validator_after events)) as E2 by (by apply accept_all_zero).
    by rewrite E2 in E.
Qed.

(** [st] hands on [es] and then fails with [e]. *)
Definition delivers (st : ModelStream) (es : list ModelEvent) (e : error) : Prop :=
  (∀ i x, es !! i = Some x → Stream_Recv st i = Ok x) ∧ Stream_Recv st (length es) = Err e.

Lemma delivers_unique st es e es' e' : delivers st es e → delivers st es' e' → es = es' ∧ e = e'.
Proof.
  intros [H1 H2] [H1' H2']. assert (length es = length es') as Hl.
  { destruct (lt_eq_lt_dec (length es) (length es')) as [[Hlt| ]|Hlt]; [|done|].
    - apply lookup_lt_is_Some in Hlt as [x Hx]. specialize (H1' _ _ Hx). congruence.
    - apply lookup_lt_is_Some in Hlt as [x Hx]. specialize (H1 _ _ Hx). congruence. }
  assert (es = es') as ->; [|split; [done | congruence]].
  apply list_eq. intros i. destruct (es !! i) as [x|] eqn:Ex.
  - assert (i < length es')%nat as [y Hy]%lookup_lt_is_Some by (rewrite <-Hl; by eapply lookup_lt_Some).
    specialize (H1 _ _ Ex). specialize (H1' _ _ Hy). congruence.
  - symmetry. apply lookup_ge_None. apply lookup_ge_None in Ex. lia.
Qed.

Lemma DrainStream_outcome fuel ctx s es e :
  delivers s es e → (length es < fuel)%nat → (∀ n, is_some (ctx 0%nat) = true → is_some (ctx n) = true) →
  ∃ evs err, DrainStream fuel ctx (Some s) = Some (evs, err) ∧
    protocol_prefix evs ∧ evs `prefix_of` es ∧
    (err = None ↔ evs = es ∧ protocol_complete es ∧ errors_Is e "EOF" = true ∧ Stream_Close s = None).
Proof.
  intros [Hx He] Hf Hsticky.
  destruct (drain_loop_spec fuel ctx s es [] e) as (evs & err & H1 & H2 & H3 & H4); try done.
  unfold DrainStream. change zero_validator with (validator_after []). change 0%nat with (length (@nil ModelEvent)).
  rewrite H1. eexists _, _. split; [reflexivity|]. split_and!; [done | done |].
  assert (errors_Join [err; Stream_Close s] = None ↔ err = None ∧ Stream_Close s = None) as ->.
  { destruct err, (Stream_Close s); cbn; naive_solver. }
  rewrite H4. cbn [app]. destruct (errors_Is e "EOF"); [naive_solver|].
  specialize (Hsticky 1%nat). destruct (ctx 1%nat); naive_solver.
Qed.

(** [DrainStream] of a stream that sends [es] and then fails or ends with [e]
    returns within [length es + 1] receives; the events it returns are always a
    prefix of what was sent that follows the protocol, and it reports success
    exactly when all of it was consumed, it is a complete protocol run ended by
    io.EOF and [Close] succeeded. *)
Theorem DrainStream_spec fuel ctx s es e :
  delivers s es e → (length es < fuel)%nat → (∀ n, is_some (ctx 0%nat) = true → is_some (ctx n) = true) →
  ∃ evs err, DrainStream fuel ctx (Some s) = Some (evs, err) ∧
    protocol_prefix evs ∧ evs `prefix_of` es ∧
    (err = None ↔ evs = es ∧ protocol_complete es ∧ errors_Is e "EOF" = true ∧ Stream_Close s = None).
Proof. apply DrainStream_outcome. Qed.

(** With a live context [DiscoverModels] returns a catalog exactly when the
    provider's name is good, the provider lists it, every descriptor validates
    and names that provider, and no model is listed twice; it is returned
    unchanged. *)
Theorem DiscoverModels_spec ctx p ds :
  (∀ n, ctx n = None) →
  DiscoverModels ctx (Some p) = Ok ds ↔
  bad_name (Provider_Name p) = false ∧ Provider_Models p = Ok ds ∧
  Forall (fun d => ModelDescriptor_Validate d = Ok tt ∧ ModelRef_Provider (Descriptor_Ref d) = Provider_Name p) ds ∧
  NoDup ((fun d => ModelRef_Model (Descriptor_Ref d)) <$> ds).
Proof.
  intros Hc. unfold DiscoverModels. rewrite !Hc. rewrite seq_Ok, seq_Ok, require_w_Ok, negb_true_iff.
  destruct (Provider_Models p) as [l|]; [|naive_solver].
  rewrite seq_Ok, discover_loop_Ok. cbn. split; [naive_solver|].
  intros (H1 & [= ->] & H2 & H3). split_and!; try done.
Qed.

Definition example_event (type : string) (n : Z) (text stop : string) : ModelEvent :=
  {| ModelEvent_Type := type; ModelEvent_Sequence := n; ModelEvent_Text := text; ModelEvent_ToolCallDelta := None;
     ModelEvent_ToolCall := None; ModelEvent_Usage := None; ModelEvent_Stop := stop; ModelEvent_Error := None;
     ModelEvent_Extension := None |}.

Definition example_events : list ModelEvent :=
  [example_event ModelEventStart 1 "" ""; example_event ModelEventTextDelta 2 "hi" "";
   example_event ModelEventStop 3 "" StopEndTurn].

Definition example_stream : ModelStream :=
  {| Stream_Recv := fun i => match example_events !! i with Some x => Ok x | None => Err io_EOF end;
     Stream_Close := None |}.

Example DrainStream_spec_witness :
  ∃ evs err, DrainStream 4 background (Some example_stream) = Some (evs, err) ∧
    protocol_prefix evs ∧ evs `prefix_of` example_events ∧
    (err = None ↔ evs = example_events ∧ protocol_complete example_events ∧ errors_Is io_EOF "EOF" = true ∧
       Stream_Close example_stream = None).
Proof.
  apply (DrainStream_spec 4 background example_stream example_events io_EOF);
    [split; [|reflexivity]|vm_compute; lia|done].
  intros i x H. unfold example_stream. cbn [Stream_Recv]. by rewrite H.
Defined.

Definition example_capabilities : ModelCapabilities :=
  {| Cap_ContextTokens := 8000; Cap_MaxOutputTokens := 1000; Cap_Modalities := ["text"]; Cap_ToolUse := ToolUseNative;
     Cap_ParallelToolCalls := false; Cap_StrictToolSchemas := false; Cap_DynamicTools := false;
     Cap_MultimodalToolResults := false; Cap_Streaming := true; Cap_StructuredOutput := true;
     Cap_PromptCaching := false; Cap_AutomaticCompaction := false; Cap_ReasoningSummaries := false |}.

Definition example_descriptor : ModelDescriptor :=
  {| Descriptor_Ref := {| ModelRef_Provider := "p"; ModelRef_Model := "m" |};
     Descriptor_Capabilities := example_capabilities; Descriptor_Labels := None |}.

Example DiscoverModels_spec_witness :
  DiscoverModels background (Some {| Provider_Name := "p"; Provider_Models := Ok [example_descriptor] |})
  = Ok [example_descriptor].
Proof.
  apply (DiscoverModels_spec background {| Provider_Name := "p"; Provider_Models := Ok [example_descriptor] |});
    [done|]. split_and!; [vm_compute; reflexivity | reflexivity | |].
  - repeat constructor.
  - repeat constructor. set_solver.
Defined.
