(* ===== verification/Policy.v ===== *)
(** * Policy: src/policy.go (and SandboxCapability of src/sandbox.go)

    Content manifests and their digest, execution and egress requests, scopes
    and verdicts, and the two evaluators that convert every failure of a policy
    into a deny verdict.  A policy is its method applied to a context: a
    function of the request. *)

From Stdlib Require Import ZArith Lia Ascii String.
From S2P Require Import Prelude GoNum GoText GoJson GoHash Ident Domain Model.

Definition validateSHA256 (name value : string) : result unit :=
  require (Z.of_nat (String.length value) =? 64) "must contain 64 hexadecimal characters" ;;
  require (is_some (hex_Decode value)) "hex" ;;
  require (value =s strings_ToLower value) "must use lowercase hexadecimal".

(* ------------------------------------------------------------------ *)
(** ** Content *)

Record ContentItem : Type := {
  Item_SHA256 : string;
  Item_MediaType : string;
  Item_SizeBytes : Z;
  Item_Classification : Classification;
}.

#[global] Instance ContentItem_eq_dec : EqDecision ContentItem.
Proof. solve_decision. Defined.

Definition ContentItem_Validate (item : ContentItem) : result unit :=
  validateSHA256 "content SHA-256" (Item_SHA256 item) ;;
  require (negb (blank (Item_MediaType item))) "content media type is required" ;;
  require (negb (Item_SizeBytes item <? 0)) "content size cannot be negative" ;;
  when (Item_Classification item ≠s "") (Classification_Validate (Item_Classification item)).

Definition ContentItem_EffectiveClassification (item : ContentItem) : Classification :=
  if Item_Classification item =s "" then ClassConfidential else Item_Classification item.

Record ContentManifest : Type := { Items : list ContentItem }.

#[global] Instance ContentManifest_eq_dec : EqDecision ContentManifest.
Proof. solve_decision. Defined.

Definition ContentManifest_Validate (manifest : ContentManifest) : result unit :=
  require (negb (Z.of_nat (length (Items manifest)) =? 0)) "content manifest cannot be empty" ;;
  each_fresh Item_SHA256 (fun item => wrapf "content item" (ContentItem_Validate item))
    "content item duplicates SHA-256" ∅ (Items manifest).

(** The bytes of a list of byte values. *)
Fixpoint string_of_bytes (l : list Z) : string :=
  match l with
  | [] => ""
  | b :: l' => String (ascii_of_N (Z.to_N b)) (string_of_bytes l')
  end.

(** [binary.BigEndian.PutUint64] *)
Definition put_uint64 (v : Z) : string := string_of_bytes (be_bytes 8 v).

(** What [writeDigestString] writes: the length and the bytes. *)
Definition writeDigestString (value : string) : string :=
  put_uint64 (wrapu64 (Z.of_nat (String.length value))) +:+ value.

Definition digest_item (item : ContentItem) : string :=
  writeDigestString (Item_SHA256 item) +:+ writeDigestString (Item_MediaType item) +:+
  put_uint64 (wrapu64 (Item_SizeBytes item)) +:+ writeDigestString (Item_Classification item).

Fixpoint digest_items (items : list ContentItem) : string :=
  match items with
  | [] => ""
  | item :: items' => digest_item item +:+ digest_items items'
  end.

(** All that is written to the hash. *)
Definition digest_preimage (manifest : ContentManifest) : string :=
  ("fabricrunner.content-manifest.v1" +:+ nul) +:+ digest_items (Items manifest).

Definition digestUnchecked (manifest : ContentManifest) : string := sha256_hex (digest_preimage manifest).

Definition ContentManifest_Digest (manifest : ContentManifest) : result string :=
  ContentManifest_Validate manifest ;; Ok (digestUnchecked manifest).

Definition classificationRank (classification : Classification) : Z :=
  if classification =s ClassPublic then 0
  else if classification =s ClassInternal then 1
  else if classification =s ClassConfidential then 2
  else if classification =s ClassSecret then 3
  else -1.

(** The loop that keeps the classification of the highest rank. *)
Definition raise_classification (acc : Classification) (item : ContentItem) : Classification :=
  let classification := ContentItem_EffectiveClassification item in
  if classificationRank acc <? classificationRank classification then classification else acc.

Definition ContentManifest_EffectiveClassification (manifest : ContentManifest) : result Classification :=
  ContentManifest_Validate manifest ;; Ok (fold_left raise_classification (Items manifest) ClassPublic).

(* ------------------------------------------------------------------ *)
(** ** Targets and requests *)

Record SandboxCapability : Type := { Sandbox_Established : bool; Sandbox_Backend : string }.

#[global] Instance SandboxCapability_eq_dec : EqDecision SandboxCapability.
Proof. solve_decision. Defined.

Definition zero_SandboxCapability : SandboxCapability := {| Sandbox_Established := false; Sandbox_Backend := "" |}.

Definition ExecutionTargetModel : string := "model".
Definition ExecutionTargetTool : string := "tool".

Record ExecutionTarget : Type := {
  Target_Sandbox : SandboxCapability;
  Target_Kind : string;
  Target_Zone : Zone;
  Target_Model : option ModelRef;
  Target_ToolName : string;
}.

#[global] Instance ExecutionTarget_eq_dec : EqDecision ExecutionTarget.
Proof. solve_decision. Defined.

Definition ExecutionTarget_Validate (target : ExecutionTarget) : result unit :=
  Zone_Validate (Target_Zone target) ;;
  if Target_Kind target =s ExecutionTargetModel then
    match Target_Model target with
    | None => Err (errors_New "model target requires a model")
    | Some model =>
        ModelRef_Validate model ;;
        require (Target_ToolName target =s "") "model target cannot name a tool"
    end
  else if Target_Kind target =s ExecutionTargetTool then
    require (negb (blank (Target_ToolName target))) "tool target requires a tool name" ;;
    require (negb (is_some (Target_Model target))) "tool target cannot name a model"
  else Err (errors_New "unknown execution target kind").

Record ExecutionPolicyRequest : Type := {
  Exec_WorkloadID : ID;
  Exec_StepID : ID;
  Exec_AttemptID : ID;
  Exec_StepKind : StepKind;
  Exec_Target : ExecutionTarget;
  Exec_Manifest : ContentManifest;
  Exec_Autonomous : bool;
}.

#[global] Instance ExecutionPolicyRequest_eq_dec : EqDecision ExecutionPolicyRequest.
Proof. solve_decision. Defined.

(** The loop over the three identifiers of a request. *)
Definition validate_ids (workloadID stepID attemptID : ID) : result unit :=
  each (fun field => wrapf field.1 (ID_Validate field.2))
    [("workload ID", workloadID); ("step ID", stepID); ("attempt ID", attemptID)].

Definition ExecutionPolicyRequest_Validate (r : ExecutionPolicyRequest) : result unit :=
  validate_ids (Exec_WorkloadID r) (Exec_StepID r) (Exec_AttemptID r) ;;
  StepKind_Validate (Exec_StepKind r) ;;
  wrapf "execution target" (ExecutionTarget_Validate (Exec_Target r)) ;;
  require (negb ((Exec_StepKind r =s StepModelTurn) && (Target_Kind (Exec_Target r) ≠s ExecutionTargetModel)))
    "model-turn step requires a model target" ;;
  require (negb ((Exec_StepKind r =s StepTool) && (Target_Kind (Exec_Target r) ≠s ExecutionTargetTool)))
    "tool step requires a tool target" ;;
  require (negb ((Exec_StepKind r ≠s StepModelTurn) && (Exec_StepKind r ≠s StepTool)))
    "execution policy does not evaluate steps of this kind" ;;
  wrapf "execution manifest" (ContentManifest_Validate (Exec_Manifest r)).

Record DataEgressPolicyRequest : Type := {
  Egress_WorkloadID : ID;
  Egress_StepID : ID;
  Egress_Source : Zone;
  Egress_Destination : Zone;
  Egress_Manifest : ContentManifest;
  Egress_Purpose : string;
  Egress_DerivedFromSHA : string;
}.

#[global] Instance DataEgressPolicyRequest_eq_dec : EqDecision DataEgressPolicyRequest.
Proof. solve_decision. Defined.

Definition DataEgressPolicyRequest_Validate (r : DataEgressPolicyRequest) : result unit :=
  wrapf "workload ID" (ID_Validate (Egress_WorkloadID r)) ;;
  wrapf "step ID" (ID_Validate (Egress_StepID r)) ;;
  wrapf "source zone" (Zone_Validate (Egress_Source r)) ;;
  wrapf "destination zone" (Zone_Validate (Egress_Destination r)) ;;
  wrapf "egress manifest" (ContentManifest_Validate (Egress_Manifest r)) ;;
  require (negb (blank (Egress_Purpose r))) "egress purpose is required" ;;
  when (Egress_DerivedFromSHA r ≠s "") (validateSHA256 "derived-from SHA-256" (Egress_DerivedFromSHA r)).

(* ------------------------------------------------------------------ *)
(** ** Scopes *)

Definition PolicyAllow : string := "allow".
Definition PolicyDeny : string := "deny".
Definition PolicyRequireApproval : string := "require_approval".
Definition PolicyTransform : string := "transform".
Definition PolicyRedact : string := "redact".

Definition PolicyAction_Validate (action : string) : result unit :=
  one_of [PolicyAllow; PolicyDeny; PolicyRequireApproval; PolicyTransform; PolicyRedact] action
    "unknown policy action".

Definition PolicyScopeExecution : string := "execution".
Definition PolicyScopeDataEgress : string := "data_egress".

Record PolicyScope : Type := {
  Scope_Kind : string;
  Scope_WorkloadID : ID;
  Scope_StepID : ID;
  Scope_AttemptID : ID;
  Scope_StepKind : StepKind;
  Scope_Autonomous : bool;
  Scope_Target : option ExecutionTarget;
  Scope_Source : Zone;
  Scope_Destination : Zone;
  Scope_Purpose : string;
  Scope_DerivedFromSHA : string;
}.

#[global] Instance PolicyScope_eq_dec : EqDecision PolicyScope.
Proof. solve_decision. Defined.

Definition zero_PolicyScope : PolicyScope :=
  {| Scope_Kind := ""; Scope_WorkloadID := ""; Scope_StepID := ""; Scope_AttemptID := ""; Scope_StepKind := "";
     Scope_Autonomous := false; Scope_Target := None; Scope_Source := ""; Scope_Destination := "";
     Scope_Purpose := ""; Scope_DerivedFromSHA := "" |}.

Definition PolicyScopeForExecution (r : ExecutionPolicyRequest) : PolicyScope :=
  {| Scope_Kind := PolicyScopeExecution;
     Scope_WorkloadID := Exec_WorkloadID r;
     Scope_StepID := Exec_StepID r;
     Scope_AttemptID := Exec_AttemptID r;
     Scope_StepKind := Exec_StepKind r;
     Scope_Autonomous := Exec_Autonomous r;
     Scope_Target := Some (Exec_Target r);
     Scope_Source := ""; Scope_Destination := ""; Scope_Purpose := ""; Scope_DerivedFromSHA := "" |}.

Definition PolicyScopeForDataEgress (r : DataEgressPolicyRequest) : PolicyScope :=
  {| Scope_Kind := PolicyScopeDataEgress;
     Scope_WorkloadID := Egress_WorkloadID r;
     Scope_StepID := Egress_StepID r;
     Scope_AttemptID := ""; Scope_StepKind := ""; Scope_Autonomous := false; Scope_Target := None;
     Scope_Source := Egress_Source r;
     Scope_Destination := Egress_Destination r;
     Scope_Purpose := Egress_Purpose r;
     Scope_DerivedFromSHA := Egress_DerivedFromSHA r |}.

(** The step and target kinds of an execution scope do not match. *)
Definition kinds_mismatch (stepKind targetKind : string) : bool :=
  ((stepKind =s StepModelTurn) && (targetKind ≠s ExecutionTargetModel)) ||
  ((stepKind =s StepTool) && (targetKind ≠s ExecutionTargetTool)) ||
  ((stepKind ≠s StepModelTurn) && (stepKind ≠s StepTool)).

Definition PolicyScope_Validate (s : PolicyScope) : result unit :=
  wrapf "policy scope workload ID" (ID_Validate (Scope_WorkloadID s)) ;;
  wrapf "policy scope step ID" (ID_Validate (Scope_StepID s)) ;;
  if Scope_Kind s =s PolicyScopeExecution then
    wrapf "policy scope attempt ID" (ID_Validate (Scope_AttemptID s)) ;;
    match Scope_Target s with
    | None => Err (errors_New "execution policy scope requires a target")
    | Some target =>
        wrapf "execution policy scope target" (ExecutionTarget_Validate target) ;;
        wrapf "execution policy scope step kind" (StepKind_Validate (Scope_StepKind s)) ;;
        require (negb (kinds_mismatch (Scope_StepKind s) (Target_Kind target)))
          "execution policy scope step and target kinds do not match" ;;
        require (negb ((Scope_Source s ≠s "") || (Scope_Destination s ≠s "") || (Scope_Purpose s ≠s "") ||
                       (Scope_DerivedFromSHA s ≠s "")))
          "execution policy scope cannot contain an egress path"
    end
  else if Scope_Kind s =s PolicyScopeDataEgress then
    require (negb (negb (ID_IsZero (Scope_AttemptID s)) || (Scope_StepKind s ≠s "") || Scope_Autonomous s ||
                   is_some (Scope_Target s)))
      "data-egress policy scope cannot contain execution fields" ;;
    wrapf "policy scope source" (Zone_Validate (Scope_Source s)) ;;
    wrapf "policy scope destination" (Zone_Validate (Scope_Destination s)) ;;
    require (negb (blank (Scope_Purpose s))) "data-egress policy scope purpose is required" ;;
    when (Scope_DerivedFromSHA s ≠s "")
      (validateSHA256 "policy scope derived-from SHA-256" (Scope_DerivedFromSHA s))
  else Err (errors_New "unknown policy scope kind").

Definition ModelRef_eqb (l r : ModelRef) : bool :=
  (ModelRef_Provider l =s ModelRef_Provider r) && (ModelRef_Model l =s ModelRef_Model r).

Definition SandboxCapability_eqb (l r : SandboxCapability) : bool :=
  Bool.eqb (Sandbox_Established l) (Sandbox_Established r) && (Sandbox_Backend l =s Sandbox_Backend r).

Definition executionTargetsEqual (l r : ExecutionTarget) : bool :=
  if (Target_Kind l ≠s Target_Kind r) || (Target_Zone l ≠s Target_Zone r) ||
     (Target_ToolName l ≠s Target_ToolName r) || negb (SandboxCapability_eqb (Target_Sandbox l) (Target_Sandbox r))
  then false
  else match Target_Model l, Target_Model r with
       | Some m, Some n => ModelRef_eqb m n
       | None, None => true
       | _, _ => false
       end.

Definition PolicyScope_Equal (s o : PolicyScope) : bool :=
  if (Scope_Kind s ≠s Scope_Kind o) || (Scope_WorkloadID s ≠s Scope_WorkloadID o) ||
     (Scope_StepID s ≠s Scope_StepID o) || (Scope_AttemptID s ≠s Scope_AttemptID o) ||
     (Scope_StepKind s ≠s Scope_StepKind o) || negb (Bool.eqb (Scope_Autonomous s) (Scope_Autonomous o)) ||
     (Scope_Source s ≠s Scope_Source o) || (Scope_Destination s ≠s Scope_Destination o) ||
     (Scope_Purpose s ≠s Scope_Purpose o) || (Scope_DerivedFromSHA s ≠s Scope_DerivedFromSHA o)
  then false
  else match Scope_Target s, Scope_Target o with
       | Some t, Some u => executionTargetsEqual t u
       | None, None => true
       | _, _ => false
       end.

(* ------------------------------------------------------------------ *)
(** ** Verdicts *)

Record PolicyVerdict : Type := {
  Verdict_Policy : string;
  Verdict_PolicyVersion : string;
  Verdict_RuleID : string;
  Verdict_Action : string;
  Verdict_Reason : string;
  Verdict_ManifestSHA256 : string;
  Verdict_Scope : PolicyScope;
  Verdict_Transformation : string;
}.

#[global] Instance PolicyVerdict_eq_dec : EqDecision PolicyVerdict.
Proof. solve_decision. Defined.

Definition zero_PolicyVerdict : PolicyVerdict :=
  {| Verdict_Policy := ""; Verdict_PolicyVersion := ""; Verdict_RuleID := ""; Verdict_Action := "";
     Verdict_Reason := ""; Verdict_ManifestSHA256 := ""; Verdict_Scope := zero_PolicyScope;
     Verdict_Transformation := "" |}.

Definition requiresTransformation (v : PolicyVerdict) : bool :=
  (Verdict_Action v =s PolicyTransform) || (Verdict_Action v =s PolicyRedact).

Definition PolicyVerdict_Validate (v : PolicyVerdict) : result unit :=
  require (negb (blank (Verdict_Policy v))) "policy name is required" ;;
  require (negb (blank (Verdict_PolicyVersion v))) "policy version is required" ;;
  require (negb (blank (Verdict_RuleID v))) "policy rule ID is required" ;;
  PolicyAction_Validate (Verdict_Action v) ;;
  require (negb (blank (Verdict_Reason v))) "policy reason is required" ;;
  validateSHA256 "verdict manifest SHA-256" (Verdict_ManifestSHA256 v) ;;
  PolicyScope_Validate (Verdict_Scope v) ;;
  require (negb (requiresTransformation v && blank (Verdict_Transformation v)))
    "transform and redact verdicts require transformation instructions" ;;
  require (negb (negb (requiresTransformation v) && (Verdict_Transformation v ≠s "")))
    "transformation instructions require a transform or redact action".

Definition PolicyVerdict_Allows (v : PolicyVerdict) : bool := Verdict_Action v =s PolicyAllow.
Definition PolicyVerdict_RequiresApproval (v : PolicyVerdict) : bool := Verdict_Action v =s PolicyRequireApproval.

Definition failClosedVerdict (ruleID manifestDigest : string) (scope : PolicyScope) : PolicyVerdict :=
  {| Verdict_Policy := "fabricrunner.fail-closed";
     Verdict_PolicyVersion := "1";
     Verdict_RuleID := ruleID;
     Verdict_Action := PolicyDeny;
     Verdict_Reason := "policy evaluation did not produce a valid authorization";
     Verdict_ManifestSHA256 := manifestDigest;
     Verdict_Scope := scope;
     Verdict_Transformation := "" |}.

(* ------------------------------------------------------------------ *)
(** ** Evaluation *)

Definition ErrPolicyEvaluation : error := Sentinel "policy evaluation failed".

(** [policy.EvaluateExecution(ctx, .)] and [policy.EvaluateDataEgress(ctx, .)]. *)
Abbreviation ExecutionPolicy := (ExecutionPolicyRequest → PolicyVerdict * option error) (only parsing).
Abbreviation DataEgressPolicy := (DataEgressPolicyRequest → PolicyVerdict * option error) (only parsing).

(** The part the two evaluators share after the policy was called. *)
Definition check_verdict (prefix manifestDigest : string) (scope : PolicyScope) (ctx1 : option error)
    (answer : PolicyVerdict * option error) : PolicyVerdict * option error :=
  let closed rule e := (failClosedVerdict (prefix +:+ rule) manifestDigest scope, Some e) in
  let '(verdict, err) := answer in
  match ctx1 with
  | Some contextError => (zero_PolicyVerdict, Some contextError)
  | None =>
      match err with
      | Some e => closed ".policy.error" (Errorf "" [ErrPolicyEvaluation; e])
      | None =>
          match PolicyVerdict_Validate verdict with
          | Err e => closed ".verdict.invalid" (Errorf "" [ErrPolicyEvaluation; e])
          | Ok _ =>
              if (Verdict_ManifestSHA256 verdict ≠s "") && (Verdict_ManifestSHA256 verdict ≠s manifestDigest)
              then closed ".verdict.manifest-mismatch"
                     (Errorf "verdict does not match evaluated manifest" [ErrPolicyEvaluation])
              else if negb (PolicyScope_Equal (Verdict_Scope verdict) scope)
              then closed ".verdict.scope-mismatch"
                     (Errorf "verdict does not match evaluated scope" [ErrPolicyEvaluation])
              else (verdict, None)
          end
      end
  end.

Definition EvaluateExecutionPolicy (ctx : nat → option error) (policy : option ExecutionPolicy)
    (request : ExecutionPolicyRequest) : PolicyVerdict * option error :=
  match ctx 0%nat with
  | Some err => (zero_PolicyVerdict, Some err)
  | None =>
      let manifestDigest := digestUnchecked (Exec_Manifest request) in
      let scope := PolicyScopeForExecution request in
      match ExecutionPolicyRequest_Validate request with
      | Err err => (failClosedVerdict "execution.request.invalid" manifestDigest scope,
                    Some (Errorf "" [ErrPolicyEvaluation; err]))
      | Ok _ =>
          match ContentManifest_EffectiveClassification (Exec_Manifest request) with
          | Err err => (failClosedVerdict "execution.manifest.invalid" manifestDigest scope,
                        Some (Errorf "" [ErrPolicyEvaluation; err]))
          | Ok classification =>
              if (Target_Kind (Exec_Target request) =s ExecutionTargetModel) && (classification =s ClassSecret)
              then (failClosedVerdict "execution.secret-model.denied" manifestDigest scope, None)
              else match policy with
                   | None => (failClosedVerdict "execution.policy.missing" manifestDigest scope,
                              Some (Errorf "execution policy is nil" [ErrPolicyEvaluation]))
                   | Some evaluate =>
                       check_verdict "execution" manifestDigest scope (ctx 1%nat) (evaluate request)
                   end
          end
      end
  end.

Definition EvaluateDataEgressPolicy (ctx : nat → option error) (policy : option DataEgressPolicy)
    (request : DataEgressPolicyRequest) : PolicyVerdict * option error :=
  match ctx 0%nat with
  | Some err => (zero_PolicyVerdict, Some err)
  | None =>
      let manifestDigest := digestUnchecked (Egress_Manifest request) in
      let scope := PolicyScopeForDataEgress request in
      match DataEgressPolicyRequest_Validate request with
      | Err err => (failClosedVerdict "egress.request.invalid" manifestDigest scope,
                    Some (Errorf "" [ErrPolicyEvaluation; err]))
      | Ok _ =>
          match policy with
          | None => (failClosedVerdict "egress.policy.missing" manifestDigest scope,
                     Some (Errorf "data egress policy is nil" [ErrPolicyEvaluation]))
          | Some evaluate => check_verdict "egress" manifestDigest scope (ctx 1%nat) (evaluate request)
          end
      end
  end.

(* ------------------------------------------------------------------ *)
(** ** Lemmas *)

Lemma validateSHA256_hex name data : validateSHA256 name (sha256_hex data) = Ok tt.
Proof.
  unfold validateSHA256. rewrite !seq_Ok, !require_Ok, length_sha256_hex, hex_Decode_sha256, sha256_hex_lower.
  by rewrite String.eqb_eq.
Qed.

Lemma validateSHA256_nonempty name value : validateSHA256 name value = Ok tt → value ≠ "".
Proof. by intros H ->. Qed.

Lemma validateSHA256_name name name' value :
  validateSHA256 name value = Ok tt → validateSHA256 name' value = Ok tt.
Proof. unfold validateSHA256. by rewrite !seq_Ok, !require_Ok. Qed.

#[export] Hint Resolve validateSHA256_hex validateSHA256_nonempty : go_ok.

Lemma ModelRef_eqb_true l r : ModelRef_eqb l r = true ↔ l = r.
Proof. destruct l, r. unfold ModelRef_eqb. cbn. rewrite andb_true_iff, !String.eqb_eq. naive_solver. Qed.

Lemma executionTargetsEqual_true l r : executionTargetsEqual l r = true ↔ l = r.
Proof.
  unfold executionTargetsEqual, SandboxCapability_eqb. destruct l as [[e1 b1] k1 z1 m1 t1], r as [[e2 b2] k2 z2 m2 t2]. cbn.
  destruct (String.eqb_spec k1 k2), (String.eqb_spec z1 z2), (String.eqb_spec t1 t2), (Bool.eqb_spec e1 e2),
    (String.eqb_spec b1 b2); cbn; try naive_solver.
  destruct m1, m2; try rewrite ModelRef_eqb_true; naive_solver.
Qed.

Lemma PolicyScope_Equal_true s o : PolicyScope_Equal s o = true ↔ s = o.
Proof.
  unfold PolicyScope_Equal. destruct s, o. cbn.
  repeat match goal with
  | |- context [ String.eqb ?a ?b ] => destruct (String.eqb_spec a b); cbn; [subst | split; congruence]
  | |- context [ Bool.eqb ?a ?b ] => destruct (Bool.eqb_spec a b); cbn; [subst | split; congruence]
  end.
  repeat match goal with t : option ExecutionTarget |- _ => destruct t end;
    rewrite ?executionTargetsEqual_true; split; congruence.
Qed.

Lemma kinds_mismatch_false k t :
  kinds_mismatch k t = false ↔
  (k = StepModelTurn ∧ t = ExecutionTargetModel) ∨ (k = StepTool ∧ t = ExecutionTargetTool).
Proof.
  unfold kinds_mismatch.
  destruct (String.eqb_spec k StepModelTurn), (String.eqb_spec k StepTool),
    (String.eqb_spec t ExecutionTargetModel), (String.eqb_spec t ExecutionTargetTool); cbn; subst; naive_solver.
Qed.

Lemma validate_ids_Ok w s a u :
  validate_ids w s a = Ok u ↔ ID_Validate w = Ok tt ∧ ID_Validate s = Ok tt ∧ ID_Validate a = Ok tt.
Proof.
  unfold validate_ids. destruct u. rewrite each_Ok, !Forall_cons, Forall_nil, !wrapf_Ok. cbn. tauto.
Qed.

(** What a valid execution request guarantees. *)
Lemma ExecutionPolicyRequest_Validate_Ok r u :
  ExecutionPolicyRequest_Validate r = Ok u ↔
  ID_Validate (Exec_WorkloadID r) = Ok tt ∧ ID_Validate (Exec_StepID r) = Ok tt ∧
  ID_Validate (Exec_AttemptID r) = Ok tt ∧ StepKind_Validate (Exec_StepKind r) = Ok tt ∧
  ExecutionTarget_Validate (Exec_Target r) = Ok tt ∧
  kinds_mismatch (Exec_StepKind r) (Target_Kind (Exec_Target r)) = false ∧
  ContentManifest_Validate (Exec_Manifest r) = Ok tt.
Proof.
  unfold ExecutionPolicyRequest_Validate, kinds_mismatch. destruct u.
  rewrite !seq_Ok, validate_ids_Ok, !wrapf_Ok, !require_Ok, !negb_true_iff, !orb_false_iff. tauto.
Qed.

Lemma PolicyScopeForExecution_valid r :
  ExecutionPolicyRequest_Validate r = Ok tt → PolicyScope_Validate (PolicyScopeForExecution r) = Ok tt.
Proof.
  rewrite ExecutionPolicyRequest_Validate_Ok. intros (H1 & H2 & H3 & H4 & H5 & H6 & _).
  unfold PolicyScope_Validate, PolicyScopeForExecution. cbn. by rewrite H1, H2, H3, H4, H5, H6.
Qed.

Lemma PolicyScopeForDataEgress_valid r :
  DataEgressPolicyRequest_Validate r = Ok tt → PolicyScope_Validate (PolicyScopeForDataEgress r) = Ok tt.
Proof.
  unfold DataEgressPolicyRequest_Validate. rewrite !seq_Ok, !wrapf_Ok, require_Ok, when_Ok.
  intros (H1 & H2 & H3 & H4 & _ & H5 & H6).
  unfold PolicyScope_Validate, PolicyScopeForDataEgress. cbn -[blank]. rewrite H1, H2, H3, H4. cbn -[blank].
  rewrite seq_Ok, require_Ok, when_Ok. split; [done|]. intros Hne. by eapply validateSHA256_name, H6.
Qed.

Lemma failClosedVerdict_valid rule digest scope :
  blank rule = false → validateSHA256 "verdict manifest SHA-256" digest = Ok tt →
  PolicyScope_Validate scope = Ok tt → PolicyVerdict_Validate (failClosedVerdict rule digest scope) = Ok tt.
Proof.
  intros Hr Hd Hs. unfold PolicyVerdict_Validate, failClosedVerdict. cbn -[blank]. rewrite Hr, Hd, Hs. reflexivity.
Qed.

Lemma PolicyVerdict_Validate_digest v : PolicyVerdict_Validate v = Ok tt → Verdict_ManifestSHA256 v ≠ "".
Proof.
  unfold PolicyVerdict_Validate. rewrite !seq_Ok. intros (_ & _ & _ & _ & _ & H & _).
  by eapply validateSHA256_nonempty.
Qed.

(** Either the policy's own valid verdict for this manifest and scope, or a
    denial with an error, or the context's error. *)
Lemma check_verdict_spec prefix digest scope ctx1 answer v err :
  check_verdict prefix digest scope ctx1 answer = (v, err) →
  (err = None ∧ ctx1 = None ∧ answer = (v, None) ∧ PolicyVerdict_Validate v = Ok tt ∧
     Verdict_ManifestSHA256 v = digest ∧ Verdict_Scope v = scope) ∨
  (∃ e, err = Some e ∧ ctx1 = Some e ∧ v = zero_PolicyVerdict) ∨
  (∃ rule e, v = failClosedVerdict rule digest scope ∧ err = Some e ∧ ctx1 = None ∧
     errors_Is e "policy evaluation failed" = true).
Proof.
  unfold check_verdict. destruct answer as [w aerr]. destruct ctx1 as [ce|]; [naive_solver|].
  destruct aerr as [ae|]; [intros [= <- <-]; right; right; by eexists _, _|].
  destruct (PolicyVerdict_Validate w) as [[]|e] eqn:Ev; [|intros [= <- <-]; right; right; by eexists _, _].
  destruct (_ && _) eqn:Em; [intros [= <- <-]; right; right; by eexists _, _|].
  destruct (PolicyScope_Equal _ _) eqn:Es; cbn [negb]; [|intros [= <- <-]; right; right; by eexists _, _].
  apply PolicyScope_Equal_true in Es. intros [= <- <-]. left. split_and!; try done.
  apply PolicyVerdict_Validate_digest in Ev. apply andb_false_iff in Em. rewrite !negb_false_iff, !String.eqb_eq in Em.
  by destruct Em.
Qed.

Lemma check_verdict_complete prefix digest scope v :
  PolicyVerdict_Validate v = Ok tt → Verdict_ManifestSHA256 v = digest → Verdict_Scope v = scope →
  check_verdict prefix digest scope None (v, None) = (v, None).
Proof.
  intros Hv <- <-. unfold check_verdict. rewrite Hv, seqb_refl, andb_false_r.
  by rewrite (proj2 (PolicyScope_Equal_true _ _) eq_refl).
Qed.

(* ------------------------------------------------------------------ *)
(** ** Classification of a manifest *)

Lemma Classification_Validate_rank c : Classification_Validate c = Ok tt ↔ 0 <= classificationRank c.
Proof.
  unfold Classification_Validate, classificationRank. rewrite one_of_Ok, !elem_of_cons, elem_of_nil.
  repeat match goal with |- context [ String.eqb ?a ?b ] => destruct (String.eqb_spec a b); [naive_solver lia|] end.
  split; [naive_solver | lia].
Qed.

Lemma classificationRank_inj c d :
  0 <= classificationRank c → classificationRank c = classificationRank d → c = d.
Proof.
  unfold classificationRank.
  repeat match goal with |- context [ String.eqb ?a ?b ] => destruct (String.eqb_spec a b); subst end; try done; lia.
Qed.

(** The loop computes a maximum. *)
Lemma raise_classification_max items acc :
  let c := fold_left raise_classification items acc in
  classificationRank acc <= classificationRank c ∧
  (∀ item, item ∈ items → classificationRank (ContentItem_EffectiveClassification item) <= classificationRank c) ∧
  (c = acc ∨ ∃ item, item ∈ items ∧ c = ContentItem_EffectiveClassification item).
Proof.
  revert acc. induction items as [|item items IH]; intros acc; cbn [fold_left].
  { split_and!; [lia | intros item H; by apply elem_of_nil in H | by left]. }
  destruct (IH (raise_classification acc item)) as (H1 & H2 & H3).
  assert (classificationRank acc <= classificationRank (raise_classification acc item) ∧
    classificationRank (ContentItem_EffectiveClassification item) <= classificationRank (raise_classification acc item) ∧
    (raise_classification acc item = acc ∨ raise_classification acc item = ContentItem_EffectiveClassification item))
    as (Ha & Hb & Hc).
  { unfold raise_classification. destruct (Z.ltb_spec (classificationRank acc)
      (classificationRank (ContentItem_EffectiveClassification item))); split_and!; try lia; auto. }
  split_and!; [lia | intros x [->|Hx]%elem_of_cons; [lia | by apply H2] |].
  destruct H3 as [->|(x & Hx & ->)]; [|right; exists x; split; [by right | done]].
  destruct Hc as [->| ->]; [by left | right; exists item; split; [by left | done]].
Qed.

(* ------------------------------------------------------------------ *)
(** ** The digest's encoding is injective *)

(** The Go types of an item: an [int64] size and strings whose length is an [int]. *)
Definition item_sized (item : ContentItem) : Prop :=
  is_int64 (Item_SizeBytes item) ∧
  Z.of_nat (String.length (Item_SHA256 item)) <= int64_max ∧
  Z.of_nat (String.length (Item_MediaType item)) <= int64_max ∧
  Z.of_nat (String.length (Item_Classification item)) <= int64_max.

Lemma be_word_be_bytes n v : 0 <= v < 256 ^ Z.of_nat n → be_word (be_bytes n v) = v.
Proof.
  revert v. induction n as [|n IH]; intros v Hv; cbn [be_bytes]; [unfold be_word; cbn in *; lia|].
  unfold be_word. rewrite fold_left_app. fold (be_word (be_bytes n (v / 256))).
  rewrite Nat2Z.inj_succ, Z.pow_succ_r in Hv by lia.
  rewrite IH by (split; [apply Z.div_pos; lia | apply Z.div_lt_upper_bound; lia]).
  cbn. pose proof (Z.div_mod v 256). lia.
Qed.

Lemma bytes_of_string_of_bytes l : Forall is_byte l → bytes_of_string (string_of_bytes l) = l.
Proof.
  induction 1 as [|b l Hb _ IH]; [done|]. cbn. rewrite IH. f_equal. unfold byte_of, is_byte in *.
  rewrite N_ascii_embedding by lia. lia.
Qed.

Lemma length_string_of_bytes l : String.length (string_of_bytes l) = length l.
Proof. induction l as [|b l IH]; cbn; congruence. Qed.

Lemma length_put_uint64 v : String.length (put_uint64 v) = 8%nat.
Proof. unfold put_uint64. by rewrite length_string_of_bytes, length_be_bytes. Qed.

Lemma put_uint64_inj v w : is_uint64 v → is_uint64 w → put_uint64 v = put_uint64 w → v = w.
Proof.
  intros Hv Hw H. apply (f_equal bytes_of_string) in H. unfold put_uint64 in H.
  rewrite !bytes_of_string_of_bytes in H by apply be_bytes_is_byte.
  apply (f_equal be_word) in H. unfold_int64. by rewrite !be_word_be_bytes in H by (cbn; lia).
Qed.

(** A string written with its length is a prefix code. *)
Lemma writeDigestString_inj (s t s' t' : string) :
  Z.of_nat (String.length s) <= int64_max → Z.of_nat (String.length t) <= int64_max →
  writeDigestString s +:+ s' = writeDigestString t +:+ t' → s = t ∧ s' = t'.
Proof.
  intros Hs Ht H. unfold writeDigestString in H. rewrite !append_assoc in H.
  apply append_inj in H as [Hl H]; [|by rewrite !length_put_uint64].
  apply put_uint64_inj in Hl; [|apply wrapu64_range..].
  rewrite !wrapu64_id in Hl by (unfold_int64; lia). apply append_inj in H; [done|lia].
Qed.

Lemma wrapu64_inj v w : is_int64 v → is_int64 w → wrapu64 v = wrapu64 w → v = w.
Proof.
  unfold_int64. unfold wrapu64. intros Hv Hw H.
  pose proof (Z.div_mod v (2 ^ 64)). pose proof (Z.div_mod w (2 ^ 64)).
  assert (v / 2 ^ 64 = w / 2 ^ 64 ∨ v / 2 ^ 64 = w / 2 ^ 64 + 1 ∨ v / 2 ^ 64 + 1 = w / 2 ^ 64) as Hd.
  { Z.div_mod_to_equations. lia. }
  lia.
Qed.

Lemma digest_item_inj i j (s t : string) :
  item_sized i → item_sized j → digest_item i +:+ s = digest_item j +:+ t → i = j ∧ s = t.
Proof.
  intros (Hi1 & Hi2 & Hi3 & Hi4) (Hj1 & Hj2 & Hj3 & Hj4). unfold digest_item. rewrite !append_assoc. intros H.
  apply writeDigestString_inj in H as [E1 H]; [|done..].
  apply writeDigestString_inj in H as [E2 H]; [|done..].
  apply append_inj in H as [E3 H]; [|by rewrite !length_put_uint64].
  apply put_uint64_inj in E3; [|apply wrapu64_range..]. apply wrapu64_inj in E3; [|done..].
  apply writeDigestString_inj in H as [E4 H]; [|done..].
  destruct i, j. cbn in *. by subst.
Qed.

Lemma digest_item_nonempty item (s : string) : digest_item item +:+ s ≠ "".
Proof.
  intros H. apply (f_equal String.length) in H. unfold digest_item, writeDigestString in H.
  rewrite !length_append, !length_put_uint64 in H. cbn in H. lia.
Qed.

Lemma digest_items_inj l k :
  Forall item_sized l → Forall item_sized k → digest_items l = digest_items k → l = k.
Proof.
  intros Hl. revert k. induction Hl as [|i l Hi _ IH]; intros [|j k] Hk H; cbn [digest_items] in H.
  - done.
  - by symmetry in H; apply digest_item_nonempty in H.
  - by apply digest_item_nonempty in H.
  - apply Forall_cons in Hk as [Hj Hk]. apply digest_item_inj in H as [-> H]; [|done..]. f_equal. by apply IH.
Qed.

(* ------------------------------------------------------------------ *)
(** ** Properties *)

(** C3. [EvaluateExecutionPolicy] is fail-closed.  Whatever the policy is and does,
    a verdict that allows is the policy's own: the request is valid, the policy
    returned that very verdict without an error, it validates and is bound to
    the digest of the manifest and to the scope of the request, and no secret
    content is going to a model.  An error always comes with a denial, or with
    the zero verdict when the context was cancelled. *)
Theorem EvaluateExecutionPolicy_fail_closed ctx policy request v err :
  EvaluateExecutionPolicy ctx policy request = (v, err) →
  (PolicyVerdict_Allows v = true →
     err = None ∧ ctx 0%nat = None ∧ ctx 1%nat = None ∧ ExecutionPolicyRequest_Validate request = Ok tt ∧
     (∃ evaluate, policy = Some evaluate ∧ evaluate request = (v, None)) ∧
     PolicyVerdict_Validate v = Ok tt ∧ Verdict_ManifestSHA256 v = digestUnchecked (Exec_Manifest request) ∧
     Verdict_Scope v = PolicyScopeForExecution request ∧
     ¬ (Target_Kind (Exec_Target request) = ExecutionTargetModel ∧
        ContentManifest_EffectiveClassification (Exec_Manifest request) = Ok ClassSecret)) ∧
  (err ≠ None → Verdict_Action v = PolicyDeny ∨ v = zero_PolicyVerdict) ∧
  (ExecutionPolicyRequest_Validate request = Ok tt → ctx 0%nat = None → ctx 1%nat = None →
     PolicyVerdict_Validate v = Ok tt).
Proof.
  intros H. unfold EvaluateExecutionPolicy in H.
  destruct (ctx 0%nat) as [e0|] eqn:E0; [simplify_eq; naive_solver|].
  destruct (ExecutionPolicyRequest_Validate request) as [[]|e1] eqn:Ereq; [|simplify_eq; naive_solver].
  assert (∀ rule, blank rule = false → PolicyVerdict_Validate (failClosedVerdict rule
    (digestUnchecked (Exec_Manifest request)) (PolicyScopeForExecution request)) = Ok tt) as Hclosed.
  { intros rule Hr. apply failClosedVerdict_valid; [done | apply validateSHA256_hex | by apply PolicyScopeForExecution_valid]. }
  destruct (ContentManifest_EffectiveClassification (Exec_Manifest request)) as [c|e2] eqn:Ec.
  2: { simplify_eq. split_and!; [done | by left | intros; by apply Hclosed]. }
  destruct ((Target_Kind (Exec_Target request) =s ExecutionTargetModel) && (c =s ClassSecret)) eqn:Esec.
  { simplify_eq. split_and!; [done | done | intros; by apply Hclosed]. }
  destruct policy as [evaluate|]; [|simplify_eq; split_and!; [done | by left | intros; by apply Hclosed]].
  assert (∀ rule e, check_verdict "execution" (digestUnchecked (Exec_Manifest request)) (PolicyScopeForExecution request)
    (ctx 1%nat) (evaluate request) = (failClosedVerdict rule (digestUnchecked (Exec_Manifest request))
    (PolicyScopeForExecution request), Some e) → blank rule = false) as Hrule.
  { intros rule e. unfold check_verdict. intros Hr. repeat case_in Hr; simplify_eq; reflexivity. }
  pose proof H as H'. apply check_verdict_spec in H as [(-> & H1 & H2 & H3 & H4 & H5)|[(e & -> & H1 & ->)|(rule & e & -> & -> & H1 & H2)]].
  - split_and!; [|done..]. intros _. split_and!; try done; [by exists evaluate|].
    intros [Hk [= ->]]. by rewrite Hk in Esec.
  - naive_solver.
  - split_and!; [done | by left | intros _ _ _; by eapply Hclosed, Hrule].
Qed.

(** [EvaluateDataEgressPolicy] is fail-closed in the same way. *)
Theorem EvaluateDataEgressPolicy_fail_closed ctx policy request v err :
  EvaluateDataEgressPolicy ctx policy request = (v, err) →
  (PolicyVerdict_Allows v = true →
     err = None ∧ ctx 0%nat = None ∧ ctx 1%nat = None ∧ DataEgressPolicyRequest_Validate request = Ok tt ∧
     (∃ evaluate, policy = Some evaluate ∧ evaluate request = (v, None)) ∧
     PolicyVerdict_Validate v = Ok tt ∧ Verdict_ManifestSHA256 v = digestUnchecked (Egress_Manifest request) ∧
     Verdict_Scope v = PolicyScopeForDataEgress request) ∧
  (err ≠ None → Verdict_Action v = PolicyDeny ∨ v = zero_PolicyVerdict) ∧
  (DataEgressPolicyRequest_Validate request = Ok tt → ctx 0%nat = None → ctx 1%nat = None →
     PolicyVerdict_Validate v = Ok tt).
Proof.
  intros H. unfold EvaluateDataEgressPolicy in H.
  destruct (ctx 0%nat) as [e0|] eqn:E0; [simplify_eq; naive_solver|].
  destruct (DataEgressPolicyRequest_Validate request) as [[]|e1] eqn:Ereq; [|simplify_eq; naive_solver].
  assert (∀ rule, blank rule = false → PolicyVerdict_Validate (failClosedVerdict rule
    (digestUnchecked (Egress_Manifest request)) (PolicyScopeForDataEgress request)) = Ok tt) as Hclosed.
  { intros rule Hr. apply failClosedVerdict_valid; [done | apply validateSHA256_hex | by apply PolicyScopeForDataEgress_valid]. }
  destruct policy as [evaluate|]; [|simplify_eq; split_and!; [done | by left | intros; by apply Hclosed]].
  assert (∀ rule e, check_verdict "egress" (digestUnchecked (Egress_Manifest request)) (PolicyScopeForDataEgress request)
    (ctx 1%nat) (evaluate request) = (failClosedVerdict rule (digestUnchecked (Egress_Manifest request))
    (PolicyScopeForDataEgress request), Some e) → blank rule = false) as Hrule.
  { intros rule e. unfold check_verdict. intros Hr. repeat case_in Hr; simplify_eq; reflexivity. }
  pose proof H as H'. apply check_verdict_spec in H as [(-> & H1 & H2 & H3 & H4 & H5)|[(e & -> & H1 & ->)|(rule & e & -> & -> & H1 & H2)]].
  - split_and!; [|done..]. intros _. split_and!; try done. by exists evaluate.
  - naive_solver.
  - split_and!; [done | by left | intros _ _ _; by eapply Hclosed, Hrule].
Qed.

(** The manifest digest binds the whole manifest, item order included: what is
    hashed differs for different manifests, so equal digests of different
    manifests are a collision of SHA-256. *)
Theorem manifest_digest_binding m1 m2 :
  Forall item_sized (Items m1) → Forall item_sized (Items m2) →
  (digest_preimage m1 = digest_preimage m2 ↔ m1 = m2) ∧
  (digestUnchecked m1 = digestUnchecked m2 → m1 ≠ m2 →
   ∃ d1 d2, d1 ≠ d2 ∧ sha256_hex d1 = sha256_hex d2).
Proof.
  intros H1 H2.
  assert (digest_preimage m1 = digest_preimage m2 ↔ m1 = m2) as Hiff.
  { split; [|by intros ->]. unfold digest_preimage. intros H. apply append_inj in H as [_ H]; [|done].
    apply digest_items_inj in H; [|done..]. destruct m1, m2. cbn in *. by subst. }
  split; [done|]. intros H Hne. exists (digest_preimage m1), (digest_preimage m2). split; [by rewrite Hiff | done].
Qed.

(** The effective classification of a valid manifest is the highest of its
    items, an unlabelled item counting as confidential; it is secret exactly
    when an item is labelled secret. *)
Theorem manifest_classification_max manifest c :
  ContentManifest_EffectiveClassification manifest = Ok c →
  Classification_Validate c = Ok tt ∧
  (∀ item, item ∈ Items manifest →
     classificationRank (ContentItem_EffectiveClassification item) <= classificationRank c) ∧
  (c = ClassPublic ∨ ∃ item, item ∈ Items manifest ∧ c = ContentItem_EffectiveClassification item) ∧
  (c = ClassSecret ↔ ∃ item, item ∈ Items manifest ∧ Item_Classification item = ClassSecret) ∧
  (∀ item, item ∈ Items manifest → Item_Classification item = "" → 2 <= classificationRank c).
Proof.
  unfold ContentManifest_EffectiveClassification. rewrite seq_Ok, ret_Ok. intros [_ <-].
  destruct (raise_classification_max (Items manifest) ClassPublic) as (H1 & H2 & H3).
  set (c := fold_left raise_classification (Items manifest) ClassPublic) in *.
  assert (Classification_Validate c = Ok tt) as Hc by (by apply Classification_Validate_rank).
  split_and!; [done | done | done | |].
  - split.
    + intros Hs. destruct H3 as [H3|(item & Hin & H3)]; [by rewrite H3 in Hs|]. exists item. split; [done|].
      rewrite Hs in H3. unfold ContentItem_EffectiveClassification in H3. by case_match.
    + intros (item & Hin & Hs). specialize (H2 item Hin). unfold ContentItem_EffectiveClassification in H2.
      rewrite Hs in H2. apply classificationRank_inj; [done|].
      assert (classificationRank c <= 3) as Hle by (unfold classificationRank; repeat case_match; lia).
      cbn in *. change (classificationRank ClassSecret) with 3 in *. lia.
  - intros item Hin He. specialize (H2 item Hin). unfold ContentItem_EffectiveClassification in H2.
    rewrite He in H2. exact H2.
Qed.

Definition example_uuid : ID := "018bcfe5-687b-7bab-abab-abababababab".

Definition example_item (c : Classification) : ContentItem :=
  {| Item_SHA256 := "ba7816bf8f01cfea414140de5dae2223b00361a396177a9cb410ff61f20015ad";
     Item_MediaType := "text/plain"; Item_SizeBytes := 3; Item_Classification := c |}.

Definition example_manifest (c : Classification) : ContentManifest := {| Items := [example_item c] |}.

Definition example_exec_request (c : Classification) : ExecutionPolicyRequest :=
  {| Exec_WorkloadID := example_uuid; Exec_StepID := example_uuid; Exec_AttemptID := example_uuid;
     Exec_StepKind := StepModelTurn;
     Exec_Target := {| Target_Sandbox := zero_SandboxCapability; Target_Kind := ExecutionTargetModel;
       Target_Zone := ZonePersonal; Target_Model := Some {| ModelRef_Provider := "p"; ModelRef_Model := "m" |};
       Target_ToolName := "" |};
     Exec_Manifest := example_manifest c; Exec_Autonomous := false |}.

Definition example_egress_request (c : Classification) : DataEgressPolicyRequest :=
  {| Egress_WorkloadID := example_uuid; Egress_StepID := example_uuid; Egress_Source := ZonePersonal;
     Egress_Destination := ZoneManagedCloud; Egress_Manifest := example_manifest c;
     Egress_Purpose := "inference"; Egress_DerivedFromSHA := "" |}.

(** A policy that allows what it is asked. *)
Definition allow_verdict (digest : string) (scope : PolicyScope) : PolicyVerdict :=
  {| Verdict_Policy := "always"; Verdict_PolicyVersion := "1"; Verdict_RuleID := "r"; Verdict_Action := PolicyAllow;
     Verdict_Reason := "yes"; Verdict_ManifestSHA256 := digest; Verdict_Scope := scope; Verdict_Transformation := "" |}.
Definition allow_execution (r : ExecutionPolicyRequest) : PolicyVerdict * option error :=
  (allow_verdict (digestUnchecked (Exec_Manifest r)) (PolicyScopeForExecution r), None).
Definition allow_egress (r : DataEgressPolicyRequest) : PolicyVerdict * option error :=
  (allow_verdict (digestUnchecked (Egress_Manifest r)) (PolicyScopeForDataEgress r), None).

Example EvaluateExecutionPolicy_fail_closed_witness :
  PolicyVerdict_Validate (fst (EvaluateExecutionPolicy background (Some allow_execution) (example_exec_request ClassInternal)))
  = Ok tt ∧
  PolicyVerdict_Allows (fst (EvaluateExecutionPolicy background (Some allow_execution) (example_exec_request ClassInternal)))
  = true.
Proof.
  split; [|vm_compute; reflexivity].
  refine (proj2 (proj2 (EvaluateExecutionPolicy_fail_closed background (Some allow_execution)
    (example_exec_request ClassInternal) _ _ (surjective_pairing _))) _ eq_refl eq_refl).
  vm_compute. reflexivity.
Defined.

Example EvaluateDataEgressPolicy_fail_closed_witness :
  PolicyVerdict_Validate (fst (EvaluateDataEgressPolicy background (Some allow_egress) (example_egress_request ClassPublic)))
  = Ok tt ∧
  PolicyVerdict_Allows (fst (EvaluateDataEgressPolicy background (Some allow_egress) (example_egress_request ClassPublic)))
  = true.
Proof.
  split; [|vm_compute; reflexivity].
  refine (proj2 (proj2 (EvaluateDataEgressPolicy_fail_closed background (Some allow_egress)
    (example_egress_request ClassPublic) _ _ (surjective_pairing _))) _ eq_refl eq_refl).
  vm_compute. reflexivity.
Defined.

Example manifest_digest_binding_witness :
  digest_preimage (example_manifest ClassPublic) = digest_preimage (example_manifest ClassSecret) ↔
  example_manifest ClassPublic = example_manifest ClassSecret.
Proof.
  refine (proj1 (manifest_digest_binding (example_manifest ClassPublic) (example_manifest ClassSecret) _ _));
    repeat constructor; vm_compute; discriminate.
Defined.

Example manifest_classification_max_witness :
  ClassSecret = ClassSecret ↔
  ∃ item, item ∈ Items (example_manifest ClassSecret) ∧ Item_Classification item = ClassSecret.
Proof.
  refine (proj1 (proj2 (proj2 (proj2 (manifest_classification_max (example_manifest ClassSecret) ClassSecret _))))).
  vm_compute. reflexivity.
Defined.
