(* ===== verification/Telemetry.v ===== *)
(** * Observation records: src/telemetry.go

    [NewRecord] and the bounded, non-blocking delivery of [Observation.Emit].
    The observer runs in its own goroutine, so what [Emit] does is to hand a
    record to it or to drop it; the process-wide slots are the state. *)

From Stdlib Require Import ZArith Lia.
From S2P Require Import Prelude GoNum GoText GoHash Ident Domain Policy.

Definition RecordSchemaV1 : Z := 1.

Definition RecordWorkload : string := "workload".
Definition RecordStep : string := "step".
Definition RecordAttempt : string := "attempt".
Definition RecordRouting : string := "routing".
Definition RecordPolicy : string := "policy".
Definition RecordProvider : string := "provider".
Definition RecordTool : string := "tool".

Definition AttrOutcome : string := "outcome".
Definition AttrPhase : string := "phase".

Record ObservationRecord : Type := {
  Rec_SchemaVersion : Z;
  Rec_Kind : string;
  Rec_WorkloadID : ID;
  Rec_StepID : ID;
  Rec_AttemptID : ID;
  Rec_Sequence : Z;
  Rec_Classification : Classification;
  Rec_Content : option bytes;
  Rec_ContentSize : Z;
  Rec_ContentSHA256 : string;
  Rec_Attributes : option (gmap string string);
}.

Record RecordInput : Type := {
  Input_Kind : string;
  Input_WorkloadID : ID;
  Input_StepID : ID;
  Input_AttemptID : ID;
  Input_Sequence : Z;
  Input_Classification : Classification;
  Input_Content : option bytes;
  Input_Attributes : option (gmap string string);
}.

Definition record_kinds : list string :=
  [RecordWorkload; RecordStep; RecordAttempt; RecordRouting; RecordPolicy; RecordProvider; RecordTool].

(** [append([]byte(nil), content...)]: an empty content becomes nil. *)
Definition copy_bytes (content : option bytes) : option bytes :=
  match content with Some c => if c =s "" then None else Some c | None => None end.

(** The attribute keys that may be exported. *)
Definition attribute_keys_ok (attributes : option (gmap string string)) : bool :=
  match attributes with
  | None => true
  | Some m => forallb (fun entry => existsb (fun key => key =s entry.1) [AttrOutcome; AttrPhase]) (map_to_list m)
  end.

Definition NewRecord (input : RecordInput) : result ObservationRecord :=
  one_of record_kinds (Input_Kind input) "unknown observation kind" ;;
  let classification := if Input_Classification input =s "" then ClassConfidential else Input_Classification input in
  Classification_Validate classification ;;
  require (attribute_keys_ok (Input_Attributes input)) "unknown observation attribute key" ;;
  let exported := classificationRank classification <? classificationRank ClassConfidential in
  Ok {| Rec_SchemaVersion := RecordSchemaV1; Rec_Kind := Input_Kind input; Rec_WorkloadID := Input_WorkloadID input;
        Rec_StepID := Input_StepID input; Rec_AttemptID := Input_AttemptID input; Rec_Sequence := Input_Sequence input;
        Rec_Classification := classification;
        Rec_Content := if exported then copy_bytes (Input_Content input) else None;
        Rec_ContentSize := match Input_Content input with Some c => Z.of_nat (String.length c) | None => 0 end;
        Rec_ContentSHA256 := match Input_Content input with Some c => sha256_hex c | None => "" end;
        Rec_Attributes := if exported then Input_Attributes input else None |}.

(** The input [Emit] reconstructs from a record. *)
Definition input_of (r : ObservationRecord) : RecordInput :=
  {| Input_Kind := Rec_Kind r; Input_WorkloadID := Rec_WorkloadID r; Input_StepID := Rec_StepID r;
     Input_AttemptID := Rec_AttemptID r; Input_Sequence := Rec_Sequence r; Input_Classification := Rec_Classification r;
     Input_Content := Rec_Content r; Input_Attributes := Rec_Attributes r |}.

(** What [Emit] would hand to the observer. *)
Definition sanitize (r : ObservationRecord) : result ObservationRecord :=
  safe ← NewRecord (input_of r);
  match Rec_Content r with
  | Some _ => Ok safe
  | None =>
      if Rec_ContentSHA256 r =s "" then Ok safe
      else
        validateSHA256 "observation hash" (Rec_ContentSHA256 r) ;;
        require (negb (Rec_ContentSize r <? 0)) "negative size" ;;
        Ok {| safe with Rec_ContentSHA256 := Rec_ContentSHA256 r; Rec_ContentSize := Rec_ContentSize r |}
  end.

(** The capacity of [observationSlots]. *)
Definition observation_capacity : nat := 64.

(** [Observation.Emit], with [busy] slots taken: the record delivered, if any,
    and the slots taken afterwards.  A nil receiver delivers nothing. *)
Definition Observation_Emit (observing : bool) (ctx : option error) (r : ObservationRecord) (busy : nat)
    : option ObservationRecord * nat :=
  if negb observing then (None, busy)
  else match ctx with
  | Some _ => (None, busy)
  | None =>
      match sanitize r with
      | Err _ => (None, busy)
      | Ok safe => if (busy <? observation_capacity)%nat then (Some safe, S busy) else (None, busy)
      end
  end.

(* ------------------------------------------------------------------ *)
(** ** Lemmas *)

(** What holds of every record that is exported. *)
Record exportable (r : ObservationRecord) : Prop := {
  ex_kind : Rec_Kind r ∈ record_kinds;
  ex_classification : Classification_Validate (Rec_Classification r) = Ok tt;
  ex_secret : Rec_Content r ≠ None ∨ Rec_Attributes r ≠ None →
    classificationRank (Rec_Classification r) < classificationRank ClassConfidential;
  ex_attributes : ∀ m k v, Rec_Attributes r = Some m → m !! k = Some v → k = AttrOutcome ∨ k = AttrPhase;
  ex_content : ∀ c, Rec_Content r = Some c →
    Rec_ContentSize r = Z.of_nat (String.length c) ∧ Rec_ContentSHA256 r = sha256_hex c;
}.

Lemma attribute_keys_ok_lookup m k v : attribute_keys_ok (Some m) = true → m !! k = Some v → k = AttrOutcome ∨ k = AttrPhase.
Proof.
  unfold attribute_keys_ok. rewrite forallb_forall. intros Hall Hk. apply elem_of_map_to_list, list_elem_of_In in Hk.
  specialize (Hall _ Hk). cbn [existsb fst] in Hall. rewrite orb_false_r, orb_true_iff, !String.eqb_eq in Hall.
  destruct Hall; [by left | by right].
Qed.

Lemma copy_bytes_Some content c : copy_bytes content = Some c → content = Some c.
Proof. unfold copy_bytes. destruct content as [d|]; [|done]. by destruct (d =s ""). Qed.

Lemma NewRecord_exportable input r : NewRecord input = Ok r → exportable r.
Proof.
  unfold NewRecord. rewrite !seq_Ok, one_of_Ok, require_Ok. intros (Hk & Hc & Ha & [= <-]).
  destruct (Z.ltb_spec (classificationRank (if Input_Classification input =s "" then ClassConfidential else Input_Classification input))
    (classificationRank ClassConfidential)) as [Hr|Hr]; split; cbn; try done.
  - intros m k v Hm Hv. rewrite Hm in Ha. by eapply attribute_keys_ok_lookup.
  - intros c Hcon. by rewrite (copy_bytes_Some _ _ Hcon).
  - by intros [].
Qed.

Lemma NewRecord_fields input r :
  NewRecord input = Ok r → Rec_Content r ≠ None → Input_Content input ≠ None.
Proof.
  unfold NewRecord. rewrite !seq_Ok. intros (_ & _ & _ & [= <-]). cbn. by destruct (_ <? _), (Input_Content input).
Qed.

Lemma sanitize_exportable r safe : sanitize r = Ok safe → exportable safe.
Proof.
  unfold sanitize. rewrite bind_Ok. intros (s & Hn & Hs). pose proof (NewRecord_exportable _ _ Hn) as Hx.
  destruct (Rec_Content r) eqn:Hc; [by injection Hs as <-|]. destruct (Rec_ContentSHA256 r =s ""); [by injection Hs as <-|].
  rewrite !seq_Ok in Hs. destruct Hs as (_ & _ & [= <-]). destruct Hx. split; cbn; try done.
  intros c Hcs. destruct (NewRecord_fields _ _ Hn); [by rewrite Hcs | done].
Qed.

(* ------------------------------------------------------------------ *)
(** ** Properties *)

(** Nothing confidential reaches an observer: whatever record is emitted, one
    that is delivered has a known kind and a valid classification, carries
    content and attributes only when it is public or internal, its attributes
    have the two known keys, a content comes with its own size and digest; and
    at most 64 deliveries are in progress at any time. *)
Theorem Observation_Emit_safe observing ctx r busy safe busy' :
  Observation_Emit observing ctx r busy = (Some safe, busy') →
  observing = true ∧ ctx = None ∧ exportable safe ∧ busy' = S busy ∧ (busy' <= observation_capacity)%nat.
Proof.
  unfold Observation_Emit. destruct observing; cbn [negb]; [|done]. destruct ctx; [done|].
  destruct (sanitize r) as [s|] eqn:Hs; [|done]. destruct (busy <? observation_capacity)%nat eqn:Hb; [|done].
  intros [= -> <-]. apply Nat.ltb_lt in Hb. split_and!; try done. by eapply sanitize_exportable.
Qed.

Example Observation_Emit_safe_witness :
  exportable {| Rec_SchemaVersion := 1; Rec_Kind := RecordTool; Rec_WorkloadID := ""; Rec_StepID := ""; Rec_AttemptID := "";
    Rec_Sequence := 7; Rec_Classification := ClassConfidential; Rec_Content := None; Rec_ContentSize := 3;
    Rec_ContentSHA256 := sha256_hex "abc"; Rec_Attributes := None |}.
Proof.
  refine (proj1 (proj2 (proj2 (Observation_Emit_safe true None
    {| Rec_SchemaVersion := 1; Rec_Kind := RecordTool; Rec_WorkloadID := ""; Rec_StepID := ""; Rec_AttemptID := "";
       Rec_Sequence := 7; Rec_Classification := ""; Rec_Content := Some "abc"; Rec_ContentSize := 0;
       Rec_ContentSHA256 := ""; Rec_Attributes := Some {[ AttrPhase := "x" ]} |} 3 _ 4 _)))).
  vm_compute. reflexivity.
Defined.
