(* ===== verification/Baseline.v ===== *)
(** * The baseline policy: src/policy/baseline/policy.go *)

From Stdlib Require Import ZArith Lia.
From S2P Require Import Prelude GoNum GoText GoJson GoHash Ident Domain Model Policy.

Definition policyName : string := "fabricrunner.baseline".
Definition policyVersion : string := "1".

Definition verdict (manifestDigest : string) (scope : PolicyScope) (action ruleID reason : string) : PolicyVerdict :=
  {| Verdict_Policy := policyName;
     Verdict_PolicyVersion := policyVersion;
     Verdict_RuleID := ruleID;
     Verdict_Action := action;
     Verdict_Reason := reason;
     Verdict_ManifestSHA256 := manifestDigest;
     Verdict_Scope := scope;
     Verdict_Transformation := "" |}.

(** A function with results [(PolicyVerdict, error)]. *)
Definition answer (r : result PolicyVerdict) : PolicyVerdict * option error :=
  match r with Ok v => (v, None) | Err e => (zero_PolicyVerdict, Some e) end.

Definition EvaluateExecution (ctx : nat → option error) (request : ExecutionPolicyRequest)
    : PolicyVerdict * option error :=
  answer (
    check_ctx (ctx 0%nat) ;;
    ExecutionPolicyRequest_Validate request ;;
    classification ← ContentManifest_EffectiveClassification (Exec_Manifest request);
    manifestDigest ← ContentManifest_Digest (Exec_Manifest request);
    let scope := PolicyScopeForExecution request in
    if classification =s ClassSecret
    then Ok (verdict manifestDigest scope PolicyDeny "execution.secret.denied"
               "baseline policy does not grant execution access to secret content")
    else if Target_Kind (Exec_Target request) =s ExecutionTargetModel
    then Ok (verdict manifestDigest scope PolicyAllow "execution.model.eligible"
               "model execution is eligible after content classification checks")
    else if Target_Kind (Exec_Target request) =s ExecutionTargetTool
    then Ok (verdict manifestDigest scope PolicyRequireApproval "execution.tool.approval"
               "baseline policy requires approval for tool execution")
    else Err (errors_New "unsupported target kind")).

Definition EvaluateDataEgress (ctx : nat → option error) (request : DataEgressPolicyRequest)
    : PolicyVerdict * option error :=
  answer (
    check_ctx (ctx 0%nat) ;;
    DataEgressPolicyRequest_Validate request ;;
    manifestDigest ← ContentManifest_Digest (Egress_Manifest request);
    let scope := PolicyScopeForDataEgress request in
    if Egress_Source request =s Egress_Destination request
    then Ok (verdict manifestDigest scope PolicyAllow "egress.same-zone" "content remains within the same trust zone")
    else
      classification ← ContentManifest_EffectiveClassification (Egress_Manifest request);
      if classification =s ClassPublic
      then Ok (verdict manifestDigest scope PolicyAllow "egress.public" "public content may cross trust zones")
      else if (classification =s ClassInternal) || (classification =s ClassConfidential)
      then Ok (verdict manifestDigest scope PolicyRequireApproval "egress.approval"
                 "non-public content requires approval before crossing trust zones")
      else if classification =s ClassSecret
      then Ok (verdict manifestDigest scope PolicyDeny "egress.secret.denied"
                 "secret content cannot cross trust zones under baseline policy")
      else Err (errors_New "unsupported classification")).

(* ------------------------------------------------------------------ *)
(** ** Lemmas *)

Lemma verdict_valid digest scope action rule reason :
  blank rule = false → blank reason = false → action ∈ [PolicyAllow; PolicyDeny; PolicyRequireApproval] →
  validateSHA256 "verdict manifest SHA-256" digest = Ok tt → PolicyScope_Validate scope = Ok tt →
  PolicyVerdict_Validate (verdict digest scope action rule reason) = Ok tt.
Proof.
  intros Hr Hs Ha Hd Hsc. rewrite !elem_of_cons, elem_of_nil in Ha.
  unfold PolicyVerdict_Validate, verdict. cbn -[blank]. rewrite Hr, Hs, Hd, Hsc.
  destruct Ha as [->|[->|[->|[]]]]; reflexivity.
Qed.

(** The action the baseline takes for an execution request. *)
Definition execution_action (c : Classification) (kind : string) : string :=
  if c =s ClassSecret then PolicyDeny
  else if kind =s ExecutionTargetModel then PolicyAllow else PolicyRequireApproval.

Definition egress_action (same_zone : bool) (c : Classification) : string :=
  if same_zone || (c =s ClassPublic) then PolicyAllow
  else if c =s ClassSecret then PolicyDeny else PolicyRequireApproval.

Lemma EffectiveClassification_Ok manifest :
  ContentManifest_Validate manifest = Ok tt →
  ∃ c, ContentManifest_EffectiveClassification manifest = Ok c ∧ Classification_Validate c = Ok tt.
Proof.
  intros H. unfold ContentManifest_EffectiveClassification. rewrite H. cbn. eexists. split; [reflexivity|].
  apply Classification_Validate_rank.
  destruct (raise_classification_max (Items manifest) ClassPublic) as [Hr _]. exact Hr.
Qed.

Lemma EvaluateExecution_Ok ctx request :
  ctx 0%nat = None → ExecutionPolicyRequest_Validate request = Ok tt →
  ∃ c v, ContentManifest_EffectiveClassification (Exec_Manifest request) = Ok c ∧
    EvaluateExecution ctx request = (v, None) ∧ PolicyVerdict_Validate v = Ok tt ∧
    Verdict_ManifestSHA256 v = digestUnchecked (Exec_Manifest request) ∧
    Verdict_Scope v = PolicyScopeForExecution request ∧
    Verdict_Action v = execution_action c (Target_Kind (Exec_Target request)).
Proof.
  intros Hc Hv. pose proof Hv as Hv'. apply ExecutionPolicyRequest_Validate_Ok in Hv' as (_ & _ & _ & _ & _ & Hk & Hm).
  apply kinds_mismatch_false in Hk. pose proof (PolicyScopeForExecution_valid _ Hv) as Hs.
  destruct (EffectiveClassification_Ok _ Hm) as (c & Ec & _). exists c.
  unfold EvaluateExecution, execution_action, ContentManifest_Digest. rewrite Hc, Hv, Ec, Hm. cbn -[verdict].
  assert (∀ action rule reason, blank rule = false → blank reason = false →
    action ∈ [PolicyAllow; PolicyDeny; PolicyRequireApproval] →
    PolicyVerdict_Validate (verdict (digestUnchecked (Exec_Manifest request)) (PolicyScopeForExecution request)
      action rule reason) = Ok tt) as Hok.
  { intros. apply verdict_valid; [done..|apply validateSHA256_hex|done]. }
  destruct (String.eqb_spec c ClassSecret); cbn -[verdict].
  { eexists. split_and!; [done..|apply Hok; [reflexivity..|set_solver]|done|done|done]. }
  destruct Hk as [[_ ->]|[_ ->]]; cbn -[verdict];
    (eexists; split_and!; [done..|apply Hok; [reflexivity..|set_solver]|done|done|done]).
Qed.

Lemma EvaluateDataEgress_Ok ctx request :
  ctx 0%nat = None → DataEgressPolicyRequest_Validate request = Ok tt →
  ∃ c v, ContentManifest_EffectiveClassification (Egress_Manifest request) = Ok c ∧
    EvaluateDataEgress ctx request = (v, None) ∧ PolicyVerdict_Validate v = Ok tt ∧
    Verdict_ManifestSHA256 v = digestUnchecked (Egress_Manifest request) ∧
    Verdict_Scope v = PolicyScopeForDataEgress request ∧
    Verdict_Action v = egress_action (Egress_Source request =s Egress_Destination request) c.
Proof.
  intros Hc Hv. assert (ContentManifest_Validate (Egress_Manifest request) = Ok tt) as Hm.
  { revert Hv. unfold DataEgressPolicyRequest_Validate. rewrite !seq_Ok, !wrapf_Ok. tauto. }
  pose proof (PolicyScopeForDataEgress_valid _ Hv) as Hs.
  destruct (EffectiveClassification_Ok _ Hm) as (c & Ec & Hcv). exists c.
  unfold EvaluateDataEgress, egress_action, ContentManifest_Digest. rewrite Hc, Hv, Ec, Hm. cbn -[verdict].
  assert (∀ action rule reason, blank rule = false → blank reason = false →
    action ∈ [PolicyAllow; PolicyDeny; PolicyRequireApproval] →
    PolicyVerdict_Validate (verdict (digestUnchecked (Egress_Manifest request)) (PolicyScopeForDataEgress request)
      action rule reason) = Ok tt) as Hok.
  { intros. apply verdict_valid; [done..|apply validateSHA256_hex|done]. }
  destruct (Egress_Source request =s Egress_Destination request); cbn -[verdict].
  { eexists. split_and!; [done..|apply Hok; [reflexivity..|set_solver]|done|done|done]. }
  apply one_of_Ok in Hcv. rewrite !elem_of_cons, elem_of_nil in Hcv.
  destruct Hcv as [->|[->|[->|[->|[]]]]]; cbn -[verdict];
    (eexists; split_and!; [done..|apply Hok; [reflexivity..|set_solver]|done|done|done]).
Qed.

(* ------------------------------------------------------------------ *)
(** ** Properties *)

(** Behind [EvaluateExecutionPolicy] the baseline policy decides every valid
    request without an error, with a valid verdict bound to it: secret content
    is denied, other content is allowed on a model and needs approval for a
    tool.  So nothing secret is ever allowed, and no tool runs unapproved. *)
Theorem baseline_execution_decision ctx pctx request :
  (∀ n, ctx n = None) → pctx 0%nat = None → ExecutionPolicyRequest_Validate request = Ok tt →
  ∃ c v, ContentManifest_EffectiveClassification (Exec_Manifest request) = Ok c ∧
    EvaluateExecutionPolicy ctx (Some (EvaluateExecution pctx)) request = (v, None) ∧
    PolicyVerdict_Validate v = Ok tt ∧
    Verdict_Action v = execution_action c (Target_Kind (Exec_Target request)) ∧
    (PolicyVerdict_Allows v = true ↔ c ≠ ClassSecret ∧ Exec_StepKind request = StepModelTurn).
Proof.
  intros Hc Hp Hv. destruct (EvaluateExecution_Ok pctx request Hp Hv) as (c & w & Ec & Ew & Hw1 & Hw2 & Hw3 & Hw4).
  assert (∀ v, Verdict_Action v = execution_action c (Target_Kind (Exec_Target request)) →
    (PolicyVerdict_Allows v = true ↔ c ≠ ClassSecret ∧ Exec_StepKind request = StepModelTurn)) as Hallow.
  { intros v Ha. unfold PolicyVerdict_Allows. rewrite Ha. unfold execution_action.
    apply ExecutionPolicyRequest_Validate_Ok in Hv as (_ & _ & _ & _ & _ & Hk & _). apply kinds_mismatch_false in Hk.
    destruct (String.eqb_spec c ClassSecret); [naive_solver|].
    destruct Hk as [[-> ->]|[-> ->]]; cbn; naive_solver. }
  exists c. unfold EvaluateExecutionPolicy. rewrite !Hc, Hv, Ec.
  destruct ((Target_Kind (Exec_Target request) =s ExecutionTargetModel) && (c =s ClassSecret)) eqn:Es.
  - apply andb_true_iff in Es as [Hm ->%String.eqb_eq].
    eexists. split_and!; [done..| | |by apply Hallow].
    + apply failClosedVerdict_valid; [done|apply validateSHA256_hex|by apply PolicyScopeForExecution_valid].
    + done.
  - exists w. rewrite Ew, check_verdict_complete by done. split_and!; try done. by apply Hallow.
Qed.

(** Behind [EvaluateDataEgressPolicy] the baseline policy decides every valid
    request: content stays in its zone freely, public content may leave it,
    secret content may not, and the rest needs approval. *)
Theorem baseline_egress_decision ctx pctx request :
  (∀ n, ctx n = None) → pctx 0%nat = None → DataEgressPolicyRequest_Validate request = Ok tt →
  ∃ c v, ContentManifest_EffectiveClassification (Egress_Manifest request) = Ok c ∧
    EvaluateDataEgressPolicy ctx (Some (EvaluateDataEgress pctx)) request = (v, None) ∧
    PolicyVerdict_Validate v = Ok tt ∧
    Verdict_Action v = egress_action (Egress_Source request =s Egress_Destination request) c ∧
    (PolicyVerdict_Allows v = true ↔ Egress_Source request = Egress_Destination request ∨ c = ClassPublic).
Proof.
  intros Hc Hp Hv. destruct (EvaluateDataEgress_Ok pctx request Hp Hv) as (c & w & Ec & Ew & Hw1 & Hw2 & Hw3 & Hw4).
  exists c, w. unfold EvaluateDataEgressPolicy. rewrite !Hc, Hv, Ew, check_verdict_complete by done.
  split_and!; try done. unfold PolicyVerdict_Allows. rewrite Hw4. unfold egress_action.
  destruct (String.eqb_spec (Egress_Source request) (Egress_Destination request)); [naive_solver|].
  destruct (String.eqb_spec c ClassPublic); [naive_solver|].
  destruct (String.eqb_spec c ClassSecret); cbn; naive_solver.
Qed.

Example baseline_execution_decision_witness :
  ∃ c v, ContentManifest_EffectiveClassification (example_manifest ClassSecret) = Ok c ∧
    EvaluateExecutionPolicy background (Some (EvaluateExecution background)) (example_exec_request ClassSecret) = (v, None) ∧
    PolicyVerdict_Validate v = Ok tt ∧ Verdict_Action v = execution_action c ExecutionTargetModel ∧
    (PolicyVerdict_Allows v = true ↔ c ≠ ClassSecret ∧ StepModelTurn = StepModelTurn).
Proof.
  apply (baseline_execution_decision background background (example_exec_request ClassSecret)); [done|done|].
  vm_compute. reflexivity.
Defined.

Example baseline_egress_decision_witness :
  ∃ c v, ContentManifest_EffectiveClassification (example_manifest ClassInternal) = Ok c ∧
    EvaluateDataEgressPolicy background (Some (EvaluateDataEgress background)) (example_egress_request ClassInternal) = (v, None) ∧
    PolicyVerdict_Validate v = Ok tt ∧ Verdict_Action v = egress_action false c ∧
    (PolicyVerdict_Allows v = true ↔ ZonePersonal = ZoneManagedCloud ∨ c = ClassPublic).
Proof.
  apply (baseline_egress_decision background background (example_egress_request ClassInternal)); [done|done|].
  vm_compute. reflexivity.
Defined.
