(* ===== verification/Routing.v ===== *)
(** * Routing: src/routing.go

    Weights, candidates and requests, the ordered eligibility gates, decisions
    and their validation, and the evaluation of a router.  A router is its
    method applied to a context: a function of the request whose result is
    [None] when it panics.  [fmt_q] is the rendering of the %q verb. *)

From Stdlib Require Import ZArith Lia.
From S2P Require Import Prelude GoNum GoText GoJson GoHash Ident Domain Model Policy.

(** [fmt.Sprintf("%q", s)], whose result depends on Unicode tables. *)
Class Quoting := fmt_q : string → string.

Definition ScorePermilleMax : Z := 1000.

(* ------------------------------------------------------------------ *)
(** ** Weights *)

Record RoutingWeights : Type := {
  Weight_Quality : Z;
  Weight_Locality : Z;
  Weight_Availability : Z;
  Weight_CacheAffinity : Z;
  Weight_Cost : Z;
  Weight_Latency : Z;
  Weight_InverseLoad : Z;
}.

#[global] Instance RoutingWeights_eq_dec : EqDecision RoutingWeights.
Proof. solve_decision. Defined.

Definition DefaultRoutingWeights : RoutingWeights :=
  {| Weight_Quality := 250; Weight_Locality := 200; Weight_Availability := 100; Weight_CacheAffinity := 100;
     Weight_Cost := 150; Weight_Latency := 150; Weight_InverseLoad := 50 |}.

Definition weight_values (w : RoutingWeights) : list Z :=
  [Weight_Quality w; Weight_Locality w; Weight_Availability w; Weight_CacheAffinity w; Weight_Cost w;
   Weight_Latency w; Weight_InverseLoad w].

(** [value < 0 || value > ScorePermilleMax] *)
Definition out_of_permille (v : Z) : bool := (v <? 0) || (ScorePermilleMax <? v).

Definition RoutingWeights_Validate (w : RoutingWeights) : result unit :=
  each (fun v => require (negb (out_of_permille v)) "routing weight must be between 0 and 1000") (weight_values w) ;;
  require (fold_left add64 (weight_values w) 0 =? ScorePermilleMax) "routing weights total".

(* ------------------------------------------------------------------ *)
(** ** Candidates and requests *)

Record RoutingCandidate : Type := {
  Cand_ID : ID;
  Cand_Zone : Zone;
  Cand_Model : ModelDescriptor;
  Cand_Authenticated : bool;
  Cand_Compatible : bool;
  Cand_Healthy : bool;
  Cand_Draining : bool;
  Cand_ExecutionVerdict : PolicyVerdict;
  Cand_EgressVerdict : option PolicyVerdict;
  Cand_AvailableTools : list string;
  Cand_AvailableSlots : Z;
  Cand_AvailableAt : Z;
  Cand_ExpectedCost : CostMicros;
  Cand_ExpectedLatency : Z;
  Cand_QualityPermille : Z;
  Cand_CacheAffinityPermille : Z;
  Cand_LoadPermille : Z;
}.

#[global] Instance RoutingCandidate_eq_dec : EqDecision RoutingCandidate.
Proof. solve_decision. Defined.

Definition validateStringSet (name : string) (values : list string) : result unit :=
  each_fresh id (fun value => require (negb (blank value)) "is empty") "duplicates" ∅ values.

Definition validateZoneSet (zones : list Zone) : result unit :=
  each_fresh id (fun zone => wrapf "allowed zone" (Zone_Validate zone)) "allowed zone duplicates" ∅ zones.

Definition RoutingCandidate_Validate (c : RoutingCandidate) : result unit :=
  wrapf "candidate ID" (ID_Validate (Cand_ID c)) ;;
  wrapf "candidate zone" (Zone_Validate (Cand_Zone c)) ;;
  wrapf "candidate model" (ModelDescriptor_Validate (Cand_Model c)) ;;
  validateStringSet "candidate available tool" (Cand_AvailableTools c) ;;
  require (negb (Cand_AvailableSlots c <? 0)) "candidate available slots cannot be negative" ;;
  require (negb (Time_IsZero (Cand_AvailableAt c))) "candidate available-at time is required" ;;
  require (negb (Cand_ExpectedCost c <? 0)) "candidate expected cost cannot be negative" ;;
  require (negb (Cand_ExpectedLatency c <? 0)) "candidate expected latency cannot be negative" ;;
  each (fun v => require (negb (out_of_permille v)) "candidate observation must be between 0 and 1000")
    [Cand_QualityPermille c; Cand_CacheAffinityPermille c; Cand_LoadPermille c].

Record RoutingRequest : Type := {
  Route_WorkloadID : ID;
  Route_StepID : ID;
  Route_AttemptID : ID;
  Route_ManifestSHA256 : string;
  Route_SourceZone : Zone;
  Route_Autonomous : bool;
  Route_EgressPurpose : string;
  Route_DerivedFromSHA : string;
  Route_Requirements : Requirements;
  Route_Budget : Budget;
  Route_ObservedAt : Z;
  Route_Deadline : Z;
  Route_Weights : RoutingWeights;
  Route_Candidates : list RoutingCandidate;
}.

#[global] Instance RoutingRequest_eq_dec : EqDecision RoutingRequest.
Proof. solve_decision. Defined.

Definition RoutingRequest_Validate (r : RoutingRequest) : result unit :=
  validate_ids (Route_WorkloadID r) (Route_StepID r) (Route_AttemptID r) ;;
  validateSHA256 "routing manifest SHA-256" (Route_ManifestSHA256 r) ;;
  wrapf "routing source zone" (Zone_Validate (Route_SourceZone r)) ;;
  when (Route_DerivedFromSHA r ≠s "") (validateSHA256 "routing derived-from SHA-256" (Route_DerivedFromSHA r)) ;;
  Requirements_Validate (Route_Requirements r) ;;
  validateStringSet "required modality" (Modalities (Route_Requirements r)) ;;
  validateStringSet "required tool" (RequiredTools (Route_Requirements r)) ;;
  validateZoneSet (AllowedZones (Route_Requirements r)) ;;
  Budget_Validate (Route_Budget r) ;;
  require (negb (Time_IsZero (Route_ObservedAt r))) "routing observation time is required" ;;
  require (negb (Time_IsZero (Route_Deadline r) || negb (Time_After (Route_Deadline r) (Route_ObservedAt r))))
    "routing deadline must be after observation time" ;;
  require (Time_Equal (Time_Add (Route_ObservedAt r) (Time_Sub (Route_Deadline r) (Route_ObservedAt r))) (Route_Deadline r))
    "routing observation-to-deadline window exceeds time.Duration range" ;;
  RoutingWeights_Validate (Route_Weights r) ;;
  require (negb (Z.of_nat (length (Route_Candidates r)) =? 0)) "routing candidates are required" ;;
  each_fresh Cand_ID (fun candidate => wrapf "routing candidate" (RoutingCandidate_Validate candidate))
    "routing candidate duplicates ID" ∅ (Route_Candidates r) ;;
  require (negb (existsb (fun candidate => Cand_Zone candidate ≠s Route_SourceZone r) (Route_Candidates r) &&
                 blank (Route_EgressPurpose r)))
    "routing egress purpose is required for cross-zone candidates".

(* ------------------------------------------------------------------ *)
(** ** Eligibility *)

Record RoutingExclusion : Type := { Exclusion_Code : string; Exclusion_Reason : string }.

#[global] Instance RoutingExclusion_eq_dec : EqDecision RoutingExclusion.
Proof. solve_decision. Defined.

Record CandidateEligibility : Type := {
  Elig_CandidateID : ID;
  Elig_Zone : Zone;
  Elig_Model : ModelRef;
  Elig_Exclusion : option RoutingExclusion;
}.

Definition CandidateEligibility_Eligible (e : CandidateEligibility) : bool := negb (is_some (Elig_Exclusion e)).

Definition routingExcluded (code reason : string) : option RoutingExclusion :=
  Some {| Exclusion_Code := code; Exclusion_Reason := reason |}.

Definition routingContains (values : list string) (wanted : string) : bool := existsb (fun v => v =s wanted) values.

Definition routingMaxTime (l r : Z) : Z := if Time_After r l then r else l.

Definition routingExecutionScope (r : RoutingRequest) (c : RoutingCandidate) : PolicyScope :=
  PolicyScopeForExecution
    {| Exec_WorkloadID := Route_WorkloadID r;
       Exec_StepID := Route_StepID r;
       Exec_AttemptID := Route_AttemptID r;
       Exec_StepKind := StepModelTurn;
       Exec_Target := {| Target_Sandbox := zero_SandboxCapability; Target_Kind := ExecutionTargetModel;
         Target_Zone := Cand_Zone c; Target_Model := Some (Descriptor_Ref (Cand_Model c)); Target_ToolName := "" |};
       Exec_Manifest := {| Items := [] |};
       Exec_Autonomous := Route_Autonomous r |}.

Definition routingEgressScope (r : RoutingRequest) (c : RoutingCandidate) : PolicyScope :=
  PolicyScopeForDataEgress
    {| Egress_WorkloadID := Route_WorkloadID r;
       Egress_StepID := Route_StepID r;
       Egress_Source := Route_SourceZone r;
       Egress_Destination := Cand_Zone c;
       Egress_Manifest := {| Items := [] |};
       Egress_Purpose := Route_EgressPurpose r;
       Egress_DerivedFromSHA := Route_DerivedFromSHA r |}.

Definition routingPolicyExclusion (kind : string) (verdict : PolicyVerdict) (manifestDigest : string)
    (expectedScope : PolicyScope) : option RoutingExclusion :=
  if negb (is_ok (PolicyVerdict_Validate verdict))
  then routingExcluded ("policy." +:+ kind +:+ ".invalid") ("candidate has an invalid " +:+ kind +:+ " policy verdict")
  else if Verdict_ManifestSHA256 verdict ≠s manifestDigest
  then routingExcluded ("policy." +:+ kind +:+ ".manifest_mismatch")
         "candidate policy verdict does not bind the routing manifest"
  else if negb (PolicyScope_Equal (Verdict_Scope verdict) expectedScope)
  then routingExcluded ("policy." +:+ kind +:+ ".scope_mismatch")
         "candidate policy verdict does not bind the routing scope"
  else if negb (PolicyVerdict_Allows verdict)
  then routingExcluded ("policy." +:+ kind +:+ ".not_allowed")
         "candidate policy verdict does not allow the operation"
  else None.

(** [if x := a; x != nil { return x }; rest] *)
Definition or_else {A} (a rest : option A) : option A := match a with Some x => Some x | None => rest end.

(** A loop that returns at the first element missing from a list. *)
Fixpoint first_missing (available wanted : list string) : option string :=
  match wanted with
  | [] => None
  | w :: wanted' => if negb (routingContains available w) then Some w else first_missing available wanted'
  end.

Section eligibility.
Context `{Quoting}.

Definition candidateExclusion (r : RoutingRequest) (c : RoutingCandidate) : option RoutingExclusion :=
  let req := Route_Requirements r in
  let cap := Descriptor_Capabilities (Cand_Model c) in
  let start := routingMaxTime (Route_ObservedAt r) (Cand_AvailableAt c) in
  if negb (Cand_Authenticated c)
  then routingExcluded "identity.unauthenticated" "candidate is not authenticated"
  else if negb (Cand_Compatible c)
  then routingExcluded "compatibility.unsatisfied" "candidate is not protocol or workload compatible"
  else if negb (Cand_Healthy c)
  then routingExcluded "health.unhealthy" "candidate is not healthy"
  else if Cand_Draining c
  then routingExcluded "health.draining" "candidate is draining"
  else if (0 <? Z.of_nat (length (AllowedZones req))) && negb (routingContains (AllowedZones req) (Cand_Zone c))
  then routingExcluded "policy.zone.denied" "candidate zone is not allowed by workload requirements"
  else
  or_else (routingPolicyExclusion "execution" (Cand_ExecutionVerdict c) (Route_ManifestSHA256 r)
             (routingExecutionScope r c)) (
  or_else (
    if Cand_Zone c ≠s Route_SourceZone r then
      match Cand_EgressVerdict c with
      | None => routingExcluded "egress.verdict.missing" "cross-zone candidate requires an egress verdict"
      | Some verdict =>
          routingPolicyExclusion "egress" verdict (Route_ManifestSHA256 r) (routingEgressScope r c)
      end
    else None) (
  match first_missing (Cap_Modalities cap) (Modalities req) with
  | Some modality => routingExcluded "capability.modality.missing"
                       ("candidate does not support required modality " +:+ fmt_q modality)
  | None =>
  match first_missing (Cand_AvailableTools c) (RequiredTools req) with
  | Some tool => routingExcluded "capability.tool.missing"
                   ("candidate does not provide required tool " +:+ fmt_q tool)
  | None =>
  if (0 <? Z.of_nat (length (RequiredTools req))) && (Cap_ToolUse cap =s ToolUseNone)
  then routingExcluded "capability.tool_use.missing" "candidate model cannot request tools"
  else if NativeToolUse req && (Cap_ToolUse cap ≠s ToolUseNative)
  then routingExcluded "capability.native_tool_use.missing" "candidate does not support native tool use"
  else if StructuredOutput req && negb (Cap_StructuredOutput cap)
  then routingExcluded "capability.structured_output.missing" "candidate does not support structured output"
  else if Cap_ContextTokens cap <? MinContextTokens req
  then routingExcluded "limit.context.insufficient" "candidate context limit is insufficient"
  else if Cap_MaxOutputTokens cap <? MaxOutputTokens (Route_Budget r)
  then routingExcluded "limit.output.insufficient" "candidate output limit is insufficient"
  else if MaxCost (Route_Budget r) <? Cand_ExpectedCost c
  then routingExcluded "budget.cost.unreservable" "candidate expected cost exceeds the step budget"
  else if Cand_AvailableSlots c =? 0
  then routingExcluded "capacity.unavailable" "candidate has no available capacity"
  else if Time_After start (Route_Deadline r) || (Time_Sub (Route_Deadline r) start <? Cand_ExpectedLatency c)
  then routingExcluded "capacity.deadline" "candidate cannot complete before the deadline"
  else None
  end end)).

(** The loop of [EvaluateRoutingEligibility], from candidate [i]. *)
Fixpoint eligibility_loop (ctx : nat → option error) (r : RoutingRequest) (i : nat) (candidates : list RoutingCandidate)
    : result (list CandidateEligibility) :=
  match candidates with
  | [] => Ok []
  | c :: rest =>
      check_ctx (ctx i) ;;
      results ← eligibility_loop ctx r (S i) rest;
      Ok ({| Elig_CandidateID := Cand_ID c; Elig_Zone := Cand_Zone c; Elig_Model := Descriptor_Ref (Cand_Model c);
             Elig_Exclusion := candidateExclusion r c |} :: results)
  end.

Definition EvaluateRoutingEligibility (ctx : nat → option error) (r : RoutingRequest)
    : result (list CandidateEligibility) :=
  check_ctx (ctx 0%nat) ;;
  RoutingRequest_Validate r ;;
  eligibility_loop ctx r 1 (Route_Candidates r).

End eligibility.

(* ------------------------------------------------------------------ *)
(** ** Decisions *)

Definition RoutingExclusion_Validate (e : RoutingExclusion) : result unit :=
  require (negb (blank (Exclusion_Code e))) "routing exclusion code is required" ;;
  require (negb (blank (Exclusion_Reason e))) "routing exclusion reason is required".

Record RoutingScore : Type := {
  Score_Quality : Z;
  Score_Locality : Z;
  Score_Availability : Z;
  Score_CacheAffinity : Z;
  Score_Cost : Z;
  Score_Latency : Z;
  Score_InverseLoad : Z;
  Score_Total : Z;
}.

#[global] Instance RoutingScore_eq_dec : EqDecision RoutingScore.
Proof. solve_decision. Defined.

Definition score_values (s : RoutingScore) : list Z :=
  [Score_Quality s; Score_Locality s; Score_Availability s; Score_CacheAffinity s; Score_Cost s; Score_Latency s;
   Score_InverseLoad s; Score_Total s].

Definition RoutingScore_Validate (s : RoutingScore) : result unit :=
  each (fun v => require (negb (out_of_permille v)) "routing score must be between 0 and 1000") (score_values s).

Record CandidateAssessment : Type := {
  Assess_CandidateID : ID;
  Assess_Zone : Zone;
  Assess_Model : ModelRef;
  Assess_Eligible : bool;
  Assess_Exclusion : option RoutingExclusion;
  Assess_Score : option RoutingScore;
}.

#[global] Instance CandidateAssessment_eq_dec : EqDecision CandidateAssessment.
Proof. solve_decision. Defined.

Definition CandidateAssessment_Validate (a : CandidateAssessment) : result unit :=
  wrapf "assessed candidate ID" (ID_Validate (Assess_CandidateID a)) ;;
  wrapf "assessed candidate zone" (Zone_Validate (Assess_Zone a)) ;;
  wrapf "assessed candidate model" (ModelRef_Validate (Assess_Model a)) ;;
  if Assess_Eligible a then
    match Assess_Exclusion a, Assess_Score a with
    | None, Some score => RoutingScore_Validate score
    | _, _ => Err (errors_New "eligible candidate requires a score and no exclusion")
    end
  else
    match Assess_Exclusion a, Assess_Score a with
    | Some exclusion, None => RoutingExclusion_Validate exclusion
    | _, _ => Err (errors_New "excluded candidate requires one exclusion and no score")
    end.

Record RoutingDecision : Type := {
  Decision_Router : string;
  Decision_RouterVersion : string;
  Decision_WorkloadID : ID;
  Decision_StepID : ID;
  Decision_AttemptID : ID;
  Decision_ManifestSHA256 : string;
  Decision_SourceZone : Zone;
  Decision_Autonomous : bool;
  Decision_EgressPurpose : string;
  Decision_DerivedFromSHA : string;
  Decision_ObservedAt : Z;
  Decision_Deadline : Z;
  Decision_Weights : RoutingWeights;
  Decision_Assessments : list CandidateAssessment;
  Decision_SelectedCandidateID : ID;
}.

#[global] Instance RoutingDecision_eq_dec : EqDecision RoutingDecision.
Proof. solve_decision. Defined.

Definition zero_RoutingWeights : RoutingWeights :=
  {| Weight_Quality := 0; Weight_Locality := 0; Weight_Availability := 0; Weight_CacheAffinity := 0;
     Weight_Cost := 0; Weight_Latency := 0; Weight_InverseLoad := 0 |}.

Definition zero_RoutingDecision : RoutingDecision :=
  {| Decision_Router := ""; Decision_RouterVersion := ""; Decision_WorkloadID := ""; Decision_StepID := "";
     Decision_AttemptID := ""; Decision_ManifestSHA256 := ""; Decision_SourceZone := ""; Decision_Autonomous := false;
     Decision_EgressPurpose := ""; Decision_DerivedFromSHA := ""; Decision_ObservedAt := 0; Decision_Deadline := 0;
     Decision_Weights := zero_RoutingWeights; Decision_Assessments := []; Decision_SelectedCandidateID := "" |}.

Definition ErrNoEligibleCandidates : error := Sentinel "no eligible routing candidates".
Definition ErrRoutingEvaluation : error := Sentinel "routing evaluation failed".

Section decisions.
Context `{Quoting}.

(** One round of the loop of [RoutingDecision.Validate]. *)
Definition validate_assessment (r : RoutingRequest) (a : CandidateAssessment) (c : RoutingCandidate) : result unit :=
  require (Assess_CandidateID a =s Cand_ID c) "routing assessment does not preserve candidate order" ;;
  require (negb ((Assess_Zone a ≠s Cand_Zone c) || negb (ModelRef_eqb (Assess_Model a) (Descriptor_Ref (Cand_Model c)))))
    "routing assessment candidate snapshot mismatch" ;;
  wrapf "routing assessment" (CandidateAssessment_Validate a) ;;
  match candidateExclusion r c with
  | None => require (Assess_Eligible a) "routing assessment excluded an eligible candidate"
  | Some expected =>
      require (match Assess_Exclusion a with
               | Some actual => negb (Assess_Eligible a) && bool_decide (actual = expected)
               | None => false
               end) "routing assessment changed mandatory eligibility"
  end.

(** The loop over assessments and candidates, index by index. *)
Fixpoint validate_assessments (r : RoutingRequest) (assessments : list CandidateAssessment)
    (candidates : list RoutingCandidate) : result unit :=
  match assessments, candidates with
  | a :: assessments', c :: candidates' =>
      validate_assessment r a c ;; validate_assessments r assessments' candidates'
  | _, _ => Ok tt
  end.

Definition RoutingDecision_Validate (d : RoutingDecision) (r : RoutingRequest) : result unit :=
  wrapf "routing decision request" (RoutingRequest_Validate r) ;;
  require (negb (blank (Decision_Router d) || blank (Decision_RouterVersion d)))
    "routing decision requires router name and version" ;;
  require (negb ((Decision_WorkloadID d ≠s Route_WorkloadID r) || (Decision_StepID d ≠s Route_StepID r) ||
                 (Decision_AttemptID d ≠s Route_AttemptID r))) "routing decision request identity mismatch" ;;
  require (Decision_ManifestSHA256 d =s Route_ManifestSHA256 r) "routing decision manifest mismatch" ;;
  require (negb ((Decision_SourceZone d ≠s Route_SourceZone r) ||
                 negb (Bool.eqb (Decision_Autonomous d) (Route_Autonomous r)) ||
                 (Decision_EgressPurpose d ≠s Route_EgressPurpose r) ||
                 (Decision_DerivedFromSHA d ≠s Route_DerivedFromSHA r) ||
                 negb (Time_Equal (Decision_ObservedAt d) (Route_ObservedAt r)) ||
                 negb (Time_Equal (Decision_Deadline d) (Route_Deadline r))))
    "routing decision request snapshot mismatch" ;;
  require (bool_decide (Decision_Weights d = Route_Weights r)) "routing decision weights mismatch" ;;
  require (Z.of_nat (length (Decision_Assessments d)) =? Z.of_nat (length (Route_Candidates r)))
    "routing decision must assess every candidate" ;;
  validate_assessments r (Decision_Assessments d) (Route_Candidates r) ;;
  let eligibleCount := length (List.filter Assess_Eligible (Decision_Assessments d)) in
  let selectedFound := existsb (fun a => Assess_Eligible a &&
                         (Assess_CandidateID a =s Decision_SelectedCandidateID d)) (Decision_Assessments d) in
  if ID_IsZero (Decision_SelectedCandidateID d)
  then require (Z.of_nat eligibleCount =? 0) "routing decision omitted selection with eligible candidates"
  else
    wrapf "selected candidate ID" (ID_Validate (Decision_SelectedCandidateID d)) ;;
    require selectedFound "routing decision selected an ineligible or unknown candidate".

Abbreviation Router := (RoutingRequest → option (RoutingDecision * option error)) (only parsing).

Definition EvaluateRouter (ctx : nat → option error) (router : option Router) (request : RoutingRequest)
    : option (RoutingDecision * option error) :=
  let fail e := Some (zero_RoutingDecision, Some e) in
  match ctx 0%nat with
  | Some err => fail err
  | None =>
      match RoutingRequest_Validate request with
      | Err err => fail (Errorf "" [ErrRoutingEvaluation; err])
      | Ok _ =>
          match router with
          | None => fail (Errorf "router is nil" [ErrRoutingEvaluation])
          | Some route =>
              match route request with
              | None => None
              | Some (decision, err) =>
                  let no_route := match err with Some e => errors_Is e "no eligible routing candidates" | None => false end in
                  match ctx 1%nat with
                  | Some contextError => fail contextError
                  | None =>
                      match err, no_route with
                      | Some e, false => fail (Errorf "" [ErrRoutingEvaluation; e])
                      | _, _ =>
                          match RoutingDecision_Validate decision request with
                          | Err validationError => fail (Errorf "" [ErrRoutingEvaluation; validationError])
                          | Ok _ =>
                              if no_route then
                                if negb (ID_IsZero (Decision_SelectedCandidateID decision))
                                then fail (Errorf "no-route result selected a candidate" [ErrRoutingEvaluation])
                                else Some (decision, Some ErrNoEligibleCandidates)
                              else if ID_IsZero (Decision_SelectedCandidateID decision)
                              then fail (Errorf "successful route omitted a selection" [ErrRoutingEvaluation])
                              else Some (decision, None)
                          end
                      end
                  end
              end
          end
      end
  end.

End decisions.

(* ------------------------------------------------------------------ *)
(** ** Lemmas *)

Lemma routingContains_true l w : routingContains l w = true ↔ w ∈ l.
Proof.
  unfold routingContains. rewrite existsb_exists, list_elem_of_In.
  setoid_rewrite String.eqb_eq. naive_solver.
Qed.

Lemma first_missing_None available wanted : first_missing available wanted = None ↔ ∀ w, w ∈ wanted → w ∈ available.
Proof.
  induction wanted as [|w wanted IH]; cbn; [set_solver|].
  destruct (routingContains available w) eqn:E; cbn.
  - apply routingContains_true in E. rewrite IH. set_solver.
  - split; [done|]. intros H. specialize (H w (list_elem_of_here _ _)). apply routingContains_true in H. congruence.
Qed.

Lemma out_of_permille_false v : out_of_permille v = false ↔ 0 <= v <= 1000.
Proof. unfold out_of_permille, ScorePermilleMax. rewrite orb_false_iff, !Z.ltb_ge. lia. Qed.

(** A policy verdict passes its gate exactly when it is valid, bound to the
    manifest and the scope, and allows. *)
Lemma routingPolicyExclusion_None kind v digest scope :
  routingPolicyExclusion kind v digest scope = None ↔
  PolicyVerdict_Validate v = Ok tt ∧ Verdict_ManifestSHA256 v = digest ∧ Verdict_Scope v = scope ∧
  Verdict_Action v = PolicyAllow.
Proof.
  unfold routingPolicyExclusion, routingExcluded, PolicyVerdict_Allows.
  destruct (PolicyVerdict_Validate v) as [[]|e]; cbn [is_ok negb]; [|naive_solver].
  destruct (String.eqb_spec (Verdict_ManifestSHA256 v) digest); cbn [negb]; [|naive_solver].
  destruct (PolicyScope_Equal (Verdict_Scope v) scope) eqn:E; cbn [negb].
  - apply PolicyScope_Equal_true in E. destruct (String.eqb_spec (Verdict_Action v) PolicyAllow); naive_solver.
  - split; [done|]. intros (_ & _ & Hs & _). apply PolicyScope_Equal_true in Hs. congruence.
Qed.

Lemma or_else_None {A} (a b : option A) : or_else a b = None ↔ a = None ∧ b = None.
Proof. destruct a; cbn; naive_solver. Qed.

(** What the gates demand of a candidate, as one proposition. *)
Record eligible (r : RoutingRequest) (c : RoutingCandidate) : Prop := {
  el_identity : Cand_Authenticated c = true ∧ Cand_Compatible c = true;
  el_health : Cand_Healthy c = true ∧ Cand_Draining c = false;
  el_zone : AllowedZones (Route_Requirements r) = [] ∨ Cand_Zone c ∈ AllowedZones (Route_Requirements r);
  el_execution : PolicyVerdict_Validate (Cand_ExecutionVerdict c) = Ok tt ∧
    Verdict_ManifestSHA256 (Cand_ExecutionVerdict c) = Route_ManifestSHA256 r ∧
    Verdict_Scope (Cand_ExecutionVerdict c) = routingExecutionScope r c ∧
    Verdict_Action (Cand_ExecutionVerdict c) = PolicyAllow;
  el_egress : Cand_Zone c ≠ Route_SourceZone r →
    ∃ v, Cand_EgressVerdict c = Some v ∧ PolicyVerdict_Validate v = Ok tt ∧
      Verdict_ManifestSHA256 v = Route_ManifestSHA256 r ∧ Verdict_Scope v = routingEgressScope r c ∧
      Verdict_Action v = PolicyAllow;
  el_modalities : ∀ m, m ∈ Modalities (Route_Requirements r) → m ∈ Cap_Modalities (Descriptor_Capabilities (Cand_Model c));
  el_tools : ∀ t, t ∈ RequiredTools (Route_Requirements r) → t ∈ Cand_AvailableTools c;
  el_tool_use : RequiredTools (Route_Requirements r) ≠ [] → Cap_ToolUse (Descriptor_Capabilities (Cand_Model c)) ≠ ToolUseNone;
  el_native : NativeToolUse (Route_Requirements r) = true →
    Cap_ToolUse (Descriptor_Capabilities (Cand_Model c)) = ToolUseNative;
  el_structured : StructuredOutput (Route_Requirements r) = true →
    Cap_StructuredOutput (Descriptor_Capabilities (Cand_Model c)) = true;
  el_context : MinContextTokens (Route_Requirements r) <= Cap_ContextTokens (Descriptor_Capabilities (Cand_Model c));
  el_output : MaxOutputTokens (Route_Budget r) <= Cap_MaxOutputTokens (Descriptor_Capabilities (Cand_Model c));
  el_cost : Cand_ExpectedCost c <= MaxCost (Route_Budget r);
  el_slots : Cand_AvailableSlots c ≠ 0;
  el_deadline : Z.max (Route_ObservedAt r) (Cand_AvailableAt c) <= Route_Deadline r ∧
    Cand_ExpectedLatency c <= Time_Sub (Route_Deadline r) (Z.max (Route_ObservedAt r) (Cand_AvailableAt c));
}.

Lemma routingMaxTime_max l r : routingMaxTime l r = Z.max l r.
Proof. unfold routingMaxTime, Time_After. destruct (Z.ltb_spec l r); lia. Qed.

Lemma length_pos {A} (l : list A) : (0 <? Z.of_nat (length l)) = match l with [] => false | _ => true end.
Proof. destruct l; [done|]. apply Z.ltb_lt. cbn. lia. Qed.

Lemma candidateExclusion_None `{Quoting} r c : candidateExclusion r c = None ↔ eligible r c.
Proof.
  unfold candidateExclusion. rewrite !length_pos, routingMaxTime_max.
  assert (∀ code reason (rest : option RoutingExclusion) (b : bool),
    (if b then routingExcluded code reason else rest) = None ↔ b = false ∧ rest = None) as Hif.
  { intros code reason rest []; unfold routingExcluded; naive_solver. }
  rewrite !Hif, !or_else_None, routingPolicyExclusion_None.
  set (cap := Descriptor_Capabilities (Cand_Model c)). set (req := Route_Requirements r).
  assert ((if Cand_Zone c ≠s Route_SourceZone r then
      match Cand_EgressVerdict c with
      | None => routingExcluded "egress.verdict.missing" "cross-zone candidate requires an egress verdict"
      | Some verdict => routingPolicyExclusion "egress" verdict (Route_ManifestSHA256 r) (routingEgressScope r c)
      end else None) = None ↔
    (Cand_Zone c ≠ Route_SourceZone r →
    ∃ v, Cand_EgressVerdict c = Some v ∧ PolicyVerdict_Validate v = Ok tt ∧
      Verdict_ManifestSHA256 v = Route_ManifestSHA256 r ∧ Verdict_Scope v = routingEgressScope r c ∧
      Verdict_Action v = PolicyAllow)) as ->.
  { destruct (String.eqb_spec (Cand_Zone c) (Route_SourceZone r)); cbn [negb]; [naive_solver|].
    destruct (Cand_EgressVerdict c) as [v|]; [rewrite routingPolicyExclusion_None|]; naive_solver. }
  assert (∀ A (l : list A) (b : bool), (match l with [] => false | _ => true end && b = false) ↔ (l = [] ∨ b = false)) as Hl.
  { intros A [|] []; naive_solver. }
  rewrite Hl, !negb_false_iff, routingContains_true.
  destruct (first_missing (Cap_Modalities cap) (Modalities req)) as [m|] eqn:Em.
  { split; [unfold routingExcluded; naive_solver|]. intros He.
    pose proof (proj2 (first_missing_None _ _) (el_modalities _ _ He)) as Hn. fold cap req in Hn. congruence. }
  destruct (first_missing (Cand_AvailableTools c) (RequiredTools req)) as [t|] eqn:Et.
  { split; [unfold routingExcluded; naive_solver|]. intros He.
    pose proof (proj2 (first_missing_None _ _) (el_tools _ _ He)) as Hn. fold cap req in Hn. congruence. }
  rewrite !Hif, Hl, !andb_false_iff, !negb_false_iff, orb_false_iff, !Z.ltb_ge, Z.eqb_neq, String.eqb_neq, String.eqb_eq.
  unfold Time_After. rewrite Z.ltb_ge. pose proof (proj1 (first_missing_None _ _) Em) as Hm. pose proof (proj1 (first_missing_None _ _) Et) as Ht. split.
  - intros (H1 & H2 & H3 & H4 & H5 & H6 & H7 & H8 & H9 & H10 & H11 & H12 & H13 & H14 & H15). 
    split; fold cap req; try done; try tauto.
    + intros Hn. rewrite Hn in H9. by destruct H9.
    + intros Hn. rewrite Hn in H10. by destruct H10.
  - intros []. unfold cap, req. split_and!; try tauto.
    + destruct (RequiredTools (Route_Requirements r)); [by left | right; auto].
    + destruct (NativeToolUse (Route_Requirements r)); [right; auto | by left].
    + destruct (StructuredOutput (Route_Requirements r)); [right; auto | by left].
Qed.

(** Every exclusion the gates produce is a well formed one. *)
Lemma routingExcluded_valid a s b t e :
  solid a = true → solid b = true → routingExcluded (String a s) (String b t) = Some e →
  RoutingExclusion_Validate e = Ok tt.
Proof.
  intros Ha Hb [= <-]. unfold RoutingExclusion_Validate. cbn -[blank].
  by rewrite !blank_solid.
Qed.

Lemma routingPolicyExclusion_valid kind v digest scope e :
  routingPolicyExclusion kind v digest scope = Some e → RoutingExclusion_Validate e = Ok tt.
Proof.
  unfold routingPolicyExclusion. intros H. repeat case_in H; try done;
    (eapply routingExcluded_valid; [| |exact H]; reflexivity).
Qed.

Lemma candidateExclusion_valid `{Quoting} r c e :
  candidateExclusion r c = Some e → RoutingExclusion_Validate e = Ok tt.
Proof.
  unfold candidateExclusion. intros He.
  repeat match type of He with
  | (if ?b then _ else _) = _ => destruct b
  | or_else ?a _ = _ => destruct a eqn:?; cbn [or_else] in He; [|]
  | match ?o with Some _ => _ | None => _ end = _ => destruct o
  end; try done; try (eapply routingExcluded_valid; [| |exact He]; reflexivity);
  injection He as <-; try (by eapply routingPolicyExclusion_valid).
  repeat match goal with
  | E : (if ?b then _ else _) = Some _ |- _ => destruct b
  | E : match ?o with Some _ => _ | None => _ end = _ |- _ => destruct o
  end; try done; try (by eapply routingPolicyExclusion_valid);
  (eapply routingExcluded_valid; [| |eassumption]; reflexivity).
Qed.

(** What an accepted assessment says. *)
Lemma validate_assessment_Ok `{Quoting} r a c u :
  validate_assessment r a c = Ok u →
  Assess_CandidateID a = Cand_ID c ∧ Assess_Zone a = Cand_Zone c ∧ Assess_Model a = Descriptor_Ref (Cand_Model c) ∧
  CandidateAssessment_Validate a = Ok tt ∧ (Assess_Eligible a = true ↔ candidateExclusion r c = None) ∧
  Assess_Exclusion a = candidateExclusion r c.
Proof.
  unfold validate_assessment. rewrite !seq_Ok, wrapf_Ok, !require_Ok, negb_true_iff, orb_false_iff, !negb_false_iff,
    !String.eqb_eq, ModelRef_eqb_true. intros (H1 & (H2 & H3) & H4 & H5). split_and!; try done.
  - destruct (candidateExclusion r c) as [x|]; destruct u; apply require_Ok in H5; [|by split].
    destruct (Assess_Exclusion a) as [y|]; [|done]. apply andb_true_iff in H5 as [H5%negb_true_iff _].
    split; congruence.
  - destruct (candidateExclusion r c) as [x|]; destruct u; apply require_Ok in H5.
    + destruct (Assess_Exclusion a) as [y|]; [|done].
      apply andb_true_iff in H5 as [_ H5%bool_decide_eq_true]. congruence.
    + unfold CandidateAssessment_Validate in H4. rewrite H5 in H4. do 3 apply seq_Ok in H4 as [_ H4].
      by destruct (Assess_Exclusion a).
Qed.

Lemma validate_assessments_Ok `{Quoting} r assessments candidates u :
  length assessments = length candidates →
  validate_assessments r assessments candidates = Ok u ↔
  Forall2 (fun a c => validate_assessment r a c = Ok tt) assessments candidates.
Proof.
  destruct u. revert candidates. induction assessments as [|a l IH]; intros [|c cs] Hl; try discriminate; cbn.
  - split; [constructor | done].
  - injection Hl as Hl. rewrite seq_Ok, (IH cs Hl). split.
    + intros [Ha Hr]. by constructor.
    + intros Hf. by inversion Hf.
Qed.

(** A valid decision: its selection is an eligible candidate of the request. *)
Lemma RoutingDecision_Validate_Ok `{Quoting} d r u :
  RoutingDecision_Validate d r = Ok u →
  RoutingRequest_Validate r = Ok tt ∧
  Forall2 (fun a c => validate_assessment r a c = Ok tt) (Decision_Assessments d) (Route_Candidates r) ∧
  (Decision_SelectedCandidateID d = "" → ∀ c, c ∈ Route_Candidates r → ¬ eligible r c) ∧
  (Decision_SelectedCandidateID d ≠ "" →
     ∃ c, c ∈ Route_Candidates r ∧ Cand_ID c = Decision_SelectedCandidateID d ∧ eligible r c).
Proof.
  unfold RoutingDecision_Validate. rewrite seq_Ok, wrapf_Ok. intros (Hr & Hd). do 5 apply seq_Ok in Hd as [_ Hd].
  apply seq_Ok in Hd as [Hlen Hd]. apply require_Ok, Z.eqb_eq, Nat2Z.inj in Hlen.
  apply seq_Ok in Hd as [Hall Hd]. apply (validate_assessments_Ok _ _ _ _ Hlen) in Hall.
  split_and!; [done | done | |]; intros Hsel; unfold ID_IsZero in Hd.
  - rewrite Hsel, seqb_refl in Hd. destruct u. apply require_Ok, Z.eqb_eq in Hd.
    intros c Hc He. apply candidateExclusion_None in He.
    apply list_elem_of_lookup in Hc as [i Hi]. destruct (Forall2_lookup_r _ _ _ _ _ Hall Hi) as (a & Ha & Hv).
    apply validate_assessment_Ok in Hv as (_ & _ & _ & _ & Hel & _). apply Hel in He.
    assert (a ∈ List.filter Assess_Eligible (Decision_Assessments d)) as Hin.
    { apply list_elem_of_In, filter_In. split; [|done]. apply list_elem_of_In, list_elem_of_lookup. eauto. }
    destruct (List.filter Assess_Eligible (Decision_Assessments d)); [by apply elem_of_nil in Hin | cbn in Hd; lia].
  - rewrite (proj2 (String.eqb_neq _ _) Hsel) in Hd. apply seq_Ok in Hd as [_ Hd]. destruct u.
    apply require_Ok, existsb_exists in Hd as (a & Hin & Ha). apply andb_true_iff in Ha as [Ha Hid%String.eqb_eq].
    apply list_elem_of_In, list_elem_of_lookup in Hin as [i Hi].
    destruct (Forall2_lookup_l _ _ _ _ _ Hall Hi) as (c & Hc & Hv).
    apply validate_assessment_Ok in Hv as (H1 & _ & _ & _ & Hel & _). exists c.
    split_and!; [apply list_elem_of_lookup; eauto | congruence | by apply candidateExclusion_None, Hel].
Qed.

(** A request with a decision has distinct candidates, so whatever candidate has
    the selected identifier is eligible. *)
Lemma RoutingRequest_Validate_distinct r u : RoutingRequest_Validate r = Ok u → NoDup (Cand_ID <$> Route_Candidates r).
Proof.
  unfold RoutingRequest_Validate. intros H. do 14 apply seq_Ok in H as [_ H]. apply seq_Ok in H as [Hc _].
  by apply each_fresh_Ok in Hc as (_ & Hnd & _).
Qed.

Lemma EvaluateRouter_Validate `{Quoting} ctx router request d :
  EvaluateRouter ctx router request = Some (d, None) →
  RoutingDecision_Validate d request = Ok tt ∧ Decision_SelectedCandidateID d ≠ "".
Proof.
  intros He. unfold EvaluateRouter in He. repeat case_match; simplify_eq; unfold ID_IsZero in *;
    repeat match goal with
    | H : (_ =s _) = false |- _ => apply String.eqb_neq in H
    | H : unit |- _ => destruct H
    end; done.
Qed.

Lemma EvaluateRouter_eligible `{Quoting} ctx router request d c :
  EvaluateRouter ctx router request = Some (d, None) →
  c ∈ Route_Candidates request → Cand_ID c = Decision_SelectedCandidateID d → eligible request c.
Proof.
  intros [Hv Hne]%EvaluateRouter_Validate Hc Hid.
  apply RoutingDecision_Validate_Ok in Hv as (Hr & _ & _ & Hs). destruct (Hs Hne) as (c' & Hc' & Hid' & He).
  apply RoutingRequest_Validate_distinct in Hr.
  apply list_elem_of_lookup in Hc as [i Hi], Hc' as [j Hj].
  assert (i = j) as <- by
    (apply (NoDup_lookup _ _ _ (Cand_ID c) Hr); rewrite list_lookup_fmap, ?Hi, ?Hj; cbn; congruence).
  by simplify_eq.
Qed.

(* ------------------------------------------------------------------ *)
(** ** Properties *)

(** C19. Whatever router is evaluated, a decision it returns without an error
    selects a candidate of the request that passes every gate: authenticated,
    compatible, healthy, in an allowed zone, with an allowing execution verdict
    bound to this manifest and placement, an allowing egress verdict when it is
    in another zone, the capabilities, limits, cost and time the request needs.
    The no-route error is returned only when no candidate is eligible. *)
Theorem EvaluateRouter_sound `{Quoting} ctx router request d err :
  EvaluateRouter ctx router request = Some (d, err) →
  (err = None →
     RoutingRequest_Validate request = Ok tt ∧ RoutingDecision_Validate d request = Ok tt ∧
     ∃ c, c ∈ Route_Candidates request ∧ Cand_ID c = Decision_SelectedCandidateID d ∧ eligible request c) ∧
  (err = Some ErrNoEligibleCandidates → ctx 0%nat = None → ctx 1%nat = None →
     RoutingDecision_Validate d request = Ok tt ∧ ∀ c, c ∈ Route_Candidates request → ¬ eligible request c).
Proof.
  intros He. unfold EvaluateRouter in He.
  assert (∀ e, Errorf "" [ErrRoutingEvaluation; e] ≠ ErrNoEligibleCandidates) as Hne by done.
  destruct (ctx 0%nat) eqn:E0; [naive_solver|].
  destruct (RoutingRequest_Validate request) as [[]|] eqn:Er; [|naive_solver].
  destruct router as [route|]; [|naive_solver]. destruct (route request) as [[d' err']|]; [|done].
  destruct (ctx 1%nat) eqn:E1; [naive_solver|].
  set (no_route := match err' with Some e => _ | None => false end) in He.
  assert (err' = None → no_route = false) as Hnr by (by intros ->). clearbody no_route.
  destruct err' as [e'|], no_route; try (naive_solver);
    destruct (RoutingDecision_Validate d' request) as [[]|] eqn:Ed; try naive_solver;
    destruct (ID_IsZero (Decision_SelectedCandidateID d')) eqn:Ez; cbn [negb] in He; simplify_eq;
    try naive_solver; unfold ID_IsZero in Ez.
  - apply String.eqb_eq in Ez. split; [done|]. intros _ _ _. split; [done|].
    apply RoutingDecision_Validate_Ok in Ed as (_ & _ & Hnone & _). by apply Hnone.
  - apply String.eqb_neq in Ez. split; [|done]. intros _. split_and!; try done.
    apply RoutingDecision_Validate_Ok in Ed as (_ & _ & _ & Hs). by apply Hs.
Qed.
