(* ===== verification/Deterministic.v ===== *)
(** * The deterministic router: src/router/deterministic/router.go

    Scores in thousandths with machine integers, and the selection loop.
    [None] is a run-time panic, which [bits.Div64] raises when a quotient does
    not fit. *)

From Stdlib Require Import ZArith Lia.
From S2P Require Import Prelude GoNum GoText GoJson GoHash Ident Domain Model Policy Routing.

Definition routerName : string := "fabricrunner.deterministic".
Definition routerVersion : string := "1".

(** [scalePermille]: 1000 * numerator / denominator on 128 bits. *)
Definition scalePermille (numerator denominator : Z) : option Z :=
  let '(hi, lo) := bits_Mul64 (wrapu64 numerator) ScorePermilleMax in
  match bits_Div64 hi lo (wrapu64 denominator) with
  | Some (quotient, _) => Some (wrap64 quotient)
  | None => None
  end.

Definition boolPermille (value : bool) : Z := if value then ScorePermilleMax else 0.

Definition maxTime (l r : Z) : Z := if Time_After r l then r else l.

(** The weighted sum of the components. *)
Definition score_total (s : RoutingScore) (w : RoutingWeights) : Z :=
  quot64
    (add64 (add64 (add64 (add64 (add64 (add64
       (mul64 (Score_Quality s) (Weight_Quality w))
       (mul64 (Score_Locality s) (Weight_Locality w)))
       (mul64 (Score_Availability s) (Weight_Availability w)))
       (mul64 (Score_CacheAffinity s) (Weight_CacheAffinity w)))
       (mul64 (Score_Cost s) (Weight_Cost w)))
       (mul64 (Score_Latency s) (Weight_Latency w)))
       (mul64 (Score_InverseLoad s) (Weight_InverseLoad w)))
    ScorePermilleMax.

Definition scoreCandidate (request : RoutingRequest) (candidate : RoutingCandidate) : option RoutingScore :=
  let availability :=
    if Cand_AvailableSlots candidate <? 10 then mul64 (Cand_AvailableSlots candidate) 100 else ScorePermilleMax in
  cost ← (if 0 <? MaxCost (Route_Budget request)
          then sub64 ScorePermilleMax <$> scalePermille (Cand_ExpectedCost candidate) (MaxCost (Route_Budget request))
          else Some ScorePermilleMax);
  let start := maxTime (Route_ObservedAt request) (Cand_AvailableAt candidate) in
  let totalLatency := add64 (Time_Sub start (Route_ObservedAt request)) (Cand_ExpectedLatency candidate) in
  latency ← sub64 ScorePermilleMax <$>
              scalePermille totalLatency (Time_Sub (Route_Deadline request) (Route_ObservedAt request));
  let score :=
    {| Score_Quality := Cand_QualityPermille candidate;
       Score_Locality := boolPermille (Cand_Zone candidate =s Route_SourceZone request);
       Score_Availability := availability;
       Score_CacheAffinity := Cand_CacheAffinityPermille candidate;
       Score_Cost := cost;
       Score_Latency := latency;
       Score_InverseLoad := sub64 ScorePermilleMax (Cand_LoadPermille candidate);
       Score_Total := 0 |} in
  Some {| score with Score_Total := score_total score (Route_Weights request) |}.

(** The locals of the selection loop. *)
Record Selection : Type := {
  sel_assessments : list CandidateAssessment;
  sel_bestScore : Z;
  sel_selected : ID;
}.

(** The assessment of an eligible candidate. *)
Definition eligible_assessment (c : RoutingCandidate) (score : RoutingScore) : CandidateAssessment :=
  {| Assess_CandidateID := Cand_ID c; Assess_Zone := Cand_Zone c; Assess_Model := Descriptor_Ref (Cand_Model c);
     Assess_Eligible := true; Assess_Exclusion := None; Assess_Score := Some score |}.

Definition excluded_assessment (c : RoutingCandidate) (exclusion : option RoutingExclusion) : CandidateAssessment :=
  {| Assess_CandidateID := Cand_ID c; Assess_Zone := Cand_Zone c; Assess_Model := Descriptor_Ref (Cand_Model c);
     Assess_Eligible := false; Assess_Exclusion := exclusion; Assess_Score := None |}.

(** [score.Total > bestScore || (score.Total == bestScore && candidate.ID < selected)] *)
Definition better (total : Z) (id : ID) (s : Selection) : bool :=
  (sel_bestScore s <? total) || ((total =? sel_bestScore s) && string_lt id (sel_selected s)).

(** One round for an eligible candidate. *)
Definition select_eligible (c : RoutingCandidate) (score : RoutingScore) (s : Selection) : Selection :=
  let s' := {| s with sel_assessments := sel_assessments s ++ [eligible_assessment c score] |} in
  if better (Score_Total score) (Cand_ID c) s
  then {| s' with sel_bestScore := Score_Total score; sel_selected := Cand_ID c |} else s'.

(** The loop over the candidates and their eligibilities, from index [i]. *)
Fixpoint select_loop (ctx : nat → option error) (request : RoutingRequest) (i : nat)
    (work : list (RoutingCandidate * CandidateEligibility)) (s : Selection) : option (result Selection) :=
  match work with
  | [] => Some (Ok s)
  | (candidate, eligibility) :: work' =>
      match ctx i with
      | Some err => Some (Err err)
      | None =>
          if negb (CandidateEligibility_Eligible eligibility)
          then select_loop ctx request (S i) work'
                 {| s with sel_assessments := sel_assessments s ++ [excluded_assessment candidate (Elig_Exclusion eligibility)] |}
          else
            match scoreCandidate request candidate with
            | None => None
            | Some score => select_loop ctx request (S i) work' (select_eligible candidate score s)
            end
      end
  end.

(** The decision the loop fills in. *)
Definition decision_of (request : RoutingRequest) (assessments : list CandidateAssessment) (selected : ID) : RoutingDecision :=
  {| Decision_Router := routerName;
     Decision_RouterVersion := routerVersion;
     Decision_WorkloadID := Route_WorkloadID request;
     Decision_StepID := Route_StepID request;
     Decision_AttemptID := Route_AttemptID request;
     Decision_ManifestSHA256 := Route_ManifestSHA256 request;
     Decision_SourceZone := Route_SourceZone request;
     Decision_Autonomous := Route_Autonomous request;
     Decision_EgressPurpose := Route_EgressPurpose request;
     Decision_DerivedFromSHA := Route_DerivedFromSHA request;
     Decision_ObservedAt := Route_ObservedAt request;
     Decision_Deadline := Route_Deadline request;
     Decision_Weights := Route_Weights request;
     Decision_Assessments := assessments;
     Decision_SelectedCandidateID := selected |}.

(** [Router.Route]: it observes the context once itself, then
    [EvaluateRoutingEligibility] observes it once and once per candidate, then
    the loop once per candidate. *)
Definition Route `{Quoting} (ctx : nat → option error) (request : RoutingRequest)
    : option (RoutingDecision * option error) :=
  match check_ctx (ctx 0%nat) ;; EvaluateRoutingEligibility (ctx_after 1 ctx) request with
  | Err err => Some (zero_RoutingDecision, Some err)
  | Ok eligibilities =>
      match select_loop ctx request (2 + length (Route_Candidates request))
              (combine (Route_Candidates request) eligibilities)
              {| sel_assessments := []; sel_bestScore := -1; sel_selected := "" |} with
      | None => None
      | Some (Err err) => Some (zero_RoutingDecision, Some err)
      | Some (Ok s) =>
          let decision := decision_of request (sel_assessments s) (sel_selected s) in
          if ID_IsZero (sel_selected s) then Some (decision, Some ErrNoEligibleCandidates)
          else Some (decision, None)
      end
  end.

(* ------------------------------------------------------------------ *)
(** ** Scores *)

(** Scaling never panics or overflows on a fraction between 0 and 1. *)
Lemma scalePermille_fraction n d :
  0 <= n <= d → 0 < d <= int64_max → scalePermille n d = Some (n * 1000 / d) ∧ 0 <= n * 1000 / d <= 1000.
Proof.
  intros Hn Hd. unfold int64_max in Hd. assert (0 <= n * 1000 / d <= 1000) as Hq.
  { split; [apply Z.div_pos; lia|]. apply Z.div_le_upper_bound; nia. }
  split; [|done]. unfold scalePermille. rewrite !wrapu64_id by (unfold_int64; lia).
  unfold ScorePermilleMax. pose proof (bits_Div64_Mul64 n 1000 d) as H.
  destruct (bits_Mul64 n 1000) as [hi lo]. rewrite H; [|lia|nia|].
  - by rewrite wrap64_id by (unfold_int64; lia).
  - apply Z.le_lt_trans with ((n * 1000) / 2 ^ 10); [|].
    + apply Z.div_le_compat_l; [nia|]. split; [done|]. by apply Z.pow_le_mono_r.
    + apply Z.div_lt_upper_bound; [done|]. change (2 ^ 10) with 1024. nia.
Qed.

(** A weighted sum of thousandths with weights that total 1000 is a thousandth. *)
Definition components_ok (s : RoutingScore) : Prop :=
  Forall (fun v => 0 <= v <= 1000)
    [Score_Quality s; Score_Locality s; Score_Availability s; Score_CacheAffinity s; Score_Cost s; Score_Latency s;
     Score_InverseLoad s].

Definition weights_ok (w : RoutingWeights) : Prop :=
  Forall (fun v => 0 <= v <= 1000) (weight_values w) ∧
  Weight_Quality w + Weight_Locality w + Weight_Availability w + Weight_CacheAffinity w + Weight_Cost w +
  Weight_Latency w + Weight_InverseLoad w = 1000.

Lemma RoutingWeights_Validate_Ok w u : RoutingWeights_Validate w = Ok u ↔ weights_ok w.
Proof.
  destruct u. unfold RoutingWeights_Validate, weights_ok. rewrite seq_Ok, each_Ok, require_Ok, Z.eqb_eq.
  assert (Forall (fun v => require (negb (out_of_permille v)) "routing weight must be between 0 and 1000" = Ok tt)
    (weight_values w) ↔ Forall (fun v => 0 <= v <= 1000) (weight_values w)) as ->.
  { apply Forall_proper; [|done]. intros v. by rewrite require_Ok, negb_true_iff, out_of_permille_false. }
  split; intros [Hf Hs]; (split; [done|]); revert Hs; unfold weight_values in *;
    rewrite !Forall_cons in Hf; destruct Hf as (H1 & H2 & H3 & H4 & H5 & H6 & H7 & _);
    cbn [fold_left]; exact64; unfold ScorePermilleMax; lia.
Qed.

(** No intermediate product or sum of the total overflows. *)
Definition exact_total (s : RoutingScore) (w : RoutingWeights) : Z :=
  Score_Quality s * Weight_Quality w + Score_Locality s * Weight_Locality w +
  Score_Availability s * Weight_Availability w + Score_CacheAffinity s * Weight_CacheAffinity w +
  Score_Cost s * Weight_Cost w + Score_Latency s * Weight_Latency w +
  Score_InverseLoad s * Weight_InverseLoad w.

Lemma product_bound v w : 0 <= v <= 1000 → 0 <= w → 0 <= v * w <= 1000 * w.
Proof. nia. Qed.

Lemma score_total_exact s w :
  components_ok s → weights_ok w → score_total s w = exact_total s w / 1000 ∧ 0 <= score_total s w <= 1000.
Proof.
  unfold components_ok, weights_ok, weight_values. rewrite !Forall_cons.
  intros (A1 & A2 & A3 & A4 & A5 & A6 & A7 & _) [(B1 & B2 & B3 & B4 & B5 & B6 & B7 & _) Hsum].
  unfold score_total, exact_total.
  pose proof (product_bound _ _ A1 (proj1 B1)). pose proof (product_bound _ _ A2 (proj1 B2)).
  pose proof (product_bound _ _ A3 (proj1 B3)). pose proof (product_bound _ _ A4 (proj1 B4)).
  pose proof (product_bound _ _ A5 (proj1 B5)). pose proof (product_bound _ _ A6 (proj1 B6)).
  pose proof (product_bound _ _ A7 (proj1 B7)).
  exact64.
  unfold quot64, ScorePermilleMax. rewrite Z.quot_div_nonneg by lia.
  set (t := _ + Score_InverseLoad s * _) in *.
  assert (0 <= t <= 1000 * 1000) as Ht by (unfold t; lia).
  assert (0 <= t / 1000 <= 1000) as Hq.
  { split; [apply Z.div_pos; lia|]. apply Z.div_le_upper_bound; lia. }
  rewrite wrap64_id by (unfold_int64; lia). done.
Qed.

(** The bounds of a valid candidate that scoring relies on. *)
Lemma RoutingCandidate_Validate_bounds c u :
  RoutingCandidate_Validate c = Ok u →
  ID_Validate (Cand_ID c) = Ok tt ∧ Zone_Validate (Cand_Zone c) = Ok tt ∧
  ModelRef_Validate (Descriptor_Ref (Cand_Model c)) = Ok tt ∧
  0 <= Cand_AvailableSlots c ∧ 0 <= Cand_ExpectedCost c ∧ 0 <= Cand_ExpectedLatency c ∧
  0 <= Cand_QualityPermille c <= 1000 ∧ 0 <= Cand_CacheAffinityPermille c <= 1000 ∧ 0 <= Cand_LoadPermille c <= 1000.
Proof.
  unfold RoutingCandidate_Validate. rewrite !seq_Ok, !wrapf_Ok, each_Ok, !require_Ok, !negb_true_iff, !Forall_cons.
  intros (H1 & H2 & H3 & _ & H4 & _ & H5 & H6 & H7 & H8 & H9 & _).
  unfold ModelDescriptor_Validate in H3. apply seq_Ok in H3 as [H3 _].
  rewrite require_Ok, negb_true_iff, out_of_permille_false in H7, H8, H9.
  rewrite Z.ltb_ge in H4, H5, H6. done.
Qed.

Lemma RoutingRequest_Validate_times r u :
  RoutingRequest_Validate r = Ok u →
  Route_ObservedAt r < Route_Deadline r ∧ is_int64 (Route_Deadline r - Route_ObservedAt r) ∧
  weights_ok (Route_Weights r) ∧ 0 <= MaxCost (Route_Budget r) ∧
  (∀ c, c ∈ Route_Candidates r → RoutingCandidate_Validate c = Ok tt) ∧ NoDup (Cand_ID <$> Route_Candidates r).
Proof.
  unfold RoutingRequest_Validate. intros H. do 8 apply seq_Ok in H as [_ H].
  apply seq_Ok in H as [Hb H]. apply seq_Ok in H as [_ H]. apply seq_Ok in H as [Ha H].
  apply seq_Ok in H as [Hw H]. apply seq_Ok in H as [Hwt H]. apply seq_Ok in H as [_ H].
  apply seq_Ok in H as [Hc _]. apply Budget_Validate_Ok in Hb as (_ & _ & _ & _ & _ & _ & Hmc & _).
  apply RoutingWeights_Validate_Ok in Hwt. apply each_fresh_Ok in Hc as (Hc & Hnd & _).
  rewrite require_Ok, negb_true_iff, orb_false_iff, negb_false_iff in Ha. destruct Ha as [_ Ha].
  apply Z.ltb_lt in Ha. apply require_Ok, Z.eqb_eq in Hw. unfold Time_Add in Hw.
  pose proof (Time_Sub_range (Route_Deadline r) (Route_ObservedAt r)) as Hrange.
  split_and!; try done.
  - replace (Route_Deadline r - Route_ObservedAt r) with (Time_Sub (Route_Deadline r) (Route_ObservedAt r)) by lia. done.
  - intros c Hin. rewrite Forall_forall in Hc. specialize (Hc c Hin). by apply wrapf_Ok in Hc.
Qed.

(** The availability component: one hundred per free slot, at most 1000. *)
Lemma availability_bounds slots :
  0 <= slots → 0 <= (if slots <? 10 then mul64 slots 100 else ScorePermilleMax) <= 1000.
Proof.
  intros H. unfold ScorePermilleMax. destruct (Z.ltb_spec slots 10); [|lia].
  rewrite mul64_exact by (unfold_int64; lia). lia.
Qed.

(** The Go type of the budget's cost: an [int64]. *)
Definition request_sized (r : RoutingRequest) : Prop := is_int64 (MaxCost (Route_Budget r)).

(** Locality, availability and the observations of a candidate. *)
Lemma boolPermille_bounds b : 0 <= boolPermille b <= 1000.
Proof. by destruct b. Qed.

Lemma RoutingScore_Validate_Ok s u :
  RoutingScore_Validate s = Ok u ↔ components_ok s ∧ 0 <= Score_Total s <= 1000.
Proof.
  destruct u. unfold RoutingScore_Validate, components_ok, score_values.
  rewrite each_Ok, !Forall_cons, !Forall_nil, !require_Ok, !negb_true_iff, !out_of_permille_false. tauto.
Qed.

(** An eligible candidate of a valid request is scored without a panic, every
    component and the total being thousandths. *)
Lemma scoreCandidate_eligible r c :
  request_sized r → RoutingRequest_Validate r = Ok tt → c ∈ Route_Candidates r → eligible r c →
  ∃ s, scoreCandidate r c = Some s ∧ RoutingScore_Validate s = Ok tt ∧
       Score_Total s = exact_total s (Route_Weights r) / 1000 ∧ 0 <= Score_Total s <= 1000.
Proof.
  intros Hsz Hr Hc He. destruct (RoutingRequest_Validate_times _ _ Hr) as (Ht & Hwin & Hw & Hmc & Hall & _).
  destruct (RoutingCandidate_Validate_bounds _ _ (Hall c Hc)) as (_ & _ & _ & Hs & Hcost & Hlat & Hq & Hca & Hl).
  pose proof (el_cost _ _ He) as Hcost2. destruct (el_deadline _ _ He) as [Hd1 Hd2].
  unfold scoreCandidate. change (maxTime (Route_ObservedAt r) (Cand_AvailableAt c))
    with (routingMaxTime (Route_ObservedAt r) (Cand_AvailableAt c)). rewrite routingMaxTime_max.
  set (start := Z.max (Route_ObservedAt r) (Cand_AvailableAt c)) in *. unfold request_sized in Hsz.
  assert (Route_ObservedAt r <= start) as Hst by lia.
  rewrite Time_Sub_exact in Hd2 by (unfold_int64; lia).
  rewrite !Time_Sub_exact by (unfold_int64; lia). rewrite add64_exact by (unfold_int64; lia).
  destruct (scalePermille_fraction (start - Route_ObservedAt r + Cand_ExpectedLatency c)
    (Route_Deadline r - Route_ObservedAt r)) as [El Hlb]; [lia | unfold_int64; lia|].
  rewrite El. assert (∃ cost, (if 0 <? MaxCost (Route_Budget r)
    then sub64 ScorePermilleMax <$> scalePermille (Cand_ExpectedCost c) (MaxCost (Route_Budget r))
    else Some ScorePermilleMax) = Some cost ∧ 0 <= cost <= 1000) as (cost & -> & Hcb).
  { destruct (Z.ltb_spec 0 (MaxCost (Route_Budget r))); [|by exists ScorePermilleMax].
    destruct (scalePermille_fraction (Cand_ExpectedCost c) (MaxCost (Route_Budget r))) as [-> Hb];
      [lia | unfold_int64; lia|]. cbn. eexists. split; [reflexivity|].
    unfold ScorePermilleMax. rewrite sub64_exact by (unfold_int64; lia). lia. }
  cbn [mbind option_bind fmap option_fmap option_map]. eexists. split; [reflexivity|].
  rewrite RoutingScore_Validate_Ok. cbn [Score_Total].
  match goal with |- context [ score_total ?x _ ] => assert (components_ok x) as Hok end.
  { unfold components_ok, ScorePermilleMax. cbn -[Z.mul Z.div]. pose proof (boolPermille_bounds (Cand_Zone c =s Route_SourceZone r)).
    pose proof (availability_bounds _ Hs) as Ha. unfold ScorePermilleMax in Ha.
    rewrite !sub64_exact by (unfold_int64; lia). rewrite !Forall_cons. split_and!; try done; lia. }
  destruct (score_total_exact _ _ Hok Hw) as [E Hb]. split_and!; try done; lia.
Qed.

(* ------------------------------------------------------------------ *)
(** ** Selection *)

(** The score of an eligible candidate. *)
Definition total_of (r : RoutingRequest) (c : RoutingCandidate) : Z :=
  match scoreCandidate r c with Some s => Score_Total s | None => -1 end.

(** [c] is at least as good a choice as [c']: a higher total, or the same
    total and an identifier that is not after the other. *)
Definition preferred (r : RoutingRequest) (c c' : RoutingCandidate) : Prop :=
  total_of r c' < total_of r c ∨ (total_of r c' = total_of r c ∧ string_lt (Cand_ID c') (Cand_ID c) = false).

Definition assessment_of `{Quoting} (r : RoutingRequest) (c : RoutingCandidate) : CandidateAssessment :=
  match candidateExclusion r c with
  | None => {| Assess_CandidateID := Cand_ID c; Assess_Zone := Cand_Zone c;
               Assess_Model := Descriptor_Ref (Cand_Model c); Assess_Eligible := true; Assess_Exclusion := None;
               Assess_Score := scoreCandidate r c |}
  | Some e => excluded_assessment c (Some e)
  end.

(** What the loop has computed after the candidates [cs]. *)
Definition selection_inv `{Quoting} (r : RoutingRequest) (cs : list RoutingCandidate) (s : Selection) : Prop :=
  sel_assessments s = assessment_of r <$> cs ∧
  ((sel_bestScore s = -1 ∧ sel_selected s = "" ∧ ∀ c, c ∈ cs → ¬ eligible r c) ∨
   (∃ c, c ∈ cs ∧ eligible r c ∧ sel_selected s = Cand_ID c ∧ sel_bestScore s = total_of r c ∧
      ∀ c', c' ∈ cs → eligible r c' → preferred r c c')).

Lemma preferred_trans r a b c : preferred r a b → preferred r b c → preferred r a c.
Proof.
  unfold preferred. intros [H1|[H1 L1]] [H2|[H2 L2]]; try (left; lia).
  right. split; [lia|]. apply not_true_is_false. intros L.
  destruct (string_lt (Cand_ID b) (Cand_ID c)) eqn:E.
  - rewrite (string_lt_trans _ _ _ E L) in L1. done.
  - destruct (String.eqb_spec (Cand_ID c) (Cand_ID b)) as [Eq|Ne]; [rewrite Eq in L; congruence|].
    destruct (string_lt_total (Cand_ID c) (Cand_ID b)) as [?|[?|?]]; congruence.
Qed.

Section selection.
Context `{Quoting} (r : RoutingRequest) (Hsized : request_sized r) (Hvalid : RoutingRequest_Validate r = Ok tt).

(** One eligible candidate keeps the invariant. *)
Lemma select_eligible_inv cs c score s :
  c ∈ Route_Candidates r → eligible r c → scoreCandidate r c = Some score → selection_inv r cs s →
  selection_inv r (cs ++ [c]) (select_eligible c score s).
Proof.
  intros Hc He Hs [Ha Hb].
  assert (total_of r c = Score_Total score) as Ht by (unfold total_of; by rewrite Hs).
  assert (0 <= Score_Total score) as Hpos.
  { destruct (scoreCandidate_eligible r c Hsized Hvalid Hc He) as (s' & E & _ & _ & Hb'). simplify_eq. lia. }
  assert (eligible_assessment c score = assessment_of r c) as Hass.
  { unfold assessment_of. by rewrite (proj2 (candidateExclusion_None _ _) He), Hs. }
  split.
  { rewrite fmap_app, <-Ha. cbn. rewrite <-Hass. unfold select_eligible. by case_match. }
  unfold select_eligible, better. right.
  destruct Hb as [(Hb1 & Hb2 & Hnone)|(b & Hb0 & Hbe & Hb1 & Hb2 & Hbest)].
  - rewrite Hb1. destruct (Z.ltb_spec (-1) (Score_Total score)); [|lia]. cbn [orb sel_bestScore sel_selected].
    exists c. split_and!; try done; [set_solver|].
    intros c' Hc' He'. apply elem_of_app in Hc' as [Hc'|Hc']; [by destruct (Hnone c')|].
    apply list_elem_of_singleton in Hc' as ->. right. by rewrite string_lt_irrefl.
  - rewrite Hb1, Hb2, <-Ht.
    destruct ((total_of r b <? total_of r c) || ((total_of r c =? total_of r b) && string_lt (Cand_ID c) (Cand_ID b))) eqn:E;
      cbn [sel_bestScore sel_selected].
    + exists c. assert (preferred r c b) as Hcb.
      { unfold preferred. apply orb_true_iff in E as [E%Z.ltb_lt|E]; [by left|].
        apply andb_true_iff in E as [E%Z.eqb_eq L]. right. split; [done|].
        apply not_true_is_false. intros L'. pose proof (string_lt_trans _ _ _ L L') as X. by rewrite string_lt_irrefl in X. }
      split_and!; try done; [set_solver|].
      intros c' Hc' He'. apply elem_of_app in Hc' as [Hc'|Hc']; [eapply preferred_trans; [done | by apply Hbest]|].
      apply list_elem_of_singleton in Hc' as ->. right. by rewrite string_lt_irrefl.
    + exists b. split_and!; try done; [set_solver|].
      intros c' Hc' He'. apply elem_of_app in Hc' as [Hc'|Hc']; [by apply Hbest|].
      apply list_elem_of_singleton in Hc' as ->. apply orb_false_iff in E as [E1%Z.ltb_ge E2].
      unfold preferred. destruct (Z.eq_dec (total_of r c) (total_of r b)) as [Eq|]; [|left; lia].
      right. split; [done|]. by rewrite Eq, Z.eqb_refl in E2.
Qed.

Lemma select_excluded_inv cs c s :
  ¬ eligible r c → selection_inv r cs s →
  selection_inv r (cs ++ [c])
    {| s with sel_assessments := sel_assessments s ++ [excluded_assessment c (candidateExclusion r c)] |}.
Proof.
  intros Hn [Ha Hb]. rewrite <-candidateExclusion_None in Hn. split; cbn [sel_assessments sel_bestScore sel_selected].
  { rewrite fmap_app, <-Ha. cbn. unfold assessment_of. by destruct (candidateExclusion r c). }
  rewrite candidateExclusion_None in Hn.
  destruct Hb as [(Hb1 & Hb2 & Hnone)|(b & Hb0 & Hbe & Hb1 & Hb2 & Hbest)]; [left | right; exists b].
  - split_and!; try done. intros c' [Hc'|Hc']%elem_of_app; [by apply Hnone|]. by apply list_elem_of_singleton in Hc' as ->.
  - split_and!; try done; [set_solver|]. intros c' [Hc'|Hc']%elem_of_app He'; [by apply Hbest|].
    by apply list_elem_of_singleton in Hc' as ->.
Qed.

(** The eligibilities the gates compute for the candidates. *)
Definition eligibility_of (c : RoutingCandidate) : CandidateEligibility :=
  {| Elig_CandidateID := Cand_ID c; Elig_Zone := Cand_Zone c; Elig_Model := Descriptor_Ref (Cand_Model c);
     Elig_Exclusion := candidateExclusion r c |}.

Lemma eligibility_loop_live ctx i cs :
  (∀ n, ctx n = None) → eligibility_loop ctx r i cs = Ok (eligibility_of <$> cs).
Proof.
  intros Hctx. revert i. induction cs as [|c cs IH]; intros i; [done|]. cbn [eligibility_loop].
  rewrite Hctx, IH. done.
Qed.

Lemma select_loop_live ctx i done_ cs s :
  (∀ n, ctx n = None) → (∀ c, c ∈ cs → c ∈ Route_Candidates r) → selection_inv r done_ s →
  ∃ s', select_loop ctx r i (combine cs (eligibility_of <$> cs)) s = Some (Ok s') ∧ selection_inv r (done_ ++ cs) s'.
Proof.
  intros Hctx. revert i done_ s. induction cs as [|c cs IH]; intros i done_ s Hin Hs.
  { exists s. by rewrite app_nil_r. }
  cbn [fmap list_fmap combine select_loop]. rewrite Hctx. unfold CandidateEligibility_Eligible.
  cbn [eligibility_of Elig_Exclusion]. replace (done_ ++ c :: cs) with ((done_ ++ [c]) ++ cs) by (by rewrite <-app_assoc).
  destruct (candidateExclusion r c) as [e|] eqn:Ee; cbn [is_some negb].
  - apply IH; [set_solver|]. rewrite <-Ee. apply select_excluded_inv; [|done].
    rewrite <-candidateExclusion_None. congruence.
  - apply candidateExclusion_None in Ee.
    destruct (scoreCandidate_eligible r c Hsized Hvalid) as (score & E & _); [set_solver|done|].
    rewrite E. apply IH; [set_solver|]. apply select_eligible_inv; try done. set_solver.
Qed.

Lemma Route_live ctx :
  (∀ n, ctx n = None) →
  ∃ s, Route ctx r = Some (decision_of r (sel_assessments s) (sel_selected s),
         if ID_IsZero (sel_selected s) then Some ErrNoEligibleCandidates else None) ∧
       selection_inv r (Route_Candidates r) s.
Proof.
  intros Hctx. unfold Route, EvaluateRoutingEligibility, ctx_after. rewrite !Hctx, Hvalid. cbn [check_ctx mbind result_bind].
  rewrite eligibility_loop_live by done.
  destruct (select_loop_live ctx (2 + length (Route_Candidates r)) [] (Route_Candidates r)
    {| sel_assessments := []; sel_bestScore := -1; sel_selected := "" |}) as (s & -> & Hs); [done..| |].
  { split; [done|]. left. split_and!; [done..|]. set_solver. }
  exists s. split; [|done]. by destruct (ID_IsZero (sel_selected s)).
Qed.

(** Identifiers of candidates are not empty. *)
Lemma candidate_id_nonempty c : c ∈ Route_Candidates r → Cand_ID c ≠ "".
Proof.
  intros Hc. destruct (RoutingRequest_Validate_times _ _ Hvalid) as (_ & _ & _ & _ & Hall & _).
  by apply ID_Validate_nonempty, (RoutingCandidate_Validate_bounds _ _ (Hall c Hc)).
Qed.

(** The assessments the loop records are accepted. *)
Lemma assessment_of_valid c : c ∈ Route_Candidates r → validate_assessment r (assessment_of r c) c = Ok tt.
Proof.
  intros Hc. destruct (RoutingRequest_Validate_times _ _ Hvalid) as (_ & _ & _ & _ & Hall & _).
  destruct (RoutingCandidate_Validate_bounds _ _ (Hall c Hc)) as (Hid & Hz & Hm & _).
  unfold validate_assessment, assessment_of.
  assert (ModelRef_eqb (Descriptor_Ref (Cand_Model c)) (Descriptor_Ref (Cand_Model c)) = true) as Hm2 by (by apply ModelRef_eqb_true).
  destruct (candidateExclusion r c) as [e|] eqn:Ee; cbn -[RoutingScore_Validate]; rewrite !seqb_refl, Hm2; cbn -[RoutingScore_Validate];
    unfold CandidateAssessment_Validate; cbn -[RoutingScore_Validate]; rewrite Hid, Hz, Hm; cbn -[RoutingScore_Validate].
  - rewrite (candidateExclusion_valid _ _ _ Ee). cbn. by rewrite bool_decide_eq_true_2.
  - apply candidateExclusion_None in Ee.
    destruct (scoreCandidate_eligible r c Hsized Hvalid Hc Ee) as (s & -> & -> & _). done.
Qed.

Lemma no_eligible_assessments cs :
  (∀ c, c ∈ cs → ¬ eligible r c) → List.filter Assess_Eligible (assessment_of r <$> cs) = [].
Proof.
  induction cs as [|c cs IH]; intros Hnone; [done|]. cbn.
  assert (Assess_Eligible (assessment_of r c) = false) as ->.
  { unfold assessment_of. destruct (candidateExclusion r c) eqn:E; [done|].
    apply candidateExclusion_None in E. by destruct (Hnone c (list_elem_of_here _ _)). }
  apply IH. intros c' Hc'. apply Hnone. by right.
Qed.

(** The decision of the router passes [RoutingDecision.Validate]. *)
Lemma decision_of_valid s :
  selection_inv r (Route_Candidates r) s →
  RoutingDecision_Validate (decision_of r (sel_assessments s) (sel_selected s)) r = Ok tt.
Proof.
  intros [Ha Hb]. unfold RoutingDecision_Validate.
  rewrite !seq_Ok, wrapf_Ok, !require_Ok. unfold decision_of.
  cbn [Decision_Router Decision_RouterVersion Decision_WorkloadID Decision_StepID Decision_AttemptID
    Decision_ManifestSHA256 Decision_SourceZone Decision_Autonomous Decision_EgressPurpose Decision_DerivedFromSHA
    Decision_ObservedAt Decision_Deadline Decision_Weights Decision_Assessments Decision_SelectedCandidateID].
  unfold Time_Equal. rewrite !seqb_refl, !Z.eqb_refl, eqb_reflx, Ha, length_fmap, Z.eqb_refl, bool_decide_eq_true.
  do 7 (split; [done|]). split.
  { apply validate_assessments_Ok; [by rewrite length_fmap|].
    apply Forall2_fmap_l, Forall_Forall2_diag, Forall_forall. intros c Hc. by apply assessment_of_valid. }
  unfold ID_IsZero.
  destruct Hb as [(_ & -> & Hnone)|(b & Hin & Hbe & -> & _ & _)].
  - by rewrite no_eligible_assessments.
  - rewrite (proj2 (String.eqb_neq _ _) (candidate_id_nonempty b Hin)).
    destruct (RoutingRequest_Validate_times _ _ Hvalid) as (_ & _ & _ & _ & Hall & _).
    destruct (RoutingCandidate_Validate_bounds _ _ (Hall b Hin)) as (Hid & _). rewrite Hid. cbn -[existsb].
    apply require_Ok, existsb_exists. exists (assessment_of r b). split; [by apply list_elem_of_In, list_elem_of_fmap_2|].
    unfold assessment_of. rewrite (proj2 (candidateExclusion_None _ _) Hbe). cbn. apply seqb_refl.
Qed.

End selection.

(* ------------------------------------------------------------------ *)
(** ** Properties *)

(** C30. On every valid request the router returns, without a panic, a decision that
    assesses each candidate by the gates and, when some candidate is eligible,
    selects an eligible one with the highest total, the smallest identifier
    among those; otherwise it selects none and reports that. *)
Theorem Route_selects_best `{Quoting} ctx r :
  request_sized r → RoutingRequest_Validate r = Ok tt → (∀ n, ctx n = None) →
  ∃ d err, Route ctx r = Some (d, err) ∧
    Decision_Assessments d = assessment_of r <$> Route_Candidates r ∧
    (err = None →
       ∃ c, c ∈ Route_Candidates r ∧ eligible r c ∧ Decision_SelectedCandidateID d = Cand_ID c ∧
         ∀ c', c' ∈ Route_Candidates r → eligible r c' → preferred r c c') ∧
    (err ≠ None → err = Some ErrNoEligibleCandidates ∧ Decision_SelectedCandidateID d = "" ∧
       ∀ c, c ∈ Route_Candidates r → ¬ eligible r c).
Proof.
  intros Hs Hv Hctx. destruct (Route_live r Hs Hv ctx Hctx) as (s & -> & Ha & Hb).
  eexists _, _. split; [reflexivity|]. split; [exact Ha|]. unfold ID_IsZero.
  destruct Hb as [(_ & Hsel & Hnone)|(b & Hin & Hbe & Hsel & _ & Hbest)]; cbn [decision_of Decision_SelectedCandidateID];
    rewrite Hsel.
  - rewrite seqb_refl. split; [done|]. intros _. done.
  - rewrite (proj2 (String.eqb_neq _ _) (candidate_id_nonempty r Hv b Hin)). split; [|done]. intros _. by exists b.
Qed.

(** The router's answer always passes [EvaluateRouter]: with a live context it
    is returned as it is, selection or no-route. *)
Theorem Route_accepted `{Quoting} ctx rctx r :
  request_sized r → RoutingRequest_Validate r = Ok tt → (∀ n, ctx n = None) → (∀ n, rctx n = None) →
  EvaluateRouter ctx (Some (Route rctx)) r = Route rctx r ∧ EvaluateRouter ctx (Some (Route rctx)) r ≠ None.
Proof.
  intros Hs Hv Hctx Hrctx. destruct (Route_live r Hs Hv rctx Hrctx) as (s & E & Hinv).
  pose proof (decision_of_valid r Hs Hv s Hinv) as Hd. split; [|unfold EvaluateRouter; rewrite !Hctx, Hv, E;
    repeat case_match; congruence].
  rewrite E. unfold EvaluateRouter. rewrite !Hctx, Hv, E, Hd. cbn [decision_of Decision_SelectedCandidateID].
  destruct (ID_IsZero (sel_selected s)); reflexivity.
Qed.

(** Scores are exact: an eligible candidate is scored without overflow or
    panic, all components and the total are between 0 and 1000, and the total
    is the weighted mean of the components, rounded down. *)
Theorem score_exact r c :
  request_sized r → RoutingRequest_Validate r = Ok tt → c ∈ Route_Candidates r → eligible r c →
  ∃ s, scoreCandidate r c = Some s ∧ RoutingScore_Validate s = Ok tt ∧
    1000 * Score_Total s <= exact_total s (Route_Weights r) < 1000 * Score_Total s + 1000 ∧
    0 <= Score_Total s <= 1000.
Proof.
  intros Hs Hv Hc He. destruct (scoreCandidate_eligible r c Hs Hv Hc He) as (s & E & Hok & Ht & Hb).
  exists s. split_and!; try done; pose proof (Z.div_mod (exact_total s (Route_Weights r)) 1000);
    pose proof (Z.mod_pos_bound (exact_total s (Route_Weights r)) 1000); lia.
Qed.

(* ------------------------------------------------------------------ *)
(** ** A concrete request *)

Definition example_quoting : Quoting := fun s => dquote +:+ s +:+ dquote.

Definition example_uuid2 : ID := "018bcfe5-687b-7bab-abab-abababababac".

Definition example_candidate (cid : ID) (slots : Z) (digest : string) : RoutingCandidate :=
  {| Cand_ID := cid; Cand_Zone := ZonePersonal;
     Cand_Model := {| Descriptor_Ref := {| ModelRef_Provider := "p"; ModelRef_Model := "m" |};
       Descriptor_Capabilities :=
         {| Cap_ContextTokens := 8000; Cap_MaxOutputTokens := 1000; Cap_Modalities := ["text"];
            Cap_ToolUse := ToolUseNative; Cap_ParallelToolCalls := false; Cap_StrictToolSchemas := false;
            Cap_DynamicTools := false; Cap_MultimodalToolResults := false; Cap_Streaming := true;
            Cap_StructuredOutput := true; Cap_PromptCaching := false; Cap_AutomaticCompaction := false;
            Cap_ReasoningSummaries := false |};
       Descriptor_Labels := None |};
     Cand_Authenticated := true; Cand_Compatible := true; Cand_Healthy := true; Cand_Draining := false;
     Cand_ExecutionVerdict := allow_verdict digest
       {| Scope_Kind := PolicyScopeExecution; Scope_WorkloadID := example_uuid; Scope_StepID := example_uuid;
          Scope_AttemptID := example_uuid; Scope_StepKind := StepModelTurn; Scope_Autonomous := false;
          Scope_Target := Some {| Target_Sandbox := zero_SandboxCapability; Target_Kind := ExecutionTargetModel;
            Target_Zone := ZonePersonal; Target_Model := Some {| ModelRef_Provider := "p"; ModelRef_Model := "m" |};
            Target_ToolName := "" |};
          Scope_Source := ""; Scope_Destination := ""; Scope_Purpose := ""; Scope_DerivedFromSHA := "" |};
     Cand_EgressVerdict := None; Cand_AvailableTools := []; Cand_AvailableSlots := slots; Cand_AvailableAt := 1000;
     Cand_ExpectedCost := 10; Cand_ExpectedLatency := 500; Cand_QualityPermille := 700;
     Cand_CacheAffinityPermille := 0; Cand_LoadPermille := 100 |}.

Definition example_digest : string := "ba7816bf8f01cfea414140de5dae2223b00361a396177a9cb410ff61f20015ad".

Definition example_route_request : RoutingRequest :=
  {| Route_WorkloadID := example_uuid; Route_StepID := example_uuid; Route_AttemptID := example_uuid;
     Route_ManifestSHA256 := example_digest; Route_SourceZone := ZonePersonal; Route_Autonomous := false;
     Route_EgressPurpose := ""; Route_DerivedFromSHA := ""; Route_Requirements := zero_Requirements;
     Route_Budget := {| zero_Budget with MaxOutputTokens := 100; MaxCost := 100 |};
     Route_ObservedAt := 1000; Route_Deadline := 2000; Route_Weights := DefaultRoutingWeights;
     Route_Candidates := [example_candidate example_uuid 2 example_digest; example_candidate example_uuid2 5 example_digest] |}.

Lemma example_request_ok : request_sized example_route_request ∧ RoutingRequest_Validate example_route_request = Ok tt.
Proof. split; [split; vm_compute; discriminate | vm_compute; reflexivity]. Qed.

Example Route_selects_best_witness :
  ∃ d err, Route (H:=example_quoting) background example_route_request = Some (d, err) ∧
    Decision_SelectedCandidateID d = example_uuid2 ∧
    (err = None → ∃ c, c ∈ Route_Candidates example_route_request ∧ eligible example_route_request c ∧
       Decision_SelectedCandidateID d = Cand_ID c ∧
       ∀ c', c' ∈ Route_Candidates example_route_request → eligible example_route_request c' →
             preferred example_route_request c c').
Proof.
  destruct (Route_selects_best (H:=example_quoting) background example_route_request
    (proj1 example_request_ok) (proj2 example_request_ok) (fun _ => eq_refl)) as (d & err & E & _ & Hbest & _).
  exists d, err. split; [exact E|]. split; [|exact Hbest].
  assert (option_map (fun p => Decision_SelectedCandidateID p.1)
    (Route (H:=example_quoting) background example_route_request) = Some example_uuid2) as Hsel by (vm_compute; reflexivity).
  rewrite E in Hsel. cbn in Hsel. congruence.
Defined.

Example Route_accepted_witness :
  EvaluateRouter (H:=example_quoting) background (Some (Route (H:=example_quoting) background)) example_route_request
  = Route (H:=example_quoting) background example_route_request.
Proof.
  refine (proj1 (Route_accepted (H:=example_quoting) background background example_route_request
    (proj1 example_request_ok) (proj2 example_request_ok) _ _)); done.
Defined.

Example score_exact_witness :
  ∃ s, scoreCandidate example_route_request (example_candidate example_uuid 2 example_digest) = Some s ∧
    RoutingScore_Validate s = Ok tt ∧
    1000 * Score_Total s <= exact_total s (Route_Weights example_route_request) < 1000 * Score_Total s + 1000 ∧
    0 <= Score_Total s <= 1000.
Proof.
  apply (score_exact example_route_request (example_candidate example_uuid 2 example_digest)
    (proj1 example_request_ok) (proj2 example_request_ok)).
  - left.
  - apply (candidateExclusion_None (H:=example_quoting)). vm_compute. reflexivity.
Defined.

Example EvaluateRouter_sound_witness :
  ∃ d, EvaluateRouter (H:=example_quoting) background (Some (Route (H:=example_quoting) background)) example_route_request
    = Some (d, None) ∧
  ∃ c, c ∈ Route_Candidates example_route_request ∧ Cand_ID c = Decision_SelectedCandidateID d ∧
    eligible example_route_request c.
Proof.
  assert (∃ d, EvaluateRouter (H:=example_quoting) background (Some (Route (H:=example_quoting) background))
    example_route_request = Some (d, None)) as [d E].
  { assert (option_map snd (EvaluateRouter (H:=example_quoting) background
      (Some (Route (H:=example_quoting) background)) example_route_request) = Some None) as Hs by (vm_compute; reflexivity).
    destruct (EvaluateRouter (H:=example_quoting) background _ _) as [[d err]|]; [|done].
    cbn in Hs. injection Hs as ->. by exists d. }
  exists d. split; [exact E|].
  exact (proj2 (proj2 (proj1 (EvaluateRouter_sound (H:=example_quoting) background _ example_route_request d None E) eq_refl))).
Defined.
