(* ===== verification/LoopTypes.v ===== *)
(** * The turn loop's contract: src/loop.go

    Loop events, results, checkpoints and requests with their validation, the
    clone functions and the normalisation of tool errors.  Collaborators held
    in a request are values of parameter types, [None] being a nil interface. *)

From Stdlib Require Import ZArith Lia.
From S2P Require Import Prelude GoNum GoText GoJson Ident Domain Model.

(* ------------------------------------------------------------------ *)
(** ** Clones *)

Definition CloneContentParts (parts : list ContentPart) : list ContentPart :=
  (fun part => {| part with Part_Extension := cloneStringMap (Part_Extension part) |}) <$> parts.

Definition CloneMessages (messages : list Message) : list Message :=
  (fun message => {| Message_Role := Message_Role message;
                     Message_Content := CloneContentParts (Message_Content message) |}) <$> messages.

(** [for key, value := range source { target[key] = value }] *)
Definition copy_entries {V} (source target : gmap string V) : gmap string V :=
  foldr (fun entry acc => <[entry.1 := entry.2]> acc) target (map_to_list source).

(** [CloneModelRequest].  As written, [request.Extension] is first replaced by
    an empty map and the loop then ranges over [request.Extension], the new
    map: both source and target of the copy are the empty map. *)
Definition CloneModelRequest (request : ModelRequest) : ModelRequest :=
  {| request with
     Request_Messages := CloneMessages (Request_Messages request);
     Request_Metadata := cloneStringMap (Request_Metadata request);
     Request_Extension :=
       match Request_Extension request with
       | None => None
       | Some _ => let fresh : gmap string bytes := ∅ in Some (copy_entries fresh fresh)
       end |}.

(* ------------------------------------------------------------------ *)
(** ** Tool outputs and errors *)

Record ToolOutput : Type := {
  ToolOutput_JSON : bytes;
  ToolOutput_Content : list ContentPart;
  ToolOutput_Classification : Classification;
  ToolOutput_IsError : bool;
}.

#[global] Instance ToolOutput_eq_dec : EqDecision ToolOutput.
Proof. solve_decision. Defined.

Definition ToolOutput_Validate (o : ToolOutput) : result unit :=
  Classification_Validate (ToolOutput_Classification o) ;;
  require (negb ((Z.of_nat (String.length (ToolOutput_JSON o)) =? 0) && (Z.of_nat (length (ToolOutput_Content o)) =? 0)))
    "tool output requires JSON or content" ;;
  require (negb (bad_optional_json (ToolOutput_JSON o))) "tool output JSON is invalid" ;;
  each (fun part =>
    wrapf "tool output content" (ContentPart_Validate part) ;;
    one_of [ContentText; ContentImage; ContentDocument; ContentArtifact] (Part_Type part)
      "tool output content has unsupported type") (ToolOutput_Content o).

(** [ToolOutput.Clone] *)
Definition ToolOutput_Clone (o : ToolOutput) : ToolOutput :=
  {| o with ToolOutput_Content := CloneContentParts (ToolOutput_Content o) |}.

Record ToolFailure : Type := {
  Failure_CallID : string;
  Failure_ToolName : string;
  Failure_Code : string;
  Failure_Message : string;
  Failure_Cause : option error;
}.

(** [&ToolError{...}], the program's [PublicToolError]. *)
Definition ToolError (code message : string) (cause : option error) : error :=
  Struct "ToolError" [code; message] [] cause.

(** [errors.As(err, &publicError)]: the first public error of the tree, depth first. *)
Fixpoint errors_As_PublicToolError (e : error) : option (string * string) :=
  let first := fix first (l : list error) : option (string * string) :=
    match l with
    | [] => None
    | c :: l' => match errors_As_PublicToolError c with Some x => Some x | None => first l' end
    end in
  match e with
  | Sentinel _ => None
  | Errorf _ causes => first causes
  | Joined causes => first causes
  | Struct type texts _ cause =>
      match type =s "ToolError", texts with
      | true, [code; message] => Some (code, message)
      | _, _ => match cause with Some c => errors_As_PublicToolError c | None => None end
      end
  end.

(** [NormalizeToolError]: the public code and message, or the generic ones. *)
Definition NormalizeToolError (err : option error) : string * string :=
  match err with
  | None => ("", "")
  | Some e =>
      let generic := ("tool_execution_failed", "tool execution failed") in
      match errors_As_PublicToolError e with
      | None => generic
      | Some (c, m) =>
          let code := strings_TrimSpace c in
          let message := strings_TrimSpace m in
          if (code ≠s "") && (message ≠s "") then (code, message) else generic
      end
  end.

#[global] Arguments NormalizeToolError : simpl never.

(* ------------------------------------------------------------------ *)
(** ** Results and events *)

Record LoopResult : Type := {
  LoopResult_Messages : list Message;
  LoopResult_Usage : Usage;
  LoopResult_Stop : string;
  LoopResult_ModelCalls : Z;
  LoopResult_ToolCalls : Z;
  LoopResult_Failures : list ToolFailure;
  LoopResult_BudgetExceeded : string;
}.

Definition LoopResult_Clone (r : LoopResult) : LoopResult :=
  {| r with LoopResult_Messages := CloneMessages (LoopResult_Messages r) |}.

Record LoopCheckpoint : Type := {
  Checkpoint_Sequence : Z;
  Checkpoint_Result : LoopResult;
}.

Definition LoopEventTurnStarted : string := "turn_started".
Definition LoopEventModel : string := "model_event".
Definition LoopEventMessageAppended : string := "message_appended".
Definition LoopEventToolStarted : string := "tool_started".
Definition LoopEventToolCompleted : string := "tool_completed".
Definition LoopEventStopped : string := "loop_stopped".
Definition LoopEventCheckpoint : string := "checkpoint".

Record LoopEvent : Type := {
  LoopEvent_Checkpoint : option LoopResult;
  LoopEvent_Sequence : Z;
  LoopEvent_Type : string;
  LoopEvent_Turn : Z;
  LoopEvent_Model : ModelRef;
  LoopEvent_ModelEvent : option ModelEvent;
  LoopEvent_Message : option Message;
  LoopEvent_ToolCall : option ToolCall;
  LoopEvent_ToolOutput : option ToolOutput;
  LoopEvent_FailureCode : string;
  LoopEvent_Stop : string;
}.

Definition LoopEvent_Clone (e : LoopEvent) : LoopEvent :=
  {| e with
     LoopEvent_Checkpoint := LoopResult_Clone <$> LoopEvent_Checkpoint e;
     LoopEvent_ModelEvent := ModelEvent_Clone <$> LoopEvent_ModelEvent e;
     LoopEvent_Message :=
       (fun m => {| Message_Role := Message_Role m; Message_Content := CloneContentParts (Message_Content m) |})
         <$> LoopEvent_Message e;
     LoopEvent_ToolOutput := ToolOutput_Clone <$> LoopEvent_ToolOutput e |}.

(* ------------------------------------------------------------------ *)
(** ** Requests *)

(** The errors of the loop. *)
Definition ErrLoopBudgetExceeded : error := Sentinel "loop budget exceeded".
Definition ErrLoopStream : error := Sentinel "invalid loop model stream".
Definition ErrLoopToolInput : error := Sentinel "invalid tool input".
Definition ErrLoopToolOutput : error := Sentinel "invalid tool output".
Definition ErrLoopPanic : error := Sentinel "loop collaborator panicked".
Definition ErrLoopCleanup : error := Sentinel "loop cleanup failed".

(** What a selector is given, and what a tool or middleware is called with. *)
Record TurnContext : Type := {
  Turn_WorkloadID : ID;
  Turn_StepID : ID;
  Turn_AttemptID : ID;
  Turn_Turn : Z;
  Turn_Messages : list Message;
  Turn_Usage : Usage;
}.

Record ToolInvocation : Type := {
  Invocation_WorkloadID : ID;
  Invocation_StepID : ID;
  Invocation_AttemptID : ID;
  Invocation_Turn : Z;
  Invocation_Call : ToolCall;
}.

Section requests.
Context {Handler Middleware Selector Sink : Type}.

Record ToolBinding : Type := {
  Binding_Definition : ToolDefinition;
  Binding_Handler : option Handler;
  Binding_ParallelSafe : bool;
}.

Record LoopRequest : Type := {
  Loop_Continuation : option LoopCheckpoint;
  Loop_WorkloadID : ID;
  Loop_StepID : ID;
  Loop_AttemptID : ID;
  Loop_Initial : ModelRequest;
  Loop_Tools : list ToolBinding;
  Loop_Middleware : list (option Middleware);
  Loop_Selector : option Selector;
  Loop_Sink : option Sink;
  Loop_Budget : Budget;
  Loop_ParallelTools : bool;
  Loop_ModelOutputClassification : Classification;
  Loop_ToolErrorClassification : Classification;
}.

(** The checkpoint of a continuation, against the budget. *)
Definition continuation_check (b : Budget) (c : LoopCheckpoint) : result unit :=
  let r := Checkpoint_Result c in
  require (negb ((Checkpoint_Sequence c <? 1) || (LoopResult_ModelCalls r <? 1) ||
                 (MaxModelCalls b <? LoopResult_ModelCalls r) || (LoopResult_ToolCalls r <? 0) ||
                 (MaxToolCalls b <? LoopResult_ToolCalls r) || (LoopResult_Stop r ≠s StopToolUse)))
    "invalid continuation checkpoint" ;;
  Usage_Validate (LoopResult_Usage r) ;;
  each Message_Validate (LoopResult_Messages r).

Definition LoopRequest_Validate (r : LoopRequest) : result unit :=
  match Loop_Continuation r with Some c => continuation_check (Loop_Budget r) c | None => Ok tt end ;;
  each (fun field => wrapf field.1 (ID_Validate field.2))
    [("workload ID", Loop_WorkloadID r); ("step ID", Loop_StepID r); ("attempt ID", Loop_AttemptID r)] ;;
  require (is_some (Loop_Selector r)) "loop turn selector is required" ;;
  Budget_Validate (Loop_Budget r) ;;
  require (negb (MaxModelCalls (Loop_Budget r) <=? 0)) "loop model-call budget must be positive" ;;
  require (negb (MaxWallTime (Loop_Budget r) <=? 0)) "loop wall-time budget must be positive" ;;
  wrapf "model output classification" (Classification_Validate (Loop_ModelOutputClassification r)) ;;
  wrapf "tool error classification" (Classification_Validate (Loop_ToolErrorClassification r)) ;;
  each_fresh (fun binding => Tool_Name (Binding_Definition binding))
    (fun binding =>
       require (is_some (Binding_Handler binding)) "loop tool handler is nil" ;;
       wrapf "loop tool" (ToolDefinition_Validate (Binding_Definition binding)))
    "loop tool duplicates name" ∅ (Loop_Tools r) ;;
  each (fun middleware => require (is_some middleware) "loop result middleware is nil") (Loop_Middleware r) ;;
  (let initial := CloneModelRequest (Loop_Initial r) in
   wrapf "initial model request"
     (ModelRequest_Validate {| initial with Request_Tools := Binding_Definition <$> Loop_Tools r |})).

(** [LoopRequest.Clone] *)
Definition LoopRequest_Clone (r : LoopRequest) : LoopRequest :=
  {| r with
     Loop_Continuation := (fun c => {| c with Checkpoint_Result := LoopResult_Clone (Checkpoint_Result c) |})
                            <$> Loop_Continuation r;
     Loop_Initial := CloneModelRequest (Loop_Initial r) |}.

End requests.
Arguments ToolBinding : clear implicits.
Arguments LoopRequest : clear implicits.

(* ------------------------------------------------------------------ *)
(** ** Lemmas *)

Lemma CloneContentParts_id parts : CloneContentParts parts = parts.
Proof.
  unfold CloneContentParts. induction parts as [|p parts IH]; [done|]. rewrite fmap_cons, IH. f_equal.
  rewrite cloneStringMap_id. by destruct p.
Qed.

Lemma CloneMessages_id messages : CloneMessages messages = messages.
Proof.
  unfold CloneMessages. induction messages as [|m messages IH]; [done|]. rewrite fmap_cons, IH. f_equal.
  rewrite CloneContentParts_id. by destruct m.
Qed.

Lemma Validate_Clone r : ModelRequest_Validate (CloneModelRequest r) = ModelRequest_Validate r.
Proof. unfold CloneModelRequest. by rewrite CloneMessages_id. Qed.

Lemma LoopResult_Clone_id r : LoopResult_Clone r = r.
Proof. unfold LoopResult_Clone. rewrite CloneMessages_id. by destruct r. Qed.

Lemma ToolOutput_Clone_id o : ToolOutput_Clone o = o.
Proof. unfold ToolOutput_Clone. rewrite CloneContentParts_id. by destruct o. Qed.

Lemma LoopEvent_Clone_id e : LoopEvent_Clone e = e.
Proof.
  unfold LoopEvent_Clone. destruct e as [c s t n m me msg tc tout f st]. cbn. f_equal.
  - destruct c; cbn; [by rewrite LoopResult_Clone_id | done].
  - destruct me; cbn; [by rewrite ModelEvent_Clone_id | done].
  - destruct msg as [[]|]; cbn; [by rewrite CloneContentParts_id | done].
  - destruct tout; cbn; [by rewrite ToolOutput_Clone_id | done].
Qed.

Lemma ModelRequest_Validate_extension r x :
  ModelRequest_Validate {| r with Request_Extension := x |} = ModelRequest_Validate r.
Proof. done. Qed.

(* ------------------------------------------------------------------ *)
(** ** Properties *)

(** [CloneModelRequest] keeps everything of a request but its provider
    extension, which it always empties: a request with extension entries is not
    equal to its clone, and cloning again changes nothing more. *)
Theorem CloneModelRequest_drops_extension request :
  CloneModelRequest request =
    {| request with Request_Extension := match Request_Extension request with Some _ => Some ∅ | None => None end |} ∧
  ModelRequest_Validate (CloneModelRequest request) = ModelRequest_Validate request ∧
  CloneModelRequest (CloneModelRequest request) = CloneModelRequest request ∧
  (∀ m, Request_Extension request = Some m → m ≠ ∅ → CloneModelRequest request ≠ request).
Proof.
  assert (∀ r, CloneModelRequest r =
    {| r with Request_Extension := match Request_Extension r with Some _ => Some ∅ | None => None end |}) as Hc.
  { intros r. unfold CloneModelRequest. rewrite CloneMessages_id, cloneStringMap_id. destruct r as [? ? ? ? ? ? ? ? []]; done. }
  split_and!; [apply Hc | by rewrite Hc | rewrite !Hc; by destruct request as [? ? ? ? ? ? ? ? []] |].
  intros m Hm Hne Heq. rewrite Hc in Heq. apply (f_equal Request_Extension) in Heq. cbn in Heq.
  rewrite Hm in Heq. congruence.
Qed.

Definition example_model_request (x : option (gmap string bytes)) : ModelRequest :=
  {| Request_AutomaticCompaction := false; Request_Model := {| ModelRef_Provider := "p"; ModelRef_Model := "m" |};
     Request_Messages := [{| Message_Role := RoleUser; Message_Content :=
       [{| Part_Type := ContentText; Part_Classification := ClassPublic; Part_Text := "hi"; Part_MediaType := "";
           Part_ArtifactID := ""; Part_ToolCallID := ""; Part_ToolName := ""; Part_JSON := ""; Part_IsError := false;
           Part_Extension := None |}] |}];
     Request_Tools := []; Request_ToolChoice := {| ToolChoice_Mode := ToolChoiceAuto; ToolChoice_Name := "" |};
     Request_Output := None; Request_MaxOutputTokens := 10; Request_Metadata := None; Request_Extension := x |}.

Example CloneModelRequest_drops_extension_witness :
  CloneModelRequest (example_model_request (Some {[ "k" := "1" ]})) ≠ example_model_request (Some {[ "k" := "1" ]}).
Proof.
  refine (proj2 (proj2 (proj2 (CloneModelRequest_drops_extension (example_model_request (Some {[ "k" := "1" ]})))))
    {[ "k" := "1" ]} eq_refl _).
  intros H. apply (f_equal (fun m : gmap string bytes => m !! "k")) in H. vm_compute in H. discriminate H.
Defined.
