(* ===== verification/Conformance.v ===== *)
(** * The conformance suites (src/providertest and src/observertest)

    What the suites check of a provider and of an observer, as functions of a
    fixture that say how each subtest ends, and what passing them means.  The
    testing package only runs the subtests and reports their failures.

    reflect.DeepEqual is equality of the model's values: it tells the nil slices
    and maps apart that the records have as options; inside a request, an event or
    a descriptor a slice is a list, so that a fixture with an empty slice where the
    clone has nil is outside this model. *)

From Stdlib Require Import ZArith Lia.
From S2P Require Import Prelude GoNum GoText GoHash Ident Domain Model Stream Policy Telemetry LoopTypes.

(* ------------------------------------------------------------------ *)
(** ** Providers *)

(** A provider under test: it is handed the request of the caller, whose maps and
    slices it shares, and leaves it changed or not. *)
Record SuiteProvider : Type := {
  Suite_Provider : Provider;
  Suite_Stream : ModelRequest → ModelRequest * result (option ModelStream);
}.

(** The expected slices may be nil. *)
Record Fixture : Type := {
  Fixture_Provider : option SuiteProvider;
  Fixture_Request : ModelRequest;
  Fixture_WantName : string;
  Fixture_WantModels : option (list ModelDescriptor);
  Fixture_WantEvents : option (list ModelEvent);
  (** What the count of closed streams is after the test; the function may be nil. *)
  Fixture_StreamCloseCount : option Z;
}.

Definition requireFixture (fixture : Fixture) : result SuiteProvider :=
  match Fixture_Provider fixture with
  | None => Err (errors_New "provider conformance fixture has nil provider")
  | Some provider =>
      require (Fixture_WantName fixture ≠s "") "provider conformance fixture has empty expected name" ;;
      wrapf "provider conformance request" (ModelRequest_Validate (Fixture_Request fixture)) ;;
      require (is_some (Fixture_StreamCloseCount fixture)) "provider conformance fixture has no stream close observer" ;;
      Ok provider
  end.

(** [DiscoverModels] makes its slice, so that what it returns is not nil. *)
Definition suite_catalog (fixture : Fixture) : result unit :=
  provider ← requireFixture fixture;
  require (Provider_Name (Suite_Provider provider) =s Fixture_WantName fixture) "provider name" ;;
  models ← wrapf "discover models" (DiscoverModels background (Some (Suite_Provider provider)));
  require (bool_decide (Fixture_WantModels fixture = Some models)) "models".

(** The events appended to a nil slice. *)
Definition appended {A} (l : list A) : option (list A) := match l with [] => None | _ => Some l end.

Definition check_stream (fixture : Fixture) (after : ModelRequest) (events : list ModelEvent) (err : option error) : result unit :=
  match err with Some e => Err (Errorf "drain stream" [e]) | None => Ok tt end ;;
  require (bool_decide (after = CloneModelRequest (Fixture_Request fixture))) "provider mutated caller-owned request" ;;
  require (bool_decide (appended events = Fixture_WantEvents fixture)) "events" ;;
  require (bool_decide (Fixture_StreamCloseCount fixture = Some 1)) "stream close count".

(** The stream subtest; [None] when a stream is still being drained. *)
Definition suite_stream (fuel : nat) (fixture : Fixture) : option (result unit) :=
  match requireFixture fixture with
  | Err e => Some (Err e)
  | Ok provider =>
      match Suite_Stream provider (Fixture_Request fixture) with
      | (_, Err e) => Some (Err (Errorf "open stream" [e]))
      | (after, Ok stream) =>
          '(events, err) ← DrainStream fuel background stream;
          Some (check_stream fixture after events err)
      end
  end.

(** [Run]: how the two subtests end, each with a fixture of its own. *)
Definition provider_suite (fuel : nat) (factory : option (nat → Fixture)) : option (list (result unit)) :=
  match factory with
  | None => Some [Err (errors_New "provider conformance factory is nil")]
  | Some make =>
      streamed ← suite_stream fuel (make 1%nat);
      Some [suite_catalog (make 0%nat); streamed]
  end.

Definition passed (results : list (result unit)) : Prop := Forall (λ r, r = Ok tt) results.

(* ------------------------------------------------------------------ *)
(** ** Observers *)

(** How a call of [Observe] goes within the second it has. *)
Inductive Observed : Type :=
| ObserveReturned (err : option error)
| ObservePanicked (value : string)
| ObserveIgnoring.

Definition suite_input (kind : string) (ids : ID * ID * ID) : RecordInput :=
  let '(workload, step, attempt) := ids in
  {| Input_Kind := kind; Input_WorkloadID := workload; Input_StepID := step; Input_AttemptID := attempt; Input_Sequence := 1;
     Input_Classification := ClassConfidential; Input_Content := Some "conformance input"; Input_Attributes := None |}.

(** One kind: the identifiers are new ones, the observer is what the factory
    makes for the subtest. *)
Definition observe_kind (kind : string) (ids : ID * ID * ID) (observer : option (ObservationRecord → Observed)) : result unit :=
  match observer with
  | None => Err (errors_New "factory returned nil observer")
  | Some observe =>
      record ← NewRecord (suite_input kind ids);
      match observe record with
      | ObserveReturned _ => Ok tt
      | ObservePanicked _ => Err (errors_New "observer panicked")
      | ObserveIgnoring => Err (errors_New "observer ignored cancellation")
      end
  end.

Definition observer_suite (ids : nat → ID * ID * ID) (factory : option (nat → option (ObservationRecord → Observed))) : list (result unit) :=
  match factory with
  | None => [Err (errors_New "observer conformance factory is nil")]
  | Some make => imap (fun i kind => observe_kind kind (ids i) (make i)) record_kinds
  end.

(* ------------------------------------------------------------------ *)
(** ** Properties *)

Definition fixture_ok (fixture : Fixture) : Prop :=
  Fixture_WantName fixture ≠ "" ∧ ModelRequest_Validate (Fixture_Request fixture) = Ok tt ∧ is_Some (Fixture_StreamCloseCount fixture).

Lemma requireFixture_Ok fixture p : requireFixture fixture = Ok p ↔ Fixture_Provider fixture = Some p ∧ fixture_ok fixture.
Proof.
  unfold requireFixture, fixture_ok. destruct (Fixture_Provider fixture) as [q|]; [|naive_solver].
  rewrite !seq_Ok, wrapf_Ok, !require_Ok, negb_true_iff, String.eqb_neq.
  assert (is_some (Fixture_StreamCloseCount fixture) = true ↔ is_Some (Fixture_StreamCloseCount fixture)) as ->.
  { destruct (Fixture_StreamCloseCount fixture); cbn; split; done || by intros []. }
  naive_solver.
Qed.

Lemma suite_catalog_Ok fixture :
  suite_catalog fixture = Ok tt ↔ ∃ p, requireFixture fixture = Ok p ∧ Provider_Name (Suite_Provider p) = Fixture_WantName fixture ∧
    ∃ ds, DiscoverModels background (Some (Suite_Provider p)) = Ok ds ∧ Fixture_WantModels fixture = Some ds.
Proof.
  unfold suite_catalog. rewrite bind_Ok. f_equiv. intros p. rewrite seq_Ok, require_Ok, String.eqb_eq, bind_Ok.
  do 3 f_equiv. intros ds. by rewrite require_Ok, bool_decide_eq_true, wrapf_Ok.
Qed.

(** A complete stream has events. *)
Lemma appended_complete es : protocol_complete es → appended es = Some es.
Proof. intros [_ (x & Hx & _)]. by destruct es. Qed.

Lemma prefix_of_protocol l1 l2 : protocol_prefix (l1 ++ l2) → protocol_prefix l1.
Proof.
  induction l2 as [|x l2 IH] using rev_ind; [by rewrite app_nil_r|]. rewrite app_assoc. intros (Hp & _)%protocol_prefix_snoc. by apply IH.
Qed.

Lemma check_stream_Ok fixture after events err :
  check_stream fixture after events err = Ok tt ↔
  err = None ∧ after = CloneModelRequest (Fixture_Request fixture) ∧ appended events = Fixture_WantEvents fixture ∧
  Fixture_StreamCloseCount fixture = Some 1.
Proof.
  unfold check_stream. rewrite !seq_Ok, !require_Ok, !bool_decide_eq_true. destruct err; naive_solver.
Qed.

(** Draining a stream that follows the protocol to its end accepts all of it. *)
Lemma drain_loop_accepts fuel ctx st rest acc e :
  (∀ j x, rest !! j = Some x → Stream_Recv st (length acc + j) = Ok x) → Stream_Recv st (length acc + length rest)%nat = Err e →
  (length rest < fuel)%nat → errors_Is e "EOF" = true → protocol_prefix (acc ++ rest) → Z.of_nat (length (acc ++ rest)) < uint64_mod →
  ∃ err, drain_loop fuel ctx st (length acc) (validator_after acc) acc = Some (acc ++ rest, err).
Proof.
  intros Hx He Hf Heof. revert fuel acc Hx He Hf. induction rest as [|x rest IH]; intros fuel acc Hx He Hf Hp Hlen;
    (destruct fuel as [|fuel]; [cbn in Hf; lia|]); cbn [drain_loop].
  - rewrite Nat.add_0_r in He. rewrite He, Heof, app_nil_r. by eexists.
  - pose proof (Hx 0%nat x eq_refl) as H0. rewrite Nat.add_0_r in H0. rewrite H0.
    replace (acc ++ x :: rest) with ((acc ++ [x]) ++ rest) in * by (by rewrite <-app_assoc).
    assert (Validator_Accept x (validator_after acc) = (Ok tt, validator_after (acc ++ [x]))) as ->.
    { assert (accept_all (x :: rest) (validator_after acc) = (Ok tt, validator_after ((acc ++ [x]) ++ rest))) as Ha.
      { rewrite <-app_assoc in *. by apply accept_all_complete. }
      cbn [accept_all] in Ha. apply st_bind_Ok in Ha as ([] & v & Ha & Hrest). rewrite Ha. f_equal.
      assert (accept_all [x] (validator_after acc) = (Ok tt, v)) as H1 by (cbn [accept_all]; rewrite st_bind_Ok; by exists tt, v).
      assert (accept_all [x] (validator_after acc) = (Ok tt, validator_after (acc ++ [x]))) as H2.
      { apply accept_all_complete; [by eapply prefix_of_protocol|]. rewrite !length_app in Hlen. rewrite length_app. lia. }
      congruence. }
    rewrite ModelEvent_Clone_id. replace (S (length acc)) with (length (acc ++ [x])) by (rewrite length_app; cbn; lia).
    apply IH; [| |cbn in Hf; lia|done|done].
    + intros j y Hy. rewrite length_app. cbn. rewrite <-Nat.add_assoc. by apply (Hx (S j)).
    + rewrite length_app. cbn. rewrite <-Nat.add_assoc. exact He.
Qed.

Lemma drained_all fuel ctx st es e evs err :
  delivers st es e → (length es < fuel)%nat → Z.of_nat (length es) < uint64_mod → errors_Is e "EOF" = true → protocol_complete es →
  DrainStream fuel ctx (Some st) = Some (evs, err) → evs = es.
Proof.
  intros [Hx He] Hf Hsize Heof [Hp _]. unfold DrainStream.
  destruct (drain_loop_accepts fuel ctx st es [] e Hx He Hf Heof Hp Hsize) as [err' E].
  change (drain_loop fuel ctx st 0 zero_validator []) with (drain_loop fuel ctx st (length (@nil ModelEvent)) (validator_after []) []).
  rewrite E. by intros [= <- _].
Qed.

(** What passing the suite means of a provider whose stream sends [es] and then
    ends with [e]: its name and its catalog are the expected ones, the catalog
    being valid, its own and without duplicates; the stream is a complete run of
    the protocol, ended by io.EOF and closed without an error, and as expected;
    it was closed once; and the request is left equal to its clone. *)
Theorem provider_suite_spec fuel make p q after st es e :
  Fixture_Provider (make 0%nat) = Some p → Fixture_Provider (make 1%nat) = Some q →
  Suite_Stream q (Fixture_Request (make 1%nat)) = (after, Ok (Some st)) → delivers st es e → (length es < fuel)%nat →
  Z.of_nat (length es) < uint64_mod →
  ∃ results, provider_suite fuel (Some make) = Some results ∧
  (passed results ↔
    fixture_ok (make 0%nat) ∧ fixture_ok (make 1%nat) ∧
    Provider_Name (Suite_Provider p) = Fixture_WantName (make 0%nat) ∧
    (∃ ds, Fixture_WantModels (make 0%nat) = Some ds ∧ DiscoverModels background (Some (Suite_Provider p)) = Ok ds) ∧
    protocol_complete es ∧ errors_Is e "EOF" = true ∧ Stream_Close st = None ∧ Fixture_WantEvents (make 1%nat) = Some es ∧
    after = CloneModelRequest (Fixture_Request (make 1%nat)) ∧ Fixture_StreamCloseCount (make 1%nat) = Some 1).
Proof.
  intros Hp Hq Hst Hd Hf Hsize. destruct (DrainStream_outcome fuel background st es e Hd Hf ltac:(done)) as (evs & err & Hdrain & _ & _ & Herr).
  set (streamed := match requireFixture (make 1%nat) with Err e => Err e | Ok _ => check_stream (make 1%nat) after evs err end).
  assert (suite_stream fuel (make 1%nat) = Some streamed) as Hs.
  { unfold suite_stream, streamed. destruct (requireFixture (make 1%nat)) as [q'|] eqn:Eq; [|done].
    apply requireFixture_Ok in Eq as [Eq _]. rewrite Hq in Eq. injection Eq as <-. rewrite Hst, Hdrain. done. }
  exists [suite_catalog (make 0%nat); streamed]. split; [unfold provider_suite; by rewrite Hs|].
  unfold passed. rewrite !Forall_cons, Forall_nil.
  assert (streamed = Ok tt ↔ requireFixture (make 1%nat) = Ok q ∧ check_stream (make 1%nat) after evs err = Ok tt) as ->.
  { unfold streamed. destruct (requireFixture (make 1%nat)) as [q'|] eqn:Eq; [|naive_solver].
    pose proof Eq as [Eq' _]%requireFixture_Ok. rewrite Hq in Eq'. injection Eq' as <-. naive_solver. }
  rewrite suite_catalog_Ok, check_stream_Ok, Herr, !requireFixture_Ok. split.
  - intros ((p' & [Hp' H0]%requireFixture_Ok & Hname & ds & Hds & Hwant) & ((_ & H1) & (-> & Hc & He & Hcl) & Hafter & Hev & Hcount) & _).
    rewrite Hp in Hp'. injection Hp' as <-. split_and!; try done; [by exists ds|]. rewrite <-Hev. by apply appended_complete.
  - intros (H0 & H1 & Hname & (ds & Hwant & Hds) & Hc & He & Hcl & Hev & Hafter & Hcount).
    assert (evs = es) as -> by exact (drained_all _ _ _ _ _ _ _ Hd Hf Hsize He Hc Hdrain).
    assert (appended es = Fixture_WantEvents (make 1%nat)) by (rewrite Hev; by apply appended_complete).
    split_and!; try done. exists p. rewrite requireFixture_Ok. split_and!; try done. by exists ds.
Qed.

(** A request with provider extensions fails the suite for every provider that
    leaves it as it is: the suite compares it with its clone, which loses them. *)
Theorem provider_suite_refuses_extension fuel fixture p m :
  Fixture_Provider fixture = Some p → (∀ r, fst (Suite_Stream p r) = r) →
  Request_Extension (Fixture_Request fixture) = Some m → m ≠ ∅ → suite_stream fuel fixture ≠ Some (Ok tt).
Proof.
  intros Hp Hkeep Hm Hne. unfold suite_stream. destruct (requireFixture fixture) as [q|] eqn:Eq; [|done].
  apply requireFixture_Ok in Eq as [Eq _]. rewrite Hp in Eq. injection Eq as <-.
  specialize (Hkeep (Fixture_Request fixture)). destruct (Suite_Stream p (Fixture_Request fixture)) as [after [stream|e]]; [|done].
  cbn in Hkeep. subst after. destruct (DrainStream fuel background stream) as [[events err]|]; [|done].
  intros [= (_ & Hclone & _)%check_stream_Ok]. apply (f_equal Request_Extension) in Hclone.
  rewrite Hm in Hclone. unfold CloneModelRequest in Hclone. cbn in Hclone. rewrite Hm in Hclone. injection Hclone as ->.
  by apply Hne.
Qed.

(** An observer passes its suite exactly when for each of the seven kinds it
    returns in time and does not panic on the record of the suite, whatever error
    it returns; the record is one that [NewRecord] makes for any identifiers, and
    what it was made from is not in it. *)
Theorem observer_suite_spec ids make :
  (∀ i kind, record_kinds !! i = Some kind → ∃ record, NewRecord (suite_input kind (ids i)) = Ok record ∧ Rec_Content record = None) ∧
  (passed (observer_suite ids (Some make)) ↔
     ∀ i kind record, record_kinds !! i = Some kind → NewRecord (suite_input kind (ids i)) = Ok record →
     ∃ observe err, make i = Some observe ∧ observe record = ObserveReturned err).
Proof.
  assert (∀ i kind, record_kinds !! i = Some kind → ∃ record, NewRecord (suite_input kind (ids i)) = Ok record ∧ Rec_Content record = None) as Hnew.
  { intros i kind Hk. apply list_elem_of_lookup_2 in Hk. destruct (ids i) as [[w s] a]. unfold NewRecord. cbn [suite_input Input_Kind].
    rewrite (proj2 (one_of_Ok _ _ _ tt) Hk). eexists. split; [reflexivity|]. done. }
  split; [exact Hnew|]. unfold passed, observer_suite. rewrite Forall_lookup. split.
  - intros Hall i kind record Hk Hr. specialize (Hall i (observe_kind kind (ids i) (make i))).
    rewrite list_lookup_imap, Hk in Hall. specialize (Hall eq_refl). unfold observe_kind in Hall.
    destruct (make i) as [observe|]; [|done]. rewrite Hr in Hall. cbn in Hall. destruct (observe record) as [err| |] eqn:E; [|done..].
    by exists observe, err.
  - intros Hall i r. rewrite list_lookup_imap. destruct (record_kinds !! i) as [kind|] eqn:Hk; [|done]. intros [= <-].
    destruct (Hnew i kind Hk) as (record & Hr & _). destruct (Hall i kind record Hk Hr) as (observe & err & Hm & Ho).
    unfold observe_kind. rewrite Hm, Hr. cbn. by rewrite Ho.
Qed.

(* ------------------------------------------------------------------ *)
(** ** Examples *)

Definition example_suite_provider : SuiteProvider :=
  {| Suite_Provider := {| Provider_Name := "p"; Provider_Models := Ok [example_descriptor] |};
     Suite_Stream := fun request => (request, Ok (Some example_stream)) |}.

Definition example_fixture (x : option (gmap string bytes)) : Fixture :=
  {| Fixture_Provider := Some example_suite_provider; Fixture_Request := example_model_request x; Fixture_WantName := "p";
     Fixture_WantModels := Some [example_descriptor]; Fixture_WantEvents := Some example_events; Fixture_StreamCloseCount := Some 1 |}.

(** The suite passes without extensions. *)
Lemma provider_suite_spec_witness :
  ∃ results, provider_suite 4 (Some (λ _, example_fixture None)) = Some results ∧ protocol_complete example_events.
Proof.
  destruct (provider_suite_spec 4 (λ _, example_fixture None) example_suite_provider example_suite_provider (example_model_request None)
    example_stream example_events io_EOF) as (results & E & Hspec); [done..| |vm_compute; lia|vm_compute; done|].
  - split; [|reflexivity]. intros i x Hx. unfold example_stream. cbn [Stream_Recv]. by rewrite Hx.
  - exists results. split; [exact E|].
    assert (passed results) as Hp by (vm_compute in E; injection E as <-; unfold passed; by rewrite !Forall_cons, Forall_nil). by apply Hspec in Hp as (_ & _ & _ & _ & Hc & _).
Defined.

Lemma provider_suite_refuses_extension_witness : suite_stream 4 (example_fixture (Some {[ "k" := "1" ]})) ≠ Some (Ok tt).
Proof.
  apply (provider_suite_refuses_extension 4 (example_fixture (Some {[ "k" := "1" ]})) example_suite_provider {[ "k" := "1" ]}); [done..|].
  intros Hm. apply (f_equal (fun m : gmap string bytes => m !! "k")) in Hm. vm_compute in Hm. discriminate Hm.
Defined.

Lemma observer_suite_spec_witness :
  passed (observer_suite (λ _, ("", "", "")) (Some (λ _, Some (λ _, ObserveReturned (Some Canceled))))).
Proof.
  apply (observer_suite_spec (λ _, ("", "", "")) (λ _, Some (λ _, ObserveReturned (Some Canceled)))). intros i kind record _ _. by eexists _, _.
Defined.
