(* ===== verification/Loop.v ===== *)
(** * The turn and tool loop: src/loop/engine.go

    [Engine.Run] with all it calls.  Everything outside the loop (contexts, the
    turn selector, providers and their streams, tools, middleware, the sink and
    the schema library) is a collaborator: its answer to a call is a function of
    the calls made so far, so any behaviour over time, panics included, is some
    instance of the class [Collaborators].  The state of a run holds that
    history of calls, so what the loop does to the outside is read off it. *)

From Stdlib Require Import ZArith Lia.
From S2P Require Import Prelude Effects GoNum GoText GoJson GoJsonText GoHash Ident Domain Model Stream LoopTypes.

(* ------------------------------------------------------------------ *)
(** ** The collaborators *)

(** The types of the values the loop only passes around. *)
Class Carriers := {
  Handler : Type;
  Middleware : Type;
  Selector : Type;
  Sink : Type;
  TurnProvider : Type;
  StreamHandle : Type;
  Document : Type;
  Schema : Type;
}.

Abbreviation Binding := (ToolBinding Handler) (only parsing).
Abbreviation Request := (LoopRequest Handler Middleware Selector Sink) (only parsing).

(** One look at the contexts: [loopCtx.Err()], whether [context.Cause(loopCtx)]
    is the wall-time budget, and [parentCtx.Err()]. *)
Record Observation : Type := {
  obs_loop : option error;
  obs_wall_time : bool;
  obs_parent : option error;
}.

Section collaborators.
Context `{Carriers}.

Record TurnSelection : Type := {
  Selection_Messages : option (list Message);
  Selection_Provider : option TurnProvider;
  Selection_Model : ModelRef;
}.

(** The calls the loop makes to the outside. *)
Inductive Call : Type :=
| CallContext
| CallSelect (context : TurnContext)
| CallProviderName (provider : TurnProvider)
| CallStream (provider : TurnProvider) (request : ModelRequest)
| CallRecv (stream : StreamHandle)
| CallCloseStream (stream : StreamHandle)
| CallExecute (handler : Handler) (invocation : ToolInvocation)
| CallProcess (middleware : Middleware) (invocation : ToolInvocation) (output : ToolOutput)
| CallRecord (terminal : bool) (event : LoopEvent)
| CallCloseTool (handler : Handler).

End collaborators.

(** What each call returns after the calls made before it. *)
Class Collaborators `{Carriers} := {
  observe : list Call → Observation;
  select : list Call → Selector → TurnContext → outcome (result TurnSelection);
  provider_name : list Call → TurnProvider → outcome string;
  provider_stream : list Call → TurnProvider → ModelRequest → outcome (result (option StreamHandle));
  recv : list Call → StreamHandle → outcome (result ModelEvent);
  close_stream : list Call → StreamHandle → outcome (option error);
  execute : list Call → Handler → ToolInvocation → outcome (result ToolOutput);
  process : list Call → Middleware → ToolInvocation → ToolOutput → outcome (result ToolOutput);
  record : list Call → Sink → bool → LoopEvent → outcome (option error);
  close_tool : list Call → Handler → outcome (option error);
  (** The order in which the goroutines of a parallel batch of tools run. *)
  schedule : list Call → nat → list nat;
  (** [json.Unmarshal] into an [any], the schema compiler without external
      references, and a compiled schema's [Validate]. *)
  unmarshal : bytes → result Document;
  compile : Document → result Schema;
  schema_validate : Schema → Document → result unit;
}.

(* ------------------------------------------------------------------ *)
(** ** The state of a run, and computations on it *)

Section loop.
Context `{Collaborators}.

Record LoopState : Type := {
  history : list Call;
  loop_result : LoopResult;
  emitter_sequence : Z;
  emitter_failed : bool;
  currentTurn : Z;
  currentModel : ModelRef;
  toolCallIDs : gset string;
}.

Abbreviation LM := (EM LoopState) (only parsing).

(** A call to a collaborator: it answers from the history, and is added to it. *)
Definition call {A} (c : Call) (answer : list Call → outcome A) : LM A :=
  perform (fun s => {| s with history := history s ++ [c] |}) (fun s => answer (history s)).

Definition modify_result (f : LoopResult → LoopResult) : LM unit :=
  lm_modify (fun s => {| s with loop_result := f (loop_result s) |}).

(* ------------------------------------------------------------------ *)
(** ** Contexts, budgets and the emitter *)

Definition contextResult : LM unit :=
  o ← call CallContext (fun h => Returns (observe h));
  match obs_loop o with
  | None => mret tt
  | Some err =>
      if obs_wall_time o && negb (is_some (obs_parent o))
      then modify_result (fun r => {| r with LoopResult_BudgetExceeded := "wall_time" |}) ;;
           lm_fail (Errorf "wall_time" [ErrLoopBudgetExceeded])
      else lm_fail err
  end.

Definition budgetFailure {A} (kind : string) : LM A :=
  modify_result (fun r => {| r with LoopResult_BudgetExceeded := kind |}) ;;
  lm_fail (Errorf kind [ErrLoopBudgetExceeded]).

(** [loopEmitter.emit]; [terminal] says that the context is the fresh one of
    the deferred function and not the loop's. *)
Definition emit (sink : option Sink) (terminal : bool) (event : LoopEvent) : LM unit :=
  lm_modify (fun s => {| s with emitter_sequence := wrapu64 (emitter_sequence s + 1) |}) ;;
  s ← lm_get;
  let event := {| event with LoopEvent_Sequence := emitter_sequence s |} in
  match sink with
  | None => mret tt
  | Some k =>
      err ← call (CallRecord terminal (LoopEvent_Clone event)) (fun h => record h k terminal (LoopEvent_Clone event));
      match err with
      | None => mret tt
      | Some e =>
          lm_modify (fun s => {| s with emitter_failed := true |}) ;;
          lm_fail (Errorf "loop sink" [e])
      end
  end.

(** [LoopEvent{Type: type, Turn: turn, Model: model}] *)
Definition loop_event (type : string) (turn : Z) (model : ModelRef) : LoopEvent :=
  {| LoopEvent_Checkpoint := None; LoopEvent_Sequence := 0; LoopEvent_Type := type; LoopEvent_Turn := turn;
     LoopEvent_Model := model; LoopEvent_ModelEvent := None; LoopEvent_Message := None;
     LoopEvent_ToolCall := None; LoopEvent_ToolOutput := None; LoopEvent_FailureCode := ""; LoopEvent_Stop := "" |}.

(** The five additions of [addUsage]. *)
Definition usage_sum (total u : Usage) : Usage :=
  {| Usage_InputTokens := add64 (Usage_InputTokens total) (Usage_InputTokens u);
     Usage_OutputTokens := add64 (Usage_OutputTokens total) (Usage_OutputTokens u);
     Usage_CacheReadTokens := add64 (Usage_CacheReadTokens total) (Usage_CacheReadTokens u);
     Usage_CacheWriteTokens := add64 (Usage_CacheWriteTokens total) (Usage_CacheWriteTokens u);
     Usage_Cost := add64 (Usage_Cost total) (Usage_Cost u) |}.

Definition negative_usage (u : Usage) : bool :=
  (Usage_InputTokens u <? 0) || (Usage_OutputTokens u <? 0) || (Usage_CacheReadTokens u <? 0) ||
  (Usage_CacheWriteTokens u <? 0) || (Usage_Cost u <? 0).

(** [addUsage]: the new total, also when it reports an error. *)
Definition addUsage (total : Usage) (usage : option Usage) : Usage * option error :=
  match usage with
  | None => (total, Some (errors_New "usage event has no usage"))
  | Some u =>
      if negative_usage u then (total, Some (errors_New "usage values cannot be negative"))
      else
        let total' := usage_sum total u in
        (total', if negative_usage total' then Some (errors_New "usage values overflowed") else None)
  end.

Definition exceededUsage (usage : Usage) (budget : Budget) : string :=
  if MaxInputTokens budget <? Usage_InputTokens usage then "input_tokens"
  else if MaxOutputTokens budget <? Usage_OutputTokens usage then "output_tokens"
  else if MaxCost budget <? Usage_Cost usage then "cost"
  else "".

(* ------------------------------------------------------------------ *)
(** ** One model turn *)

Record turnData : Type := {
  turn_text : string;
  turn_calls : list ToolCall;
  turn_stop : string;
  turn_modelErr : option ModelError;
}.

Definition zero_turnData : turnData :=
  {| turn_text := ""; turn_calls := []; turn_stop := ""; turn_modelErr := None |}.

(** The switch on the type of an accepted event. *)
Definition absorb (budget : Budget) (event : ModelEvent) (data : turnData) : LM turnData :=
  let type := ModelEvent_Type event in
  if type =s ModelEventTextDelta
  then mret {| data with turn_text := turn_text data +:+ ModelEvent_Text event |}
  else if type =s ModelEventToolCall then
    c ← deref (ModelEvent_ToolCall event);
    mret {| data with turn_calls := turn_calls data ++ [c] |}
  else if type =s ModelEventUsage then
    s ← lm_get;
    let '(total, err) := addUsage (LoopResult_Usage (loop_result s)) (ModelEvent_Usage event) in
    modify_result (fun r => {| r with LoopResult_Usage := total |}) ;;
    match err with
    | Some e => lm_fail e
    | None => if exceededUsage total budget ≠s "" then budgetFailure (exceededUsage total budget) else mret data
    end
  else if type =s ModelEventStop then mret {| data with turn_stop := ModelEvent_Stop event |}
  else if type =s ModelEventError then
    e ← deref (ModelEvent_Error event);
    mret {| data with turn_modelErr := Some e |}
  else mret data.

(** The receive loop of [consumeTurn], at most [fuel] rounds. *)
Fixpoint consume_loop (fuel : nat) (sink : option Sink) (budget : Budget) (turn : Z) (model : ModelRef)
    (stream : StreamHandle) (validator : ModelStreamValidator) (data : turnData) : LM turnData :=
  match fuel with
  | O => lm_exhausted
  | S fuel' =>
      contextResult ;;
      r ← call (CallRecv stream) (fun h => recv h stream);
      match r with
      | Err err =>
          if errors_Is err "EOF" then
            match fst (Validator_Complete validator) with
            | Err e => lm_fail (Errorf "" [ErrLoopStream; e])
            | Ok _ => mret data
            end
          else contextResult ;; lm_fail err
      | Ok event =>
          match Validator_Accept event validator with
          | (Err e, _) => lm_fail (Errorf "" [ErrLoopStream; e])
          | (Ok _, validator') =>
              let recorded := loop_event LoopEventModel turn model in
              emit sink false {| recorded with LoopEvent_ModelEvent := Some event |} ;;
              data' ← absorb budget event data;
              consume_loop fuel' sink budget turn model stream validator' data'
          end
      end
  end.

(** [consumeTurn]: the deferred [stream.Close()] runs also on a panic. *)
Definition consumeTurn (fuel : nat) (sink : option Sink) (budget : Budget) (turn : Z) (model : ModelRef)
    (stream : option StreamHandle) : LM turnData :=
  match stream with
  | None => lm_fail (errors_New "provider returned a nil model stream")
  | Some k => fun s =>
      match consume_loop fuel sink budget turn model k zero_validator zero_turnData s with
      | (Exhausted, s1) => (Exhausted, s1)
      | (r, s1) =>
          match call (CallCloseStream k) (fun h => close_stream h k) s1 with
          | (Done closed, s2) =>
              match r with
              | Done data => match errors_Join [closed] with
                             | None => (Done data, s2)
                             | Some e => (Failed e, s2)
                             end
              | Failed e => match errors_Join [Some e; closed] with
                            | None => (Failed e, s2)
                            | Some e' => (Failed e', s2)
                            end
              | Panicked v => (Panicked v, s2)
              | Exhausted => (Exhausted, s2)
              end
          | (Failed e, s2) => (Failed e, s2)
          | (Panicked v, s2) => (Panicked v, s2)
          | (Exhausted, s2) => (Exhausted, s2)
          end
      end
  end.

(** The loop of [assistantMessage] over the calls, with the set of call
    identifiers of the whole run. *)
Fixpoint call_parts (classification : Classification) (calls : list ToolCall) : LM (list ContentPart) :=
  match calls with
  | [] => mret []
  | c :: calls' =>
      s ← lm_get;
      if decide (Call_ID c ∈ toolCallIDs s)
      then lm_fail (Errorf "duplicate tool-call ID" [ErrLoopStream])
      else
        lm_modify (fun s => {| s with toolCallIDs := {[ Call_ID c ]} ∪ toolCallIDs s |}) ;;
        rest ← call_parts classification calls';
        mret ({| Part_Type := ContentToolCall; Part_Classification := classification; Part_Text := "";
                 Part_MediaType := ""; Part_ArtifactID := ""; Part_ToolCallID := Call_ID c;
                 Part_ToolName := Call_Name c; Part_JSON := Call_Input c; Part_IsError := false;
                 Part_Extension := None |} :: rest)
  end.

Definition text_part (classification : Classification) (text : string) : ContentPart :=
  {| Part_Type := ContentText; Part_Classification := classification; Part_Text := text; Part_MediaType := "";
     Part_ArtifactID := ""; Part_ToolCallID := ""; Part_ToolName := ""; Part_JSON := ""; Part_IsError := false;
     Part_Extension := None |}.

Definition assistantMessage (data : turnData) (classification : Classification) : LM (option Message) :=
  let text := if 0 <? Z.of_nat (String.length (turn_text data)) then [text_part classification (turn_text data)] else [] in
  parts ← call_parts classification (turn_calls data);
  let message := {| Message_Role := RoleAssistant; Message_Content := text ++ parts |} in
  if Z.of_nat (length (Message_Content message)) =? 0 then mret None
  else lm_lift (Message_Validate message) ;; mret (Some message).

(* ------------------------------------------------------------------ *)
(** ** Tools *)

Record compiledTool : Type := {
  compiled_binding : Binding;
  compiled_input : Schema;
  compiled_output : option Schema;
}.

Definition compileSchema (raw : bytes) : result Schema := document ← unmarshal raw; compile document.

Definition validateJSON (schema : Schema) (raw : bytes) : result unit := value ← unmarshal raw; schema_validate schema value.

Record toolExecution : Type := {
  execution_output : ToolOutput;
  execution_failure : option ToolFailure;
}.

Definition invocation_of (request : Request) (turn : Z) (c : ToolCall) : ToolInvocation :=
  {| Invocation_WorkloadID := Loop_WorkloadID request; Invocation_StepID := Loop_StepID request;
     Invocation_AttemptID := Loop_AttemptID request; Invocation_Turn := turn; Invocation_Call := c |}.

Definition failedExecution (request : Request) (invocation : ToolInvocation) (code message : string) (cause : error)
    : toolExecution :=
  {| execution_output :=
       {| ToolOutput_JSON := error_payload code message; ToolOutput_Content := [];
          ToolOutput_Classification := Loop_ToolErrorClassification request; ToolOutput_IsError := true |};
     execution_failure := Some
       {| Failure_CallID := Call_ID (Invocation_Call invocation);
          Failure_ToolName := Call_Name (Invocation_Call invocation);
          Failure_Code := code; Failure_Message := message; Failure_Cause := Some cause |} |}.

Definition executeTool (request : Request) (turn : Z) (c : ToolCall) (tools : gmap string compiledTool)
    : LM toolExecution :=
  let invocation := invocation_of request turn c in
  let failed code message cause := mret (failedExecution request invocation code message cause) in
  recover
    (match tools !! Call_Name c with
     | None => failed "tool_not_found" "requested tool is not declared" (Errorf "undeclared tool" [ErrLoopToolInput])
     | Some tool =>
         match validateJSON (compiled_input tool) (Call_Input c) with
         | Err e => failed "tool_input_invalid" "tool input failed schema validation" (Errorf "" [ErrLoopToolInput; e])
         | Ok _ =>
             handler ← deref (Binding_Handler (compiled_binding tool));
             r ← call (CallExecute handler invocation) (fun h => execute h handler invocation);
             match r with
             | Err e => let '(code, message) := NormalizeToolError (Some e) in failed code message e
             | Ok output => mret {| execution_output := ToolOutput_Clone output; execution_failure := None |}
             end
         end
     end)
    (fun _ => failed "tool_panicked" "tool execution panicked" (Errorf "panic" [ErrLoopPanic])).

(** The middleware loop of [finalizeToolResult]. *)
Fixpoint run_middleware (invocation : ToolInvocation) (middleware : list (option Middleware)) (output : ToolOutput)
    : LM (result ToolOutput) :=
  match middleware with
  | [] => mret (Ok output)
  | m :: middleware' =>
      k ← deref m;
      r ← call (CallProcess k invocation (ToolOutput_Clone output))
             (fun h => process h k invocation (ToolOutput_Clone output));
      match r with
      | Err e => mret (Err e)
      | Ok output' => run_middleware invocation middleware' output'
      end
  end.

Definition finalizeToolResult (request : Request) (turn : Z) (c : ToolCall) (tools : gmap string compiledTool)
    (output : ToolOutput) : LM toolExecution :=
  let invocation := invocation_of request turn c in
  let failed code message cause := mret (failedExecution request invocation code message cause) in
  let done_ o := mret {| execution_output := ToolOutput_Clone o; execution_failure := None |} in
  recover
    (r ← run_middleware invocation (Loop_Middleware request) output;
     match r with
     | Err e => failed "tool_result_middleware_failed" "tool result processing failed" e
     | Ok o =>
         match ToolOutput_Validate o with
         | Err e => failed "tool_output_invalid" "tool output is invalid" (Errorf "" [ErrLoopToolOutput; e])
         | Ok _ =>
             match tools !! Call_Name c ≫= compiled_output with
             | None => done_ o
             | Some schema =>
                 if Z.of_nat (String.length (ToolOutput_JSON o)) =? 0
                 then failed "tool_output_invalid" "tool output JSON is required"
                        (Errorf "output schema requires JSON" [ErrLoopToolOutput])
                 else match validateJSON schema (ToolOutput_JSON o) with
                      | Err e => failed "tool_output_invalid" "tool output failed schema validation"
                                   (Errorf "" [ErrLoopToolOutput; e])
                      | Ok _ => done_ o
                      end
             end
         end
     end)
    (fun _ => failed "tool_result_middleware_panicked" "tool result processing panicked" (Errorf "panic" [ErrLoopPanic])).

(** [if execution.failure == nil { execution = finalizeToolResult(...) }] *)
Definition finalize (request : Request) (turn : Z) (c : ToolCall) (tools : gmap string compiledTool)
    (x : toolExecution) : LM toolExecution :=
  match execution_failure x with
  | None => finalizeToolResult request turn c tools (execution_output x)
  | Some _ => mret x
  end.

(** The sequential loop of [executeBatch]. *)
Fixpoint batch_sequential (request : Request) (turn : Z) (tools : gmap string compiledTool) (calls : list ToolCall)
    : LM (list toolExecution * option error) :=
  match calls with
  | [] => mret ([], None)
  | c :: calls' =>
      r ← attempt contextResult;
      match r with
      | Err e => mret ([], Some e)
      | Ok _ =>
          x ← executeTool request turn c tools;
          x' ← finalize request turn c tools x;
          '(rest, err) ← batch_sequential request turn tools calls';
          mret (x' :: rest, err)
      end
  end.

Definition zero_execution : toolExecution :=
  {| execution_output := {| ToolOutput_JSON := ""; ToolOutput_Content := []; ToolOutput_Classification := "";
       ToolOutput_IsError := false |}; execution_failure := None |}.

(** The goroutines of a parallel batch, in the order they run: each writes its
    own index of [results]. *)
Fixpoint run_goroutines (request : Request) (turn : Z) (tools : gmap string compiledTool) (calls : list ToolCall)
    (order : list nat) (results : list toolExecution) : LM (list toolExecution) :=
  match order with
  | [] => mret results
  | index :: order' =>
      match calls !! index with
      | None => run_goroutines request turn tools calls order' results
      | Some c =>
          x ← executeTool request turn c tools;
          run_goroutines request turn tools calls order' (<[index := x]> results)
      end
  end.

(** Any order runs every goroutine once. *)
Definition goroutine_order (h : list Call) (n : nat) : list nat :=
  if decide (schedule h n ≡ₚ seq 0 n) then schedule h n else seq 0 n.

(** The loop that finalizes the results of a parallel batch. *)
Fixpoint finalize_all (request : Request) (turn : Z) (tools : gmap string compiledTool)
    (work : list (ToolCall * toolExecution)) : LM (list toolExecution * option error) :=
  match work with
  | [] => mret ([], None)
  | (c, x) :: work' =>
      r ← attempt contextResult;
      match r with
      | Err e => mret ([], Some e)
      | Ok _ =>
          x' ← finalize request turn c tools x;
          '(rest, err) ← finalize_all request turn tools work';
          mret (x' :: rest, err)
      end
  end.

Definition parallel_batch (request : Request) (calls : list ToolCall) (tools : gmap string compiledTool) : bool :=
  Loop_ParallelTools request &&
  forallb (fun c => match tools !! Call_Name c with
                    | Some tool => Binding_ParallelSafe (compiled_binding tool)
                    | None => false
                    end) calls.

(** [executeBatch]: the executions and the error of the batch. *)
Definition executeBatch (request : Request) (turn : Z) (calls : list ToolCall) (tools : gmap string compiledTool)
    : LM (list toolExecution * option error) :=
  if negb (parallel_batch request calls tools) then batch_sequential request turn tools calls
  else
    s ← lm_get;
    results ← run_goroutines request turn tools calls (goroutine_order (history s) (length calls))
                (replicate (length calls) zero_execution);
    r ← attempt contextResult;
    match r with
    | Err e => mret (results, Some e)
    | Ok _ => finalize_all request turn tools (combine calls results)
    end.

Definition outputParts (c : ToolCall) (output : ToolOutput) : list ContentPart :=
  (if 0 <? Z.of_nat (String.length (ToolOutput_JSON output))
   then [{| Part_Type := ContentToolResult; Part_Classification := ToolOutput_Classification output; Part_Text := "";
            Part_MediaType := ""; Part_ArtifactID := ""; Part_ToolCallID := Call_ID c; Part_ToolName := Call_Name c;
            Part_JSON := ToolOutput_JSON output; Part_IsError := ToolOutput_IsError output; Part_Extension := None |}]
   else []) ++
  ((fun content => {| content with Part_ToolCallID := Call_ID c; Part_ToolName := Call_Name c |})
     <$> CloneContentParts (ToolOutput_Content output)).

(** [compileTools]: the loop over the bindings, adding to [result]. *)
Fixpoint compileTools (bindings : list Binding) (tools : gmap string compiledTool) : result (gmap string compiledTool) :=
  match bindings with
  | [] => Ok tools
  | b :: bindings' =>
      let definition := Binding_Definition b in
      input ← wrapf "input schema" (compileSchema (Tool_InputSchema definition));
      output ← (if 0 <? Z.of_nat (String.length (Tool_OutputSchema definition))
                then Some <$> wrapf "output schema" (compileSchema (Tool_OutputSchema definition))
                else Ok None);
      compileTools bindings'
        (<[Tool_Name definition := {| compiled_binding := b; compiled_input := input; compiled_output := output |}]> tools)
  end.

(* ------------------------------------------------------------------ *)
(** ** Run *)

(** Selecting the turn, up to the turn-started event. *)
Definition select_turn (request : Request) (turn : Z) : LM (TurnProvider * ModelRef) :=
  s ← lm_get;
  selector ← deref (Loop_Selector request);
  let context :=
    {| Turn_WorkloadID := Loop_WorkloadID request; Turn_StepID := Loop_StepID request;
       Turn_AttemptID := Loop_AttemptID request; Turn_Turn := turn;
       Turn_Messages := CloneMessages (LoopResult_Messages (loop_result s));
       Turn_Usage := LoopResult_Usage (loop_result s) |} in
  r ← call (CallSelect context) (fun h => select h selector context);
  match r with
  | Err e => contextResult ;; lm_fail e
  | Ok selection =>
      match Selection_Provider selection with
      | None => lm_fail (errors_New "turn selector returned a nil provider")
      | Some provider =>
          lm_lift (wrapf "selected model" (ModelRef_Validate (Selection_Model selection))) ;;
          name ← call (CallProviderName provider) (fun h => provider_name h provider);
          lm_lift (require (negb (blank name)) "selected provider name is empty") ;;
          lm_modify (fun s => {| s with currentModel := Selection_Model selection |}) ;;
          match Selection_Messages selection with
          | Some messages => modify_result (fun r => {| r with LoopResult_Messages := CloneMessages messages |})
          | None => mret tt
          end ;;
          emit (Loop_Sink request) false (loop_event LoopEventTurnStarted turn (Selection_Model selection)) ;;
          mret (provider, Selection_Model selection)
      end
  end.

(** Calling the provider and consuming its stream. *)
Definition call_model (fuel : nat) (request : Request) (turn : Z) (provider : TurnProvider) (model : ModelRef)
    : LM turnData :=
  s ← lm_get;
  let initial := CloneModelRequest (Loop_Initial request) in
  let modelRequest :=
    {| initial with
       Request_Model := model;
       Request_Messages := CloneMessages (LoopResult_Messages (loop_result s));
       Request_Tools := Binding_Definition <$> Loop_Tools request |} in
  modify_result (fun r => {| r with LoopResult_ModelCalls := add64 (LoopResult_ModelCalls r) 1 |}) ;;
  r ← call (CallStream provider modelRequest) (fun h => provider_stream h provider modelRequest);
  match r with
  | Err e => contextResult ;; lm_fail e
  | Ok stream => consumeTurn fuel (Loop_Sink request) (Loop_Budget request) turn model stream
  end.

(** Appending a message to the result and recording it. *)
Definition append_message (request : Request) (turn : Z) (model : ModelRef) (message : Message) : LM unit :=
  modify_result (fun r => {| r with LoopResult_Messages := LoopResult_Messages r ++ [message] |}) ;;
  let event := loop_event LoopEventMessageAppended turn model in
  emit (Loop_Sink request) false {| event with LoopEvent_Message := Some message |}.

(** The loop that records the start of each tool call. *)
Fixpoint start_tools (request : Request) (turn : Z) (model : ModelRef) (calls : list ToolCall) : LM unit :=
  match calls with
  | [] => mret tt
  | c :: calls' =>
      let event := loop_event LoopEventToolStarted turn model in
      emit (Loop_Sink request) false {| event with LoopEvent_ToolCall := Some c |} ;;
      start_tools request turn model calls'
  end.

(** The loop over the executions: the content of the tool message. *)
Fixpoint complete_tools (request : Request) (turn : Z) (model : ModelRef) (work : list (ToolCall * toolExecution))
    : LM (list ContentPart) :=
  match work with
  | [] => mret []
  | (c, x) :: work' =>
      modify_result (fun r => {| r with LoopResult_Failures :=
        LoopResult_Failures r ++ match execution_failure x with Some f => [f] | None => [] end |}) ;;
      let event := loop_event LoopEventToolCompleted turn model in
      emit (Loop_Sink request) false
        {| event with
           LoopEvent_ToolCall := Some c;
           LoopEvent_ToolOutput := Some (execution_output x);
           LoopEvent_FailureCode := match execution_failure x with Some f => Failure_Code f | None => "" end |} ;;
      rest ← complete_tools request turn model work';
      mret (outputParts c (execution_output x) ++ rest)
  end.

(** From a tool-use stop to the checkpoint of the turn. *)
Definition run_tools (request : Request) (turn : Z) (model : ModelRef) (tools : gmap string compiledTool)
    (calls : list ToolCall) : LM unit :=
  s ← lm_get;
  (if MaxToolCalls (Loop_Budget request) <? add64 (LoopResult_ToolCalls (loop_result s)) (Z.of_nat (length calls))
   then budgetFailure "tool_calls" else mret tt) ;;
  modify_result (fun r => {| r with LoopResult_ToolCalls := add64 (LoopResult_ToolCalls r) (Z.of_nat (length calls)) |}) ;;
  start_tools request turn model calls ;;
  '(executions, batchErr) ← executeBatch request turn calls tools;
  content ← complete_tools request turn model (combine calls executions);
  match batchErr with
  | Some e => lm_fail e
  | None =>
      let toolMessage := {| Message_Role := RoleTool; Message_Content := content |} in
      lm_lift (wrapf "assembled tool message" (Message_Validate toolMessage)) ;;
      append_message request turn model toolMessage ;;
      s ← lm_get;
      let event := loop_event LoopEventCheckpoint turn model in
      emit (Loop_Sink request) false {| event with LoopEvent_Checkpoint := Some (LoopResult_Clone (loop_result s)) |}
  end.

(** The body of the turn loop: [true] is [return result, nil]. *)
Definition run_turn (fuel : nat) (request : Request) (tools : gmap string compiledTool) (turn : Z) : LM bool :=
  lm_modify (fun s => {| s with currentTurn := turn |}) ;;
  contextResult ;;
  s ← lm_get;
  (if MaxModelCalls (Loop_Budget request) <=? LoopResult_ModelCalls (loop_result s)
   then budgetFailure "model_calls" else mret tt) ;;
  '(provider, model) ← select_turn request turn;
  data ← call_model fuel request turn provider model;
  assistant ← assistantMessage data (Loop_ModelOutputClassification request);
  match assistant with Some message => append_message request turn model message | None => mret tt end ;;
  match turn_modelErr data with
  | Some _ => lm_fail (errors_New "model")
  | None =>
      modify_result (fun r => {| r with LoopResult_Stop := turn_stop data |}) ;;
      if turn_stop data ≠s StopToolUse then mret true
      else if Z.of_nat (length (turn_calls data)) =? 0
      then lm_fail (Errorf "tool-use stop contained no completed tool call" [ErrLoopStream])
      else run_tools request turn model tools (turn_calls data) ;; mret false
  end.

(** The turn loop, at most [fuel] turns of at most [stream_fuel] receives. *)
Fixpoint turns (fuel stream_fuel : nat) (request : Request) (tools : gmap string compiledTool) (turn : Z) : LM unit :=
  match fuel with
  | O => lm_exhausted
  | S fuel' =>
      finished ← run_turn stream_fuel request tools turn;
      if finished : bool then mret tt else turns fuel' stream_fuel request tools (add64 turn 1)
  end.

(** The identifiers of the tool calls in messages. *)
Definition message_call_ids (messages : list Message) : gset string :=
  list_to_set (Part_ToolCallID <$> List.filter (fun part => Part_Type part =s ContentToolCall)
                                    (concat (Message_Content <$> messages))).

(** What the deferred function of [Run] protects. *)
Definition run_body (fuel stream_fuel : nat) (request : Request) : LM unit :=
  tools ← lm_lift (compileTools (Loop_Tools request) ∅);
  lm_modify (fun s => {| s with toolCallIDs := message_call_ids (LoopResult_Messages (loop_result s)) |}) ;;
  s ← lm_get;
  turns fuel stream_fuel request tools (add64 (LoopResult_ModelCalls (loop_result s)) 1).

(** [closeTool]: its panics become errors. *)
Definition closeTool (b : Binding) : LM (option error) :=
  recover
    (handler ← deref (Binding_Handler b);
     err ← call (CallCloseTool handler) (fun h => close_tool h handler);
     mret match err with Some e => Some (Errorf "close tool" [ErrLoopCleanup; e]) | None => None end)
    (fun _ => mret (Some (Errorf "close tool panicked" [ErrLoopCleanup]))).

(** The loop of [closeTools], over the bindings in the order they are closed. *)
Fixpoint close_loop (bindings : list Binding) (acc : option error) : LM (option error) :=
  match bindings with
  | [] => mret acc
  | b :: bindings' =>
      err ← closeTool b;
      close_loop bindings' match err with Some _ => errors_Join [acc; err] | None => acc end
  end.

Definition closeTools (bindings : list Binding) : LM (option error) := close_loop (rev bindings) None.

Definition loopFailureCode (err : option error) (r : LoopResult) : string :=
  match err with
  | None => ""
  | Some e =>
      if LoopResult_BudgetExceeded r ≠s "" then "budget_" +:+ LoopResult_BudgetExceeded r
      else if errors_Is e "context canceled" then "cancelled"
      else if errors_Is e "context deadline exceeded" then "deadline_exceeded"
      else if errors_Is e "loop collaborator panicked" then "panic"
      else "failed"
  end.

(** The stop reason of the terminal event. *)
Definition terminal_stop (returnErr : option error) (r : LoopResult) : string :=
  if match returnErr with Some e => errors_Is e "context canceled" | None => false end then StopCancelled
  else if is_some returnErr || (LoopResult_Stop r =s "") then StopUnknown
  else LoopResult_Stop r.

(** The deferred function of [Run], given how its body ended: the error that
    [Run] returns. *)
Definition finish_run (request : Request) (returnErr : option error) : LM (option error) :=
  cleanupErr ← closeTools (Loop_Tools request);
  let returnErr := match cleanupErr with Some _ => errors_Join [returnErr; cleanupErr] | None => returnErr end in
  s ← lm_get;
  if emitter_failed s then mret returnErr
  else
    let event := loop_event LoopEventStopped (currentTurn s) (currentModel s) in
    terminalErr ← attempt (emit (Loop_Sink request) true
      {| event with
         LoopEvent_Stop := terminal_stop returnErr (loop_result s);
         LoopEvent_FailureCode := loopFailureCode returnErr (loop_result s) |});
    mret (errors_Join [returnErr; error_of terminalErr]).

Definition zero_LoopResult : LoopResult :=
  {| LoopResult_Messages := []; LoopResult_Usage := zero_Usage; LoopResult_Stop := ""; LoopResult_ModelCalls := 0;
     LoopResult_ToolCalls := 0; LoopResult_Failures := []; LoopResult_BudgetExceeded := "" |}.

(** The state in which the deferred function is installed. *)
Definition start_state (request : Request) : LoopState :=
  {| history := [CallContext];
     loop_result := match Loop_Continuation request with
                    | Some c => LoopResult_Clone (Checkpoint_Result c)
                    | None => {| zero_LoopResult with LoopResult_Messages := CloneMessages (Request_Messages (Loop_Initial request)) |}
                    end;
     emitter_sequence := match Loop_Continuation request with Some c => Checkpoint_Sequence c | None => 0 end;
     emitter_failed := false; currentTurn := 0; currentModel := zero_ModelRef; toolCallIDs := ∅ |}.

(** A request that is refused before anything starts. *)
Definition refused_state : LoopState :=
  {| history := [CallContext]; loop_result := zero_LoopResult; emitter_sequence := 0; emitter_failed := false;
     currentTurn := 0; currentModel := zero_ModelRef; toolCallIDs := ∅ |}.

(** [Engine.Run]: the error it returns (or the panic that leaves it) and the
    final state, whose [loop_result] is the result it returns. *)
Definition Run (fuel stream_fuel : nat) (request : Request) : ending (option error) * LoopState :=
  match obs_parent (observe []) with
  | Some err => (Done (Some err), refused_state)
  | None =>
      match LoopRequest_Validate request with
      | Err e => (Done (Some e), refused_state)
      | Ok _ =>
          let request := LoopRequest_Clone request in
          match run_body fuel stream_fuel request (start_state request) with
          | (Done _, s) => finish_run request None s
          | (Failed e, s) => finish_run request (Some e) s
          | (Panicked v, s) => finish_run request (errors_Join [None; Some (Errorf v [ErrLoopPanic])]) s
          | (Exhausted, s) => (Exhausted, s)
          end
      end
  end.

(* ------------------------------------------------------------------ *)
(** ** Lemmas on calls *)

(** The state after more calls to collaborators. *)
Definition after_calls (s : LoopState) (l : list Call) : LoopState := {| s with history := history s ++ l |}.

Lemma after_calls_nil s : after_calls s [] = s.
Proof. unfold after_calls. rewrite app_nil_r. by destruct s. Qed.

Lemma after_calls_app s l1 l2 : after_calls (after_calls s l1) l2 = after_calls s (l1 ++ l2).
Proof. unfold after_calls. cbn. by rewrite <-app_assoc. Qed.

Lemma triple_call {A} c (answer : list Call → outcome A) (P : LoopState → Prop) (Q : A → LoopState → Prop) (E : LoopState → Prop) :
  (∀ s a, P s → answer (history s) = Returns a → Q a {| s with history := history s ++ [c] |}) →
  (∀ s v, P s → answer (history s) = Panics v → E {| s with history := history s ++ [c] |}) →
  triple P (call c answer) Q E.
Proof. intros HQ HE. apply triple_perform; [exact HQ | exact HE]. Qed.

Lemma invariant_call {A} (I : LoopState → Prop) c (answer : list Call → outcome A) :
  (∀ s, I s → I {| s with history := history s ++ [c] |}) → invariant I (call c answer).
Proof. intros HI. by apply invariant_perform. Qed.

End loop.

(** The steps of the loop, on top of those of any computation. *)
Ltac inv_loop_step :=
  match goal with
  | |- invariant _ (modify_result _) => unfold modify_result
  | |- invariant _ (call _ _) => apply invariant_call
  | |- _ => invariant_step
  end.
Ltac inv_loop := repeat inv_loop_step.
