(* ===== verification/LoopTools.v ===== *)
(** * The tools of a turn: usage accounting, tool execution and batches

    Properties of the parts of Loop.v below [Run]: what [addUsage] computes,
    that every tool ends with an output that can be appended, and that a
    parallel batch gives what the sequential one gives. *)

From Stdlib Require Import ZArith Lia.
From S2P Require Import Prelude Effects GoNum GoText GoJson GoJsonText GoHash Ident Domain Model Stream LoopTypes Loop.

(* ------------------------------------------------------------------ *)
(** ** Usage *)

Definition usage_fields (u : Usage) : list Z :=
  [Usage_InputTokens u; Usage_OutputTokens u; Usage_CacheReadTokens u; Usage_CacheWriteTokens u; Usage_Cost u].

(** The fields are [int64]. *)
Definition usage_sized (u : Usage) : Prop := Forall is_int64 (usage_fields u).

Lemma Usage_Validate_Ok u : Usage_Validate u = Ok tt ↔ Forall (fun v => 0 <= v) (usage_fields u).
Proof.
  unfold Usage_Validate, usage_fields. rewrite require_Ok, !Forall_cons, Forall_nil.
  rewrite negb_true_iff, !orb_false_iff, !Z.ltb_ge. tauto.
Qed.

(** Adding two sizes that are not negative: the sign of the wrapped sum tells
    whether it is exact. *)
Lemma add64_sign a b :
  0 <= a → 0 <= b → is_int64 a → is_int64 b →
  (0 <= add64 a b ↔ a + b <= int64_max) ∧ (a + b <= int64_max → add64 a b = a + b).
Proof.
  unfold add64, wrap64, is_int64, int64_max, int64_min. intros Ha Hb [_ Ha'] [_ Hb'].
  destruct (Z_le_gt_dec (a + b) (2 ^ 63 - 1)) as [H|H].
  - rewrite Z.mod_small by lia. split; [lia|]. intros _. lia.
  - split; [|lia]. split; [|lia]. intros H0.
    replace (a + b + 2 ^ 63) with ((a + b - 2 ^ 63) + 1 * 2 ^ 64) in H0 by lia.
    rewrite Z.mod_add, Z.mod_small in H0 by lia. lia.
Qed.

Lemma exceededUsage_empty u b :
  exceededUsage u b = "" ↔
  Usage_InputTokens u <= MaxInputTokens b ∧ Usage_OutputTokens u <= MaxOutputTokens b ∧ Usage_Cost u <= MaxCost b.
Proof.
  unfold exceededUsage.
  destruct (Z.ltb_spec (MaxInputTokens b) (Usage_InputTokens u)); [split; [done | lia]|].
  destruct (Z.ltb_spec (MaxOutputTokens b) (Usage_OutputTokens u)); [split; [done | lia]|].
  destruct (Z.ltb_spec (MaxCost b) (Usage_Cost u)); [split; [done | lia]|]. split; [lia | done].
Qed.

Lemma negative_usage_false u : negative_usage u = false ↔ Usage_Validate u = Ok tt.
Proof. unfold negative_usage, Usage_Validate. rewrite require_Ok. by destruct (_ || _). Qed.

(** The sums that [addUsage] makes. *)
Lemma sums_sign l1 l2 :
  Forall is_int64 l1 → Forall is_int64 l2 → Forall (fun v => 0 <= v) l1 → Forall (fun v => 0 <= v) l2 →
  (Forall (fun v => 0 <= v) (zip_with add64 l1 l2) ↔ Forall (fun v => v <= int64_max) (zip_with Z.add l1 l2)) ∧
  (Forall (fun v => v <= int64_max) (zip_with Z.add l1 l2) →
     zip_with add64 l1 l2 = zip_with Z.add l1 l2 ∧ Forall is_int64 (zip_with add64 l1 l2)).
Proof.
  intros H1. revert l2. induction H1 as [|a l1 Ha H1 IH]; intros l2 H2 P1 P2; [by split; [done|]; split|].
  destruct H2 as [|b l2 Hb H2]; [by split; [done|]; split|].
  apply Forall_cons in P1 as [Pa P1], P2 as [Pb P2]. cbn. rewrite !Forall_cons.
  destruct (IH l2 H2 P1 P2) as [IH1 IH2]. destruct (add64_sign a b Pa Pb Ha Hb) as [S1 S2]. split; [tauto|].
  intros [Hab Hl]. destruct (IH2 Hl) as [-> Hz]. rewrite S2 by done. split; [done|]. split; [|done].
  unfold is_int64, int64_min in *. lia.
Qed.

(** [addUsage] either adds exactly or reports an error: it succeeds exactly
    when no added value is negative and no sum leaves [int64], the new total is
    then the exact sum, and [exceededUsage] finds no limit exactly when the
    total is within the budget. *)
Theorem addUsage_exact total u budget :
  usage_sized total → usage_sized u → Usage_Validate total = Ok tt →
  let '(total', err) := addUsage total (Some u) in
  (err = None ↔ Usage_Validate u = Ok tt ∧
                Forall (fun v => v <= int64_max) (zip_with Z.add (usage_fields total) (usage_fields u))) ∧
  (err = None → usage_fields total' = zip_with Z.add (usage_fields total) (usage_fields u) ∧
                Usage_Validate total' = Ok tt ∧ usage_sized total') ∧
  (exceededUsage total' budget = "" ↔
     Usage_InputTokens total' <= MaxInputTokens budget ∧ Usage_OutputTokens total' <= MaxOutputTokens budget ∧
     Usage_Cost total' <= MaxCost budget).
Proof.
  intros Ht Hu Hv. cbn [addUsage]. destruct (negative_usage u) eqn:Hn.
  - split_and!; [|done|apply exceededUsage_empty].
    split; [done|]. intros [Hu' _]. apply negative_usage_false in Hu'. congruence.
  - rewrite negative_usage_false in Hn. split_and!; [..|apply exceededUsage_empty];
      pose proof Hn as Hn'; rewrite Usage_Validate_Ok in Hn', Hv;
      destruct (sums_sign (usage_fields total) (usage_fields u) Ht Hu Hv Hn') as [S1 S2];
      change (zip_with add64 (usage_fields total) (usage_fields u)) with (usage_fields (usage_sum total u)) in *;
      rewrite <-Usage_Validate_Ok, <-negative_usage_false in S1.
    + destruct (negative_usage (usage_sum total u)); split; [done | | |]; tauto || (intros [_ H]; by apply S1 in H).
    + destruct (negative_usage (usage_sum total u)) eqn:Hs; [done|]. intros _.
      destruct (S2 (proj1 S1 eq_refl)) as [Hsum Hz]. by rewrite <-negative_usage_false.
Qed.

(* ------------------------------------------------------------------ *)
(** ** How a tool ends *)

Section tools.
Context `{Collaborators}.

(** The calls made for tools, and how many of them execute one. *)
Definition is_execute (k : Call) : bool := match k with CallExecute _ _ => true | _ => false end.
Definition executes (l : list Call) : nat := length (List.filter is_execute l).
Definition tool_side_call (k : Call) : bool :=
  match k with CallContext | CallExecute _ _ | CallProcess _ _ _ => true | _ => false end.

(** The middleware that ran, in order. *)
Definition processed (l : list Call) : list (option Middleware) :=
  omap (fun k => match k with CallProcess m _ _ => Some (Some m) | _ => None end) l.

Lemma processed_app l1 l2 : processed (l1 ++ l2) = processed l1 ++ processed l2.
Proof. apply omap_app. Qed.

Lemma executes_app l1 l2 : executes (l1 ++ l2) = (executes l1 + executes l2)%nat.
Proof. unfold executes. by rewrite List.filter_app, length_app. Qed.

(** What a batch may do to the state: calls for its tools, at most [n] of them
    executions, and setting the exceeded budget. *)
Record batch_frame (n : nat) (s s' : LoopState) : Prop := {
  bf_history : ∃ l, history s' = history s ++ l ∧ Forall (fun k => tool_side_call k = true) l ∧ (executes l <= n)%nat;
  bf_result : ∃ b, loop_result s' =
    {| LoopResult_Messages := LoopResult_Messages (loop_result s); LoopResult_Usage := LoopResult_Usage (loop_result s);
       LoopResult_Stop := LoopResult_Stop (loop_result s); LoopResult_ModelCalls := LoopResult_ModelCalls (loop_result s);
       LoopResult_ToolCalls := LoopResult_ToolCalls (loop_result s);
       LoopResult_Failures := LoopResult_Failures (loop_result s); LoopResult_BudgetExceeded := b |};
  bf_rest : emitter_sequence s' = emitter_sequence s ∧ emitter_failed s' = emitter_failed s ∧
    currentTurn s' = currentTurn s ∧ currentModel s' = currentModel s ∧ toolCallIDs s' = toolCallIDs s;
}.

Lemma batch_frame_after_calls s l n :
  Forall (fun k => tool_side_call k = true) l → (executes l <= n)%nat → batch_frame n s (after_calls s l).
Proof.
  intros Hl Hn. split; [by exists l | exists (LoopResult_BudgetExceeded (loop_result s)); unfold after_calls; cbn; by destruct (loop_result s) | done].
Qed.

Lemma batch_frame_refl s : batch_frame 0 s s.
Proof. rewrite <-(after_calls_nil s) at 2. apply batch_frame_after_calls; [constructor | done]. Qed.

Lemma batch_frame_trans n m s s1 s2 : batch_frame n s s1 → batch_frame m s1 s2 → batch_frame (n + m) s s2.
Proof.
  intros [(l1 & Hl1 & F1 & N1) (b1 & R1) (? & ? & ? & ? & ?)] [(l2 & Hl2 & F2 & N2) (b2 & R2) (? & ? & ? & ? & ?)].
  split; [|exists b2; by rewrite R2, R1 | split_and!; congruence].
  exists (l1 ++ l2). rewrite Hl2, Hl1, app_assoc, Forall_app, executes_app. split_and!; [done..|lia].
Qed.

Lemma batch_frame_weaken n m s s' : (n <= m)%nat → batch_frame n s s' → batch_frame m s s'.
Proof. intros Hnm [(l & ? & ? & ?) ? ?]. split; [exists l; split_and!; [done..|lia] | done | done]. Qed.

(** The last call was a look at the context of the loop, which had ended. *)
Definition interrupted (s : LoopState) : Prop := ∃ h, history s = h ++ [CallContext] ∧ obs_loop (observe h) ≠ None.

Lemma contextResult_frame s r s' :
  attempt contextResult s = (r, s') → (∃ o, r = Done o ∧ (∀ e, o = Err e → interrupted s')) ∧ batch_frame 0 s s'.
Proof.
  unfold attempt, contextResult, mbind, lm_bind, call, perform. cbn.
  intros E. assert (obs_loop (observe (history s)) ≠ None → history s' = history s ++ [CallContext] → interrupted s') as Hi by (intros; by exists (history s)).
  destruct (obs_loop (observe (history s))); [destruct (_ && _)|]; cbn in E; simplify_eq; (split; [eexists; split; [reflexivity|]; naive_solver|]).
  - split; [exists [CallContext]; split_and!; [done | by repeat constructor | done] | by eexists | done].
  - apply (batch_frame_after_calls s [CallContext]); [by repeat constructor | done].
  - apply (batch_frame_after_calls s [CallContext]); [by repeat constructor | done].
Qed.

(** A failed execution is for its call and says so to the model. *)
Definition failure_ok (request : Request) (c : ToolCall) (x : toolExecution) : Prop :=
  match execution_failure x with
  | None => True
  | Some f => Failure_CallID f = Call_ID c ∧ Failure_ToolName f = Call_Name c ∧
              ToolOutput_IsError (execution_output x) = true ∧
              ToolOutput_JSON (execution_output x) = error_payload (Failure_Code f) (Failure_Message f) ∧
              ToolOutput_Classification (execution_output x) = Loop_ToolErrorClassification request ∧
              ToolOutput_Content (execution_output x) = []
  end.

Lemma failedExecution_ok request turn c code message cause :
  failure_ok request c (failedExecution request (invocation_of request turn c) code message cause).
Proof. done. Qed.

(** [executeTool] always returns: every panic of the handler is caught. *)
Lemma executeTool_ends request turn c tools s :
  ∃ x l, executeTool request turn c tools s = (Done x, after_calls s l) ∧
    Forall (fun k => tool_side_call k = true) l ∧ (executes l <= 1)%nat ∧ failure_ok request c x ∧ processed l = [].
Proof.
  unfold executeTool, recover.
  assert (∀ code message cause, ∃ x l,
    (Done (failedExecution request (invocation_of request turn c) code message cause), s) = (Done x, after_calls s l) ∧
    Forall (fun k => tool_side_call k = true) l ∧ (executes l <= 1)%nat ∧ failure_ok request c x ∧ processed l = []) as Hf.
  { intros. eexists _, []. rewrite after_calls_nil. split; [reflexivity|]. by split_and!; [| cbn; lia | |]. }
  destruct (tools !! Call_Name c) as [tool|]; [|apply Hf].
  destruct (validateJSON _ _) as [u|e]; [|apply Hf].
  destruct (Binding_Handler (compiled_binding tool)) as [k|]; [|apply Hf].
  unfold mbind, lm_bind; cbn. unfold call, perform.
  destruct (execute (history s) k (invocation_of request turn c)) as [[o|e]|v]; [| |].
  - eexists _, [_]. split; [reflexivity|]. by split_and!; [repeat constructor | | |].
  - destruct (NormalizeToolError (Some e)). eexists _, [_]. split; [reflexivity|]. by split_and!; [repeat constructor | | |].
  - eexists _, [_]. split; [reflexivity|]. by split_and!; [repeat constructor | | |].
Qed.

Lemma run_middleware_ends invocation middleware output s :
  ∃ r l, run_middleware invocation middleware output s = (r, after_calls s l) ∧
    Forall (fun k => tool_side_call k = true) l ∧ executes l = 0%nat ∧
    match r with
    | Done (Ok _) => processed l = middleware
    | Done (Err _) | Panicked _ => True
    | _ => False
    end.
Proof.
  revert output s. induction middleware as [|m middleware IH]; intros output s; cbn [run_middleware].
  { exists (Done (Ok output)), []. by rewrite after_calls_nil. }
  destruct m as [k|]; unfold mbind, lm_bind; cbn [deref mret lm_ret lm_panic].
  2: { eexists _, []. rewrite after_calls_nil. split; [reflexivity|]. done. }
  unfold call, perform. set (o := ToolOutput_Clone output).
  destruct (process (history s) k invocation o) as [[o'|e]|v].
  - destruct (IH o' (after_calls s [CallProcess k invocation o])) as (r & l & E & Hl & Hn & Hr).
    exists r, (CallProcess k invocation o :: l). unfold after_calls at 1 in E.
    rewrite E, after_calls_app. split_and!; [done | by constructor | done |].
    destruct r as [[]| | |]; try done. cbn. by f_equal.
  - eexists _, [_]. split; [reflexivity|]. by split_and!; [repeat constructor | |].
  - eexists _, [_]. split; [reflexivity|]. by split_and!; [repeat constructor | |].
Qed.

(** An output that may be returned to the model: valid, accepted by the output
    schema when the tool has one, or else a failure of this call. *)
Record output_good (request : Request) (tools : gmap string compiledTool) (c : ToolCall) (x : toolExecution) : Prop := {
  og_failure : failure_ok request c x;
  og_valid : ToolOutput_Validate (execution_output x) = Ok tt;
  og_schema : execution_failure x = None → ∀ schema, tools !! Call_Name c ≫= compiled_output = Some schema →
    ToolOutput_JSON (execution_output x) ≠ "" ∧
    is_ok (validateJSON schema (ToolOutput_JSON (execution_output x))) = true;
}.

Lemma length_pos_nonempty (t : string) : Z.of_nat (String.length t) = 0 ↔ t = "".
Proof. destruct t; cbn; [done|]. split; [lia | done]. Qed.

Lemma error_payload_nonempty code message : error_payload code message ≠ "".
Proof. done. Qed.

(** The output made for a failure is always valid. *)
Lemma failure_output_good request tools c x :
  Classification_Validate (Loop_ToolErrorClassification request) = Ok tt →
  failure_ok request c x → execution_failure x ≠ None → output_good request tools c x.
Proof.
  intros Hc Hx Hf. split; [done | | by intros ?]. unfold failure_ok in Hx.
  destruct (execution_failure x) as [f|]; [|done]. destruct Hx as (_ & _ & _ & Hj & Hcl & Hcon).
  unfold ToolOutput_Validate. rewrite Hj, Hcl, Hcon, Hc. cbn [mbind result_bind].
  unfold bad_optional_json. rewrite error_payload_valid. cbn [negb andb].
  destruct (Z.eqb_spec (Z.of_nat (String.length (error_payload (Failure_Code f) (Failure_Message f)))) 0) as [H1|H1].
  { by apply length_pos_nonempty in H1. }
  cbn [andb negb require mbind result_bind]. by rewrite andb_false_r.
Qed.

(** How finalizing a result ends: no execution, every middleware in order
    before a success, and an output that may be returned. *)
Definition finalized (request : Request) (tools : gmap string compiledTool) (c : ToolCall) (s : LoopState)
    (r : ending toolExecution * LoopState) : Prop :=
  ∃ x l, r = (Done x, after_calls s l) ∧ Forall (fun k => tool_side_call k = true) l ∧ executes l = 0%nat ∧
    output_good request tools c x ∧ (execution_failure x = None → processed l = Loop_Middleware request).

Lemma finalizeToolResult_ends request turn c tools output s :
  Classification_Validate (Loop_ToolErrorClassification request) = Ok tt →
  finalized request tools c s (finalizeToolResult request turn c tools output s).
Proof.
  intros Hc. unfold finalizeToolResult, recover.
  destruct (run_middleware_ends (invocation_of request turn c) (Loop_Middleware request) output s) as (r & l & E & Hl & Hn & Hr).
  assert (∀ code message cause, finalized request tools c s
    (Done (failedExecution request (invocation_of request turn c) code message cause), after_calls s l)) as Hfail.
  { intros code message cause. eexists _, l. split; [reflexivity|]. split_and!; [done..| |done].
    by apply failure_output_good; [| apply failedExecution_ok |]. }
  unfold mbind, lm_bind. rewrite E. destruct r as [[o|e]| |v|]; [| |done| |done]; [|apply Hfail..].
  destruct (ToolOutput_Validate o) as [[]|e] eqn:Hv; [|apply Hfail].
  assert ((∀ schema, option_bind _ _ compiled_output (tools !! Call_Name c) = Some schema →
      ToolOutput_JSON o ≠ "" ∧ is_ok (validateJSON schema (ToolOutput_JSON o)) = true) →
    finalized request tools c s (Done {| execution_output := ToolOutput_Clone o; execution_failure := None |}, after_calls s l)) as Hdone.
  { intros Hs. eexists _, l. split; [reflexivity|]. rewrite ToolOutput_Clone_id. by split_and!; [..|split|]. }
  destruct (option_bind _ _ compiled_output (tools !! Call_Name c)) as [schema|]; [|by apply Hdone].
  destruct (Z.eqb_spec (Z.of_nat (String.length (ToolOutput_JSON o))) 0) as [H1|H1]; [apply Hfail|].
  rewrite length_pos_nonempty in H1. destruct (validateJSON schema (ToolOutput_JSON o)) eqn:Hj; [|apply Hfail].
  apply Hdone. intros schema' [= <-]. by rewrite Hj.
Qed.

(** A step of the finalizing loops. *)
Lemma finalize_ends request turn c tools x s :
  Classification_Validate (Loop_ToolErrorClassification request) = Ok tt → failure_ok request c x →
  ∃ x' l, finalize request turn c tools x s = (Done x', after_calls s l) ∧
    Forall (fun k => tool_side_call k = true) l ∧ executes l = 0%nat ∧ output_good request tools c x'.
Proof.
  intros Hc Hx. unfold finalize. destruct (execution_failure x) as [f|] eqn:Hf.
  - exists x, []. rewrite after_calls_nil. split_and!; [done | constructor | done |].
    apply failure_output_good; [done..|congruence].
  - destruct (finalizeToolResult_ends request turn c tools (execution_output x) s Hc) as (x' & l & ? & ? & ? & ? & _). eauto 10.
Qed.

(* ------------------------------------------------------------------ *)
(** ** Batches *)

(** What a loop over the calls gives: finalized executions, one for each call from
    the first; all of them, or fewer when it was interrupted. *)
Definition batch_finalized (request : Request) (tools : gmap string compiledTool) (calls : list ToolCall)
    (xs : list toolExecution) (err : option error) (s' : LoopState) : Prop :=
  Forall2 (output_good request tools) (take (length xs) calls) xs ∧
  match err with None => length xs = length calls | Some _ => (length xs < length calls)%nat ∧ interrupted s' end.

Lemma batch_finalized_cons request tools c calls x xs err s' :
  output_good request tools c x → batch_finalized request tools calls xs err s' → batch_finalized request tools (c :: calls) (x :: xs) err s'.
Proof. intros Hx [Hxs He]. split; [by constructor|]. destruct err; cbn; [split; [|apply He]|]; lia. Qed.

Lemma batch_finalized_interrupted request tools c calls e s' : interrupted s' → batch_finalized request tools (c :: calls) [] (Some e) s'.
Proof. intros Hi. split; [constructor|]. split; [cbn; lia | exact Hi]. Qed.

(** How a batch ends; at most one execution of each call. *)
Lemma batch_sequential_ends request turn tools calls s :
  Classification_Validate (Loop_ToolErrorClassification request) = Ok tt →
  ∃ xs err s', batch_sequential request turn tools calls s = (Done (xs, err), s') ∧
    batch_frame (length calls) s s' ∧ batch_finalized request tools calls xs err s'.
Proof.
  intros Hc. revert s. induction calls as [|c calls IH]; intros s; cbn [batch_sequential].
  { eexists _, _, s. split; [reflexivity|]. split; [apply batch_frame_refl | split; [constructor | done]]. }
  unfold mbind, lm_bind.
  destruct (attempt contextResult s) as [r s1] eqn:E1. destruct (contextResult_frame _ _ _ E1) as [(o & -> & Ho) F1].
  destruct o as [u|e].
  2: { eexists _, _, s1. split; [reflexivity|]. split; [by eapply batch_frame_weaken; [|exact F1]; lia | by eapply batch_finalized_interrupted, Ho]. }
  destruct (executeTool_ends request turn c tools s1) as (x & l2 & E2 & Hl2 & Hn2 & Hx & _). rewrite E2.
  destruct (finalize_ends request turn c tools x (after_calls s1 l2) Hc Hx) as (x' & l3 & E3 & Hl3 & Hn3 & Hx'). rewrite E3.
  destruct (IH (after_calls (after_calls s1 l2) l3)) as (xs & err & s' & E4 & F4 & Hxs). rewrite E4. cbn.
  eexists _, _, s'. split; [reflexivity|]. split; [|by apply batch_finalized_cons].
  apply (batch_frame_trans 0 (S (length calls)) _ _ _ F1), (batch_frame_trans 1 (length calls) _ (after_calls s1 l2));
    [by apply batch_frame_after_calls|].
  apply (batch_frame_trans 0 (length calls) _ (after_calls (after_calls s1 l2) l3)); [|exact F4].
  apply batch_frame_after_calls; [done | lia].
Qed.

Lemma finalize_all_ends request turn tools work s :
  Classification_Validate (Loop_ToolErrorClassification request) = Ok tt →
  Forall (fun w => failure_ok request w.1 w.2) work →
  ∃ xs err s', finalize_all request turn tools work s = (Done (xs, err), s') ∧
    batch_frame 0 s s' ∧ batch_finalized request tools work.*1 xs err s'.
Proof.
  intros Hc Hw. revert s. induction Hw as [|[c x] work Hx Hw IH]; intros s; cbn [finalize_all].
  { eexists _, _, s. split; [reflexivity|]. split; [apply batch_frame_refl | split; [constructor | done]]. }
  unfold mbind, lm_bind.
  destruct (attempt contextResult s) as [r s1] eqn:E1. destruct (contextResult_frame _ _ _ E1) as [(o & -> & Ho) F1].
  destruct o as [u|e].
  2: { eexists _, _, s1. split; [reflexivity|]. split; [done | by eapply batch_finalized_interrupted, Ho]. }
  destruct (finalize_ends request turn c tools x s1 Hc Hx) as (x' & l3 & E3 & Hl3 & Hn3 & Hx'). rewrite E3.
  destruct (IH (after_calls s1 l3)) as (xs & err & s' & E4 & F4 & Hxs). rewrite E4. cbn.
  eexists _, _, s'. split; [reflexivity|]. split; [|by apply batch_finalized_cons].
  apply (batch_frame_trans 0 0 _ _ _ F1), (batch_frame_trans 0 0 _ (after_calls s1 l3)); [|exact F4].
  apply batch_frame_after_calls; [done | lia].
Qed.


Lemma run_goroutines_ends request turn tools calls order results s :
  Forall2 (failure_ok request) calls results →
  ∃ results' s', run_goroutines request turn tools calls order results s = (Done results', s') ∧
    batch_frame (length order) s s' ∧ Forall2 (failure_ok request) calls results'.
Proof.
  revert results s. induction order as [|i order IH]; intros results s Hr; cbn [run_goroutines].
  { exists results, s. split_and!; [done | apply batch_frame_refl | done]. }
  destruct (calls !! i) as [c|] eqn:Hi.
  2: { destruct (IH results s Hr) as (results' & s' & E & F & Hr'). exists results', s'. split_and!; [done | | done].
       by eapply batch_frame_weaken; [|exact F]; cbn; lia. }
  unfold mbind, lm_bind. destruct (executeTool_ends request turn c tools s) as (x & l & E & Hl & Hn & Hx & _). rewrite E.
  destruct (IH (<[i := x]> results) (after_calls s l)) as (results' & s' & E' & F & Hr').
  { rewrite <-(list_insert_id calls i c) by done. by apply Forall2_insert. }
  exists results', s'. split_and!; [done | | done].
  by apply (batch_frame_trans 1 (length order) _ (after_calls s l)); [apply batch_frame_after_calls|].
Qed.

Lemma goroutine_order_perm h n : goroutine_order h n ≡ₚ seq 0 n.
Proof. unfold goroutine_order. by case_decide. Qed.

(** All goroutines have run, and nothing else. *)
Definition unprocessed (request : Request) (turn : Z) (calls : list ToolCall) (tools : gmap string compiledTool)
    (s : LoopState) (xs : list toolExecution) : Prop :=
  ∃ s1, run_goroutines request turn tools calls (goroutine_order (history s) (length calls))
          (replicate (length calls) zero_execution) s = (Done xs, s1).

Lemma executeBatch_ends request turn calls tools s :
  Classification_Validate (Loop_ToolErrorClassification request) = Ok tt →
  ∃ xs err s', executeBatch request turn calls tools s = (Done (xs, err), s') ∧
    batch_frame (length calls) s s' ∧
    (batch_finalized request tools calls xs err s' ∨
     parallel_batch request calls tools = true ∧ err ≠ None ∧ interrupted s' ∧ unprocessed request turn calls tools s xs).
Proof.
  intros Hc. unfold executeBatch, unprocessed. destruct (parallel_batch request calls tools); cbn [negb].
  2: { destruct (batch_sequential_ends request turn tools calls s Hc) as (xs & err & s' & E & F & Hxs).
       exists xs, err, s'. split_and!; [done | done | by left]. }
  unfold mbind, lm_bind, lm_get.
  destruct (run_goroutines_ends request turn tools calls (goroutine_order (history s) (length calls))
    (replicate (length calls) zero_execution) s) as (results & s1 & E1 & F1 & Hr).
  { clear. induction calls; cbn; by constructor. }
  rewrite E1. rewrite (Permutation_length (goroutine_order_perm _ _)), length_seq in F1.
  destruct (attempt contextResult s1) as [r s2] eqn:E2. destruct (contextResult_frame _ _ _ E2) as [(o & -> & Ho) F2].
  destruct o as [u|e].
  2: { exists results, (Some e), s2. split_and!; [done | | right; split_and!; [done..| by eapply Ho | by eexists]].
       eapply batch_frame_weaken; [|exact (batch_frame_trans _ _ _ _ _ F1 F2)]; lia. }
  destruct (finalize_all_ends request turn tools (combine calls results) s2 Hc) as (xs & err & s3 & E3 & F3 & Hxs).
  { clear -Hr. induction Hr; by constructor. }
  assert ((combine calls results).*1 = calls) as Hfst by (clear -Hr; induction Hr; cbn; by f_equal).
  rewrite Hfst in Hxs. exists xs, err, s3. split_and!; [done | | by left].
  eapply batch_frame_weaken; [|exact (batch_frame_trans _ _ _ _ _ F1 (batch_frame_trans _ _ _ _ _ F2 F3))]; lia.
Qed.

(* ------------------------------------------------------------------ *)
(** ** The tool message *)

Lemma ToolOutput_Validate_Ok o :
  ToolOutput_Validate o = Ok tt →
  Classification_Validate (ToolOutput_Classification o) = Ok tt ∧
  (ToolOutput_JSON o ≠ "" ∨ ToolOutput_Content o ≠ []) ∧ bad_optional_json (ToolOutput_JSON o) = false ∧
  Forall (fun part => ContentPart_Validate part = Ok tt ∧
    Part_Type part ∈ [ContentText; ContentImage; ContentDocument; ContentArtifact]) (ToolOutput_Content o).
Proof.
  unfold ToolOutput_Validate. rewrite !seq_Ok, !require_Ok, negb_true_iff, andb_false_iff, !Z.eqb_neq, length_pos_nonempty, negb_true_iff.
  intros (Hc & Hne & Hj & Hp). split_and!; [done | | done |].
  - destruct Hne as [|Hne]; [by left | right; intros E; by rewrite E in Hne].
  - apply each_Ok in Hp. eapply Forall_impl; [exact Hp|]. intros part Hpart. cbn in Hpart.
    apply seq_Ok in Hpart as [Hv Ht]. rewrite wrapf_Ok in Hv. by rewrite one_of_Ok in Ht.
Qed.

(** The parts of an output keep its validity when they are tied to the call. *)
Lemma part_valid_tied c part :
  ContentPart_Validate part = Ok tt → Part_Type part ∈ [ContentText; ContentImage; ContentDocument; ContentArtifact] →
  ContentPart_Validate {| part with Part_ToolCallID := Call_ID c; Part_ToolName := Call_Name c |} = Ok tt.
Proof.
  unfold ContentPart_Validate. cbn. intros Hv Ht.
  rewrite !elem_of_cons in Ht. destruct Ht as [E|[E|[E|[E|E]]]]; [..|by apply not_elem_of_nil in E];
    rewrite E in Hv |- *; exact Hv.
Qed.

Lemma outputParts_valid c o :
  Call_ID c ≠ "" → ToolOutput_Validate o = Ok tt →
  outputParts c o ≠ [] ∧
  Forall (fun part => ContentPart_Validate part = Ok tt ∧ Part_ToolCallID part = Call_ID c) (outputParts c o).
Proof.
  intros Hid Ho. apply ToolOutput_Validate_Ok in Ho as (Hc & Hne & Hj & Hp). unfold outputParts.
  rewrite CloneContentParts_id. split.
  - destruct Hne as [Hne|Hne].
    + destruct (Z.ltb_spec 0 (Z.of_nat (String.length (ToolOutput_JSON o)))); [done|].
      by destruct (ToolOutput_JSON o); cbn in *; [|lia].
    + destruct (ToolOutput_Content o); [done|]. by destruct (0 <? _).
  - apply Forall_app. split.
    + destruct (0 <? _); [|constructor]. apply Forall_singleton. split; [|done].
      unfold ContentPart_Validate. cbn [Part_Classification Part_Type Part_ToolCallID Part_JSON]. rewrite Hc.
      apply seqb_false in Hid. cbn [mbind result_bind]. rewrite Hid, Hj. reflexivity.
    + apply Forall_fmap. eapply Forall_impl; [exact Hp|]. intros part [Hv Ht]. split; [|done]. by apply part_valid_tied.
Qed.

(** The content of the tool message, from the calls and their executions. *)
Definition tool_content (calls : list ToolCall) (xs : list toolExecution) : list ContentPart :=
  concat (zip_with (fun c x => outputParts c (execution_output x)) calls xs).

Lemma tool_content_valid request tools calls xs :
  Forall (fun c => Call_ID c ≠ "") calls → Forall2 (output_good request tools) calls xs →
  (calls ≠ [] → tool_content calls xs ≠ []) ∧
  Forall (fun part => ContentPart_Validate part = Ok tt ∧ Part_ToolCallID part ∈ Call_ID <$> calls) (tool_content calls xs).
Proof.
  intros Hid Hx. unfold tool_content. induction Hx as [|c x calls xs Hcx Hx IH]; [done|].
  apply Forall_cons in Hid as [Hc Hid]. destruct (IH Hid) as [_ IHf]. cbn.
  destruct (outputParts_valid c _ Hc (og_valid _ _ _ _ Hcx)) as [Hne Hf]. split.
  - intros _ E. by apply app_eq_nil in E as [E _].
  - apply Forall_app. split.
    + eapply Forall_impl; [exact Hf|]. intros part [Hv ->]. split; [done | by left].
    + eapply Forall_impl; [exact IHf|]. intros part [Hv Hin]. split; [done | by right].
Qed.

(* ------------------------------------------------------------------ *)
(** ** Tools whose answers do not depend on when they are called *)

(** Tools and middleware answer the same at any time, and no context ends. *)
Record tools_pure : Prop := {
  pure_execute : ∀ h h' k i, execute h k i = execute h' k i;
  pure_process : ∀ h h' m i o, process h m i o = process h' m i o;
  pure_live : ∀ h, obs_loop (observe h) = None;
}.

(** What one call gives on its own. *)
Definition tool_result (request : Request) (turn : Z) (tools : gmap string compiledTool) (s : LoopState) (c : ToolCall)
    : toolExecution :=
  match (x ← executeTool request turn c tools; finalize request turn c tools x) s with
  | (Done x, _) => x
  | _ => zero_execution
  end.

Lemma executeTool_pure request turn c tools s1 s2 :
  tools_pure → fst (executeTool request turn c tools s1) = fst (executeTool request turn c tools s2).
Proof.
  intros [He _ _]. unfold executeTool, recover. destruct (tools !! Call_Name c) as [tool|]; [|done].
  destruct (validateJSON _ _); [|done]. destruct (Binding_Handler (compiled_binding tool)) as [k|]; [|done].
  unfold mbind, lm_bind, call, perform. cbn. rewrite (He (history s2) (history s1)).
  destruct (execute (history s1) k (invocation_of request turn c)) as [[o|e]|v]; [done| |done].
  by destruct (NormalizeToolError (Some e)).
Qed.

Lemma run_middleware_pure invocation middleware output s1 s2 :
  tools_pure → fst (run_middleware invocation middleware output s1) = fst (run_middleware invocation middleware output s2).
Proof.
  intros [_ Hp _]. revert output s1 s2. induction middleware as [|[m|] middleware IH]; intros output s1 s2; [done| |done].
  cbn [run_middleware deref]. unfold mbind, lm_bind, call, perform. cbn [mret lm_ret].
  rewrite (Hp (history s2) (history s1)).
  by destruct (process (history s1) m invocation (ToolOutput_Clone output)) as [[o|e]|v]; [apply IH | |].
Qed.

Lemma finalize_pure request turn c tools x s1 s2 :
  tools_pure → fst (finalize request turn c tools x s1) = fst (finalize request turn c tools x s2).
Proof.
  intros Hp. unfold finalize. destruct (execution_failure x); [done|].
  unfold finalizeToolResult, recover. unfold mbind, lm_bind.
  pose proof (run_middleware_pure (invocation_of request turn c) (Loop_Middleware request) (execution_output x) s1 s2 Hp) as E.
  destruct (run_middleware _ _ _ s1) as [r1 t1], (run_middleware _ _ _ s2) as [r2 t2]. cbn in E. subst r2.
  destruct r1 as [[o|e]| | |]; try done. destruct (ToolOutput_Validate o); [|done].
  destruct (option_bind _ _ compiled_output (tools !! Call_Name c)); [|done].
  destruct (_ =? 0); [done|]. by destruct (validateJSON _ _).
Qed.

Lemma contextResult_ended s :
  obs_loop (observe (history s)) ≠ None →
  ∃ e s', attempt contextResult s = (Done (Err e), s') ∧ history s' = history s ++ [CallContext].
Proof.
  unfold attempt, contextResult, mbind, lm_bind, call, perform. cbn.
  destruct (obs_loop (observe (history s))) as [e|]; [|done]. intros _. destruct (_ && _); cbn; by eexists _, _.
Qed.

Lemma contextResult_live s : tools_pure → attempt contextResult s = (Done (Ok tt), after_calls s [CallContext]).
Proof.
  intros [_ _ Hl]. unfold attempt, contextResult, mbind, lm_bind, call, perform. cbn. by rewrite Hl.
Qed.

(** The result of a handler, not finalized. *)
Definition raw_result (request : Request) (turn : Z) (tools : gmap string compiledTool) (c : ToolCall) (x : toolExecution) : Prop :=
  ∃ s s', executeTool request turn c tools s = (Done x, s').

Lemma finalize_raw_pure request turn c tools s0 x :
  Classification_Validate (Loop_ToolErrorClassification request) = Ok tt → tools_pure → raw_result request turn tools c x →
  ∀ s', ∃ s'', finalize request turn c tools x s' = (Done (tool_result request turn tools s0 c), s'').
Proof.
  intros Hc Hp (s & s1 & E1) s'.
  destruct (executeTool_ends request turn c tools s0) as (x0 & l0 & E0 & _ & _ & Hx & _).
  pose proof (executeTool_pure request turn c tools s0 s Hp) as E. rewrite E0, E1 in E. injection E as ->.
  destruct (finalize_ends request turn c tools x s' Hc Hx) as (x' & l2 & E2 & _). rewrite E2. eexists. f_equal. f_equal.
  unfold tool_result, mbind, lm_bind. rewrite E0.
  pose proof (finalize_pure request turn c tools x s' (after_calls s0 l0) Hp) as E. rewrite E2 in E. cbn in E.
  destruct (finalize request turn c tools x (after_calls s0 l0)) as [r t]. cbn in E. by subst r.
Qed.

Lemma batch_sequential_pure request turn tools s0 calls s :
  Classification_Validate (Loop_ToolErrorClassification request) = Ok tt → tools_pure →
  fst (batch_sequential request turn tools calls s) = Done (tool_result request turn tools s0 <$> calls, None).
Proof.
  intros Hc Hp. revert s. induction calls as [|c calls IH]; intros s; [done|]. cbn [batch_sequential].
  unfold mbind at 1, lm_bind. rewrite contextResult_live by done.
  unfold mbind at 1, lm_bind.
  destruct (executeTool_ends request turn c tools (after_calls s [CallContext])) as (x & l1 & E1 & _). rewrite E1.
  destruct (finalize_raw_pure request turn c tools s0 x Hc Hp (ex_intro _ _ (ex_intro _ _ E1))
    (after_calls (after_calls s [CallContext]) l1)) as [s2 E2].
  unfold mbind at 1, lm_bind. rewrite E2. unfold mbind, lm_bind.
  specialize (IH s2). destruct (batch_sequential request turn tools calls s2) as [r t]. cbn in IH. by subst r.
Qed.

(** Every goroutine writes its own result, in any order. *)
Lemma run_goroutines_raw request turn tools calls order results s :
  length results = length calls →
  ∃ results' l, run_goroutines request turn tools calls order results s = (Done results', after_calls s l) ∧
    length results' = length calls ∧ processed l = [] ∧
    ∀ i c, calls !! i = Some c →
      (i ∈ order → ∃ x, results' !! i = Some x ∧ raw_result request turn tools c x) ∧
      (i ∉ order → results' !! i = results !! i).
Proof.
  revert results s. induction order as [|j order IH]; intros results s Hlen; cbn [run_goroutines].
  { exists results, []. rewrite after_calls_nil. split_and!; [done..|]. intros i c _. split; [by intros ?%not_elem_of_nil | done]. }
  destruct (calls !! j) as [cj|] eqn:Hj.
  2: { destruct (IH results s Hlen) as (results' & l & E & Hl & Hn & Hr). exists results', l. split_and!; [done..|].
       intros i c Hi. destruct (Hr i c Hi) as [H1 H2]. split.
       - intros [->|Hin]%elem_of_cons; [congruence | by apply H1].
       - intros Hnin. apply H2. set_solver. }
  destruct (executeTool_ends request turn cj tools s) as (x & l1 & E1 & _ & _ & _ & Hn1).
  unfold mbind, lm_bind. rewrite E1.
  destruct (IH (<[j := x]> results) (after_calls s l1)) as (results' & l & E & Hl & Hn & Hr); [by rewrite length_insert|].
  exists results', (l1 ++ l). rewrite <-after_calls_app, processed_app, Hn1, Hn. split_and!; [done..|].
  intros i c Hi. destruct (Hr i c Hi) as [H1 H2]. split.
  - intros Hin. destruct (decide (i ∈ order)) as [Ho|Ho]; [by apply H1|].
    apply elem_of_cons in Hin as [->|Hin]; [|done]. rewrite (H2 Ho). simplify_eq. exists x. split.
    + apply list_lookup_insert_eq. rewrite Hlen. by eapply lookup_lt_Some.
    + by eexists _, _.
  - intros Hnin. rewrite H2 by set_solver. apply list_lookup_insert_ne. set_solver.
Qed.

(** After all of them, every result is the one of its call. *)
Lemma all_goroutines_raw request turn tools calls s :
  ∃ results l, run_goroutines request turn tools calls (goroutine_order (history s) (length calls))
      (replicate (length calls) zero_execution) s = (Done results, after_calls s l) ∧
    processed l = [] ∧ Forall2 (raw_result request turn tools) calls results.
Proof.
  destruct (run_goroutines_raw request turn tools calls (goroutine_order (history s) (length calls))
    (replicate (length calls) zero_execution) s) as (results & l & E & Hl & Hn & Hr); [by rewrite length_replicate|].
  exists results, l. split_and!; [done..|]. apply Forall2_same_length_lookup_2; [done|]. intros i c x Hi Hx.
  destruct (Hr i c Hi) as [H1 _]. destruct H1 as (x' & Hx' & Hf).
  { rewrite goroutine_order_perm. apply elem_of_seq. apply lookup_lt_Some in Hi. lia. }
  by simplify_eq.
Qed.

Lemma finalize_all_pure request turn tools s0 calls results s :
  tools_pure → Forall2 (fun c x => ∀ s', ∃ s'',
    finalize request turn c tools x s' = (Done (tool_result request turn tools s0 c), s'')) calls results →
  fst (finalize_all request turn tools (combine calls results) s) = Done (tool_result request turn tools s0 <$> calls, None).
Proof.
  intros Hp Hr. revert s. induction Hr as [|c x calls results Hx Hr IH]; intros s; [done|]. cbn [combine finalize_all].
  unfold mbind at 1, lm_bind. rewrite contextResult_live by done.
  destruct (Hx (after_calls s [CallContext])) as [s2 E2]. unfold mbind at 1, lm_bind. rewrite E2. unfold mbind, lm_bind.
  specialize (IH s2). destruct (finalize_all request turn tools (combine calls results) s2) as [r t]. cbn in IH. by subst r.
Qed.

Lemma executeBatch_pure request turn calls tools s0 s :
  Classification_Validate (Loop_ToolErrorClassification request) = Ok tt → tools_pure →
  fst (executeBatch request turn calls tools s) = Done (tool_result request turn tools s0 <$> calls, None).
Proof.
  intros Hc Hp. unfold executeBatch. destruct (parallel_batch request calls tools); cbn [negb].
  2: { by apply batch_sequential_pure. }
  unfold mbind, lm_bind, lm_get.
  destruct (all_goroutines_raw request turn tools calls s) as (results & l & E1 & _ & Hr).
  rewrite E1, contextResult_live by done. apply finalize_all_pure; [done|].
  eapply Forall2_impl; [exact Hr|]. intros c x Hx s'. by apply finalize_raw_pure.
Qed.

End tools.

(* ------------------------------------------------------------------ *)
(** ** Properties *)

(** C29. A batch of tools always returns, whatever the handlers and middleware do,
    panics included, and executes each call at most once.  Without an error it has
    one execution for each call, in call order; each has a valid output, which the
    tool's output schema accepts or which is flagged as the failure of exactly that
    call, and the tool message made of them is valid, so the loop's check of it
    never fails.  An error means that the context of the loop was seen to have
    ended, and then the batch has such executions for the first calls only, or, if
    it is parallel and ended before any was finalized, what every tool answered. *)
Theorem executeBatch_outputs `{Collaborators} request turn calls tools s :
  Classification_Validate (Loop_ToolErrorClassification request) = Ok tt →
  Forall (fun c => Call_ID c ≠ "") calls → calls ≠ [] →
  ∃ xs err s', executeBatch request turn calls tools s = (Done (xs, err), s') ∧ batch_frame (length calls) s s' ∧
    match err with
    | None =>
        Forall2 (output_good request tools) calls xs ∧
        Message_Validate {| Message_Role := RoleTool; Message_Content := tool_content calls xs |} = Ok tt ∧
        Forall (fun part => Part_ToolCallID part ∈ Call_ID <$> calls) (tool_content calls xs)
    | Some _ =>
        interrupted s' ∧
        ((length xs < length calls)%nat ∧ Forall2 (output_good request tools) (take (length xs) calls) xs ∨
         parallel_batch request calls tools = true ∧ Forall2 (raw_result request turn tools) calls xs)
    end.
Proof.
  intros Hc Hid Hne. destruct (executeBatch_ends request turn calls tools s Hc) as (xs & err & s' & E & F & Hx).
  exists xs, err, s'. split_and!; [done..|]. destruct err as [e|].
  { destruct Hx as [(Hx & Hlen & Hi)|(Hp & _ & Hi & s1 & Hraw)]; (split; [exact Hi|]); [by left | right].
    destruct (all_goroutines_raw request turn tools calls s) as (results & l & E1 & _ & Hr). rewrite E1 in Hraw. by injection Hraw as <- _. }
  destruct Hx as [[Hx Hlen]|(_ & He & _)]; [|done]. rewrite Hlen, firstn_all in Hx.
  destruct (tool_content_valid request tools calls xs Hid Hx) as [H1 H2].
  split_and!; [done | | by eapply Forall_impl; [exact H2|]; intros part []].
  unfold Message_Validate. cbn [Message_Role Message_Content].
  change (one_of _ RoleTool _) with (Ok tt). cbn [mbind result_bind].
  apply seq_Ok. split.
  - apply require_Ok, negb_true_iff, Z.eqb_neq. specialize (H1 Hne).
    destruct (tool_content calls xs); cbn; [done | lia].
  - apply each_Ok. eapply Forall_impl; [exact H2|]. intros part [Hv _]. by rewrite Hv.
Qed.

(** Running a batch in parallel changes nothing but the order of the calls: for
    tools and middleware whose answers do not depend on it, the batch gives, in
    call order, exactly what each call gives on its own, for every order in
    which the goroutines run and whether the batch is parallel or not. *)
Theorem executeBatch_parallel_sequential `{Collaborators} request turn calls tools s s0 parallel :
  Classification_Validate (Loop_ToolErrorClassification request) = Ok tt → tools_pure →
  fst (executeBatch {| request with Loop_ParallelTools := parallel |} turn calls tools s)
  = Done (tool_result request turn tools s0 <$> calls, None).
Proof. intros Hc Hp. exact (executeBatch_pure {| request with Loop_ParallelTools := parallel |} turn calls tools s0 s Hc Hp). Qed.

(** A parallel batch whose context has ended when its last tool returns gives
    what the handlers answered as it is: no middleware and no check of the
    outputs has run, and yet there is an execution for every call, which the
    turn then records as completed.  (A sequential batch has only finalized
    executions.) *)
Theorem executeBatch_interrupted_raw `{Collaborators} request turn calls tools s :
  parallel_batch request calls tools = true →
  (∀ results l, run_goroutines request turn tools calls (goroutine_order (history s) (length calls))
      (replicate (length calls) zero_execution) s = (Done results, after_calls s l) →
     obs_loop (observe (history s ++ l)) ≠ None) →
  ∃ xs e s' l, executeBatch request turn calls tools s = (Done (xs, Some e), s') ∧ history s' = history s ++ l ∧
    processed l = [] ∧ Forall2 (raw_result request turn tools) calls xs.
Proof.
  intros Hp Hend. destruct (all_goroutines_raw request turn tools calls s) as (results & l & E1 & Hn & Hr).
  specialize (Hend results l E1). unfold executeBatch. rewrite Hp. cbn [negb]. unfold mbind, lm_bind, lm_get. rewrite E1.
  destruct (contextResult_ended (after_calls s l) Hend) as (e & s' & -> & Hh).
  exists results, e, s', (l ++ [CallContext]). rewrite processed_app, Hn. split_and!; [done | | done | done].
  by rewrite Hh, app_assoc.
Qed.

(* ------------------------------------------------------------------ *)
(** ** Witnesses *)

#[global] Instance example_carriers : Carriers :=
  {| Handler := string; Middleware := string; Selector := unit; Sink := unit; TurnProvider := string;
     StreamHandle := nat; Document := bytes; Schema := bytes |}.

Definition example_json : bytes := "1".
Definition example_output (json : bytes) : ToolOutput :=
  {| ToolOutput_JSON := json; ToolOutput_Content := []; ToolOutput_Classification := ClassInternal; ToolOutput_IsError := false |}.

(** The calls of the streams already received. *)
Definition receives (l : list Call) : nat :=
  length (List.filter (fun k => match k with CallRecv _ => true | _ => false end) l).

Definition example_call : ToolCall := {| Call_ID := "call-1"; Call_Name := "lookup"; Call_Input := "1" |}.

(** A model that asks for the tool once and then answers; [None] ends a stream. *)
Definition example_turns : list (option ModelEvent) :=
  let event := fun type n => example_event type n "" "" in
  let request := event ModelEventToolCall 2 in
  let stop := fun n reason => example_event ModelEventStop n "" reason in
  [Some (event ModelEventStart 1); Some {| request with ModelEvent_ToolCall := Some example_call |};
   Some (stop 3 StopToolUse); None;
   Some (event ModelEventStart 1); Some (example_event ModelEventTextDelta 2 "done" ""); Some (stop 3 StopEndTurn); None].

(** Collaborators that answer from [example_turns]; the middleware redacts, and
    the contexts end once [ends] holds of the history. *)
Definition example_collaborators (ends : list Call → bool) : Collaborators :=
  {| observe := fun h => if ends h then {| obs_loop := Some Canceled; obs_wall_time := false; obs_parent := Some Canceled |}
                         else {| obs_loop := None; obs_wall_time := false; obs_parent := None |};
     select := fun _ _ _ => Returns (Ok {| Selection_Messages := None; Selection_Provider := Some "p";
                 Selection_Model := {| ModelRef_Provider := "p"; ModelRef_Model := "m" |} |});
     provider_name := fun _ p => Returns p;
     provider_stream := fun h _ _ => Returns (Ok (Some (receives h)));
     recv := fun h _ => Returns (from_option Ok (Err io_EOF) (mjoin (example_turns !! receives h)));
     close_stream := fun _ _ => Returns None;
     execute := fun _ _ _ => Returns (Ok (example_output "2"));
     process := fun _ _ _ _ => Returns (Ok (example_output "null"));
     record := fun _ _ _ _ => Returns None;
     close_tool := fun _ _ => Returns None;
     schedule := fun _ n => rev (seq 0 n);
     unmarshal := fun raw => if json_Valid raw then Ok raw else Err (errors_New "invalid JSON");
     compile := fun document => Ok document;
     schema_validate := fun _ _ => Ok tt |}.

Definition example_binding : ToolBinding string :=
  {| Binding_Definition := {| Tool_SideEffecting := false; Tool_Name := "lookup"; Tool_Description := "";
       Tool_InputSchema := "1"; Tool_OutputSchema := ""; Tool_Strict := false |};
     Binding_Handler := Some "handler"; Binding_ParallelSafe := true |}.

Definition example_loop_request : LoopRequest string string unit unit :=
  {| Loop_Continuation := None; Loop_WorkloadID := "018bcfe5-687b-7bab-abab-abababababab";
     Loop_StepID := "018bcfe5-687b-7bab-abab-abababababab"; Loop_AttemptID := "018bcfe5-687b-7bab-abab-abababababab";
     Loop_Initial := example_model_request None; Loop_Tools := [example_binding]; Loop_Middleware := [Some "redact"];
     Loop_Selector := Some tt; Loop_Sink := Some tt;
     Loop_Budget := {| MaxSteps := 1; MaxInputTokens := 100; MaxOutputTokens := 100; MaxModelCalls := 3; MaxToolCalls := 3;
       MaxChildSteps := 0; MaxCost := 100; MaxWallTime := 1000 |};
     Loop_ParallelTools := true; Loop_ModelOutputClassification := ClassInternal;
     Loop_ToolErrorClassification := ClassInternal |}.

Definition example_tools : gmap string (compiledTool (H:=example_carriers)) :=
  {[ "lookup" := {| compiled_binding := example_binding; compiled_input := "1"; compiled_output := None |} ]}.

(** A state with nothing done yet. *)
Definition example_state : LoopState (H:=example_carriers) := refused_state.

Example executeBatch_outputs_witness :
  ∃ xs, fst (executeBatch (H0:=example_collaborators (fun _ => false)) example_loop_request 1 [example_call] example_tools example_state)
    = Done (xs, None) ∧ Message_Validate {| Message_Role := RoleTool; Message_Content := tool_content [example_call] xs |} = Ok tt.
Proof.
  destruct (executeBatch_outputs (H0:=example_collaborators (fun _ => false)) example_loop_request 1 [example_call] example_tools
    example_state eq_refl ltac:(by repeat constructor) ltac:(done)) as (xs & err & s' & E & _ & Hx).
  assert (fst (executeBatch (H0:=example_collaborators (fun _ => false)) example_loop_request 1 [example_call] example_tools example_state)
    = Done ([{| execution_output := example_output "null"; execution_failure := None |}], None)) as E'
    by (vm_compute; reflexivity).
  rewrite E in E'. cbn in E'. injection E' as -> ->. rewrite E. eexists. split; [reflexivity|]. by apply Hx.
Defined.

Example executeBatch_parallel_sequential_witness :
  fst (executeBatch (H0:=example_collaborators (fun _ => false)) {| example_loop_request with Loop_ParallelTools := true |} 1
         [example_call; {| example_call with Call_ID := "call-2" |}] example_tools example_state)
  = Done ([{| execution_output := example_output "null"; execution_failure := None |};
           {| execution_output := example_output "null"; execution_failure := None |}], None).
Proof.
  rewrite (executeBatch_parallel_sequential (H0:=example_collaborators (fun _ => false)) example_loop_request 1 _ example_tools
    example_state example_state true eq_refl).
  - vm_compute. reflexivity.
  - by split.
Defined.

Example executeBatch_interrupted_raw_witness :
  ∃ xs e s' l,
    executeBatch (H0:=example_collaborators (existsb is_execute)) example_loop_request 1 [example_call] example_tools example_state
      = (Done (xs, Some e), s') ∧ history s' = history example_state ++ l ∧ processed l = [].
Proof.
  destruct (executeBatch_interrupted_raw (H0:=example_collaborators (existsb is_execute)) example_loop_request 1 [example_call]
    example_tools example_state eq_refl) as (xs & e & s' & l & ? & ? & ? & _); [|by exists xs, e, s', l].
  intros results l E. vm_compute in E. apply (f_equal snd) in E. cbn in E.
  apply (f_equal history) in E. cbn in E. injection E as <-. vm_compute. discriminate.
Defined.

Example addUsage_exact_witness :
  snd (addUsage zero_Usage (Some {| zero_Usage with Usage_InputTokens := 7 |})) = None.
Proof.
  pose proof (addUsage_exact zero_Usage {| zero_Usage with Usage_InputTokens := 7 |} zero_Budget) as Hx.
  destruct (addUsage zero_Usage (Some {| zero_Usage with Usage_InputTokens := 7 |})) as [t err].
  destruct Hx as (H1 & _); [by repeat constructor | by repeat constructor | done |].
  apply H1. split; [done|]. by repeat constructor.
Defined.
