(* ===== verification/Execution.v ===== *)
(** * Execution records: src/execution_event.go, with the record types of
    src/lifecycle.go, src/context.go and src/sandbox.go

    The record of one step of an execution and the checks on it, given the
    records already applied. *)

From Stdlib Require Import ZArith Lia.
From S2P Require Import Prelude GoNum GoText GoJson GoHash Ident Domain Event Model Policy Routing LoopTypes.

Definition EventTypeExecutionRecorded : string := "execution.recorded".

Definition ExecutionPolicyEvaluated : string := "policy".
Definition ExecutionRoutingDecided : string := "routing".
Definition ExecutionLoopEvent : string := "loop".
Definition ExecutionFinished : string := "finished".
Definition ExecutionSandbox : string := "sandbox".
Definition ExecutionApproval : string := "approval".
Definition ExecutionBudget : string := "budget".
Definition ExecutionCleanup : string := "cleanup".
Definition ExecutionCompaction : string := "compaction".
Definition ExecutionRequest : string := "request".
Definition ExecutionResumed : string := "resumed".

(* ------------------------------------------------------------------ *)
(** ** Payloads *)

Record SandboxEvent : Type := {
  SandboxEvent_Phase : string;
  SandboxEvent_Backend : string;
  SandboxEvent_PartialEffects : bool;
}.

Record ApprovalRequest : Type := {
  Approval_Scope : PolicyScope;
  Approval_Manifest : ContentManifest;
}.

Record ApprovalDecision : Type := {
  Approval_Approved : bool;
  Approval_Actor : string;
  Approval_Reason : string;
}.

Record ApprovalRecord : Type := {
  Approval_Request : ApprovalRequest;
  Approval_Decision : ApprovalDecision;
}.

Record SpendBound : Type := {
  Spend_InputTokens : Z;
  Spend_OutputTokens : Z;
  Spend_Cost : CostMicros;
}.

Definition SpendBound_Validate (b : SpendBound) : result unit :=
  require (negb ((Spend_InputTokens b <? 0) || (Spend_OutputTokens b <? 0) || (Spend_Cost b <? 0)))
    "negative spend bound".

Record BudgetRecord : Type := {
  BudgetRecord_Reserved : SpendBound;
  BudgetRecord_Dimension : string;
}.

Record CleanupRecord : Type := {
  Cleanup_Failed : bool;
  Cleanup_Resource : string;
}.

Record CompactionRecord : Type := {
  Compaction_Inputs : list Message;
  Compaction_Summary : Message;
  Compaction_Excluded : list Z;
  Compaction_Model : ModelRef;
  Compaction_Usage : Usage;
  Compaction_BeforeTokens : Z;
  Compaction_AfterTokens : Z;
  Compaction_FirstEvent : Z;
  Compaction_LastEvent : Z;
}.

Record RoutingRecord : Type := {
  Routing_Request : RoutingRequest;
  Routing_Decision : RoutingDecision;
}.

Record ExecutionRecord : Type := {
  Exec_Record_StepID : ID;
  Exec_Record_Turn : Z;
  Exec_Record_Stage : string;
  Exec_Record_Classification : Classification;
  Exec_Record_Manifest : option ContentManifest;
  Exec_Record_Verdict : option PolicyVerdict;
  Exec_Record_Routing : option RoutingRecord;
  Exec_Record_Loop : option LoopEvent;
  Exec_Record_Result : option LoopResult;
  Exec_Record_FailureCode : string;
  Exec_Record_Sandbox : option SandboxEvent;
  Exec_Record_Approval : option ApprovalRecord;
  Exec_Record_Budget : option BudgetRecord;
  Exec_Record_Cleanup : option CleanupRecord;
  Exec_Record_Compaction : option CompactionRecord;
  Exec_Record_RequestSHA256 : string;
}.

(* ------------------------------------------------------------------ *)
(** ** The records already applied *)

(** What the loop over [p.Execution] remembers: the last loop event of the step
    and the last routing of this turn. *)
Record History : Type := {
  previousLoop : option LoopEvent;
  lastRouting : option RoutingRecord;
}.

Definition empty_history : History := {| previousLoop := None; lastRouting := None |}.

(** The newer value of an optional field, if it is set. *)
Definition newer {A} (o : option A) (old : option A) : option A := match o with Some x => Some x | None => old end.

Definition remember (turn : Z) (previous : ExecutionRecord) (h : History) : History :=
  {| previousLoop := newer (Exec_Record_Loop previous) (previousLoop h);
     lastRouting := if Exec_Record_Turn previous =? turn
                    then newer (Exec_Record_Routing previous) (lastRouting h) else lastRouting h |}.

Fixpoint scan_history (stepID : ID) (turn : Z) (execution : list ExecutionRecord) (h : History) : result History :=
  match execution with
  | [] => Ok h
  | previous :: rest =>
      if Exec_Record_StepID previous ≠s stepID then scan_history stepID turn rest h
      else if Exec_Record_Stage previous =s ExecutionFinished then Err (errors_New "execution already finished")
      else scan_history stepID turn rest (remember turn previous h)
  end.

(* ------------------------------------------------------------------ *)
(** ** The checks of each stage *)

(** The number of payloads of a record. *)
Definition payload_count (r : ExecutionRecord) : Z :=
  Z.of_nat (length (List.filter id
    [is_some (Exec_Record_Verdict r); is_some (Exec_Record_Routing r); is_some (Exec_Record_Loop r);
     is_some (Exec_Record_Result r); is_some (Exec_Record_Sandbox r); is_some (Exec_Record_Approval r);
     is_some (Exec_Record_Budget r); is_some (Exec_Record_Cleanup r); is_some (Exec_Record_Compaction r);
     Exec_Record_RequestSHA256 r ≠s ""])).

Definition missing (text : string) : result unit := Err (errors_New text).

Definition check_compaction (event : Event) (r : ExecutionRecord) : result unit :=
  match Exec_Record_Compaction r with
  | None => missing "invalid compaction range or counts"
  | Some c =>
      require (negb ((Compaction_FirstEvent c <? 1) || (Compaction_LastEvent c <? Compaction_FirstEvent c) ||
                     (Event_Sequence event <=? Compaction_LastEvent c) || (Compaction_BeforeTokens c <? 0) ||
                     (Compaction_AfterTokens c <? 0) || (Z.of_nat (length (Compaction_Inputs c)) =? 0)))
        "invalid compaction range or counts" ;;
      ModelRef_Validate (Compaction_Model c) ;;
      Usage_Validate (Compaction_Usage c) ;;
      Message_Validate (Compaction_Summary c) ;;
      each (fun message =>
        Message_Validate message ;;
        each (fun part => require (negb (classificationRank (Exec_Record_Classification r) <?
                                         classificationRank (Part_Classification part)))
                "compaction classification mismatch") (Message_Content message))
        (CloneMessages (Compaction_Inputs c) ++ [Compaction_Summary c])
  end.

Definition check_approval (workloadID : ID) (r : ExecutionRecord) : result unit :=
  match Exec_Record_Approval r with
  | None => missing "approval actor required"
  | Some a =>
      let scope := Approval_Scope (Approval_Request a) in
      let manifest := Approval_Manifest (Approval_Request a) in
      require (negb (Approval_Actor (Approval_Decision a) =s "")) "approval actor required" ;;
      PolicyScope_Validate scope ;;
      require (negb ((Scope_WorkloadID scope ≠s workloadID) || (Scope_StepID scope ≠s Exec_Record_StepID r)))
        "approval scope mismatch" ;;
      ContentManifest_Validate manifest ;;
      require (match ContentManifest_EffectiveClassification manifest with
               | Ok class => negb (class =s ClassSecret)
               | Err _ => true
               end) "secret approval forbidden"
  end.

Definition budget_dimensions : list string :=
  [""; "input_tokens"; "output_tokens"; "cost"; "steps"; "model_calls"; "tool_calls"; "wall_time"].

Definition check_budget (r : ExecutionRecord) : result unit :=
  match Exec_Record_Budget r with
  | None => missing "budget payload required"
  | Some b =>
      SpendBound_Validate (BudgetRecord_Reserved b) ;;
      one_of budget_dimensions (BudgetRecord_Dimension b) "invalid budget dimension"
  end.

Definition check_cleanup (r : ExecutionRecord) : result unit :=
  match Exec_Record_Cleanup r with
  | None => missing "cleanup resource required"
  | Some c => require (negb (Cleanup_Resource c =s "")) "cleanup resource required"
  end.

Definition check_sandbox (r : ExecutionRecord) : result unit :=
  match Exec_Record_Sandbox r with
  | None => missing "sandbox record requires backend"
  | Some s =>
      require (negb (SandboxEvent_Backend s =s "")) "sandbox record requires backend" ;;
      one_of ["established"; "denied"; "teardown"; "execution_completed"; "execution_failed"] (SandboxEvent_Phase s)
        "invalid sandbox lifecycle phase"
  end.

Definition check_policy (workloadID : ID) (event : Event) (r : ExecutionRecord) : result unit :=
  match Exec_Record_Verdict r, Exec_Record_Manifest r with
  | Some verdict, Some manifest =>
      PolicyVerdict_Validate verdict ;;
      digest ← ContentManifest_Digest manifest;
      require (negb ((digest ≠s Verdict_ManifestSHA256 verdict) ||
                     (Scope_WorkloadID (Verdict_Scope verdict) ≠s workloadID) ||
                     (Scope_StepID (Verdict_Scope verdict) ≠s Exec_Record_StepID r)))
        "policy record scope or manifest mismatch" ;;
      require (negb ((Scope_Kind (Verdict_Scope verdict) =s PolicyScopeExecution) &&
                     (Scope_AttemptID (Verdict_Scope verdict) ≠s Event_AttemptID event)))
        "policy attempt mismatch"
  | _, _ => missing "policy record requires verdict and manifest"
  end.

Definition check_routing `{Quoting} (workloadID : ID) (event : Event) (r : ExecutionRecord) : result unit :=
  match Exec_Record_Routing r with
  | None => missing "routing record requires a turn and decision"
  | Some routing =>
      let request := Routing_Request routing in
      require (negb (Exec_Record_Turn r <? 1)) "routing record requires a turn and decision" ;;
      RoutingDecision_Validate (Routing_Decision routing) request ;;
      require (negb ((Route_WorkloadID request ≠s workloadID) || (Route_StepID request ≠s Exec_Record_StepID r) ||
                     (Route_AttemptID request ≠s Event_AttemptID event))) "routing identity mismatch"
  end.

(** The model of a loop event is that of the placement routing selected. *)
Definition placement_matches (routing : RoutingRecord) (model : ModelRef) : bool :=
  existsb (fun c => (Cand_ID c =s Decision_SelectedCandidateID (Routing_Decision routing)) &&
                    ModelRef_eqb (Descriptor_Ref (Cand_Model c)) model)
    (Route_Candidates (Routing_Request routing)).

Definition check_placement (h : History) (loop : LoopEvent) : result unit :=
  match lastRouting h with
  | None => missing "loop activity lacks routing decision"
  | Some routing =>
      require (negb (ID_IsZero (Decision_SelectedCandidateID (Routing_Decision routing))))
        "loop activity lacks routing decision" ;;
      require (placement_matches routing (LoopEvent_Model loop)) "loop model differs from selected placement"
  end.

Definition check_checkpoint (h : History) (turn : Z) (loop : LoopEvent) : result unit :=
  match LoopEvent_Checkpoint loop, previousLoop h with
  | Some c, Some previous =>
      require (negb ((LoopEvent_Type previous ≠s LoopEventMessageAppended) ||
                     match LoopEvent_Message previous with
                     | None => true
                     | Some message => Message_Role message ≠s RoleTool
                     end ||
                     negb (LoopResult_ModelCalls c =? turn) || (LoopResult_ToolCalls c <? 1) ||
                     (LoopResult_Stop c ≠s StopToolUse))) "invalid turn checkpoint" ;;
      Usage_Validate (LoopResult_Usage c) ;;
      each Message_Validate (LoopResult_Messages c)
  | _, _ => missing "invalid turn checkpoint"
  end.

Definition loop_event_types : list string :=
  [LoopEventTurnStarted; LoopEventModel; LoopEventMessageAppended; LoopEventToolStarted; LoopEventToolCompleted;
   LoopEventStopped; LoopEventCheckpoint].

(** The sequence the next loop event must have. *)
Definition next_loop_sequence (h : History) : Z :=
  match previousLoop h with Some previous => wrapu64 (LoopEvent_Sequence previous + 1) | None => 1 end.

Definition check_loop (h : History) (r : ExecutionRecord) : result unit :=
  match Exec_Record_Loop r with
  | None => missing "invalid recorded loop event"
  | Some loop =>
      let type := LoopEvent_Type loop in
      require (negb ((LoopEvent_Sequence loop <? 1) || negb (LoopEvent_Turn loop =? Exec_Record_Turn r)))
        "invalid recorded loop event" ;;
      require (match previousLoop h with
               | Some previous => negb (LoopEvent_Type previous =s LoopEventStopped)
               | None => true
               end) "loop already stopped" ;;
      require (LoopEvent_Sequence loop =? next_loop_sequence h) "recorded loop sequence gap" ;;
      when (type ≠s LoopEventStopped) (check_placement h loop) ;;
      one_of loop_event_types type "unknown recorded loop event" ;;
      match LoopEvent_ModelEvent loop with Some e => ModelEvent_Validate e | None => Ok tt end ;;
      require (negb ((type =s LoopEventModel) && negb (is_some (LoopEvent_ModelEvent loop)))) "model event payload missing" ;;
      require (negb ((type =s LoopEventMessageAppended) && negb (is_some (LoopEvent_Message loop))))
        "message event payload missing" ;;
      when (type =s LoopEventCheckpoint) (check_checkpoint h (Exec_Record_Turn r) loop) ;;
      require (negb (((type =s LoopEventToolStarted) || (type =s LoopEventToolCompleted)) &&
                     negb (is_some (LoopEvent_ToolCall loop)))) "tool event payload missing" ;;
      match LoopEvent_Message loop with Some m => Message_Validate m | None => Ok tt end
  end.

Definition check_finished (r : ExecutionRecord) : result unit :=
  match Exec_Record_Result r with
  | None => missing "finished record requires result"
  | Some res => Usage_Validate (LoopResult_Usage res)
  end.

(** The switch on the stage. *)
Definition check_stage `{Quoting} (workloadID : ID) (event : Event) (h : History) (r : ExecutionRecord) : result unit :=
  let stage := Exec_Record_Stage r in
  if (stage =s ExecutionRequest) || (stage =s ExecutionResumed)
  then validateSHA256 "request digest" (Exec_Record_RequestSHA256 r)
  else if stage =s ExecutionCompaction then check_compaction event r
  else if stage =s ExecutionApproval then check_approval workloadID r
  else if stage =s ExecutionBudget then check_budget r
  else if stage =s ExecutionCleanup then check_cleanup r
  else if stage =s ExecutionSandbox then check_sandbox r
  else if stage =s ExecutionPolicyEvaluated then check_policy workloadID event r
  else if stage =s ExecutionRoutingDecided then check_routing workloadID event r
  else if stage =s ExecutionLoopEvent then check_loop h r
  else if stage =s ExecutionFinished then check_finished r
  else missing "unknown execution stage".

(** What [applyExecutionRecorded] checks of a decoded record once it found the
    workload and the step running. *)
Definition check_record `{Quoting} (workloadID : ID) (event : Event) (execution : list ExecutionRecord)
    (r : ExecutionRecord) : result unit :=
  ID_Validate (Event_AttemptID event) ;;
  require (Event_CorrelationID event =s workloadID) "execution correlation does not match workload" ;;
  h ← scan_history (Exec_Record_StepID r) (Exec_Record_Turn r) execution empty_history;
  require (negb (Exec_Record_Turn r <? 0)) "negative turn" ;;
  Classification_Validate (Exec_Record_Classification r) ;;
  require (payload_count r =? 1) "execution record must have exactly one payload" ;;
  check_stage workloadID event h r ;;
  require (negb ((Exec_Record_Stage r ≠s ExecutionPolicyEvaluated) && is_some (Exec_Record_Manifest r)))
    "unexpected manifest".

(* ------------------------------------------------------------------ *)
(** ** Lemmas on histories *)

(** The loop events recorded for a step, oldest first. *)
Definition loop_events (stepID : ID) (execution : list ExecutionRecord) : list LoopEvent :=
  omap Exec_Record_Loop (filter (fun r => Exec_Record_StepID r = stepID) execution).

Lemma loop_events_app stepID l1 l2 : loop_events stepID (l1 ++ l2) = loop_events stepID l1 ++ loop_events stepID l2.
Proof. unfold loop_events. by rewrite filter_app, omap_app. Qed.

Lemma loop_events_single stepID r :
  loop_events stepID [r] =
  if decide (Exec_Record_StepID r = stepID) then match Exec_Record_Loop r with Some e => [e] | None => [] end else [].
Proof.
  unfold loop_events. rewrite filter_cons, filter_nil. case_decide; [|done]. cbn. by destruct (Exec_Record_Loop r).
Qed.

(** A scan succeeds when the step has not finished, and finds its last loop event. *)
Lemma scan_history_Ok stepID turn execution h h' :
  scan_history stepID turn execution h = Ok h' →
  (∀ r, r ∈ execution → Exec_Record_StepID r = stepID → Exec_Record_Stage r ≠ ExecutionFinished) ∧
  previousLoop h' = match last (loop_events stepID execution) with Some e => Some e | None => previousLoop h end.
Proof.
  revert h. induction execution as [|r rest IH]; intros h; cbn [scan_history].
  { intros [= <-]. split; [set_solver | done]. }
  replace (r :: rest) with ([r] ++ rest) by done. rewrite loop_events_app, loop_events_single.
  destruct (String.eqb_spec (Exec_Record_StepID r) stepID) as [Es|Es]; cbn [negb].
  - rewrite decide_True by done. destruct (String.eqb_spec (Exec_Record_Stage r) ExecutionFinished); [done|].
    intros Hs. apply IH in Hs as [H1 H2]. split; [set_solver|]. rewrite H2, last_app.
    destruct (last (loop_events stepID rest)); [done|]. cbn [remember previousLoop newer].
    by destruct (Exec_Record_Loop r).
  - rewrite decide_False by done. intros Hs. apply IH in Hs as [H1 H2]. split; [set_solver | exact H2].
Qed.

(** Every stage demands its own payload, so that with exactly one payload set a
    loop event only occurs in a record of the loop stage. *)
Lemma check_stage_loop `{Quoting} workloadID event h r e u :
  check_stage workloadID event h r = Ok u → payload_count r = 1 → Exec_Record_Loop r = Some e →
  check_loop h r = Ok u.
Proof.
  intros Hc Hn He. unfold payload_count in Hn. rewrite He in Hn. cbn [is_some] in Hn.
  assert (∀ o1 o2 o3 o4 o5 o6 o7 o8 o9 : bool, Z.of_nat (length (List.filter id [o1; o2; true; o3; o4; o5; o6; o7; o8; o9])) = 1 →
    o1 = false ∧ o2 = false ∧ o3 = false ∧ o4 = false ∧ o5 = false ∧ o6 = false ∧ o7 = false ∧ o8 = false ∧ o9 = false) as Hone.
  { intros [] [] [] [] [] [] [] [] []; cbn; intros; lia || done. }
  apply Hone in Hn as (N1 & N2 & N3 & N4 & N5 & N6 & N7 & N8 & N9). clear Hone.
  assert (Exec_Record_RequestSHA256 r = "") as N9'.
  { apply negb_false_iff, String.eqb_eq in N9. done. }
  revert Hc. unfold check_stage, check_compaction, check_approval, check_budget, check_cleanup, check_sandbox,
    check_policy, check_routing, check_finished. rewrite N9'.
  repeat match goal with N : is_some ?o = false |- _ => destruct o; [discriminate N|]; clear N end.
  repeat (case_match; try done).
Qed.

(** The records of a projection: each passed the checks against those before it. *)
Definition execution_ok `{Quoting} (workloadID : ID) (execution : list ExecutionRecord) : Prop :=
  ∀ i r, execution !! i = Some r → ∃ event, check_record workloadID event (take i execution) r = Ok tt.

Section histories.
Context `{Quoting} (workloadID : ID).

Lemma execution_ok_snoc l r event :
  execution_ok workloadID l → check_record workloadID event l r = Ok tt → execution_ok workloadID (l ++ [r]).
Proof.
  intros Hl Hr i x. rewrite lookup_snoc. intros [Hx|[-> <-]].
  - pose proof (lookup_lt_Some _ _ _ Hx). rewrite take_app_le by lia. by apply Hl.
  - rewrite take_app_length. by exists event.
Qed.

Lemma check_record_inv event l r :
  check_record workloadID event l r = Ok tt →
  ∃ h, scan_history (Exec_Record_StepID r) (Exec_Record_Turn r) l empty_history = Ok h ∧
    payload_count r = 1 ∧ check_stage workloadID event h r = Ok tt.
Proof.
  unfold check_record. rewrite !seq_Ok, bind_Ok. intros (_ & _ & h & Hh & Hrest).
  rewrite !seq_Ok, !require_Ok, Z.eqb_eq in Hrest. exists h. tauto.
Qed.

(** Nothing is recorded for a step after its final record. *)
Lemma execution_finished l i j r r' :
  execution_ok workloadID l → l !! i = Some r → l !! j = Some r' → (i < j)%nat →
  Exec_Record_StepID r = Exec_Record_StepID r' → Exec_Record_Stage r ≠ ExecutionFinished.
Proof.
  intros Hl Hi Hj Hij Hs. destruct (Hl j r' Hj) as [event Hc].
  apply check_record_inv in Hc as (h & Hh & _). apply scan_history_Ok in Hh as [Hh _].
  apply Hh; [|done]. apply list_elem_of_lookup. exists i. by rewrite lookup_take_lt.
Qed.

(** The loop events of a step are numbered 1, 2, ... and none follows a stop. *)
Lemma execution_loop_sequence l stepID k e :
  execution_ok workloadID l → loop_events stepID l !! k = Some e →
  LoopEvent_Sequence e = Z.of_nat k + 1 ∧ Z.of_nat k + 1 < uint64_mod ∧
  (LoopEvent_Type e = LoopEventStopped → S k = length (loop_events stepID l)).
Proof.
  revert k e. induction l as [|r l IH] using rev_ind; intros k e Hl Hk; [done|].
  assert (execution_ok workloadID l) as Hl'.
  { intros i x Hx. destruct (Hl i x) as [ev Hev]; [by apply lookup_app_l_Some|].
    pose proof (lookup_lt_Some _ _ _ Hx). rewrite take_app_le in Hev by lia. by exists ev. }
  rewrite loop_events_app, loop_events_single in *. case_decide as Hs; [|rewrite app_nil_r in *; by apply IH].
  destruct (Exec_Record_Loop r) as [x|] eqn:Ex; [|rewrite app_nil_r in *; by apply IH].
  destruct (Hl (length l) r) as [event Hc]; [apply lookup_snoc; by right|]. rewrite take_app_length in Hc.
  apply check_record_inv in Hc as (h & Hh & Hcount & Hst). pose proof (check_stage_loop _ _ _ _ _ _ Hst Hcount Ex) as Hloop.
  unfold check_loop in Hloop. rewrite Ex in Hloop. apply seq_Ok in Hloop as [H1 Hloop].
  apply seq_Ok in Hloop as [H2 Hloop]. apply seq_Ok in Hloop as [H3 _].
  rewrite require_Ok, negb_true_iff, orb_false_iff, Z.ltb_ge in H1. rewrite require_Ok, Z.eqb_eq in H3.
  apply require_Ok in H2. rewrite Hs in Hh. apply scan_history_Ok in Hh as [_ Hprev]. cbn [empty_history previousLoop] in Hprev.
  unfold next_loop_sequence in H3.
  apply lookup_snoc in Hk as [Hk|[-> <-]].
  - destruct (IH k e Hl' Hk) as (I1 & I2 & I3). split_and!; try done. intros Hstop. exfalso.
    specialize (I3 Hstop). assert (last (loop_events stepID l) = Some e) as El by (by rewrite last_lookup, <-I3).
    rewrite El in Hprev. rewrite Hprev, Hstop in H2. done.
  - split_and!; [ | | intros _; rewrite length_app; cbn; lia].
    + destruct (last (loop_events stepID l)) as [y|] eqn:El; rewrite Hprev in H3.
      * rewrite last_lookup in El. destruct (IH _ _ Hl' El) as (I1 & I2 & _). pose proof (lookup_lt_Some _ _ _ El).
        assert (LoopEvent_Sequence y + 1 = Z.of_nat (length (loop_events stepID l)) + 1) as E by lia. rewrite E in H3.
        destruct (decide (Z.of_nat (length (loop_events stepID l)) + 1 = uint64_mod)) as [E2|].
        { rewrite E2 in H3. unfold wrapu64, uint64_mod in H3. rewrite Z.mod_same in H3 by done. lia. }
        rewrite wrapu64_id in H3 by (unfold is_uint64; lia). done.
      * apply last_None in El. rewrite El. cbn. lia.
    + destruct (last (loop_events stepID l)) as [y|] eqn:El.
      * rewrite last_lookup in El. destruct (IH _ _ Hl' El) as (I1 & I2 & _). pose proof (lookup_lt_Some _ _ _ El).
        destruct (decide (Z.of_nat (length (loop_events stepID l)) + 1 = uint64_mod)) as [E2|]; [|lia].
        rewrite Hprev in H3. replace (LoopEvent_Sequence y + 1) with uint64_mod in H3 by lia.
        unfold wrapu64, uint64_mod in H3. rewrite Z.mod_same in H3 by done. lia.
      * apply last_None in El. rewrite El. done.
Qed.
End histories.
