(* ===== verification/LoopInvariant.v ===== *)
(** * The invariant of the turn loop

    What the body of [Run] of Loop.v keeps on every path: the numbers of the
    events it records, their payloads, the counts of model calls and tool
    executions against the budget; and, while no step has failed, valid messages
    and usage.  LoopRun.v draws the properties of [Run] from it. *)

From Stdlib Require Import ZArith Lia.
From S2P Require Import Prelude Effects GoNum GoText GoJson GoJsonText GoHash Ident Domain Event Model Stream Policy Routing.
From S2P Require Import LoopTypes Execution Loop LoopTools.

(* ------------------------------------------------------------------ *)
(** ** What a history shows *)

Section history.
Context `{Carriers}.

(** The events passed to the sink. *)
Definition recorded (h : list Call) : list LoopEvent :=
  omap (fun k => match k with CallRecord _ e => Some e | _ => None end) h.

(** The model calls. *)
Definition is_stream (k : Call) : bool := match k with CallStream _ _ => true | _ => false end.
Definition streams (h : list Call) : nat := length (List.filter is_stream h).

(** Calls that are no record, model call, tool execution or close. *)
Definition quiet (k : Call) : bool :=
  match k with CallRecord _ _ | CallStream _ _ | CallExecute _ _ | CallCloseTool _ => false | _ => true end.

Lemma recorded_app h l : recorded (h ++ l) = recorded h ++ recorded l.
Proof. apply omap_app. Qed.

Lemma streams_app h l : streams (h ++ l) = (streams h + streams l)%nat.
Proof. unfold streams. by rewrite List.filter_app, length_app. Qed.

Lemma quiet_calls l :
  Forall (fun k => quiet k = true) l →
  recorded l = [] ∧ streams l = 0%nat ∧ executes l = 0%nat.
Proof.
  induction 1 as [|k l Hk Hl IH]; [by repeat split|]. destruct IH as (I1 & I2 & I3).
  by destruct k.
Qed.

Lemma tool_side_calls l :
  Forall (fun k => tool_side_call k = true) l →
  recorded l = [] ∧ streams l = 0%nat.
Proof.
  induction 1 as [|k l Hk Hl IH]; [by repeat split|]. destruct IH as (I1 & I2).
  by destruct k.
Qed.

End history.

(** The k-th event recorded after sequence [start] has number [start + k + 1]. *)
Definition sequences_from (start : Z) (events : list LoopEvent) : Prop :=
  ∀ k e, events !! k = Some e → LoopEvent_Sequence e = wrapu64 (start + Z.of_nat k + 1).

Lemma sequences_from_snoc start events e :
  sequences_from start events → LoopEvent_Sequence e = wrapu64 (start + Z.of_nat (length events) + 1) →
  sequences_from start (events ++ [e]).
Proof. intros Hs He k e'. rewrite lookup_snoc. intros [Hk|[-> <-]]; [by apply Hs | done]. Qed.

Lemma wrapu64_succ n : wrapu64 (wrapu64 n + 1) = wrapu64 (n + 1).
Proof. unfold wrapu64. by rewrite Zplus_mod_idemp_l. Qed.

(** An appended tool message, after which a checkpoint may be recorded. *)
Definition tool_message_event (e : LoopEvent) : Prop :=
  LoopEvent_Type e = LoopEventMessageAppended ∧ ∃ m, LoopEvent_Message e = Some m ∧ Message_Role m = RoleTool.

(** The payload an event of its type must have. *)
Record event_wf (messages_ok : Prop) (e : LoopEvent) : Prop := {
  wf_type : LoopEvent_Type e ∈ loop_event_types;
  wf_model : match LoopEvent_ModelEvent e with
             | Some me => ModelEvent_Validate me = Ok tt
             | None => LoopEvent_Type e ≠ LoopEventModel
             end;
  wf_message : match LoopEvent_Message e with
               | Some m => Message_Validate m = Ok tt
               | None => LoopEvent_Type e ≠ LoopEventMessageAppended
               end;
  wf_tool : LoopEvent_ToolCall e = None → LoopEvent_Type e ≠ LoopEventToolStarted ∧ LoopEvent_Type e ≠ LoopEventToolCompleted;
  wf_checkpoint : LoopEvent_Type e = LoopEventCheckpoint →
    ∃ c, LoopEvent_Checkpoint e = Some c ∧ LoopResult_ModelCalls c = LoopEvent_Turn e ∧ 1 <= LoopResult_ToolCalls c ∧
      LoopResult_Stop c = StopToolUse ∧ Usage_Validate (LoopResult_Usage c) = Ok tt ∧
      (messages_ok → Forall (fun m => Message_Validate m = Ok tt) (LoopResult_Messages c));
  wf_turn : LoopEvent_Type e ≠ LoopEventStopped → 0 <= LoopEvent_Turn e;
}.

(** The number of an event is no part of its payload. *)
Lemma event_wf_sequence messages_ok e n : event_wf messages_ok e → event_wf messages_ok {| e with LoopEvent_Sequence := n |}.
Proof. by intros []. Qed.

(* ------------------------------------------------------------------ *)
(** ** The invariant of the body of [Run] *)

Section run.
Context `{Collaborators} (request : Request).

Definition start_sequence : Z := emitter_sequence (start_state request).
Definition start_result : LoopResult := loop_result (start_state request).

(** Messages a selector substitutes are valid. *)
Definition selector_ok : Prop :=
  ∀ h k c selection messages, select h k c = Returns (Ok selection) → Selection_Messages selection = Some messages →
    Forall (fun m => Message_Validate m = Ok tt) messages.

(** A checkpoint follows the message of the tools. *)
Definition checkpoint_ok (events : list LoopEvent) (e : LoopEvent) : Prop :=
  LoopEvent_Type e = LoopEventCheckpoint → ∃ p, last events = Some p ∧ tool_message_event p.

(** Events of the body: no terminal one. *)
Definition event_ok (events : list LoopEvent) (e : LoopEvent) : Prop :=
  event_wf selector_ok e ∧ LoopEvent_Type e ≠ LoopEventStopped ∧ checkpoint_ok events e.

Record body_inv (s : LoopState) : Prop := {
  bi_sequence : sequences_from start_sequence (recorded (history s));
  bi_next : Loop_Sink request ≠ None →
    wrapu64 (emitter_sequence s) = wrapu64 (start_sequence + Z.of_nat (length (recorded (history s))));
  bi_silent : Loop_Sink request = None → recorded (history s) = [];
  bi_events : ∀ k e, recorded (history s) !! k = Some e → event_ok (take k (recorded (history s))) e;
  bi_models : LoopResult_ModelCalls start_result + Z.of_nat (streams (history s)) = LoopResult_ModelCalls (loop_result s);
  bi_tools : LoopResult_ToolCalls start_result + Z.of_nat (executes (history s)) <= LoopResult_ToolCalls (loop_result s);
  bi_budget : LoopResult_ModelCalls (loop_result s) <= MaxModelCalls (Loop_Budget request) ∧
              LoopResult_ToolCalls (loop_result s) <= MaxToolCalls (Loop_Budget request);
  bi_turn : MaxModelCalls (Loop_Budget request) < int64_max → 0 <= currentTurn s;
}.

(** The usage is that of the start, or within the budget. *)
Definition usage_ok (u : Usage) : Prop :=
  Usage_Validate u = Ok tt ∧ (u = LoopResult_Usage start_result ∨ exceededUsage u (Loop_Budget request) = "").

(** The state on the way of a run that has not failed: its model and tool
    calls, [n] executions still to come, its stop; valid usage and messages. *)
Record live (models tools : Z) (n : nat) (stop : string) (s : LoopState) : Prop := {
  li_body : body_inv s;
  li_messages : selector_ok → Forall (fun m => Message_Validate m = Ok tt) (LoopResult_Messages (loop_result s));
  li_usage : usage_ok (LoopResult_Usage (loop_result s));
  li_counters : LoopResult_ModelCalls (loop_result s) = models ∧ LoopResult_ToolCalls (loop_result s) = tools ∧
                LoopResult_Stop (loop_result s) = stop;
  li_slack : LoopResult_ToolCalls start_result + Z.of_nat (executes (history s)) + Z.of_nat n <= tools;
}.

(** Quiet calls, and changes that keep the emitter and the counters. *)
Lemma body_inv_quiet s s' l :
  body_inv s → history s' = history s ++ l → Forall (fun k => quiet k = true) l →
  emitter_sequence s' = emitter_sequence s → currentTurn s' = currentTurn s →
  LoopResult_ModelCalls (loop_result s') = LoopResult_ModelCalls (loop_result s) →
  LoopResult_ToolCalls (loop_result s') = LoopResult_ToolCalls (loop_result s) → body_inv s'.
Proof.
  intros [] Hh Hq He Hc Hm Ht. destruct (quiet_calls l Hq) as (Q1 & Q2 & Q3).
  assert (recorded (history s') = recorded (history s)) as Hr by (by rewrite Hh, recorded_app, Q1, app_nil_r).
  split; rewrite ?Hr, ?He, ?Hc, ?Hm, ?Ht; try done.
  - by rewrite Hh, streams_app, Q2, Nat.add_0_r.
  - by rewrite Hh, executes_app, Q3, Nat.add_0_r.
Qed.

Lemma live_quiet m t n st s s' l :
  live m t n st s → history s' = history s ++ l → Forall (fun k => quiet k = true) l →
  emitter_sequence s' = emitter_sequence s → currentTurn s' = currentTurn s →
  LoopResult_Messages (loop_result s') = LoopResult_Messages (loop_result s) →
  LoopResult_Usage (loop_result s') = LoopResult_Usage (loop_result s) →
  LoopResult_ModelCalls (loop_result s') = LoopResult_ModelCalls (loop_result s) →
  LoopResult_ToolCalls (loop_result s') = LoopResult_ToolCalls (loop_result s) →
  LoopResult_Stop (loop_result s') = LoopResult_Stop (loop_result s) → live m t n st s'.
Proof.
  intros [] Hh Hq He Hc Hms Hu Hm Ht Hst. destruct (quiet_calls l Hq) as (_ & _ & Q3).
  split; rewrite ?Hms, ?Hu, ?Hm, ?Ht, ?Hst; try done; [by eapply body_inv_quiet|].
  rewrite Hh, executes_app, Q3. lia.
Qed.

Lemma live_call m t n st s k :
  live m t n st s → quiet k = true → live m t n st {| s with history := history s ++ [k] |}.
Proof. intros Hs Hk. eapply (live_quiet _ _ _ _ s _ [k]); try done. by repeat constructor. Qed.

Lemma body_inv_call s k : body_inv s → quiet k = true → body_inv {| s with history := history s ++ [k] |}.
Proof. intros Hs Hk. eapply (body_inv_quiet s _ [k]); try done. by repeat constructor. Qed.

(** A change of the state between calls. *)
Lemma live_modify m t n st f :
  (∀ s, history (f s) = history s ∧ emitter_sequence (f s) = emitter_sequence s ∧ loop_result (f s) = loop_result s ∧
        currentTurn (f s) = currentTurn s) →
  triple (live m t n st) (lm_modify f) (λ _, live m t n st) body_inv.
Proof.
  intros Hf. apply triple_modify. intros s Hs. destruct (Hf s) as (H1 & H2 & H3 & H4).
  eapply (live_quiet _ _ _ _ s _ []); rewrite ?H1, ?H3, ?app_nil_r; done || constructor.
Qed.

Lemma live_quiet_call {A} m t n st k (answer : list Call → outcome A) :
  quiet k = true →
  triple (live m t n st) (call k answer) (λ a s, (∃ h, answer h = Returns a) ∧ live m t n st s) body_inv.
Proof.
  intros Hk. apply triple_call; intros s ? Hs Ha; [split; [by eexists|]; by apply live_call|].
  apply body_inv_call; [apply Hs | done].
Qed.

(** A computation in the middle of a run, from a state to which more is known. *)
Lemma live_fail {A} m t n st e (Q : A → LoopState → Prop) : triple (live m t n st) (lm_fail e) Q body_inv.
Proof. intros s Hs. apply Hs. Qed.

Lemma live_lift {A} m t n st (r : result A) : triple (live m t n st) (lm_lift r) (λ a s, r = Ok a ∧ live m t n st s) body_inv.
Proof. apply triple_lift. by intros s []. Qed.

Lemma live_deref {A} m t n st (o : option A) : triple (live m t n st) (deref o) (λ a s, o = Some a ∧ live m t n st s) body_inv.
Proof. apply triple_deref. by intros s []. Qed.

Lemma live_get m t n st : triple (live m t n st) lm_get (λ a s, live m t n st a ∧ live m t n st s) body_inv.
Proof. by intros s Hs. Qed.

Lemma contextResult_run m t n st : triple (live m t n st) contextResult (λ _, live m t n st) body_inv.
Proof.
  intros s Hs. unfold contextResult, mbind, lm_bind, call, perform. cbn.
  pose proof (live_call _ _ _ _ s CallContext Hs eq_refl) as Hs'.
  destruct (obs_loop _); [|done]. destruct (_ && _); cbn; [|apply Hs'].
  eapply (body_inv_quiet _ _ []); [apply Hs' | cbn; by rewrite app_nil_r | constructor | done..].
Qed.

Lemma budgetFailure_run {A} kind m t n st (Q : A → LoopState → Prop) :
  triple (live m t n st) (budgetFailure kind) Q body_inv.
Proof.
  intros s [Hs _ _ _ _]. cbn. eapply (body_inv_quiet _ _ []); [exact Hs | by rewrite app_nil_r | constructor | done..].
Qed.

(** Recording an event: it is the last one afterwards. *)
Lemma body_inv_record s s' e :
  body_inv s → Loop_Sink request ≠ None → event_ok (recorded (history s)) e →
  history s' = history s ++ [CallRecord false {| e with LoopEvent_Sequence := wrapu64 (emitter_sequence s + 1) |}] →
  emitter_sequence s' = wrapu64 (emitter_sequence s + 1) → loop_result s' = loop_result s → currentTurn s' = currentTurn s →
  body_inv s'.
Proof.
  intros [] Hk (E1 & E2 & E3) Hh He Hr Ht.
  set (e' := {| e with LoopEvent_Sequence := wrapu64 (emitter_sequence s + 1) |}) in *.
  assert (recorded (history s') = recorded (history s) ++ [e']) as Hrec by (by rewrite Hh, recorded_app).
  assert (wrapu64 (emitter_sequence s + 1) = wrapu64 (start_sequence + Z.of_nat (length (recorded (history s))) + 1)) as Hnext.
  { by rewrite <-(wrapu64_succ (emitter_sequence s)), bi_next0, wrapu64_succ by done. }
  split; rewrite ?Hrec, ?Hr, ?He, ?Ht; try done.
  - by apply sequences_from_snoc.
  - intros _. rewrite length_app, Hnext. cbn. unfold wrapu64. rewrite Z.mod_mod by done. f_equal. lia.
  - intros k e0. rewrite lookup_snoc. intros [Hl|[-> <-]].
    + rewrite take_app_le by (apply lookup_lt_Some in Hl; lia). by apply bi_events0.
    + rewrite take_app_length. split_and!; [by apply event_wf_sequence | done | done].
  - by rewrite Hh, streams_app, Nat.add_0_r.
  - by rewrite Hh, executes_app, Nat.add_0_r.
Qed.

(** The event that was just recorded, if there is a sink. *)
Definition just_recorded (e : LoopEvent) (s : LoopState) : Prop :=
  Loop_Sink request = None ∨ ∃ n, last (recorded (history s)) = Some {| e with LoopEvent_Sequence := n |}.

Lemma emit_run m t n st e :
  event_wf selector_ok e → LoopEvent_Type e ≠ LoopEventStopped →
  triple (λ s, live m t n st s ∧ (Loop_Sink request ≠ None → checkpoint_ok (recorded (history s)) e))
    (emit (Loop_Sink request) false e) (λ _ s, live m t n st s ∧ just_recorded e s) body_inv.
Proof.
  intros Hw Hty s [Hs Hc]. unfold emit, mbind, lm_bind, lm_modify, lm_get. cbn.
  destruct (Loop_Sink request) as [k|] eqn:Hk.
  2: { cbn. split; [|by left]. destruct Hs as [[] ? ? ? ?]. split; [|done..]. split; cbn; done. }
  unfold call, perform. rewrite !LoopEvent_Clone_id. cbn.
  set (e' := {| e with LoopEvent_Sequence := wrapu64 (emitter_sequence s + 1) |}).
  assert (event_ok (recorded (history s)) e) as Hok by (split_and!; [done | done | by apply Hc]).
  assert (∀ s', history s' = history s ++ [CallRecord false e'] → emitter_sequence s' = wrapu64 (emitter_sequence s + 1) →
    loop_result s' = loop_result s → currentTurn s' = currentTurn s → body_inv s') as Hb.
  { intros s' H1 H2 H3 H4. eapply (body_inv_record s s' e); try done; [apply Hs | by rewrite Hk]. }
  destruct (record _ _ _ _) as [[err|]|v]; cbn; [by apply Hb | | by apply Hb].
  assert (last (recorded (history s ++ [CallRecord false e'])) = Some e') as Hl by (rewrite recorded_app; apply last_snoc).
  assert (executes (history s ++ [CallRecord false e']) = executes (history s)) as Hx by (rewrite executes_app; apply Nat.add_0_r).
  split; [|right; eexists; exact Hl]. destruct Hs. split; try done; [by apply Hb|]. cbn [history]. by rewrite Hx.
Qed.

Lemma emit_event m t n st e :
  event_wf selector_ok e → LoopEvent_Type e ≠ LoopEventStopped → LoopEvent_Type e ≠ LoopEventCheckpoint →
  triple (live m t n st) (emit (Loop_Sink request) false e) (λ _ s, live m t n st s ∧ just_recorded e s) body_inv.
Proof. intros Hw Hs Hc. eapply triple_pre; [by apply emit_run|]. intros s Hl. split; [done|]. by intros ? ?. Qed.

(* ------------------------------------------------------------------ *)
(** ** Consuming a stream *)

(** A change of the result that keeps the counters. *)
Lemma body_inv_result s f :
  body_inv s → LoopResult_ModelCalls (f (loop_result s)) = LoopResult_ModelCalls (loop_result s) →
  LoopResult_ToolCalls (f (loop_result s)) = LoopResult_ToolCalls (loop_result s) →
  body_inv {| s with loop_result := f (loop_result s) |}.
Proof. intros Hs Hm Ht. eapply (body_inv_quiet s _ []); [done | by rewrite app_nil_r | constructor | done..]. Qed.

Lemma live_result m t n st st' s f :
  live m t n st s → LoopResult_ModelCalls (f (loop_result s)) = LoopResult_ModelCalls (loop_result s) →
  LoopResult_ToolCalls (f (loop_result s)) = LoopResult_ToolCalls (loop_result s) →
  (selector_ok → Forall (fun m => Message_Validate m = Ok tt) (LoopResult_Messages (f (loop_result s)))) →
  usage_ok (LoopResult_Usage (f (loop_result s))) → LoopResult_Stop (f (loop_result s)) = st' →
  live m t n st' {| s with loop_result := f (loop_result s) |}.
Proof.
  intros [? ? ? (? & ? & ?) ?] Hm Ht Hms Hu Hst. split; try done; [by apply body_inv_result|].
  cbn. by rewrite Hm, Ht.
Qed.

Lemma absorb_run m t n st event data :
  triple (live m t n st) (absorb (Loop_Budget request) event data)
    (λ d s, (length (turn_calls d) <= S (length (turn_calls data)))%nat ∧ live m t n st s) body_inv.
Proof.
  assert (∀ d, (length (turn_calls d) <= S (length (turn_calls data)))%nat →
    triple (live m t n st) (mret d) (λ d s, (length (turn_calls d) <= S (length (turn_calls data)))%nat ∧ live m t n st s) body_inv)
    as Hret by (intros d Hd s Hs; done).
  unfold absorb. repeat (apply triple_if; intros _); try (apply Hret; cbn; lia).
  - eapply triple_bind; [apply live_deref | intros c]. apply triple_pure. intros _. apply Hret. cbn. rewrite length_app. cbn. lia.
  - intros s Hs. unfold mbind, lm_bind, lm_get. destruct (addUsage _ _) as [total err] eqn:Ha.
    unfold modify_result, lm_modify. destruct err as [e|].
    + by apply (body_inv_result s (fun r => {| r with LoopResult_Usage := total |})); [apply Hs|..].
    + destruct (String.eqb_spec (exceededUsage total (Loop_Budget request)) "") as [Hx|Hx]; cbn [negb].
      * split; [lia|]. apply (live_result m t n st st s (fun r => {| r with LoopResult_Usage := total |})); try apply Hs; try done.
        split; [|by right].
        unfold addUsage in Ha. destruct (ModelEvent_Usage event) as [u|]; [|done]. destruct (negative_usage u); [done|].
        destruct (negative_usage (usage_sum _ u)) eqn:Hn; simplify_eq. by apply negative_usage_false.
      * apply (body_inv_quiet s _ []); [apply Hs | symmetry; apply app_nil_r | constructor | done..].
  - eapply triple_bind; [apply live_deref | intros c]. apply triple_pure. intros _. apply Hret. cbn. lia.
Qed.

(** The event recorded for an accepted model event. *)
Lemma model_event_wf turn model event :
  0 <= turn → ModelEvent_Validate event = Ok tt →
  let recorded := loop_event LoopEventModel turn model in
  event_wf selector_ok {| recorded with LoopEvent_ModelEvent := Some event |}.
Proof. intros Hturn Hv. split; cbn; try done. by apply (bool_decide_unpack _). Qed.

Lemma consume_loop_run fuel turn model stream v data m t n st :
  0 <= turn →
  triple (live m t n st) (consume_loop fuel (Loop_Sink request) (Loop_Budget request) turn model stream v data)
    (λ d s, (length (turn_calls d) <= length (turn_calls data) + fuel)%nat ∧ live m t n st s) body_inv.
Proof.
  intros Hturn. revert v data. induction fuel as [|fuel IH]; intros v data; cbn [consume_loop].
  { intros s Hs. apply Hs. }
  eapply triple_bind; [apply contextResult_run | intros []].
  eapply triple_bind; [by apply live_quiet_call | intros r]. apply triple_pure. intros _. destruct r as [event|err].
  - destruct (Validator_Accept event v) as [[[]|e] v'] eqn:Ha; [|apply live_fail].
    apply Validator_Accept_Ok in Ha as (_ & Hv & _).
    eapply triple_bind; [by apply emit_event; [apply model_event_wf|..] | intros []].
    eapply triple_bind; [eapply triple_pre; [apply absorb_run | by intros s []] | intros d]. apply triple_pure. intros Hd.
    eapply triple_post; [apply IH|]. intros d' s [Hd' Hs]. split; [lia | done].
  - destruct (errors_Is err "EOF").
    + destruct (fst (Validator_Complete v)); [|apply live_fail]. intros s Hs. split; [lia | done].
    + eapply triple_bind; [apply contextResult_run | intros []]. apply live_fail.
Qed.

Lemma consumeTurn_run fuel turn model stream m t n st :
  0 <= turn →
  triple (live m t n st) (consumeTurn fuel (Loop_Sink request) (Loop_Budget request) turn model stream)
    (λ d s, (length (turn_calls d) <= fuel)%nat ∧ live m t n st s) body_inv.
Proof.
  intros Hturn. destruct stream as [k|]; [|apply live_fail]. intros s Hs. cbn [consumeTurn].
  pose proof (consume_loop_run fuel turn model k zero_validator zero_turnData m t n st Hturn s Hs) as Hc.
  destruct (consume_loop _ _ _ _ _ _ _ _ _) as [r s1]. unfold call, perform.
  assert (∀ x, r = x → body_inv s1 → body_inv {| s1 with history := history s1 ++ [CallCloseStream k] |}) as Hb
    by (intros; by apply body_inv_call).
  destruct r as [d|e|v|]; [| | |done].
  - destruct Hc as [Hd Hl]. assert (live m t n st {| s1 with history := history s1 ++ [CallCloseStream k] |}) as Hl'
      by (by apply live_call).
    destruct (close_stream (history s1) k) as [closed|v]; [|apply Hl']. destruct (errors_Join [closed]); [apply Hl' | done].
  - destruct (close_stream (history s1) k) as [closed|v]; [destruct (errors_Join [Some e; closed])|]; by eapply Hb.
  - destruct (close_stream (history s1) k) as [closed|v']; by eapply Hb.
Qed.

(* ------------------------------------------------------------------ *)
(** ** Messages and tools *)

Lemma call_parts_run classification calls m t n st :
  triple (live m t n st) (call_parts classification calls) (λ _, live m t n st) body_inv.
Proof.
  induction calls as [|c calls IH]; cbn [call_parts]; [intros s Hs; done|].
  eapply triple_bind; [apply live_get | intros s0]. apply triple_pure. intros _.
  destruct (decide _); [apply live_fail|].
  eapply triple_bind; [by apply live_modify | intros []].
  eapply triple_bind; [apply IH | intros rest]. by intros s Hs.
Qed.

Lemma assistantMessage_run data classification m t n st :
  triple (live m t n st) (assistantMessage data classification)
    (λ o s, (∀ message, o = Some message → Message_Validate message = Ok tt) ∧ live m t n st s) body_inv.
Proof.
  unfold assistantMessage. eapply triple_bind; [apply call_parts_run | intros parts].
  apply triple_if; intros _; [by intros s Hs|].
  eapply triple_bind; [apply live_lift | intros []]. apply triple_pure. intros Hv s Hs. split; [|done]. by intros ? [= <-].
Qed.

Definition appended (turn : Z) (model : ModelRef) (message : Message) : LoopEvent :=
  let event := loop_event LoopEventMessageAppended turn model in {| event with LoopEvent_Message := Some message |}.

Lemma append_message_run turn model message m t n st :
  0 <= turn → Message_Validate message = Ok tt →
  triple (live m t n st) (append_message request turn model message)
    (λ _ s, live m t n st s ∧ just_recorded (appended turn model message) s) body_inv.
Proof.
  intros Hturn Hv. unfold append_message. eapply (triple_bind _ _ (λ _, live m t n st)); [|intros []].
  - unfold modify_result. apply triple_modify. intros s Hs.
    apply (live_result m t n st st s (fun r => {| r with LoopResult_Messages := LoopResult_Messages r ++ [message] |}));
      try apply Hs; try done.
    intros Hsel. cbn. apply Forall_app. split; [by apply Hs | by repeat constructor].
  - apply (emit_event m t n st (appended turn model message)); [|done..].
    split; cbn; try done. by apply (bool_decide_unpack _).
Qed.

Lemma select_turn_run turn m t n st :
  0 <= turn →
  triple (live m t n st) (select_turn request turn) (λ _, live m t n st) body_inv.
Proof.
  intros Hturn. unfold select_turn. eapply triple_bind; [apply live_get | intros s0]. apply triple_pure. intros _.
  eapply triple_bind; [apply live_deref | intros k]. apply triple_pure. intros _.
  eapply triple_bind; [by apply live_quiet_call | intros r]. apply triple_pure. intros [h Hr].
  destruct r as [selection|e].
  2: { eapply triple_bind; [apply contextResult_run | intros []]. apply live_fail. }
  destruct (Selection_Provider selection) as [provider|]; [|apply live_fail].
  eapply triple_bind; [apply live_lift | intros []]. apply triple_pure. intros _.
  eapply triple_bind; [by apply live_quiet_call | intros name]. apply triple_pure. intros _.
  eapply triple_bind; [apply live_lift | intros []]. apply triple_pure. intros _.
  eapply triple_bind; [by apply live_modify | intros []].
  eapply (triple_bind _ _ (λ _, live m t n st)); [|intros []].
  - destruct (Selection_Messages selection) as [messages|] eqn:Hm; [|by intros s Hs].
    unfold modify_result. apply triple_modify. intros s Hs.
    apply (live_result m t n st st s (fun r => {| r with LoopResult_Messages := CloneMessages messages |}));
      try apply Hs; try done.
    intros Hsel. cbn. rewrite CloneMessages_id. by eapply Hsel.
  - eapply triple_bind; [apply emit_event; [|done..] | intros []; by intros s [Hs _]].
    split; cbn; try done. by apply (bool_decide_unpack _).
Qed.

(** The budget fits the integers, and the counters start at zero or above. *)
Record run_sized (stream_fuel : nat) : Prop := {
  rs_models : MaxModelCalls (Loop_Budget request) <= int64_max;
  rs_tools : MaxToolCalls (Loop_Budget request) + Z.of_nat stream_fuel <= int64_max;
  rs_start : 0 <= LoopResult_ModelCalls start_result ∧ 0 <= LoopResult_ToolCalls start_result;
  rs_classification : Classification_Validate (Loop_ToolErrorClassification request) = Ok tt;
}.

Lemma live_counters sf m t n st s :
  run_sized sf → live m t n st s →
  0 <= m <= MaxModelCalls (Loop_Budget request) ∧ 0 <= t <= MaxToolCalls (Loop_Budget request).
Proof. intros [? ? ? _] [[] ? ? (? & ? & ?) ?]. lia. Qed.

(** The model call: it is counted before it is made. *)
Lemma live_stream m t n st s k r :
  live m t n st s → is_stream k = true → m + 1 <= MaxModelCalls (Loop_Budget request) →
  r = {| LoopResult_Messages := LoopResult_Messages (loop_result s); LoopResult_Usage := LoopResult_Usage (loop_result s);
         LoopResult_Stop := LoopResult_Stop (loop_result s); LoopResult_ModelCalls := m + 1;
         LoopResult_ToolCalls := LoopResult_ToolCalls (loop_result s); LoopResult_Failures := LoopResult_Failures (loop_result s);
         LoopResult_BudgetExceeded := LoopResult_BudgetExceeded (loop_result s) |} →
  live (m + 1) t n st {| s with history := history s ++ [k]; loop_result := r |}.
Proof.
  intros [[] ? ? (Hm & Ht & Hst) ?] Hk Hmax ->.
  assert (recorded (history s ++ [k]) = recorded (history s)) as Hr.
  { rewrite recorded_app. destruct k; try done; apply app_nil_r. }
  assert (executes (history s ++ [k]) = executes (history s)) as Hx.
  { rewrite executes_app. destruct k; try done; apply Nat.add_0_r. }
  assert (streams (history s ++ [k]) = S (streams (history s))) as Hstr.
  { rewrite streams_app. destruct k; try done. apply Nat.add_1_r. }
  split; try done; [|cbn [history]; by rewrite Hx].
  split; cbn [history loop_result emitter_sequence LoopResult_ModelCalls LoopResult_ToolCalls]; rewrite ?Hr, ?Hx; try done.
  - rewrite Hstr. lia.
  - lia.
Qed.

Lemma call_model_run fuel turn provider model m t n st :
  0 <= turn → run_sized fuel → m < MaxModelCalls (Loop_Budget request) →
  triple (live m t n st) (call_model fuel request turn provider model)
    (λ d s, (length (turn_calls d) <= fuel)%nat ∧ live (m + 1) t n st s) body_inv.
Proof.
  intros Hturn Hsz Hm s Hs. destruct (live_counters _ _ _ _ _ _ Hsz Hs) as [Hm0 _].
  assert (add64 (LoopResult_ModelCalls (loop_result s)) 1 = m + 1) as Hadd.
  { rewrite (proj1 (li_counters _ _ _ _ _ Hs)). pose proof (rs_models _ Hsz). apply add64_exact.
    unfold is_int64, int64_min in *. lia. }
  unfold call_model, mbind, lm_bind, lm_get, modify_result, lm_modify, call, perform. rewrite Hadd. cbn.
  set (k := CallStream _ _). match goal with |- context [ {| loop_result := ?x |} ] => set (r := x) end.
  assert (live (m + 1) t n st {| s with history := history s ++ [k]; loop_result := r |}) as Hl
    by (apply live_stream; done || lia).
  destruct (provider_stream (history s) _ _) as [[stream|e]|v]; [| |apply Hl].
  - exact (consumeTurn_run fuel turn model stream _ _ _ _ Hturn _ Hl).
  - refine (triple_bind _ _ _ (λ _, lm_fail e) _ _ (contextResult_run _ _ _ _) _ _ Hl). intros []. apply live_fail.
Qed.

Lemma start_tools_run turn model calls m t n st :
  0 <= turn →
  triple (live m t n st) (start_tools request turn model calls) (λ _, live m t n st) body_inv.
Proof.
  intros Hturn. induction calls as [|c calls IH]; cbn [start_tools]; [by intros s Hs|].
  eapply triple_bind; [apply emit_event; [|done..] | intros []; eapply triple_pre; [apply IH | by intros s []]].
  split; cbn; try done. by apply (bool_decide_unpack _).
Qed.

Lemma complete_tools_run turn model work m t n st :
  0 <= turn →
  triple (live m t n st) (complete_tools request turn model work) (λ _, live m t n st) body_inv.
Proof.
  intros Hturn. induction work as [|[c x] work IH]; cbn [complete_tools]; [by intros s Hs|].
  eapply (triple_bind _ _ (λ _, live m t n st)); [|intros []].
  { unfold modify_result. apply triple_modify. intros s Hs.
    apply (live_result m t n st st s (fun r => {| r with LoopResult_Failures := _ |})); apply Hs || done. }
  eapply triple_bind; [apply emit_event; [|done..] | intros []; eapply triple_pre; [|by intros s [Hs _]; exact Hs]].
  { split; cbn; try done. by apply (bool_decide_unpack _). }
  eapply triple_bind; [apply IH | intros rest]. by intros s Hs.
Qed.

Lemma batch_live k m t n st s s' : batch_frame k s s' → live m t (k + n) st s → live m t n st s'.
Proof.
  intros [(l & Hh & Hl & Hk) (b & Hr) (He & _ & Hturn & _)] [[] ? ? (? & ? & ?) Hsl].
  destruct (tool_side_calls l Hl) as (Q1 & Q2).
  assert (recorded (history s') = recorded (history s)) as Hrec by (by rewrite Hh, recorded_app, Q1, app_nil_r).
  split; rewrite ?Hr; try done; [|rewrite Hh, executes_app; lia].
  split; rewrite ?Hrec, ?He, ?Hr, ?Hturn; try done.
  - by rewrite Hh, streams_app, Q2, Nat.add_0_r.
  - rewrite Hh, executes_app. cbn [LoopResult_ToolCalls]. lia.
Qed.

Lemma executeBatch_run sf turn calls tools m t n st :
  run_sized sf →
  triple (live m t (length calls + n) st) (executeBatch request turn calls tools) (λ _, live m t n st) body_inv.
Proof.
  intros Hsz s Hs. destruct (executeBatch_ends request turn calls tools s (rs_classification _ Hsz)) as (xs & err & s' & E & F & _).
  rewrite E. by eapply batch_live.
Qed.

(** The checkpoint taken after the tools of turn [m], and its event. *)
Lemma checkpoint_wf model m t n s :
  0 <= m → live m t n StopToolUse s → 1 <= t →
  let event := loop_event LoopEventCheckpoint m model in
  event_wf selector_ok {| event with LoopEvent_Checkpoint := Some (LoopResult_Clone (loop_result s)) |}.
Proof.
  intros Hm0 [? ? [? _] (Hm & Ht & Hst) _] Hpos. rewrite LoopResult_Clone_id. split; cbn; try done; [by apply (bool_decide_unpack _)|].
  intros _. eexists. split; [done|]. rewrite Ht. by split_and!.
Qed.

Lemma run_tools_run sf model tools calls m t :
  run_sized sf → (length calls <= sf)%nat → calls ≠ [] →
  triple (live m t 0 StopToolUse) (run_tools request m model tools calls)
    (λ _ s, ∃ t', live m t' 0 StopToolUse s) body_inv.
Proof.
  intros Hsz Hlen Hne. unfold run_tools. set (t' := t + Z.of_nat (length calls)).
  eapply triple_bind; [apply live_get | intros s0]. apply triple_pure. intros Hs0.
  destruct (live_counters _ _ _ _ _ _ Hsz Hs0) as [[Hm0 _] Ht0].
  assert (add64 t (Z.of_nat (length calls)) = t') as Hadd.
  { pose proof (rs_tools _ Hsz). apply add64_exact. unfold is_int64, int64_min in *. lia. }
  assert (1 <= t') as Ht1 by (unfold t'; destruct calls; [done|]; cbn [length]; lia).
  destruct (li_counters _ _ _ _ _ Hs0) as (_ & -> & _). rewrite Hadd.
  destruct (Z.ltb_spec (MaxToolCalls (Loop_Budget request)) t') as [Hx|Hx].
  { eapply triple_bind; [apply (budgetFailure_run _ _ _ _ _ (λ _ _, False)) | by intros [] s []]. }
  eapply (triple_bind _ _ (λ _, live m t 0 StopToolUse)); [by intros s Hs | intros []].
  eapply (triple_bind _ _ (λ _, live m t' (length calls + 0) StopToolUse)); [|intros []].
  { unfold modify_result. apply triple_modify. intros s [[] ? ? (Hm & Ht & Hst) ?]. rewrite Nat.add_0_r. rewrite Ht, Hadd.
    split; try done; cbn [history loop_result]; [|lia]. split; try done; cbn [history loop_result LoopResult_ModelCalls LoopResult_ToolCalls]; lia. }
  eapply triple_bind; [by apply start_tools_run | intros []].
  eapply triple_bind; [by eapply executeBatch_run | intros [executions batchErr]].
  eapply triple_bind; [by apply complete_tools_run | intros content].
  destruct batchErr as [e|]; [apply live_fail|].
  eapply triple_bind; [apply live_lift | intros []]. apply triple_pure. rewrite wrapf_Ok. intros Hv.
  eapply triple_bind; [by apply append_message_run | intros []].
  intros s [Hs Hj]. unfold mbind, lm_bind, lm_get.
  pose proof (checkpoint_wf model m t' 0 s Hm0 Hs Ht1) as Hw.
  pose proof (emit_run m t' 0 StopToolUse _ Hw ltac:(done) s) as Hemit.
  match type of Hemit with _ → match ?x with _ => _ end => destruct x as [[u|e|v|] s'] end;
    [exists t'; apply Hemit | apply Hemit..].
  all: split; [done|]; intros Hk Hc; destruct Hj as [Hj|[k Hj]]; [done|].
  all: eexists; split; [exact Hj|]; split; [done|]; by eexists.
Qed.

Lemma set_stop_run m t n st st' :
  triple (live m t n st) (modify_result (fun r => {| r with LoopResult_Stop := st' |})) (λ _, live m t n st') body_inv.
Proof.
  unfold modify_result. apply triple_modify. intros s Hs.
  by apply (live_result m t n st st' s (fun r => {| r with LoopResult_Stop := st' |})); try apply Hs.
Qed.

(** One turn: it makes the next model call, or finds the budget spent. *)
Definition turn_done (m : Z) (finished : bool) (s : LoopState) : Prop :=
  0 <= m < MaxModelCalls (Loop_Budget request) ∧
  ∃ t st, live (m + 1) t 0 st s ∧ (if finished then st ≠ StopToolUse else st = StopToolUse).

Lemma run_turn_run sf tools m t st :
  run_sized sf →
  triple (live m t 0 st) (run_turn sf request tools (add64 m 1)) (turn_done m) body_inv.
Proof.
  intros Hsz. unfold run_turn.
  eapply (triple_bind _ _ (λ _, live m t 0 st)); [|intros []].
  { apply triple_modify. intros s Hs. destruct (live_counters _ _ _ _ _ _ Hsz Hs) as [Hm _]. destruct Hs as [[] ? ? ? ?].
    split; [|done..]. split; [done..|]. cbn. intros Hmax. rewrite add64_exact; [lia|]. unfold is_int64, int64_min in *. lia. }
  eapply triple_bind; [apply contextResult_run | intros []].
  eapply triple_bind; [apply live_get | intros s0]. apply triple_pure. intros Hs0.
  destruct (live_counters _ _ _ _ _ _ Hsz Hs0) as [Hm0 _]. destruct (li_counters _ _ _ _ _ Hs0) as (-> & _).
  destruct (Z.leb_spec (MaxModelCalls (Loop_Budget request)) m) as [Hx|Hx].
  { eapply triple_bind; [apply (budgetFailure_run _ _ _ _ _ (λ _ _, False)) | by intros [] s []]. }
  assert (add64 m 1 = m + 1) as ->.
  { pose proof (rs_models _ Hsz). apply add64_exact. unfold is_int64, int64_min in *. lia. }
  eapply (triple_bind _ _ (λ _, live m t 0 st)); [by intros s Hs | intros []].
  eapply triple_bind; [apply select_turn_run; lia | intros [provider model]].
  eapply triple_bind; [apply call_model_run; done || lia | intros data]. apply triple_pure. intros Hlen.
  eapply triple_bind; [apply assistantMessage_run | intros assistant]. apply triple_pure. intros Hv.
  eapply (triple_bind _ _ (λ _, live (m + 1) t 0 st)); [|intros []].
  { destruct assistant as [message|]; [|by intros s Hs].
    eapply triple_post; [apply append_message_run; [lia | by apply Hv] | by intros [] s []]. }
  destruct (turn_modelErr data) as [e|]; [apply live_fail|].
  eapply triple_bind; [apply set_stop_run | intros []].
  destruct (String.eqb_spec (turn_stop data) StopToolUse) as [Hst|Hst]; cbn [negb].
  2: { intros s Hs. split; [lia|]. by exists t, (turn_stop data). }
  rewrite Hst. destruct (Z.eqb_spec (Z.of_nat (length (turn_calls data))) 0) as [Hz|Hz]; [apply live_fail|].
  eapply triple_bind; [eapply run_tools_run; [done.. | by intros E; rewrite E in Hz] | intros []].
  intros s (t' & Hs). split; [lia|]. by exists t', StopToolUse.
Qed.

(** How a run that does not fail ends. *)
Definition finished (s : LoopState) : Prop := ∃ m t st, live m t 0 st s ∧ st ≠ StopToolUse.

Lemma turns_run fuel sf tools m t st :
  run_sized sf → triple (live m t 0 st) (turns fuel sf request tools (add64 m 1)) (λ _, finished) body_inv.
Proof.
  intros Hsz. revert m t st. induction fuel as [|fuel IH]; intros m t st; cbn [turns].
  { intros s Hs. apply Hs. }
  eapply triple_bind; [by apply run_turn_run | intros b]. apply triple_pure. intros Hm.
  apply triple_exists. intros t'. apply triple_exists. intros st'.
  destruct b.
  - intros s [Hs Hst]. by exists (m + 1), t', st'.
  - intros s [Hs ->]. pose proof (li_body _ _ _ _ _ Hs) as Hb. pose proof (rs_models _ Hsz). pose proof (rs_start _ Hsz).
    assert (add64 m 1 = m + 1) as -> by (apply add64_exact; unfold is_int64, int64_min in *; lia).
    by apply (IH (m + 1) t' StopToolUse).
Qed.

Lemma run_body_run fuel sf m t st :
  run_sized sf → triple (live m t 0 st) (run_body fuel sf request) (λ _, finished) body_inv.
Proof.
  intros Hsz. unfold run_body. eapply triple_bind; [apply live_lift | intros tools]. apply triple_pure. intros _.
  eapply triple_bind; [by apply live_modify | intros []].
  eapply triple_bind; [apply live_get | intros s0]. apply triple_pure. intros Hs0.
  destruct (li_counters _ _ _ _ _ Hs0) as (-> & _). by apply turns_run.
Qed.

End run.
