(* ===== verification/LoopRun.v ===== *)
(** * Runs of the turn loop

    What [Run] of Loop.v guarantees on every path, success, failure and panic:
    it ends, it stays within its budgets, it records one gapless sequence of
    events that ends with the terminal one, and it closes every tool once. *)

From Stdlib Require Import ZArith Lia.
From S2P Require Import Prelude Effects GoNum GoText GoJson GoJsonText GoHash Ident Domain Event Model Stream Policy Routing.
From S2P Require Import Deterministic LoopTypes Loop LoopTools Execution LoopInvariant.

(* ------------------------------------------------------------------ *)
(** ** Properties of the history *)

Section histories.
Context `{Collaborators} (request : Request).

Definition closes (k : Call) : bool := match k with CallCloseTool _ => true | _ => false end.

(** A property of the history that every call but a close keeps. *)
Section kept.
Context (I : list Call → Prop) (I_call : ∀ h k, I h → closes k = false → I (h ++ [k])).

Abbreviation kept := (invariant (λ s, I (history s))).

Ltac keep_step :=
  match goal with
  | |- invariant _ (emit _ _ _) => unfold emit
  | |- invariant _ contextResult => unfold contextResult
  | |- invariant _ (budgetFailure _) => unfold budgetFailure
  | |- ∀ s, I (history s) → I (history _) => intros ? ?; cbn [history]; try apply I_call; done
  | |- _ => inv_loop_step
  end.
Ltac keep := repeat keep_step.

Lemma consume_loop_kept fuel sink budget turn model stream v data :
  kept (consume_loop fuel sink budget turn model stream v data).
Proof.
  revert v data. induction fuel as [|fuel IH]; intros v data; cbn [consume_loop]; unfold absorb; keep; apply IH.
Qed.

Lemma consumeTurn_kept fuel sink budget turn model stream : kept (consumeTurn fuel sink budget turn model stream).
Proof.
  destruct stream as [k|]; [|apply invariant_fail]. intros s Hs. cbn [consumeTurn].
  pose proof (consume_loop_kept fuel sink budget turn model k zero_validator zero_turnData s Hs) as Hc.
  destruct (consume_loop _ _ _ _ _ _ _ _ _) as [r s1].
  assert (I (history s1 ++ [CallCloseStream k])) as Hk by (apply I_call; [by destruct r | done]).
  unfold call, perform. destruct r as [d|e|v|]; [| | |done];
    destruct (close_stream (history s1) k) as [closed|v']; try exact Hk.
  by destruct (errors_Join [closed]).
Qed.

Lemma call_parts_kept classification calls : kept (call_parts classification calls).
Proof. induction calls as [|c calls IH]; cbn [call_parts]; keep; apply IH. Qed.

Lemma run_middleware_kept invocation middleware output : kept (run_middleware invocation middleware output).
Proof. revert output. induction middleware as [|k middleware IH]; intros output; cbn [run_middleware]; keep; apply IH. Qed.

Lemma executeTool_kept turn c tools : kept (executeTool request turn c tools).
Proof. unfold executeTool. keep. Qed.

Lemma finalize_kept turn c tools x : kept (finalize request turn c tools x).
Proof. unfold finalize, finalizeToolResult. keep; apply run_middleware_kept. Qed.

Lemma batch_sequential_kept turn tools calls : kept (batch_sequential request turn tools calls).
Proof.
  induction calls as [|c calls IH]; cbn [batch_sequential]; keep; [apply executeTool_kept | apply finalize_kept | apply IH].
Qed.

Lemma run_goroutines_kept turn tools calls order results : kept (run_goroutines request turn tools calls order results).
Proof.
  revert results. induction order as [|i order IH]; intros results; cbn [run_goroutines]; keep;
    apply IH || apply executeTool_kept.
Qed.

Lemma finalize_all_kept turn tools work : kept (finalize_all request turn tools work).
Proof. induction work as [|[c x] work IH]; cbn [finalize_all]; keep; [apply finalize_kept | apply IH]. Qed.

Lemma executeBatch_kept turn calls tools : kept (executeBatch request turn calls tools).
Proof.
  unfold executeBatch. keep; [apply batch_sequential_kept | apply run_goroutines_kept | apply finalize_all_kept].
Qed.

Lemma start_tools_kept turn model calls : kept (start_tools request turn model calls).
Proof. induction calls as [|c calls IH]; cbn [start_tools]; keep; apply IH. Qed.

Lemma complete_tools_kept turn model work : kept (complete_tools request turn model work).
Proof. induction work as [|[c x] work IH]; cbn [complete_tools]; keep; apply IH. Qed.

Lemma run_turn_kept fuel tools turn : kept (run_turn fuel request tools turn).
Proof.
  unfold run_turn, select_turn, call_model, assistantMessage, run_tools, append_message. keep;
    first [apply consumeTurn_kept | apply call_parts_kept | apply start_tools_kept | apply executeBatch_kept
          | apply complete_tools_kept].
Qed.

Lemma run_body_kept fuel stream_fuel : kept (run_body fuel stream_fuel request).
Proof.
  unfold run_body. keep. generalize (add64 (LoopResult_ModelCalls (loop_result a1)) 1) as turn.
  induction fuel as [|fuel IH]; intros turn; cbn [turns]; keep; [apply run_turn_kept | apply IH].
Qed.

End kept.
End histories.

(* ------------------------------------------------------------------ *)
(** ** The deferred function *)

Section finish.
Context `{Collaborators} (request : Request).

(** The closes of all tools, the last one first. *)
Definition closings : list Call := CallCloseTool <$> omap Binding_Handler (rev (Loop_Tools request)).

Lemma close_loop_ends bindings acc s :
  ∃ r, close_loop bindings acc s = (Done r, after_calls s (CallCloseTool <$> omap Binding_Handler bindings)).
Proof.
  revert acc s. induction bindings as [|b bindings IH]; intros acc s; cbn [close_loop].
  { exists acc. f_equal. symmetry. apply after_calls_nil. }
  assert (∃ r, closeTool b s = (Done r, after_calls s (CallCloseTool <$> omap Binding_Handler [b]))) as [r E].
  { unfold closeTool, recover, mbind, lm_bind. cbn. destruct (Binding_Handler b) as [k|]; cbn.
    - unfold call, perform. destruct (close_tool (history s) k) as [[e|]|v]; eexists; reflexivity.
    - eexists. f_equal. symmetry. apply after_calls_nil. }
  unfold mbind, lm_bind. rewrite E.
  destruct (IH match r with Some _ => errors_Join [acc; r] | None => acc end (after_calls s (CallCloseTool <$> omap Binding_Handler [b])))
    as [r' E'].
  rewrite E'. exists r'. rewrite after_calls_app, <-fmap_app, <-omap_app. done.
Qed.

(** The terminal event, from the error of the run so far. *)
Definition terminal_event (err : option error) (s : LoopState) : LoopEvent :=
  let event := loop_event LoopEventStopped (currentTurn s) (currentModel s) in
  {| event with
     LoopEvent_Sequence := wrapu64 (emitter_sequence s + 1);
     LoopEvent_Stop := terminal_stop err (loop_result s);
     LoopEvent_FailureCode := loopFailureCode err (loop_result s) |}.

(** What is recorded at the end: nothing once the emitter has failed. *)
Definition last_words (err : option error) (s : LoopState) : list Call :=
  if emitter_failed s || negb (is_some (Loop_Sink request)) then [] else [CallRecord true (terminal_event err s)].

(** How the deferred function ends after a body that returned [err]: [err']
    also holds the errors of the cleanup. *)
Record ended (err err' : option error) (s : LoopState) (r : ending (option error)) (s' : LoopState) : Prop := {
  en_error : is_some err = true → is_some err' = true;
  en_result : loop_result s' = loop_result s;
  en_history : history s' = history s ++ closings ++ last_words err' s;
  en_total : match r with Done _ | Panicked _ => True | _ => False end;
  en_failed : emitter_failed s = true → emitter_failed s' = true;
  en_nil : r = Done None → err' = None;
  en_same : ∀ x, r = Done x → emitter_failed s' = false → is_some x = is_some err';
}.

Lemma finish_run_ends err s : ∃ err' r s', finish_run request err s = (r, s') ∧ ended err err' s r s'.
Proof.
  unfold finish_run, closeTools. destruct (close_loop_ends (rev (Loop_Tools request)) None s) as [c E].
  unfold mbind, lm_bind. rewrite E. fold closings.
  set (err' := match c with Some _ => errors_Join [err; c] | None => err end).
  assert (is_some err = true → is_some err' = true) as He.
  { unfold err'. destruct c; [|done]. by destruct err. }
  exists err'. unfold lm_get. cbn [emitter_failed after_calls].
  destruct (emitter_failed s) eqn:Hf.
  { eexists _, _. split; [reflexivity|]. split; try done; [|by intros [= ->] | by intros x [= ->]].
    unfold last_words. by rewrite Hf, app_nil_r. }
  unfold attempt, emit, mbind, lm_bind, lm_modify, lm_get. cbn.
  destruct (Loop_Sink request) as [k|] eqn:Hk.
  2: { eexists _, _. split; [reflexivity|]. split; cbn; try done; [|by destruct err'|].
       - unfold last_words. by rewrite Hf, Hk, app_nil_r.
       - intros x [= <-] _. by destruct err'. }
  unfold call, perform. rewrite !LoopEvent_Clone_id. cbn.
  assert ((history s ++ closings) ++ [CallRecord true (terminal_event err' s)] = history s ++ closings ++ last_words err' s)
    as Hl by (unfold last_words; by rewrite Hf, Hk, app_assoc).
  destruct (record _ _ _ _) as [[e|]|v]; eexists _, _; (split; [reflexivity|]); split; cbn; try done;
    try exact Hl; try (by destruct err'); intros x [= <-] _; by destruct err'.
Qed.

End finish.

(* ------------------------------------------------------------------ *)
(** ** A run that starts *)

Section started.
Context `{Collaborators} (request : Request).

(** The request is accepted: neither the context nor validation refuses it. *)
Definition started : Prop := obs_parent (observe []) = None ∧ LoopRequest_Validate request = Ok tt.

Abbreviation cloned := (LoopRequest_Clone request).

Lemma start_state_clone : start_state cloned = start_state request.
Proof.
  unfold start_state, LoopRequest_Clone, CloneModelRequest. cbn. rewrite !CloneMessages_id.
  destruct (Loop_Continuation request); cbn; by rewrite ?LoopResult_Clone_id.
Qed.

Lemma start_result_clone : start_result cloned = start_result request.
Proof. unfold start_result. by rewrite start_state_clone. Qed.

Lemma start_sequence_clone : start_sequence cloned = start_sequence request.
Proof. unfold start_sequence. by rewrite start_state_clone. Qed.

(** What validation says of the result a run starts from. *)
Record start_facts : Prop := {
  sf_models : 0 <= LoopResult_ModelCalls (start_result request) <= MaxModelCalls (Loop_Budget request);
  sf_tools : 0 <= LoopResult_ToolCalls (start_result request) <= MaxToolCalls (Loop_Budget request);
  sf_usage : Usage_Validate (LoopResult_Usage (start_result request)) = Ok tt;
  sf_messages : Forall (fun m => Message_Validate m = Ok tt) (LoopResult_Messages (start_result request));
  sf_classification : Classification_Validate (Loop_ToolErrorClassification request) = Ok tt;
  sf_handlers : Forall (fun b => is_some (Binding_Handler b) = true) (Loop_Tools request);
}.

Lemma started_facts : started → start_facts.
Proof.
  intros [_ Hv]. unfold LoopRequest_Validate in Hv. rewrite !seq_Ok in Hv.
  destruct Hv as (Hc & _ & _ & Hb & Hm & _ & _ & Hcl & Hh & _ & Hi).
  apply Budget_Validate_Ok in Hb as (_ & _ & _ & _ & Hbt & _). apply require_Ok, negb_true_iff, Z.leb_gt in Hm.
  rewrite wrapf_Ok in Hcl, Hi. apply each_fresh_Ok in Hh as (Hh & _).
  assert (Forall (fun m => Message_Validate m = Ok tt) (Request_Messages (Loop_Initial request))) as Hmsg.
  { unfold ModelRequest_Validate in Hi. rewrite !seq_Ok in Hi. destruct Hi as (_ & _ & _ & Hi & _). apply each_Ok in Hi.
    cbn in Hi. rewrite CloneMessages_id in Hi. eapply Forall_impl; [exact Hi|]. intros m. by rewrite wrapf_Ok. }
  assert (Forall (fun b : Binding => is_some (Binding_Handler b) = true) (Loop_Tools request)) as Hhandlers.
  { eapply Forall_impl; [exact Hh|]. intros b Hx. cbn in Hx. by apply seq_Ok in Hx as [Hx%require_Ok _]. }
  unfold start_result, start_state. destruct (Loop_Continuation request) as [c|] eqn:Hcc.
  - unfold continuation_check in Hc. rewrite !seq_Ok in Hc. destruct Hc as (Hc & Hu & Hms).
    rewrite require_Ok, negb_true_iff, !orb_false_iff, !Z.ltb_ge in Hc. apply each_Ok in Hms.
    split; unfold start_result, start_state; rewrite ?Hcc; cbn [loop_result]; rewrite ?LoopResult_Clone_id; try done; lia.
  - split; unfold start_result, start_state; rewrite ?Hcc; cbn [loop_result]; try done; cbn; try lia. by rewrite CloneMessages_id.
Qed.

Lemma start_live :
  started →
  live cloned (LoopResult_ModelCalls (start_result request)) (LoopResult_ToolCalls (start_result request)) 0
    (LoopResult_Stop (start_result request)) (start_state request).
Proof.
  intros Hs. pose proof (started_facts Hs) as []. 
  split; fold (start_result request); try done.
  - split; fold (start_result request); rewrite ?start_result_clone, ?start_sequence_clone; cbn; try done;
      try lia.
    + intros _. f_equal. lia.
    + change (LoopResult_ModelCalls (start_result request) <= MaxModelCalls (Loop_Budget request) ∧
              LoopResult_ToolCalls (start_result request) <= MaxToolCalls (Loop_Budget request)). lia.
  - split; [done|]. left. by rewrite start_result_clone.
  - rewrite start_result_clone. cbn. lia.
Qed.

(** The size of a run fits the integers. *)
Definition sized (stream_fuel : nat) : Prop :=
  MaxModelCalls (Loop_Budget request) <= int64_max ∧
  MaxToolCalls (Loop_Budget request) + Z.of_nat stream_fuel <= int64_max.

Lemma started_sized stream_fuel : started → sized stream_fuel → run_sized cloned stream_fuel.
Proof. intros Hs [? ?]. pose proof (started_facts Hs) as []. split; try done. rewrite start_result_clone. lia. Qed.

(** How a run ends: its body, then the deferred function. *)
Lemma Run_ends fuel stream_fuel r s :
  started → Run fuel stream_fuel request = (r, s) → r ≠ Exhausted →
  ∃ b s1 err err', run_body fuel stream_fuel cloned (start_state request) = (b, s1) ∧ b ≠ Exhausted ∧
    ended cloned err err' s1 r s ∧ (err = None ↔ b = Done tt).
Proof.
  intros [Hp Hv] HR Hr. unfold Run in HR. rewrite Hp, Hv in HR. cbn zeta in HR. rewrite start_state_clone in HR.
  destruct (run_body fuel stream_fuel cloned (start_state request)) as [b s1].
  assert (∀ err, finish_run cloned err s1 = (r, s) → ∃ err', ended cloned err err' s1 r s) as Hf.
  { intros err Hf. destruct (finish_run_ends cloned err s1) as (err' & r' & s' & E & He). rewrite E in Hf.
    injection Hf as <- <-. by exists err'. }
  destruct b as [[]|e|v|]; [| | |by injection HR as <- <-]; apply Hf in HR as [err' He];
    eexists _, s1, _, err'; (split; [reflexivity|]); split_and!; try done.
Qed.

End started.

(* ------------------------------------------------------------------ *)
(** ** Lemmas on ended runs *)

Section ended.
Context `{Collaborators} (request : Request).

(** The events at the end of a run: those of the body and the last words. *)
Lemma ended_recorded err err' s r s' :
  ended request err err' s r s' →
  recorded (history s') =
    recorded (history s) ++ (if emitter_failed s || negb (is_some (Loop_Sink request)) then [] else [terminal_event err' s]).
Proof.
  intros []. rewrite en_history0, !recorded_app.
  assert (recorded (closings request) = []) as ->.
  { unfold closings. induction (omap Binding_Handler (rev (Loop_Tools request))); [done|]. by rewrite fmap_cons. }
  unfold last_words. by destruct (_ || _).
Qed.

Lemma ended_streams err err' s r s' : ended request err err' s r s' → streams (history s') = streams (history s).
Proof.
  intros []. rewrite en_history0, !streams_app.
  assert (streams (closings request) = 0%nat) as ->.
  { unfold closings. induction (omap Binding_Handler (rev (Loop_Tools request))); [done|]. by rewrite fmap_cons. }
  unfold last_words. destruct (_ || _); cbn; lia.
Qed.

Lemma ended_executes err err' s r s' : ended request err err' s r s' → executes (history s') = executes (history s).
Proof.
  intros []. rewrite en_history0, !executes_app.
  assert (executes (closings request) = 0%nat) as ->.
  { unfold closings. induction (omap Binding_Handler (rev (Loop_Tools request))); [done|]. by rewrite fmap_cons. }
  unfold last_words. destruct (_ || _); cbn; lia.
Qed.

End ended.

Section accepted.
Context `{Collaborators} (request : Request).

(** The body of an accepted run ends in the invariant, and if it does not fail
    with everything in order. *)
Lemma body_ends fuel sf b s1 :
  started request → sized request sf →
  run_body fuel sf (LoopRequest_Clone request) (start_state request) = (b, s1) →
  body_inv (LoopRequest_Clone request) s1 ∧ (b = Done tt → finished (LoopRequest_Clone request) s1).
Proof.
  intros Hs Hsz E.
  pose proof (run_body_run (LoopRequest_Clone request) fuel sf _ _ _ (started_sized _ _ Hs Hsz) (start_state request)
    (start_live _ Hs)) as Hb.
  rewrite E in Hb. destruct b as [[]|e|v|]; try (by split).
  split; [|done]. destruct Hb as (m & t & st & Hl & _). apply Hl.
Qed.

(** The events of an accepted run. *)
Lemma run_events fuel sf r s :
  started request → sized request sf → Run fuel sf request = (r, s) → r ≠ Exhausted →
  sequences_from (start_sequence request) (recorded (history s)) ∧
  ∀ k e, recorded (history s) !! k = Some e →
    event_wf selector_ok e ∧ checkpoint_ok (take k (recorded (history s))) e ∧
    (LoopEvent_Type e = LoopEventStopped → S k = length (recorded (history s))).
Proof.
  intros Hs Hsz HR Hr. destruct (Run_ends _ _ _ _ _ Hs HR Hr) as (b & s1 & err & err' & Eb & Hb & He & Herr).
  destruct (body_ends _ _ _ _ Hs Hsz Eb) as [[Hseq Hnext _ Hev _ _ _] _].
  rewrite start_sequence_clone in Hseq, Hnext. rewrite (ended_recorded (LoopRequest_Clone request) _ _ _ _ _ He).
  change (Loop_Sink (LoopRequest_Clone request)) with (Loop_Sink request) in *.
  destruct (emitter_failed s1 || negb (is_some (Loop_Sink request))) eqn:Hw.
  - rewrite app_nil_r. split; [done|]. intros k e Hk. by destruct (Hev k e Hk) as (? & ? & ?).
  - apply orb_false_iff in Hw as [_ Hk]. apply negb_false_iff in Hk. split.
    + apply sequences_from_snoc; [done|]. cbn.
      rewrite <-(wrapu64_succ (emitter_sequence s1)), Hnext, wrapu64_succ; [done|]. by destruct (Loop_Sink request).
    + intros k e. rewrite lookup_snoc, length_app. intros [Hl|[-> <-]].
      * destruct (Hev k e Hl) as (? & ? & ?). pose proof (lookup_lt_Some _ _ _ Hl). by rewrite take_app_le by lia.
      * rewrite take_app_length. split_and!; [|done | cbn; lia]. split; cbn; try done. by apply (bool_decide_unpack _).
Qed.

Lemma last_take_snoc {A} (l : list A) j x : l !! j = Some x → last (take (S j) l) = Some x.
Proof. intros Hj. by rewrite (take_S_r _ _ _ Hj), last_snoc. Qed.

(** The turns of the events, when the turn after the last one fits. *)
Lemma run_turns fuel sf r s :
  started request → sized request sf → MaxModelCalls (Loop_Budget request) < int64_max → Run fuel sf request = (r, s) → r ≠ Exhausted →
  ∀ k e, recorded (history s) !! k = Some e → 0 <= LoopEvent_Turn e.
Proof.
  intros Hs Hsz Hmax HR Hr k e. destruct (Run_ends _ _ _ _ _ Hs HR Hr) as (b & s1 & err & err' & Eb & Hb & He & Herr).
  destruct (body_ends _ _ _ _ Hs Hsz Eb) as [[_ _ _ Hev _ _ _ Hturn] _].
  rewrite (ended_recorded (LoopRequest_Clone request) _ _ _ _ _ He), lookup_app_Some. intros [Hk|[_ Hk]].
  - destruct (Hev k e Hk) as (Hw & Hty & _). by apply (wf_turn _ _ Hw).
  - destruct (_ || _); [done|]. apply list_lookup_singleton_Some in Hk as [_ <-]. by apply Hturn.
Qed.

(** Of an event of the right form, number and position only the placement is
    left to check. *)
Lemma event_checks e h x :
  (LoopEvent_Type e = LoopEventCheckpoint → selector_ok) → event_wf selector_ok e →
  1 <= LoopEvent_Sequence e → LoopEvent_Sequence e = next_loop_sequence h →
  (∀ p, previousLoop h = Some p → LoopEvent_Type p ≠ LoopEventStopped) →
  (LoopEvent_Type e = LoopEventCheckpoint → ∃ p, previousLoop h = Some p ∧ tool_message_event p) →
  Exec_Record_Loop x = Some e → Exec_Record_Turn x = LoopEvent_Turn e →
  check_loop h x = when (LoopEvent_Type e ≠s LoopEventStopped) (check_placement h e).
Proof.
  intros Hsel [W1 W2 W3 W4 W5 _] Hpos Hseq Hprev Hcp Hx Ht. unfold check_loop. rewrite Hx, Ht, Z.eqb_refl.
  destruct (Z.ltb_spec (LoopEvent_Sequence e) 1); [lia|]. rewrite (proj2 (Z.eqb_eq _ _) Hseq).
  assert (match previousLoop h with Some previous => negb (LoopEvent_Type previous =s LoopEventStopped) | None => true end = true) as ->.
  { destruct (previousLoop h) as [p|]; [|done]. by apply negb_true_iff, String.eqb_neq, Hprev. }
  cbn [orb negb require mbind result_bind]. destruct (when (_ ≠s _) _) as [[]|err]; [|done]. cbn [mbind result_bind].
  rewrite !seq_Ok, !require_Ok, !when_Ok, one_of_Ok. split_and!; try done.
  - by destruct (LoopEvent_ModelEvent e).
  - destruct (LoopEvent_ModelEvent e); [by rewrite andb_false_r|]. by apply seqb_false in W2 as ->.
  - destruct (LoopEvent_Message e); [by rewrite andb_false_r|]. by apply seqb_false in W3 as ->.
  - intros Hty%String.eqb_eq. destruct (W5 Hty) as (c & Hc & Hm & Htc & Hst & Hu & Hms).
    destruct (Hcp Hty) as (p & Hp & Hpt & m & Hpm & Hrole). unfold check_checkpoint. rewrite Hc, Hp, Hpt, Hpm, Hrole, Hst, Hm.
    rewrite !seq_Ok, require_Ok, each_Ok. split_and!; [|done | by apply Hms, Hsel]. rewrite Z.eqb_refl.
    destruct (Z.ltb_spec (LoopResult_ToolCalls c) 1); [lia | done].
  - destruct (LoopEvent_ToolCall e); [by rewrite andb_false_r|]. destruct (W4 eq_refl) as [E1%seqb_false E2%seqb_false].
    by rewrite E1, E2.
  - by destruct (LoopEvent_Message e).
Qed.

Lemma terminal_stop_final err r :
  (err = None → LoopResult_Stop r ≠ StopToolUse) → terminal_stop err r ≠ StopToolUse.
Proof.
  intros Hf. unfold terminal_stop. destruct err as [e|]; cbn [is_some orb].
  - by destruct (errors_Is e "context canceled").
  - destruct (String.eqb_spec (LoopResult_Stop r) ""); [done | by apply Hf].
Qed.

Lemma loopFailureCode_nil err r : loopFailureCode err r = "" ↔ err = None.
Proof.
  unfold loopFailureCode. destruct err as [e|]; [|done]. repeat (case_match; try done).
Qed.

End accepted.

(* ------------------------------------------------------------------ *)
(** ** Computations that end within their fuel *)

Section finite.
Context `{Collaborators} (request : Request).

Ltac ends_step :=
  match goal with
  | |- ends (emit _ _ _) => unfold emit
  | |- ends contextResult => unfold contextResult
  | |- ends (budgetFailure _) => unfold budgetFailure
  | |- ends (_ ≫= _) => apply ends_bind; [|intros ?]
  | |- ends (mret _) => intros ?; done
  | |- ends (lm_fail _) => intros ?; done
  | |- ends lm_get => intros ?; done
  | |- ends (lm_modify _) => intros ?; done
  | |- ends (modify_result _) => intros ?; done
  | |- ends (lm_lift _) => apply ends_lift
  | |- ends (deref _) => apply ends_deref
  | |- ends (call _ _) => apply ends_perform
  | |- ends (if ?b then _ else _) => destruct b eqn:?
  | |- ends (match ?x with _ => _ end) => destruct x eqn:?
  end.
Ltac ends := repeat ends_step.

Lemma call_parts_ends classification calls : ends (call_parts classification calls).
Proof. induction calls as [|c calls IH]; cbn [call_parts]; ends; apply IH. Qed.

Lemma start_tools_ends turn model calls : ends (start_tools request turn model calls).
Proof. induction calls as [|c calls IH]; cbn [start_tools]; ends; apply IH. Qed.

Lemma complete_tools_ends turn model work : ends (complete_tools request turn model work).
Proof. induction work as [|[c x] work IH]; cbn [complete_tools]; ends; apply IH. Qed.

(** The receives since the last model call. *)
Definition stream_receives (h : list Call) : nat :=
  foldl (fun n k => match k with CallStream _ _ => 0%nat | CallRecv _ => S n | _ => n end) 0%nat h.

(** Every stream ends within [n] receives: then it is at its end or fails. *)
Definition streams_end (n : nat) : Prop :=
  ∀ h stream event, (n <= stream_receives h)%nat → recv h stream ≠ Returns (Ok event).

Lemma stream_receives_snoc h k :
  stream_receives (h ++ [k]) = match k with CallStream _ _ => 0%nat | CallRecv _ => S (stream_receives h) | _ => stream_receives h end.
Proof. unfold stream_receives. by rewrite foldl_app. Qed.

(** The steps between two receives. *)
Ltac between :=
  unfold emit, contextResult, absorb, budgetFailure; inv_loop; intros ?; cbn [history]; rewrite ?stream_receives_snoc; done.

Lemma emit_receives n sink event : invariant (λ s, (n <= stream_receives (history s))%nat) (emit sink false event).
Proof. between. Qed.
Lemma contextResult_receives n : invariant (λ s, (n <= stream_receives (history s))%nat) contextResult.
Proof. between. Qed.
Lemma absorb_receives n budget event data : invariant (λ s, (n <= stream_receives (history s))%nat) (absorb budget event data).
Proof. between. Qed.

Lemma recv_receives n k stream :
  streams_end n →
  triple (λ s, (k <= stream_receives (history s))%nat) (call (CallRecv stream) (fun h => recv h stream))
    (λ r s, ∀ event, r = Ok event → (k < n)%nat ∧ (S k <= stream_receives (history s))%nat) (λ _, True).
Proof.
  intros Hn. apply triple_call; [|done]. intros s r Hs Hr event ->. cbn [history]. rewrite stream_receives_snoc.
  destruct (decide (n <= stream_receives (history s))%nat) as [Hx|Hx]; [by destruct (Hn _ _ _ Hx Hr) | lia].
Qed.

Lemma consume_loop_ends n fuel sink budget turn model stream v data k :
  streams_end n → (n < fuel + k)%nat → (k <= n)%nat →
  ends_from (λ s, (k <= stream_receives (history s))%nat) (consume_loop fuel sink budget turn model stream v data).
Proof.
  intros Hn. revert v data k. induction fuel as [|fuel IH]; intros v data k Hk Hkn; cbn [consume_loop]; [lia|].
  eapply ends_from_bind; [apply contextResult_receives | apply ends_weaken; ends | intros []].
  eapply ends_from_bind; [by apply recv_receives | apply ends_weaken; ends | intros [event|err]].
  2: { apply ends_weaken. destruct (errors_Is err "EOF"); [destruct (fst (Validator_Complete v))|]; ends. }
  destruct (Validator_Accept event v) as [[[]|e] v']; [|apply ends_weaken; ends].
  intros s Hs. destruct (Hs event eq_refl) as [Hlt Hrec]. clear Hs. revert s Hrec.
  apply (ends_from_bind _ _ (λ _ s, (S k <= stream_receives (history s))%nat) (λ s, (S k <= stream_receives (history s))%nat));
    [apply emit_receives | apply ends_weaken; ends | intros []].
  apply (ends_from_bind _ _ (λ _ s, (S k <= stream_receives (history s))%nat) (λ s, (S k <= stream_receives (history s))%nat));
    [apply absorb_receives | apply ends_weaken; unfold absorb; ends | intros d].
  apply IH; lia.
Qed.

Lemma call_model_ends n fuel turn provider model :
  streams_end n → (n < fuel)%nat → ends (call_model fuel request turn provider model).
Proof.
  intros Hn Hf s. unfold call_model, mbind, lm_bind, lm_get, modify_result, lm_modify, call, perform. cbn.
  destruct (provider_stream _ _ _) as [[[k|]|e]|v]; cbn; try done.
  - match goal with |- context [consume_loop _ _ _ _ _ _ _ _ ?st] => set (s1 := st) end.
    pose proof (consume_loop_ends n fuel (Loop_Sink request) (Loop_Budget request) turn model k zero_validator zero_turnData 0
      Hn ltac:(lia) ltac:(lia) s1 (Nat.le_0_l _)) as Hc.
    destruct (consume_loop _ _ _ _ _ _ _ _ _) as [[d|e|v|] s2]; [| | |done];
      unfold call, perform; destruct (close_stream (history s2) k) as [closed|v']; try done.
    by destruct (errors_Join [closed]).
  - unfold contextResult, mbind, lm_bind, call, perform. cbn. destruct (obs_loop _); [|done]. by destruct (_ && _).
Qed.

Lemma run_turn_ends n fuel tools turn :
  streams_end n → (n < fuel)%nat → Classification_Validate (Loop_ToolErrorClassification request) = Ok tt →
  ends (run_turn fuel request tools turn).
Proof.
  intros Hn Hf Hc. unfold run_turn, select_turn, assistantMessage, run_tools, append_message. ends;
    first [by eapply call_model_ends | apply call_parts_ends | apply start_tools_ends | apply complete_tools_ends | idtac].
  intros s. destruct (executeBatch_ends request turn (turn_calls a4) tools s Hc) as (xs & err & s' & E & _). by rewrite E.
Qed.

(** Every turn makes one more model call. *)
Lemma turns_ends n fuel sf tools m t st :
  run_sized request sf → streams_end n → (n < sf)%nat → MaxModelCalls (Loop_Budget request) - m < Z.of_nat fuel →
  ends_from (live request m t 0 st) (turns fuel sf request tools (add64 m 1)).
Proof.
  intros Hsz Hn Hsf. revert m t st. induction fuel as [|fuel IH]; intros m t st Hf; cbn [turns].
  { intros s Hs. destruct (live_counters _ _ _ _ _ _ _ Hsz Hs). lia. }
  eapply ends_from_bind; [by apply run_turn_run | apply ends_weaken; by eapply run_turn_ends, rs_classification | intros b].
  destruct b; [by intros s|]. intros s ([Hm0 Hm] & t' & st' & Hs & _).
  assert (add64 m 1 = m + 1) as ->.
  { pose proof (rs_models _ _ Hsz). apply add64_exact. unfold is_int64, int64_min in *. lia. }
  apply (IH (m + 1) t' st'); [lia | done].
Qed.

Lemma run_body_ends n fuel sf m t st :
  run_sized request sf → streams_end n → (n < sf)%nat → MaxModelCalls (Loop_Budget request) - m < Z.of_nat fuel →
  ends_from (live request m t 0 st) (run_body fuel sf request).
Proof.
  intros Hsz Hn Hsf Hf. unfold run_body.
  eapply ends_from_bind; [apply live_lift | apply ends_weaken, ends_lift | intros tools].
  eapply ends_from_bind; [|by apply ends_weaken|].
  { apply triple_pure. intros _. by apply live_modify. }
  intros []. eapply ends_from_bind; [apply live_get | by apply ends_weaken | intros s0].
  intros s [Hs0 Hs]. destruct (li_counters _ _ _ _ _ _ Hs0) as (-> & _). by eapply turns_ends.
Qed.

End finite.

(* ------------------------------------------------------------------ *)
(** ** Properties *)

(** C17. [Run] ends: when every stream ends within [n] receives, [n + 1] receives per
    turn and one turn more than the model calls left in the budget are enough,
    whatever the selector, models, tools, middleware, sink and contexts do. *)
Theorem Run_terminates `{Collaborators} n fuel stream_fuel request :
  started request → sized request stream_fuel → streams_end n → (n < stream_fuel)%nat →
  MaxModelCalls (Loop_Budget request) - LoopResult_ModelCalls (start_result request) < Z.of_nat fuel →
  match fst (Run fuel stream_fuel request) with Done _ | Panicked _ => True | Failed _ | Exhausted => False end.
Proof.
  intros Hs Hsz Hn Hsf Hf.
  pose proof (run_body_ends (LoopRequest_Clone request) n fuel stream_fuel _ _ _ (started_sized _ _ Hs Hsz) Hn Hsf Hf
    _ (start_live _ Hs)) as Hb.
  destruct (Run fuel stream_fuel request) as [r s] eqn:HR.
  assert (r ≠ Exhausted) as Hr.
  { intros ->. destruct Hs as [Hp Hv]. unfold Run in HR. rewrite Hp, Hv in HR. cbn zeta in HR. rewrite start_state_clone in HR.
    assert (∀ err s1, finish_run (LoopRequest_Clone request) err s1 ≠ (Exhausted, s)) as Hfin.
    { intros err s1. destruct (finish_run_ends (LoopRequest_Clone request) err s1) as (err' & r & s' & -> & He).
      pose proof (en_total _ _ _ _ _ _ He) as Ht. by intros [= -> ->]. }
    destruct (run_body _ _ _ _) as [[u|e|v|] s1]; try (by apply Hfin in HR). done. }
  destruct (Run_ends _ _ _ _ _ Hs HR Hr) as (b & s1 & err & err' & _ & _ & He & _).
  pose proof (en_total _ _ _ _ _ _ He). by destruct r.
Qed.

(** C10. A run stays within its budget on every path: each model call and each tool
    execution is counted, the counts never exceed the budget, and a run that
    succeeds returns a usage that is valid and, if it grew, within the token and
    cost limits, valid messages, and a stop that is not a request for tools. *)
Theorem Run_budget `{Collaborators} fuel stream_fuel request r s :
  started request → sized request stream_fuel → Run fuel stream_fuel request = (r, s) → r ≠ Exhausted →
  let result := loop_result s in
  let usage := LoopResult_Usage result in
  LoopResult_ModelCalls result <= MaxModelCalls (Loop_Budget request) ∧
  LoopResult_ToolCalls result <= MaxToolCalls (Loop_Budget request) ∧
  LoopResult_ModelCalls (start_result request) + Z.of_nat (streams (history s)) = LoopResult_ModelCalls result ∧
  LoopResult_ToolCalls (start_result request) + Z.of_nat (executes (history s)) <= LoopResult_ToolCalls result ∧
  (r = Done None →
   LoopResult_Stop result ≠ StopToolUse ∧ Usage_Validate usage = Ok tt ∧
   (usage = LoopResult_Usage (start_result request) ∨
    Usage_InputTokens usage <= MaxInputTokens (Loop_Budget request) ∧
    Usage_OutputTokens usage <= MaxOutputTokens (Loop_Budget request) ∧ Usage_Cost usage <= MaxCost (Loop_Budget request)) ∧
   (selector_ok → Forall (fun m => Message_Validate m = Ok tt) (LoopResult_Messages result))).
Proof.
  intros Hs Hsz HR Hr. destruct (Run_ends _ _ _ _ _ Hs HR Hr) as (b & s1 & err & err' & Eb & Hb & He & Herr).
  destruct (body_ends _ _ _ _ _ Hs Hsz Eb) as [[_ _ _ _ Hm Ht [Hbm Hbt]] Hfin].
  rewrite start_result_clone in Hm, Ht. cbn zeta.
  rewrite (en_result _ _ _ _ _ _ He), (ended_streams _ _ _ _ _ _ He), (ended_executes _ _ _ _ _ _ He).
  split_and!; try done. intros ->.
  pose proof (en_nil _ _ _ _ _ _ He eq_refl) as ->. destruct err; [by pose proof (en_error _ _ _ _ _ _ He eq_refl)|].
  destruct (Hfin (proj1 Herr eq_refl)) as (m & t & st & [_ Hms [Hu Hx] (_ & _ & Hst) _] & Hne).
  rewrite Hst. split_and!; [done | done | | done]. rewrite start_result_clone in Hx. destruct Hx as [->|Hx]; [by left | right].
  by apply exceededUsage_empty in Hx.
Qed.

(** [Run] closes the handler of every tool once, the last tool first, after all
    its other work, on every path on which the request was accepted: whether
    the loop succeeds, fails or panics, and whether closing fails.  Nothing
    follows but the terminal event. *)
Theorem Run_closes_tools `{Collaborators} fuel stream_fuel request r s :
  started request → Run fuel stream_fuel request = (r, s) → r ≠ Exhausted →
  length (closings request) = length (Loop_Tools request) ∧
  ∃ before after, history s = before ++ closings request ++ after ∧
    Forall (fun k => closes k = false) before ∧ Forall (fun k => closes k = false) after ∧ (length after <= 1)%nat.
Proof.
  intros Hs HR Hr. destruct (Run_ends _ _ _ _ _ Hs HR Hr) as (b & s1 & err & err' & Eb & Hb & He & _). split.
  - destruct (started_facts _ Hs) as [_ _ _ _ _ Hh]. unfold closings. rewrite length_fmap, <-(length_rev (Loop_Tools request)).
    apply Forall_rev in Hh. induction Hh as [|b' l Hb' _ IH]; [done|]. cbn. destruct (Binding_Handler b'); [|done]. cbn. by rewrite IH.
  - exists (history s1), (last_words (LoopRequest_Clone request) err' s1). split_and!; [apply He | | |].
    + pose proof (run_body_kept (LoopRequest_Clone request) (Forall (fun k => closes k = false))) as Hk.
      refine (invariant_run _ _ _ _ _ (Hk _ fuel stream_fuel) _ Eb); [|by repeat constructor].
      intros h k Hh Hc. apply Forall_app. split; [done | by constructor].
    + unfold last_words. destruct (_ || _); by repeat constructor.
    + unfold last_words. destruct (_ || _); cbn; lia.
Qed.

(** C18. A run records its events with consecutive numbers after the sequence it
    starts from.  A [loop_stopped] event is only ever the last one, and it is
    there unless the sink has failed; it never says the loop stopped to use a
    tool, and its failure code is empty exactly when [Run] returns no error. *)
Theorem Run_records `{Collaborators} fuel stream_fuel request r s :
  started request → sized request stream_fuel → Run fuel stream_fuel request = (r, s) → r ≠ Exhausted →
  let events := recorded (history s) in
  sequences_from (start_sequence request) events ∧
  (∀ k e, events !! k = Some e → LoopEvent_Type e = LoopEventStopped → S k = length events) ∧
  (Loop_Sink request ≠ None → emitter_failed s = false →
   ∃ e, last events = Some e ∧ LoopEvent_Type e = LoopEventStopped ∧ LoopEvent_Stop e ≠ StopToolUse ∧
        ∀ err, r = Done err → (LoopEvent_FailureCode e = "" ↔ err = None)).
Proof.
  intros Hs Hsz HR Hr events. destruct (run_events _ _ _ _ _ Hs Hsz HR Hr) as [Hseq Hev].
  split_and!; [done | intros k e Hk; by apply Hev |]. intros Hk Hf.
  destruct (Run_ends _ _ _ _ _ Hs HR Hr) as (b & s1 & err & err' & Eb & Hb & He & Herr).
  destruct (body_ends _ _ _ _ _ Hs Hsz Eb) as [_ Hfin].
  assert (emitter_failed s1 = false) as Hf1.
  { destruct (emitter_failed s1) eqn:Hf1; [|done]. by rewrite (en_failed _ _ _ _ _ _ He Hf1) in Hf. }
  exists (terminal_event err' s1). unfold events. rewrite (ended_recorded _ _ _ _ _ _ He), Hf1.
  change (Loop_Sink (LoopRequest_Clone request)) with (Loop_Sink request).
  assert (is_some (Loop_Sink request) = true) as -> by (by destruct (Loop_Sink request)). cbn [negb orb].
  rewrite last_snoc. split_and!; [done | done | |].
  - apply terminal_stop_final. intros ->. destruct err; [by pose proof (en_error _ _ _ _ _ _ He eq_refl)|].
    destruct (Hfin (proj1 Herr eq_refl)) as (m & t & st & Hl & Hst). by rewrite (proj2 (proj2 (li_counters _ _ _ _ _ _ Hl))).
  - intros x Hx. cbn. rewrite loopFailureCode_nil. pose proof (en_same _ _ _ _ _ _ He x Hx Hf) as Hsame.
    by destruct x, err'.
Qed.

(* ------------------------------------------------------------------ *)
(** ** Witnesses *)

Definition example_calm : Collaborators := example_collaborators (fun _ => false).

(** A run of two turns, the first with a tool. *)
Definition example_run : ending (option error) * LoopState (H:=example_carriers) := Run (H0:=example_calm) 4 10 example_loop_request.

Lemma example_started : started (H0:=example_calm) example_loop_request.
Proof. split; vm_compute; reflexivity. Qed.

Lemma example_sized : sized (H:=example_carriers) example_loop_request 10.
Proof. by split; vm_compute. Qed.

Lemma stream_receives_le (h : list (Call (H:=example_carriers))) : (stream_receives h <= receives h)%nat.
Proof.
  induction h as [|k h IH] using rev_ind; [done|]. rewrite stream_receives_snoc. unfold receives.
  rewrite List.filter_app, length_app. fold (receives h). destruct k; cbn; lia.
Qed.

Lemma example_streams_end : streams_end (H0:=example_calm) 8.
Proof.
  intros h stream event Hh. cbn. pose proof (stream_receives_le h). intros Hr.
  rewrite (lookup_ge_None_2 example_turns (receives h)) in Hr by (cbn; lia). discriminate Hr.
Qed.

Example Run_terminates_witness :
  match fst (Run (H0:=example_calm) 4 10 example_loop_request) with Done _ | Panicked _ => True | Failed _ | Exhausted => False end.
Proof.
  apply (Run_terminates (H0:=example_calm) 8); [apply example_started | apply example_sized | apply example_streams_end | lia | reflexivity].
Defined.

Example Run_budget_witness : Z.of_nat (streams (history (snd example_run))) = 2 ∧ LoopResult_Stop (loop_result (snd example_run)) ≠ StopToolUse.
Proof.
  destruct (Run_budget (H0:=example_calm) 4 10 example_loop_request (fst example_run) (snd example_run) example_started example_sized
    (surjective_pairing _) ltac:(by vm_compute)) as (_ & _ & Hm & _ & Hdone).
  split; [|apply Hdone; by vm_compute]. change (LoopResult_ModelCalls (start_result (H:=example_carriers) example_loop_request)) with 0 in Hm.
  rewrite Z.add_0_l in Hm. rewrite Hm. by vm_compute.
Defined.

Example Run_closes_tools_witness : ∃ before after, history (snd example_run) = before ++ [CallCloseTool "handler"] ++ after.
Proof.
  destruct (Run_closes_tools (H0:=example_calm) 4 10 example_loop_request (fst example_run) (snd example_run) example_started
    (surjective_pairing _) ltac:(by vm_compute)) as (_ & before & after & Hh & _).
  by exists before, after.
Defined.

Example Run_records_witness :
  ∃ e, last (recorded (history (snd example_run))) = Some e ∧ LoopEvent_Type e = LoopEventStopped ∧ LoopEvent_FailureCode e = "".
Proof.
  destruct (Run_records (H0:=example_calm) 4 10 example_loop_request (fst example_run) (snd example_run) example_started example_sized
    (surjective_pairing _) ltac:(by vm_compute)) as (_ & _ & Hlast).
  destruct Hlast as (e & Hl & Ht & _ & Hf); [by vm_compute | by vm_compute |].
  exists e. split_and!; [done | done |]. by apply (Hf None); vm_compute.
Defined.
