(* ===== verification/Projection.v ===== *)
(** * The workload projection: src/projection.go and applyExecutionRecorded of
    src/execution_event.go

    The state rebuilt from one workload stream.  [Apply] returns the state in
    both cases, as the Go method leaves its receiver. Strict JSON decoding of a
    payload into its Go type ([decodeProjectionPayload]) is the interface
    [PayloadDecoder]: it depends on struct tags read by reflection. *)

From Stdlib Require Import ZArith Lia.
From S2P Require Import Prelude GoNum GoText GoJson GoHash Ident Domain Event Store Model Policy Routing LoopTypes Execution.

Definition WorkloadAggregateType : string := "workload".
Definition CoreEventSchemaV1 : Z := 1.

Definition EventTypeWorkloadCreated : string := "workload.created".
Definition EventTypeWorkloadTransitioned : string := "workload.transitioned".
Definition EventTypeStepCreated : string := "step.created".
Definition EventTypeStepTransitioned : string := "step.transitioned".

Definition ErrAggregateNotFound : error := Sentinel "aggregate not found".
Definition ErrInvalidProjectionEvent : error := Sentinel "invalid projection event".

Record WorkloadCreatedPayload : Type := {
  Created_SessionID : ID;
  Created_Goal : string;
  Created_Budget : Budget;
}.

Record WorkloadTransitionedPayload : Type := {
  WTransition_From : WorkloadState;
  WTransition_To : WorkloadState;
}.

Record StepCreatedPayload : Type := {
  SCreated_ID : ID;
  SCreated_ParentStepID : ID;
  SCreated_Kind : StepKind;
  SCreated_Requirements : Requirements;
  SCreated_Budget : Budget;
  SCreated_Attempt : Z;
  SCreated_IdempotencyKey : string;
}.

Record StepTransitionedPayload : Type := {
  STransition_StepID : ID;
  STransition_From : StepState;
  STransition_To : StepState;
}.

(** [decodeProjectionPayload] at each of the payload types. *)
Class PayloadDecoder := {
  decode_workload_created : bytes → result WorkloadCreatedPayload;
  decode_workload_transitioned : bytes → result WorkloadTransitionedPayload;
  decode_step_created : bytes → result StepCreatedPayload;
  decode_step_transitioned : bytes → result StepTransitionedPayload;
  decode_execution_record : bytes → result ExecutionRecord;
}.

Record WorkloadProjection : Type := {
  Projection_Aggregate : AggregateRef;
  Projection_Version : Z;
  Projection_Workload : Workload;
  Projection_Steps : gmap ID Step;
  Projection_Execution : list ExecutionRecord;
}.

Definition zero_Workload : Workload :=
  {| Workload_ID := ""; Workload_SessionID := ""; Workload_Goal := ""; Workload_State := "";
     Workload_Budget := zero_Budget; Workload_CreatedAt := 0; Workload_UpdatedAt := 0 |}.

Definition empty_projection (aggregate : AggregateRef) : WorkloadProjection :=
  {| Projection_Aggregate := aggregate; Projection_Version := 0; Projection_Workload := zero_Workload;
     Projection_Steps := ∅; Projection_Execution := [] |}.

Definition NewWorkloadProjection (aggregate : AggregateRef) : result WorkloadProjection :=
  AggregateRef_Validate aggregate ;;
  require (Ref_Type aggregate =s WorkloadAggregateType) "workload projection requires aggregate type workload" ;;
  Ok (empty_projection aggregate).

(** [NewCoreEventDraft], given what [json.Marshal] made of the payload. *)
Definition NewCoreEventDraft (eventType : string) (encoded : result bytes) : result EventDraft :=
  payload ← wrapf "marshal payload" encoded;
  let draft := {| Draft_Type := eventType; Draft_SchemaVersion := CoreEventSchemaV1; Draft_CausationID := "";
                  Draft_CorrelationID := ""; Draft_AttemptID := ""; Draft_Payload := payload |} in
  EventDraft_Validate draft ;;
  Ok draft.

(* ------------------------------------------------------------------ *)
(** ** Applying one event *)

Section apply.
Context `{Quoting, PayloadDecoder}.

Definition applyWorkloadCreated (event : Event) : ST WorkloadProjection unit :=
  p ← st_get;
  st_lift (require (negb (negb (Projection_Version p =? 0) || negb (ID_IsZero (Workload_ID (Projection_Workload p)))))
    "workload already created") ;;
  payload ← st_lift (decode_workload_created (Event_Payload event));
  st_lift (wrapf "session ID" (ID_Validate (Created_SessionID payload))) ;;
  st_lift (require (negb (blank (Created_Goal payload))) "workload goal is required") ;;
  st_lift (wrapf "workload budget" (Budget_Validate (Created_Budget payload))) ;;
  st_modify (fun p => {| p with Projection_Workload :=
    {| Workload_ID := Ref_ID (Projection_Aggregate p);
       Workload_SessionID := Created_SessionID payload;
       Workload_Goal := Created_Goal payload;
       Workload_State := WorkloadCreated;
       Workload_Budget := Created_Budget payload;
       Workload_CreatedAt := Event_OccurredAt event;
       Workload_UpdatedAt := Event_OccurredAt event |} |}).

Definition require_created (p : WorkloadProjection) : result unit :=
  require (negb (ID_IsZero (Workload_ID (Projection_Workload p)))) "workload has not been created".

Definition applyWorkloadTransitioned (event : Event) : ST WorkloadProjection unit :=
  p ← st_get;
  st_lift (require_created p) ;;
  payload ← st_lift (decode_workload_transitioned (Event_Payload event));
  st_lift (WorkloadState_Validate (WTransition_From payload)) ;;
  st_lift (WorkloadState_Validate (WTransition_To payload)) ;;
  st_lift (require (WTransition_From payload =s Workload_State (Projection_Workload p))
    "workload state differs from what the event expects") ;;
  let '(r, candidate) := Workload_Transition (WTransition_To payload) (Event_OccurredAt event) (Projection_Workload p) in
  st_lift r ;;
  st_modify (fun p => {| p with Projection_Workload := candidate |}).

Definition applyStepCreated (event : Event) : ST WorkloadProjection unit :=
  p ← st_get;
  st_lift (require_created p) ;;
  payload ← st_lift (decode_step_created (Event_Payload event));
  st_lift (wrapf "step ID" (ID_Validate (SCreated_ID payload))) ;;
  st_lift (require (negb (is_some (Projection_Steps p !! SCreated_ID payload))) "step already exists") ;;
  st_lift (StepKind_Validate (SCreated_Kind payload)) ;;
  st_lift (wrapf "step requirements" (Requirements_Validate (SCreated_Requirements payload))) ;;
  st_lift (wrapf "step budget" (Budget_Validate (SCreated_Budget payload))) ;;
  st_lift (require (negb (SCreated_Attempt payload <? 1)) "step attempt must be positive") ;;
  st_lift (when (negb (ID_IsZero (SCreated_ParentStepID payload)))
    (wrapf "parent step ID" (ID_Validate (SCreated_ParentStepID payload)) ;;
     require (is_some (Projection_Steps p !! SCreated_ParentStepID payload)) "parent step does not exist")) ;;
  let step :=
    {| Step_ID := SCreated_ID payload;
       Step_WorkloadID := Workload_ID (Projection_Workload p);
       Step_ParentStepID := SCreated_ParentStepID payload;
       Step_Kind := SCreated_Kind payload;
       Step_State := StepPending;
       Step_Requirements := SCreated_Requirements payload;
       Step_Budget := SCreated_Budget payload;
       Step_Attempt := SCreated_Attempt payload;
       Step_IdempotencyKey := SCreated_IdempotencyKey payload;
       Step_CreatedAt := Event_OccurredAt event;
       Step_UpdatedAt := Event_OccurredAt event |} in
  st_modify (fun p => {| p with Projection_Steps := <[Step_ID step := step]> (Projection_Steps p) |}).

Definition applyStepTransitioned (event : Event) : ST WorkloadProjection unit :=
  p ← st_get;
  st_lift (require_created p) ;;
  payload ← st_lift (decode_step_transitioned (Event_Payload event));
  st_lift (wrapf "step ID" (ID_Validate (STransition_StepID payload))) ;;
  st_lift (StepState_Validate (STransition_From payload)) ;;
  st_lift (StepState_Validate (STransition_To payload)) ;;
  match Projection_Steps p !! STransition_StepID payload with
  | None => st_fail (errors_New "step does not exist")
  | Some step =>
      st_lift (require (STransition_From payload =s Step_State step) "step state differs from what the event expects") ;;
      let '(r, step') := Step_Transition (STransition_To payload) (Event_OccurredAt event) step in
      st_lift r ;;
      st_modify (fun p => {| p with Projection_Steps := <[Step_ID step' := step']> (Projection_Steps p) |})
  end.

Definition applyExecutionRecorded (event : Event) : ST WorkloadProjection unit :=
  p ← st_get;
  r ← st_lift (decode_execution_record (Event_Payload event));
  st_lift (require (Workload_State (Projection_Workload p) =s WorkloadRunning)
    "execution record requires a running workload") ;;
  st_lift (require (match Projection_Steps p !! Exec_Record_StepID r with
                    | Some step => Step_State step =s StepRunning
                    | None => false
                    end) "execution record requires a running step") ;;
  st_lift (check_record (Workload_ID (Projection_Workload p)) event (Projection_Execution p) r) ;;
  st_modify (fun p => {| p with Projection_Execution := Projection_Execution p ++ [r] |}).

(** The switch on the event type. *)
Definition apply_switch (event : Event) : ST WorkloadProjection unit :=
  let type := Event_Type event in
  if type =s EventTypeWorkloadCreated then applyWorkloadCreated event
  else if type =s EventTypeWorkloadTransitioned then applyWorkloadTransitioned event
  else if type =s EventTypeStepCreated then applyStepCreated event
  else if type =s EventTypeStepTransitioned then applyStepTransitioned event
  else if type =s EventTypeExecutionRecorded then applyExecutionRecorded event
  else st_fail (errors_New "unknown event type").

(** [fmt.Errorf("%w: %w", ErrInvalidProjectionEvent, err)] around a step. *)
Definition wrap_projection (m : ST WorkloadProjection unit) : ST WorkloadProjection unit := fun p =>
  let '(r, p') := m p in (wrap_base ErrInvalidProjectionEvent r, p').

Definition Apply (event : Event) : ST WorkloadProjection unit :=
  p ← st_get;
  st_lift (wrap_base ErrInvalidProjectionEvent (wrapf "projection aggregate" (AggregateRef_Validate (Projection_Aggregate p)))) ;;
  st_lift (require_w (Ref_Type (Projection_Aggregate p) =s WorkloadAggregateType) ErrInvalidProjectionEvent
    "projection aggregate type") ;;
  st_lift (wrap_base ErrInvalidProjectionEvent (Event_Validate event)) ;;
  st_lift (require_w ((Ref_Type (Event_Aggregate event) =s Ref_Type (Projection_Aggregate p)) &&
                      (Ref_ID (Event_Aggregate event) =s Ref_ID (Projection_Aggregate p)))
    ErrInvalidProjectionEvent "event aggregate does not match projection") ;;
  st_lift (require_w (Event_Sequence event =? wrapu64 (Projection_Version p + 1)) ErrInvalidProjectionEvent "event sequence") ;;
  st_lift (require_w (Event_SchemaVersion event =? CoreEventSchemaV1) ErrInvalidProjectionEvent
    "schema version is unsupported") ;;
  wrap_projection (apply_switch event) ;;
  st_modify (fun p => {| p with Projection_Version := Event_Sequence event |}).

(** [LoadWorkloadProjection] *)
Definition LoadWorkloadProjection {S} `{EventStore S} (load_ctx ctx : nat → option error) (aggregate : AggregateRef)
    : ST S WorkloadProjection := fun s =>
  match NewWorkloadProjection aggregate with
  | Err e => (Err e, s)
  | Ok projection =>
      match Replay load_ctx ctx aggregate Apply (s, projection) with
      | (Err e, (s', _)) => (Err e, s')
      | (Ok _, (s', projection')) =>
          if Projection_Version projection' =? 0
          then (Err (Errorf "aggregate" [ErrAggregateNotFound]), s')
          else (Ok projection', s')
      end
  end.

End apply.

(* ------------------------------------------------------------------ *)
(** ** What a successful application does *)

Section apply_lemmas.
Context `{Quoting, PayloadDecoder}.

Lemma wrap_projection_atomic m : atomic_on_error m → atomic_on_error (wrap_projection m).
Proof.
  intros Hm p e p'. unfold wrap_projection. destruct (m p) as [r p1] eqn:E.
  destruct r as [a|e1]; cbn; [done|]. intros [= _ <-]. by eapply Hm.
Qed.

Lemma wrap_projection_Ok m p u p' : wrap_projection m p = (Ok u, p') ↔ m p = (Ok u, p').
Proof. unfold wrap_projection. destruct (m p) as [[a|e] p1]; cbn; naive_solver. Qed.

Lemma apply_switch_atomic event : atomic_on_error (apply_switch event).
Proof.
  unfold apply_switch, applyWorkloadCreated, applyWorkloadTransitioned, applyStepCreated, applyStepTransitioned,
    applyExecutionRecorded, Step_Transition, Workload_Transition.
  repeat case_match; repeat (apply atomic_bind; [by auto with go_st|intros ?]); repeat case_match; simplify_eq;
    repeat (apply atomic_bind; [by auto with go_st|intros ?]); auto with go_st.
Qed.

Lemma Apply_atomic event : atomic_on_error (Apply event).
Proof.
  unfold Apply. repeat (apply atomic_bind; [by auto with go_st|intros ?]).
  apply readonly_bind_atomic; [apply wrap_projection_atomic, apply_switch_atomic | apply infallible_modify].
Qed.
End apply_lemmas.

(* ------------------------------------------------------------------ *)
(** ** The abstract machine of a workload

    What one applied event may do, in terms of the state machines of the
    domain: this is the contract [Apply] implements. *)

Inductive change `{Quoting} : WorkloadProjection → WorkloadProjection → Prop :=
| change_created p w :
    Workload_ID (Projection_Workload p) = "" → Projection_Version p = 0 →
    Workload_ID w = Ref_ID (Projection_Aggregate p) → Workload_State w = WorkloadCreated →
    ID_Validate (Workload_SessionID w) = Ok tt → blank (Workload_Goal w) = false →
    Budget_Validate (Workload_Budget w) = Ok tt →
    change p {| p with Projection_Workload := w |}
| change_workload p w :
    Workload_ID (Projection_Workload p) ≠ "" → workload_step (Projection_Workload p) w →
    change p {| p with Projection_Workload := w |}
| change_new_step p s :
    Workload_ID (Projection_Workload p) ≠ "" → Projection_Steps p !! Step_ID s = None →
    ID_Validate (Step_ID s) = Ok tt → Step_WorkloadID s = Workload_ID (Projection_Workload p) →
    Step_State s = StepPending → 1 <= Step_Attempt s → Budget_Validate (Step_Budget s) = Ok tt →
    (Step_ParentStepID s = "" ∨ is_Some (Projection_Steps p !! Step_ParentStepID s)) →
    change p {| p with Projection_Steps := <[Step_ID s := s]> (Projection_Steps p) |}
| change_step p s s' key :
    Workload_ID (Projection_Workload p) ≠ "" → Projection_Steps p !! key = Some s → step_step s s' →
    change p {| p with Projection_Steps := <[Step_ID s' := s']> (Projection_Steps p) |}
| change_record p r event step :
    Workload_State (Projection_Workload p) = WorkloadRunning →
    Projection_Steps p !! Exec_Record_StepID r = Some step → Step_State step = StepRunning →
    check_record (Workload_ID (Projection_Workload p)) event (Projection_Execution p) r = Ok tt →
    change p {| p with Projection_Execution := Projection_Execution p ++ [r] |}.

Lemma is_some_true {A} (o : option A) : is_some o = true ↔ is_Some o.
Proof. destruct o as [a|]; split; [by exists a | done | done | by intros []]. Qed.

Section refinement.
Context `{Quoting, PayloadDecoder}.

Lemma require_created_Ok p : require_created p = Ok tt → Workload_ID (Projection_Workload p) ≠ "".
Proof. unfold require_created, ID_IsZero. by rewrite require_Ok, negb_true_iff, String.eqb_neq. Qed.

Lemma applyWorkloadCreated_change event p u p' : applyWorkloadCreated event p = (Ok u, p') → change p p'.
Proof.
  intros Ha. unfold applyWorkloadCreated in Ha. inv_st. subst p'.
  repeat match goal with X : wrapf _ _ = Ok _ |- _ => apply wrapf_Ok in X | X : require _ _ = Ok _ |- _ => apply require_Ok in X end.
  unfold ID_IsZero in *. simpl_bool. destruct_and!. by apply change_created.
Qed.

Lemma applyWorkloadTransitioned_change event p u p' : applyWorkloadTransitioned event p = (Ok u, p') → change p p'.
Proof.
  intros Ha. unfold applyWorkloadTransitioned in Ha. inv_st.
  destruct (Workload_Transition _ _ _) as [r c] eqn:E. inv_st. subst p' r.
  apply change_workload; [by apply require_created_Ok|]. by eapply workload_step_intro.
Qed.

Lemma applyStepCreated_change event p u p' : applyStepCreated event p = (Ok u, p') → change p p'.
Proof.
  intros Ha. unfold applyStepCreated in Ha. inv_st. subst p'.
  repeat match goal with
  | X : wrapf _ _ = Ok _ |- _ => apply wrapf_Ok in X
  | X : require _ _ = Ok _ |- _ => apply require_Ok in X
  | X : require_created _ = Ok _ |- _ => apply require_created_Ok in X
  | X : when _ _ = Ok _ |- _ => rewrite when_Ok, seq_Ok, wrapf_Ok, require_Ok in X
  end.
  unfold ID_IsZero in *.
  repeat match goal with X : negb _ = true |- _ => apply negb_true_iff in X end.
  match goal with X : (_ <? 1) = false |- _ => apply Z.ltb_ge in X end.
  match goal with X : is_some (Projection_Steps p !! SCreated_ID ?d) = false |- _ =>
    apply (change_new_step p {| Step_ID := SCreated_ID d |}) end; cbn; try done.
  - by destruct (Projection_Steps p !! SCreated_ID _).
  - match goal with X : (_ = true → _) |- _ => rename X into Hp end.
    match goal with |- SCreated_ParentStepID ?d = _ ∨ _ => destruct (String.eqb_spec (SCreated_ParentStepID d) "") end;
      [by left|]. destruct (Hp eq_refl) as [_ Hs]. right. by apply is_some_true.
Qed.

Lemma applyStepTransitioned_change event p u p' : applyStepTransitioned event p = (Ok u, p') → change p p'.
Proof.
  intros Ha. unfold applyStepTransitioned in Ha. inv_st.
  destruct (Projection_Steps p !! _) as [s|] eqn:Es; [|inv_st]. inv_st.
  destruct (Step_Transition _ _ s) as [r s'] eqn:E. inv_st. subst p' r.
  eapply change_step; [by apply require_created_Ok | exact Es |]. by eapply step_step_intro.
Qed.

Lemma applyExecutionRecorded_change event p u p' : applyExecutionRecorded event p = (Ok u, p') → change p p'.
Proof.
  intros Ha. unfold applyExecutionRecorded in Ha. inv_st. subst p'.
  repeat match goal with X : require _ _ = Ok _ |- _ => apply require_Ok in X end.
  match goal with X : match ?o with Some _ => _ | None => _ end = true |- _ => destruct o eqn:Es; [|discriminate X] end.
  simpl_bool. by eapply change_record.
Qed.

Lemma apply_switch_change event p u p' : apply_switch event p = (Ok u, p') → change p p'.
Proof.
  unfold apply_switch. repeat case_match;
    eauto using applyWorkloadCreated_change, applyWorkloadTransitioned_change, applyStepCreated_change,
      applyStepTransitioned_change, applyExecutionRecorded_change. done.
Qed.

Lemma Apply_Ok event p u p' :
  Apply event p = (Ok u, p') →
  valid_ref (Projection_Aggregate p) ∧ Ref_Type (Projection_Aggregate p) = WorkloadAggregateType ∧
  Event_Validate event = Ok tt ∧ Event_Aggregate event = Projection_Aggregate p ∧
  Event_Sequence event = wrapu64 (Projection_Version p + 1) ∧
  ∃ p1, change p p1 ∧ p' = {| p1 with Projection_Version := Event_Sequence event |}.
Proof.
  intros Ha. unfold Apply in Ha. inv_st. apply st_bind_Ok in Ha as (v & p1 & Hw & Hm). inv_st. subst p'.
  rewrite wrap_projection_Ok in Hw.
  repeat match goal with
  | X : wrapf _ _ = Ok _ |- _ => apply wrapf_Ok in X
  | X : wrap_base _ _ = Ok _ |- _ => apply wrap_base_Ok in X
  | X : require_w _ _ _ = Ok _ |- _ => apply require_w_Ok in X
  end.
  simpl_bool. destruct_and!. split_and!; try done.
  - destruct (Event_Aggregate event), (Projection_Aggregate p). cbn in *. congruence.
  - exists p1. split; [by eapply apply_switch_change | done].
Qed.
End refinement.

(* ------------------------------------------------------------------ *)
(** ** The invariant *)

Record projection_ok `{Quoting} (p : WorkloadProjection) : Prop := {
  po_fresh : Workload_ID (Projection_Workload p) = "" →
    Projection_Workload p = zero_Workload ∧ Projection_Steps p = ∅ ∧ Projection_Execution p = [];
  po_workload : Workload_ID (Projection_Workload p) ≠ "" →
    Workload_ID (Projection_Workload p) = Ref_ID (Projection_Aggregate p) ∧
    Workload_State (Projection_Workload p) ∈ workload_states ∧
    ID_Validate (Workload_SessionID (Projection_Workload p)) = Ok tt ∧
    blank (Workload_Goal (Projection_Workload p)) = false ∧
    Budget_Validate (Workload_Budget (Projection_Workload p)) = Ok tt;
  po_steps : ∀ key s, Projection_Steps p !! key = Some s →
    Step_ID s = key ∧ ID_Validate key = Ok tt ∧ Step_WorkloadID s = Workload_ID (Projection_Workload p) ∧
    Step_State s ∈ step_states ∧ 1 <= Step_Attempt s ∧ Budget_Validate (Step_Budget s) = Ok tt ∧
    (Step_ParentStepID s = "" ∨ is_Some (Projection_Steps p !! Step_ParentStepID s));
  po_execution : execution_ok (Workload_ID (Projection_Workload p)) (Projection_Execution p);
}.

Lemma workload_step_kept w w' :
  workload_step w w' →
  Workload_ID w' = Workload_ID w ∧ Workload_SessionID w' = Workload_SessionID w ∧ Workload_Goal w' = Workload_Goal w ∧
  Workload_Budget w' = Workload_Budget w ∧ Workload_State w' ∈ workload_states.
Proof.
  intros Hs. inversion Hs as [? to ? ? [Hc ->]%Workload_Transition_Ok]; subst.
  split_and!; try done. by apply CanTransitionWorkload_valid in Hc as [_ Hc].
Qed.

Lemma step_step_kept s s' :
  step_step s s' →
  Step_ID s' = Step_ID s ∧ Step_WorkloadID s' = Step_WorkloadID s ∧ Step_ParentStepID s' = Step_ParentStepID s ∧
  Step_Attempt s' = Step_Attempt s ∧ Step_Budget s' = Step_Budget s ∧ Step_State s' ∈ step_states.
Proof.
  intros Hs. inversion Hs as [? to ? ? [Hc ->]%Step_Transition_Ok]; subst.
  split_and!; try done. by apply CanTransitionStep_valid in Hc as [_ Hc].
Qed.

Section invariant.
Context `{Quoting}.

Lemma empty_projection_ok aggregate : projection_ok (empty_projection aggregate).
Proof. by split. Qed.

Lemma insert_parent (m : gmap ID Step) key s parent :
  parent = "" ∨ is_Some (m !! parent) → parent = "" ∨ is_Some (<[key := s]> m !! parent).
Proof. intros [?|?]; [by left|right]. rewrite lookup_insert_is_Some. destruct (decide (key = parent)); auto. Qed.

Lemma change_ok p p' : valid_ref (Projection_Aggregate p) → projection_ok p → change p p' → projection_ok p'.
Proof.
  intros Hr [Hf Hw Hs He] Hc.
  assert (Ref_ID (Projection_Aggregate p) ≠ "") as Hid.
  { apply AggregateRef_Validate_Ok in Hr as [_ Hr]. by apply ID_Validate_nonempty. }
  destruct Hc as [p w H1 H2 H3 H4 H5 H6 H7|p w H1 H2|p s H1 H2 H3 H4 H5 H6 H7 H8|p s s' key H1 H2 H3|p r event step H1 H2 H3 H4].
  - destruct (Hf H1) as (_ & E1 & E2). split; cbn.
    + intros E. by rewrite E in H3; symmetry in H3.
    + intros _. split_and!; try done. rewrite H4. vm_compute. constructor.
    + rewrite E1. intros key s Hk. by rewrite lookup_empty in Hk.
    + rewrite E2. intros i r Hi. done.
  - destruct (workload_step_kept _ _ H2) as (K1 & K2 & K3 & K4 & K5). split; cbn; rewrite ?K1, ?K2, ?K3, ?K4; try done.
    intros E. destruct (Hw E) as (? & ? & ? & ? & ?). done.
  - split; cbn; try done.
    intros key s' Hk. apply lookup_insert_Some in Hk as [[<- <-]|[Hne Hk]].
    + split_and!; try done; [rewrite H5; vm_compute; constructor | by apply insert_parent].
    + destruct (Hs key s' Hk) as (? & ? & ? & ? & ? & ? & Hp). split_and!; try done. by apply insert_parent.
  - destruct (Hs key s H2) as (S1 & S2 & S3 & S4 & S5 & S6 & S7). destruct (step_step_kept _ _ H3) as (K1 & K2 & K3 & K4 & K5 & K6).
    split; cbn; try done.
    intros key' x Hk. apply lookup_insert_Some in Hk as [[<- <-]|[Hne Hk]].
    + rewrite K1, K2, K3, K4, K5, S1. split_and!; try done. by apply insert_parent.
    + destruct (Hs key' x Hk) as (? & ? & ? & ? & ? & ? & Hp). split_and!; try done. by apply insert_parent.
  - split; cbn; try done.
    + intros E. destruct (Hf E) as (_ & E1 & _). rewrite E1 in H2. by rewrite lookup_empty in H2.
    + by eapply execution_ok_snoc.
Qed.
End invariant.

(* ------------------------------------------------------------------ *)
(** ** Runs *)

Section runs.
Context `{Quoting, PayloadDecoder}.

Lemma Apply_ok_inv event p u p' :
  projection_ok p → Apply event p = (Ok u, p') → projection_ok p' ∧ Projection_Aggregate p' = Projection_Aggregate p.
Proof.
  intros Hp Ha. apply Apply_Ok in Ha as (Hr & _ & _ & _ & _ & p1 & Hc & ->).
  pose proof (change_ok p p1 Hr Hp Hc) as [H1 H2 H3 H4]. split; [by split|].
  by destruct Hc.
Qed.

(** Errors of [Apply] are projection errors. *)
Lemma Apply_error event p e p' :
  Apply event p = (Err e, p') → p' = p ∧ errors_Is e "invalid projection event" = true.
Proof.
  intros Ha. split; [by eapply Apply_atomic|].
  enough (errors_within "invalid projection event" (Apply event)) as Hw by (by eapply Hw). clear.
  unfold Apply.
  apply errors_within_bind; [auto with go_st|intros p]. change ErrInvalidProjectionEvent with (Sentinel "invalid projection event").
  repeat (apply errors_within_bind; [by auto with go_st|intros []]).
  apply errors_within_bind; [|intros; apply errors_within_infallible, infallible_modify].
  intros q e q'. unfold wrap_projection. destruct (apply_switch event q) as [r q1]. intros Hw.
  eapply (errors_within_wrap_base (S:=unit) "invalid projection event" r tt e tt). unfold st_lift.
  injection Hw as Hw _. by rewrite <-Hw.
Qed.

(** The fold of [Apply] over a list of events. *)
Lemma apply_all_projection l p err p' :
  projection_ok p → apply_all Apply l p = (err, p') →
  projection_ok p' ∧ Projection_Aggregate p' = Projection_Aggregate p.
Proof.
  revert p. induction l as [|e l IH]; intros p Hp; cbn [apply_all]; [by intros [= _ <-]|].
  destruct (Apply e p) as [[u|er] p1] eqn:Ea.
  - intros Hl. destruct (Apply_ok_inv _ _ _ _ Hp Ea) as [H1 H2]. destruct (IH p1 H1 Hl) as [H3 H4]. by rewrite H4.
  - intros [= _ <-]. by rewrite (proj1 (Apply_error _ _ _ _ Ea)).
Qed.

Lemma apply_all_version l p p' :
  apply_all Apply l p = (None, p') → 0 <= Projection_Version p →
  Projection_Version p + Z.of_nat (length l) < uint64_mod →
  Projection_Version p' = Projection_Version p + Z.of_nat (length l).
Proof.
  revert p. induction l as [|e l IH]; intros p; cbn [apply_all]; [intros [= ->]; cbn; lia|].
  destruct (Apply e p) as [[u|er] p1] eqn:Ea; [|done]. intros Hl Hge Hlt. cbn [length] in *.
  apply Apply_Ok in Ea as (_ & _ & _ & _ & Hs & p2 & _ & ->).
  rewrite wrapu64_id in Hs by (unfold is_uint64; lia).
  rewrite (IH _ Hl) by (cbn; lia). cbn. lia.
Qed.
End runs.

(* ------------------------------------------------------------------ *)
(** ** Properties *)

(** C11. Applying an event either fails with [ErrInvalidProjectionEvent] and leaves
    the projection unchanged, or performs one move of the workload's state
    machines (creation, a workload transition, a new pending step, a step
    transition, or one checked execution record), keeps the invariant and
    advances the version to the event's sequence. *)
Theorem Apply_refines `{Quoting, PayloadDecoder} event p r p' :
  projection_ok p → Apply event p = (r, p') →
  match r with
  | Err e => p' = p ∧ errors_Is e "invalid projection event" = true
  | Ok _ => projection_ok p' ∧ Event_Validate event = Ok tt ∧ Event_Aggregate event = Projection_Aggregate p ∧
      Event_Sequence event = wrapu64 (Projection_Version p + 1) ∧ Projection_Version p' = Event_Sequence event ∧
      ∃ p1, change p p1 ∧ p' = {| p1 with Projection_Version := Event_Sequence event |}
  end.
Proof.
  intros Hp Ha. destruct r as [u|e]; [|by apply (Apply_error event)].
  destruct (Apply_ok_inv _ _ _ _ Hp Ha) as [Hp' _].
  apply Apply_Ok in Ha as (_ & _ & Hv & Hagg & Hs & p1 & Hc & ->). split_and!; try done. by exists p1.
Qed.

(** C31. What replaying any event list into a new projection guarantees, even when
    it stops at a bad event: the workload is the aggregate's and in a named
    state, steps have existing parents, execution records of a step stop at its
    final record, and its loop events are numbered 1, 2, ... without a gap, a
    stop being the last. *)
Theorem replayed_projection_sound `{Quoting, PayloadDecoder} aggregate events err p :
  apply_all Apply events (empty_projection aggregate) = (err, p) →
  projection_ok p ∧ Projection_Aggregate p = aggregate ∧
  (∀ i j r r', Projection_Execution p !! i = Some r → Projection_Execution p !! j = Some r' → (i < j)%nat →
     Exec_Record_StepID r = Exec_Record_StepID r' → Exec_Record_Stage r ≠ ExecutionFinished) ∧
  (∀ stepID k e, loop_events stepID (Projection_Execution p) !! k = Some e →
     LoopEvent_Sequence e = Z.of_nat k + 1 ∧
     (LoopEvent_Type e = LoopEventStopped → S k = length (loop_events stepID (Projection_Execution p)))).
Proof.
  intros Ha. destruct (apply_all_projection _ _ _ _ (empty_projection_ok aggregate) Ha) as [Hp Hagg].
  split_and!; try done.
  - intros i j r r' Hi Hj Hij Hs. by eapply execution_finished; [apply Hp|..].
  - intros stepID k e Hk. destruct (execution_loop_sequence _ _ _ _ _ (po_execution _ Hp) Hk) as (? & _ & ?). done.
Qed.

(** A workload in a terminal state is frozen: no event that is still applied
    changes the workload or adds an execution record. *)
Theorem terminal_workload_frozen `{Quoting, PayloadDecoder} event p u p' :
  projection_ok p → workload_terminal (Workload_State (Projection_Workload p)) = true →
  Apply event p = (Ok u, p') →
  Projection_Workload p' = Projection_Workload p ∧ Projection_Execution p' = Projection_Execution p.
Proof.
  intros Hp Ht Ha. apply Apply_Ok in Ha as (_ & _ & _ & _ & _ & p1 & Hc & ->).
  assert (∀ w', ¬ workload_step (Projection_Workload p) w') as Hno.
  { intros w' Hs. inversion Hs as [? to ? ? [Hcan _]%Workload_Transition_Ok]; subst.
    pose proof (CanTransitionWorkload_valid _ _ Hcan) as [Hv _].
    pose proof (proj1 (CanTransitionWorkload_terminal _ Hv) Ht to). congruence. }
  destruct Hc as [p w H1 H2|p w H1 H2|p s|p s s' key|p r event' step H1]; cbn; try done.
  - destruct (po_fresh _ Hp H1) as (E & _). by rewrite E in Ht.
  - by destruct (Hno w).
  - by rewrite H1 in Ht.
Qed.

(** What [LoadWorkloadProjection] does on a store that keeps the contract. *)
Lemma LoadWorkloadProjection_outcome {S} `{EventStoreSpec S, Quoting, PayloadDecoder} load_ctx ctx ref (s : S) :
  store_inv s → (∀ n, load_ctx n = None) → (∀ n, ctx n = None) → valid_ref ref →
  Ref_Type ref = WorkloadAggregateType → Z.of_nat (length (stream s ref)) < uint64_mod →
  ∃ s' r, LoadWorkloadProjection load_ctx ctx ref s = (r, s') ∧
    store_inv s' ∧ (∀ x, valid_ref x → stream s' x = stream s x) ∧
    let '(err, p) := apply_all Apply (stream s ref) (empty_projection ref) in
    match r with
    | Ok q => err = None ∧ q = p ∧ stream s ref ≠ [] ∧ projection_ok q ∧
              Projection_Version q = Z.of_nat (length (stream s ref))
    | Err e => err = Some e ∨ (stream s ref = [] ∧ errors_Is e "aggregate not found" = true)
    end.
Proof.
  intros Hs Hl Hc Hr Ht Hlen. unfold LoadWorkloadProjection, NewWorkloadProjection.
  rewrite Hr, Ht, seqb_refl. cbn [require mbind result_bind].
  destruct (Replay_live load_ctx ctx ref Apply s (empty_projection ref) Hs Hl Hc Hr) as (s' & -> & Hs' & Hsame).
  destruct (apply_all Apply (stream s ref) (empty_projection ref)) as [err p] eqn:Ea. cbn [fst snd].
  destruct (apply_all_projection _ _ _ _ (empty_projection_ok ref) Ea) as [Hp _].
  destruct err as [e|].
  { exists s', (Err e). split_and!; try done. by left. }
  pose proof (apply_all_version _ _ _ Ea) as Hver. cbn [empty_projection Projection_Version] in Hver.
  specialize (Hver ltac:(lia) ltac:(lia)).
  destruct (Z.eqb_spec (Projection_Version p) 0) as [E|E].
  - eexists s', (Err _). split_and!; try done. right. split; [|done]. apply length_zero_iff_nil. lia.
  - exists s', (Ok p). split_and!; try done. intros Hnil. rewrite Hnil in Hver. cbn in Hver. lia.
Qed.

(** C33. [LoadWorkloadProjection] on any store that keeps the contract is the fold
    of [Apply] over the stored stream: it fails when the aggregate is no
    workload, has no events or has an event that does not apply, never changes
    the store, and on success gives a sound projection at the stream's length. *)
Theorem LoadWorkloadProjection_spec {S} `{EventStoreSpec S, Quoting, PayloadDecoder} load_ctx ctx ref (s : S) :
  store_inv s → (∀ n, load_ctx n = None) → (∀ n, ctx n = None) → valid_ref ref →
  Ref_Type ref = WorkloadAggregateType → Z.of_nat (length (stream s ref)) < uint64_mod →
  ∃ s' r, LoadWorkloadProjection load_ctx ctx ref s = (r, s') ∧
    store_inv s' ∧ (∀ x, valid_ref x → stream s' x = stream s x) ∧
    let '(err, p) := apply_all Apply (stream s ref) (empty_projection ref) in
    match r with
    | Ok q => err = None ∧ q = p ∧ stream s ref ≠ [] ∧ projection_ok q ∧
              Projection_Version q = Z.of_nat (length (stream s ref))
    | Err e => err = Some e ∨ (stream s ref = [] ∧ errors_Is e "aggregate not found" = true)
    end.
Proof. apply LoadWorkloadProjection_outcome. Qed.

(* ------------------------------------------------------------------ *)
(** ** A concrete run: a decoder given by a table of payloads *)

Definition example_id2 : ID := "018bcfe5-687b-7bab-abab-abababababac".

Definition table_decoder : PayloadDecoder :=
  {| decode_workload_created := fun b =>
       if b =s "1" then Ok {| Created_SessionID := example_id; Created_Goal := "goal"; Created_Budget := zero_Budget |}
       else Err (errors_New "decode event payload");
     decode_workload_transitioned := fun b =>
       if b =s "2" then Ok {| WTransition_From := WorkloadCreated; WTransition_To := WorkloadRunning |}
       else if b =s "3" then Ok {| WTransition_From := WorkloadRunning; WTransition_To := WorkloadCancelled |}
       else Err (errors_New "decode event payload");
     decode_step_created := fun b =>
       if b =s "4" then Ok {| SCreated_ID := example_id; SCreated_ParentStepID := ""; SCreated_Kind := StepTool;
         SCreated_Requirements := zero_Requirements; SCreated_Budget := zero_Budget; SCreated_Attempt := 1;
         SCreated_IdempotencyKey := "" |}
       else if b =s "5" then Ok {| SCreated_ID := example_id2; SCreated_ParentStepID := example_id;
         SCreated_Kind := StepVerify; SCreated_Requirements := zero_Requirements; SCreated_Budget := zero_Budget;
         SCreated_Attempt := 1; SCreated_IdempotencyKey := "" |}
       else Err (errors_New "decode event payload");
     decode_step_transitioned := fun b => Err (errors_New "decode event payload");
     decode_execution_record := fun b => Err (errors_New "decode event payload") |}.

Definition no_quoting : Quoting := fun s => s.

Definition example_core_draft (type payload : string) : EventDraft :=
  {| Draft_Type := type; Draft_SchemaVersion := 1; Draft_CausationID := ""; Draft_CorrelationID := "";
     Draft_AttemptID := ""; Draft_Payload := payload |}.

Definition example_stream_events : list Event :=
  [make_event example_id example_ref 1 (example_core_draft EventTypeWorkloadCreated "1") 10;
   make_event example_id example_ref 2 (example_core_draft EventTypeWorkloadTransitioned "2") 11;
   make_event example_id example_ref 3 (example_core_draft EventTypeStepCreated "4") 12;
   make_event example_id example_ref 4 (example_core_draft EventTypeWorkloadTransitioned "3") 13].

Definition example_projection (n : nat) : WorkloadProjection :=
  snd (apply_all (Apply (H:=no_quoting) (H0:=table_decoder)) (take n example_stream_events) (empty_projection example_ref)).

Lemma example_projection_ok n : projection_ok (H:=no_quoting) (example_projection n).
Proof.
  exact (proj1 (apply_all_projection (H:=no_quoting) (H0:=table_decoder) _ _ _ _
    (empty_projection_ok (H:=no_quoting) example_ref) (surjective_pairing _))).
Qed.

Example Apply_refines_witness :
  Projection_Version (example_projection 4) = 4 ∧ projection_ok (H:=no_quoting) (example_projection 4).
Proof.
  assert (fst (Apply (H:=no_quoting) (H0:=table_decoder)
    (make_event example_id example_ref 4 (example_core_draft EventTypeWorkloadTransitioned "3") 13)
    (example_projection 3)) = Ok tt) as E by (vm_compute; reflexivity).
  pose proof (Apply_refines (H:=no_quoting) (H0:=table_decoder)
    (make_event example_id example_ref 4 (example_core_draft EventTypeWorkloadTransitioned "3") 13)
    (example_projection 3) _ _ (example_projection_ok 3) (surjective_pairing _)) as Hr.
  rewrite E in Hr. destruct Hr as (Hok & _). split; [vm_compute; reflexivity|].
  assert (snd (Apply (H:=no_quoting) (H0:=table_decoder)
    (make_event example_id example_ref 4 (example_core_draft EventTypeWorkloadTransitioned "3") 13)
    (example_projection 3)) = example_projection 4) as <- by (vm_compute; reflexivity). exact Hok.
Defined.

Example replayed_projection_sound_witness :
  projection_ok (H:=no_quoting) (example_projection 3) ∧ Projection_Aggregate (example_projection 3) = example_ref.
Proof.
  destruct (replayed_projection_sound (H:=no_quoting) (H0:=table_decoder) example_ref (take 3 example_stream_events) None
    (example_projection 3)) as (H1 & H2 & _); [vm_compute; reflexivity | by split].
Defined.

Example terminal_workload_frozen_witness :
  let e := make_event example_id example_ref 5 (example_core_draft EventTypeStepCreated "5") 14 in
  let p' := snd (Apply (H:=no_quoting) (H0:=table_decoder) e (example_projection 4)) in
  size (Projection_Steps p') = 2%nat ∧ Projection_Workload p' = Projection_Workload (example_projection 4).
Proof.
  intros e p'. split; [vm_compute; reflexivity|].
  assert (Apply (H:=no_quoting) (H0:=table_decoder) e (example_projection 4) = (Ok tt, p')) as E by (vm_compute; reflexivity).
  refine (proj1 (terminal_workload_frozen (H:=no_quoting) (H0:=table_decoder) e (example_projection 4) tt p'
    (example_projection_ok 4) _ E)). vm_compute. reflexivity.
Defined.
