(* ===== verification/WorkloadReplay.v ===== *)
(** * Replaying a workload from the in-memory store

    The composition of MemoryStore.v and Projection.v: what is appended to the
    store is what a later load rebuilds. *)

From Stdlib Require Import ZArith Lia.
From S2P Require Import Prelude GoNum GoText GoJson GoHash Ident Domain Event Store MemoryStore Model Policy Routing LoopTypes Execution Projection.

(** The reference: the fold of [Apply] over what the store holds of a workload. *)
Definition workload_of `{Quoting, PayloadDecoder} (s : MemoryStore) (ref : AggregateRef) : option error * WorkloadProjection :=
  apply_all Apply (stream_at s (streamKey ref)) (empty_projection ref).

(** Loading after an append is the load before it, continued with the created
    events: the store adds nothing, drops nothing and reorders nothing.  The
    load fails exactly when an old or a new event does not apply, or when there
    is no event at all. *)
Theorem append_then_load `{Quoting, PayloadDecoder} ctx ref expected drafts s created s' lctx rctx :
  memory_inv s → Memory_Append ctx ref expected drafts s = (Ok created, s') →
  Ref_Type ref = WorkloadAggregateType → (∀ n, lctx n = None) → (∀ n, rctx n = None) →
  Z.of_nat (length (stream_at s' (streamKey ref))) < uint64_mod →
  ∃ s2 r, LoadWorkloadProjection lctx rctx ref s' = (r, s2) ∧
    let '(err0, p0) := workload_of s ref in
    match r with
    | Ok q => err0 = None ∧ apply_all Apply created p0 = (None, q) ∧
              Projection_Version q = Projection_Version p0 + Z.of_nat (length created)
    | Err e => err0 = Some e ∨ (err0 = None ∧ fst (apply_all Apply created p0) = Some e) ∨
               (stream_at s' (streamKey ref) = [] ∧ errors_Is e "aggregate not found" = true)
    end.
Proof.
  intros Hs Ha Ht Hl Hr Hlen.
  destruct (Memory_append_extends ctx ref expected drafts s created s' Hs Ha) as (Hs' & Hv & _ & _ & _ & Hst & _).
  unfold LoadWorkloadProjection, NewWorkloadProjection, workload_of. unfold valid_ref in Hv. rewrite Hv, Ht, seqb_refl.
  cbn [require mbind result_bind].
  pose proof (Replay_live (S:=MemoryStore) (T:=WorkloadProjection)) as Hlive.
  destruct (Hlive lctx rctx ref Apply s' (empty_projection ref) Hs' Hl Hr Hv) as (s2 & -> & _ & _).
  cbn [stream Memory_EventStoreSpec]. rewrite Hst in *. rewrite apply_all_app.
  destruct (apply_all Apply (stream_at s (streamKey ref)) (empty_projection ref)) as [err0 p0] eqn:E0.
  destruct err0 as [e|]; cbn [fst snd]; [eexists _, _; split; [reflexivity | by left]|].
  destruct (apply_all Apply created p0) as [err p] eqn:E1. cbn [fst snd].
  destruct err as [e|]; [eexists _, _; split; [reflexivity | by right; left]|].
  rewrite length_app in Hlen.
  pose proof (apply_all_version _ _ _ E0) as Hv0. cbn [empty_projection Projection_Version] in Hv0.
  specialize (Hv0 ltac:(lia) ltac:(lia)).
  pose proof (apply_all_version _ _ _ E1 ltac:(lia) ltac:(lia)) as Hv1.
  destruct (Z.eqb_spec (Projection_Version p) 0); (eexists _, _; split; [reflexivity|]); [|done].
  right. right. split; [|reflexivity]. apply nil_length_inv. rewrite length_app. lia.
Qed.

Definition example_drafts : list EventDraft :=
  [example_core_draft EventTypeWorkloadCreated "1"; example_core_draft EventTypeWorkloadTransitioned "2"].

Definition example_filled : MemoryStore := snd (Memory_Append background example_ref 0 example_drafts (New example_world)).

Lemma example_filled_append :
  Memory_Append background example_ref 0 example_drafts (New example_world)
  = (Ok (stream_at example_filled (streamKey example_ref)), example_filled).
Proof. vm_compute. reflexivity. Qed.

Lemma example_filled_inv : memory_inv example_filled.
Proof. exact (memory_inv_append _ _ _ _ _ _ _ (memory_inv_New _ example_world_ok) example_filled_append). Qed.

Example append_then_load_witness :
  ∃ s2 r, LoadWorkloadProjection (H:=no_quoting) (H0:=table_decoder) background background example_ref example_filled = (r, s2) ∧
    is_ok r = true ∧ ∀ q, r = Ok q → Projection_Version q = 2.
Proof.
  destruct (append_then_load (H:=no_quoting) (H0:=table_decoder) background example_ref 0 example_drafts (New example_world)
    _ example_filled background background (memory_inv_New _ example_world_ok) example_filled_append eq_refl
    (fun _ => eq_refl) (fun _ => eq_refl)) as (s2 & r & E & Hq).
  { vm_compute. reflexivity. }
  exists s2, r. split; [exact E|].
  assert (is_ok r = true) as Hok.
  { transitivity (is_ok (fst (LoadWorkloadProjection (H:=no_quoting) (H0:=table_decoder) background background example_ref example_filled)));
      [by rewrite E | vm_compute; reflexivity]. }
  split; [exact Hok|].
  assert (workload_of (H:=no_quoting) (H0:=table_decoder) (New example_world) example_ref = (None, empty_projection example_ref)) as E0
    by (vm_compute; reflexivity).
  rewrite E0 in Hq. intros q ->. destruct Hq as (_ & _ & ->).
  assert (length (stream_at example_filled (streamKey example_ref)) = 2%nat) as -> by (vm_compute; reflexivity). reflexivity.
Defined.

Example LoadWorkloadProjection_spec_witness :
  ∃ s' r, LoadWorkloadProjection (H:=no_quoting) (H0:=table_decoder) background background example_ref example_filled = (r, s') ∧
    memory_inv s'.
Proof.
  pose proof (LoadWorkloadProjection_spec (S:=MemoryStore) (H1:=no_quoting) (H2:=table_decoder)) as Hspec.
  destruct (Hspec background background example_ref example_filled example_filled_inv (fun _ => eq_refl) (fun _ => eq_refl)
    eq_refl eq_refl) as (s' & r & E & Hi & _); [vm_compute; reflexivity|].
  exists s', r. split; [exact E | exact Hi].
Defined.
