(* ===== verification/Engine.v ===== *)
(** * The execution engine: src/engine.go and src/lifecycle.go, its state and
    its durable records

    The state of an [engineRun], the calls it makes to the outside, and the
    operations that append to the workload stream: records, policy verdicts,
    approvals, budget failures and spend reservations.  As in Loop.v everything
    outside answers from the history of the calls made so far, so any behaviour
    over time is some instance of [EngineEnv].  EngineTurn.v models the turns,
    EngineRun.v the whole run. *)

From Stdlib Require Import ZArith Lia.
From S2P Require Import Prelude Effects GoNum GoText GoJson GoHash Ident Domain Event Store Model Stream Policy Routing.
From S2P Require Import Telemetry LoopTypes Execution Projection.

(* ------------------------------------------------------------------ *)
(** ** The outside *)

(** The types of the values the engine only passes on. *)
Class EngineCarriers := {
  ExternalHandler : Type;
  ExternalProvider : Type;
  ExternalStream : Type;
}.

(** The contexts of a run: the caller's, the run's own, the one the loop derives
    from it, that of an approval, and the fresh ones that outlive cancellation. *)
Inductive EngineContext : Type :=
| CtxCaller
| CtxRun
| CtxLoop
| CtxApproval
| CtxTerminal
| CtxFinal.

Section calls.
Context `{EngineCarriers}.

Inductive ECall : Type :=
| EContext (which : EngineContext)
| ECause (which : EngineContext)
| EWithDeadline (deadline : Z)
| ENow
| EAppend (which : EngineContext) (aggregate : AggregateRef) (expected : Z) (drafts : list EventDraft)
| ELoad (which : EngineContext) (aggregate : AggregateRef) (after : Z)
| EExecutionPolicy (request : ExecutionPolicyRequest)
| EEgressPolicy (request : DataEgressPolicyRequest)
| ERoute (request : RoutingRequest)
| ECount (request : ModelRequest) (descriptor : ModelDescriptor)
| EEstimate (request : ModelRequest) (descriptor : ModelDescriptor)
| EApprove (request : ApprovalRequest)
| EName (provider : ExternalProvider)
| EStream (provider : ExternalProvider) (request : ModelRequest)
| ERecv (stream : ExternalStream)
| ECloseStream (stream : ExternalStream)
| EPrepareSandbox (handler : ExternalHandler)
| EExecute (handler : ExternalHandler) (invocation : ToolInvocation)
| ECloseHandler (handler : ExternalHandler)
| EEmit (record : ObservationRecord)
| EStop (cause : error).

(** [EngineRequest] *)
Record EngineRequest : Type := {
  Eng_WorkloadID : ID;
  Eng_SessionID : ID;
  Eng_StepID : ID;
  Eng_AttemptID : ID;
  Eng_Goal : string;
  Eng_SourceZone : Zone;
  Eng_Classification : Classification;
  Eng_ModelOutputClassification : Classification;
  Eng_Initial : ModelRequest;
  Eng_Tools : list (ToolBinding ExternalHandler);
  Eng_Requirements : Requirements;
  Eng_Candidates : list RoutingCandidate;
  Eng_Budget : Budget;
  Eng_Autonomous : bool;
  Eng_ParallelTools : bool;
}.

End calls.

(** What each call returns after the calls made before it.  A tool may report
    sandbox events while it prepares, executes or closes: they are the events it
    reports in the course of that call. *)
Class EngineEnv `{EngineCarriers} := {
  context_view : list ECall → EngineContext → nat → option error;
  context_cause : list ECall → EngineContext → option error;
  deadline : list ECall → Z;
  now : list ECall → Z;
  store_append : list ECall → AggregateRef → Z → list EventDraft → result (list Event);
  store_load : list ECall → AggregateRef → Z → result (list Event);
  execution_policy : list ECall → option ExecutionPolicy;
  egress_policy : list ECall → option DataEgressPolicy;
  engine_router : option (list ECall → RoutingRequest → option (RoutingDecision * option error));
  context_counter : option (list ECall → ModelRequest → ModelDescriptor → outcome (result Z));
  spend_estimator : option (list ECall → ModelRequest → ModelDescriptor → outcome (result SpendBound));
  approver : option (list ECall → ApprovalRequest → outcome (ApprovalDecision * option error));
  engine_providers : string → option ExternalProvider;
  external_name : list ECall → ExternalProvider → outcome string;
  external_stream : list ECall → ExternalProvider → ModelRequest → outcome (result (option ExternalStream));
  external_recv : list ECall → ExternalStream → outcome (result ModelEvent);
  external_close_stream : list ECall → ExternalStream → outcome (option error);
  is_sandboxed : ExternalHandler → bool;
  prepare_sandbox : list ECall → ExternalHandler → outcome (result SandboxCapability);
  external_execute : list ECall → ExternalHandler → ToolInvocation → outcome (result ToolOutput);
  external_close : list ECall → ExternalHandler → outcome (option error);
  sandbox_events : list ECall → ExternalHandler → list SandboxEvent;
  engine_schedule : list ECall → nat → list nat;
  observer_set : bool;
}.

(** [json.Marshal] at the types the engine encodes. *)
Class PayloadEncoder `{EngineCarriers} := {
  encode_workload_created : WorkloadCreatedPayload → result bytes;
  encode_workload_transitioned : WorkloadTransitionedPayload → result bytes;
  encode_step_created : StepCreatedPayload → result bytes;
  encode_step_transitioned : StepTransitionedPayload → result bytes;
  encode_execution_record : ExecutionRecord → result bytes;
  marshal_model_request : ModelRequest → result bytes;
  marshal_model_event : ModelEvent → result bytes;
  marshal_tool_call : ToolCall → result bytes;
  marshal_messages : list Message → result bytes;
  marshal_engine_request : EngineRequest → list ToolDefinition → result bytes;
}.

Definition ErrExecutionDenied : error := Sentinel "execution not authorized".
Definition ErrApprovalDenied : error := Errorf "approval denied" [ErrExecutionDenied].
Definition ErrContextOverflow : error := Sentinel "model context overflow".
Definition ErrUncertainOutcome : error := Sentinel "execution outcome is uncertain; reconciliation required".
Definition ErrSandboxDenied : error := Sentinel "sandbox execution denied".

(** [NewWorkloadID ...]: an entry of [append], the kind and the payload of a draft. *)
Inductive engineDraft : Type :=
| DraftWorkloadCreated (payload : WorkloadCreatedPayload)
| DraftWorkloadTransitioned (payload : WorkloadTransitionedPayload)
| DraftStepCreated (payload : StepCreatedPayload)
| DraftStepTransitioned (payload : StepTransitionedPayload)
| DraftExecutionRecorded (payload : ExecutionRecord).

Definition draft_kind (d : engineDraft) : string :=
  match d with
  | DraftWorkloadCreated _ => EventTypeWorkloadCreated
  | DraftWorkloadTransitioned _ => EventTypeWorkloadTransitioned
  | DraftStepCreated _ => EventTypeStepCreated
  | DraftStepTransitioned _ => EventTypeStepTransitioned
  | DraftExecutionRecorded _ => EventTypeExecutionRecorded
  end.

Definition zero_SpendBound : SpendBound := {| Spend_InputTokens := 0; Spend_OutputTokens := 0; Spend_Cost := 0 |}.

(** A record with nothing but its stage. *)
Definition execution_record (turn : Z) (stage : string) : ExecutionRecord :=
  {| Exec_Record_StepID := ""; Exec_Record_Turn := turn; Exec_Record_Stage := stage; Exec_Record_Classification := "";
     Exec_Record_Manifest := None; Exec_Record_Verdict := None; Exec_Record_Routing := None; Exec_Record_Loop := None;
     Exec_Record_Result := None; Exec_Record_FailureCode := ""; Exec_Record_Sandbox := None; Exec_Record_Approval := None;
     Exec_Record_Budget := None; Exec_Record_Cleanup := None; Exec_Record_Compaction := None;
     Exec_Record_RequestSHA256 := "" |}.

(* ------------------------------------------------------------------ *)
(** ** The state of a run *)

(** [engineProvider] and [engineModelStream]. *)
Record engineProvider `{EngineCarriers} : Type := {
  prov_provider : ExternalProvider;
  prov_zone : Zone;
  prov_turn : Z;
  prov_bound : SpendBound;
}.

Record engineModelStream `{EngineCarriers} : Type := {
  strm_stream : ExternalStream;
  strm_zone : Zone;
  strm_turn : Z;
  strm_bound : SpendBound;
  strm_used : SpendBound;
}.

Section engine.
Context `{Hcarriers : EngineCarriers, Henv : !EngineEnv, Hencoder : !PayloadEncoder, Hquoting : Quoting}.

(** [engineRun], with the providers and streams it handed out, which the loop
    holds by their index, the handlers already closed, and the history. *)
Record EngineState : Type := {
  engine_history : list ECall;
  es_sequence : Z;
  es_cause : ID;
  es_storeErr : option error;
  es_stepApproved : bool;
  es_compactionUsage : Usage;
  es_extraCalls : Z;
  es_reserved : SpendBound;
  es_budgetDimension : string;
  es_observationSequence : Z;
  es_providers : list engineProvider;
  es_streams : list engineModelStream;
  es_closed : gmap nat (option error);
}.

Abbreviation EE := (EM EngineState) (only parsing).

(** The state after one more call. *)
Definition note_call (k : ECall) (s : EngineState) : EngineState := {| s with engine_history := engine_history s ++ [k] |}.

Definition ecall {A} (k : ECall) (answer : list ECall → outcome A) : EE A :=
  perform (note_call k) (fun s => answer (engine_history s)).

(** [ctx.Err()] *)
Definition ctx_Err (ctx : EngineContext) : EE (option error) :=
  ecall (EContext ctx) (fun h => Returns (context_view h ctx 0)).

(** [s.stop(err)] cancels the context of the run. *)
Definition engine_stop (cause : error) : EE unit := ecall (EStop cause) (fun _ => Returns tt).

(** [m] and then, however it ends, [fin]: a deferred call. *)
Definition finally {A} (m : EE A) (fin : EE unit) : EE A := fun s =>
  let '(r, s1) := m s in let '(_, s2) := fin s1 in (r, s2).

Context (request : EngineRequest).

Definition engine_aggregate : AggregateRef := {| Ref_Type := WorkloadAggregateType; Ref_ID := Eng_WorkloadID request |}.

(* ------------------------------------------------------------------ *)
(** ** Appending to the stream *)

(** [NewCoreEventDraft(entry.kind, entry.payload)] and the identifiers of the run. *)
Definition draft_payload (d : engineDraft) : result bytes :=
  match d with
  | DraftWorkloadCreated p => encode_workload_created p
  | DraftWorkloadTransitioned p => encode_workload_transitioned p
  | DraftStepCreated p => encode_step_created p
  | DraftStepTransitioned p => encode_step_transitioned p
  | DraftExecutionRecorded r => encode_execution_record r
  end.

Definition make_draft (cause : ID) (entry : engineDraft) : result EventDraft :=
  d ← NewCoreEventDraft (draft_kind entry) (draft_payload entry);
  Ok {| d with Draft_CausationID := cause; Draft_CorrelationID := Eng_WorkloadID request;
               Draft_AttemptID := Eng_AttemptID request |}.

Fixpoint make_drafts (cause : ID) (entries : list engineDraft) : result (list EventDraft) :=
  match entries with
  | [] => Ok []
  | entry :: entries' =>
      d ← make_draft cause entry;
      rest ← make_drafts cause entries';
      Ok (d :: rest)
  end.

(** [s.storeErr = err; return err] *)
Definition store_fail {A} (err : error) : EE A :=
  lm_modify (fun s => {| s with es_storeErr := Some err |}) ;; lm_fail err.

Definition engineRun_append (ctx : EngineContext) (entries : list engineDraft) : EE unit :=
  s ← lm_get;
  match es_storeErr s with
  | Some err => lm_fail err
  | None =>
      match make_drafts (es_cause s) entries with
      | Err err => store_fail err
      | Ok drafts =>
          r ← ecall (EAppend ctx engine_aggregate (es_sequence s) drafts)
                (fun h => Returns (store_append h engine_aggregate (es_sequence s) drafts));
          match r with
          | Err err =>
              cancelled ← ctx_Err ctx;
              if is_some cancelled then lm_fail err else store_fail err
          | Ok events =>
              if negb (Z.of_nat (length events) =? Z.of_nat (length drafts))
              then store_fail (errors_New "store returned incomplete append")
              else match last events with
                   | None => mret tt
                   | Some e => lm_modify (fun s => {| s with es_sequence := Event_Sequence e; es_cause := Event_ID e |})
                   end
          end
      end
  end.

(** [engineRun.observe]: the record handed to [Emit], when it is one. *)
Definition engineRun_observe (kind outcome : string) : EE unit :=
  if negb observer_set then mret tt
  else
    lm_modify (fun s => {| s with es_observationSequence := wrapu64 (es_observationSequence s + 1) |}) ;;
    s ← lm_get;
    match NewRecord {| Input_Kind := kind; Input_WorkloadID := Eng_WorkloadID request; Input_StepID := Eng_StepID request;
                       Input_AttemptID := Eng_AttemptID request; Input_Sequence := es_observationSequence s;
                       Input_Classification := Eng_Classification request; Input_Content := None;
                       Input_Attributes := Some {[ AttrOutcome := outcome ]} |} with
    | Ok r => ecall (EEmit r) (fun _ => Returns tt)
    | Err _ => mret tt
    end.

(** The record with the step of the run and, unless it has one, its classification. *)
Definition stamp_record (r : ExecutionRecord) : ExecutionRecord :=
  {| r with Exec_Record_StepID := Eng_StepID request;
            Exec_Record_Classification := if Exec_Record_Classification r =s "" then Eng_Classification request
                                          else Exec_Record_Classification r |}.

Definition engineRun_record (ctx : EngineContext) (r : ExecutionRecord) : EE unit :=
  engineRun_append ctx [DraftExecutionRecorded (stamp_record r)].

Definition policy_record (turn : Z) (class : Classification) (manifest : ContentManifest) (v : PolicyVerdict) : ExecutionRecord :=
  let r := execution_record turn ExecutionPolicyEvaluated in
  {| r with Exec_Record_Classification := class; Exec_Record_Manifest := Some manifest; Exec_Record_Verdict := Some v |}.

Definition engineRun_recordPolicy (ctx : EngineContext) (turn : Z) (manifest : ContentManifest) (v : PolicyVerdict) : EE unit :=
  class ← lm_lift (ContentManifest_EffectiveClassification manifest);
  engineRun_record ctx (policy_record turn class manifest v) ;;
  engineRun_observe RecordPolicy (Verdict_Action v).

(* ------------------------------------------------------------------ *)
(** ** Approvals, budget failures and reservations: lifecycle.go *)

(** [callApprover]: a panic is a refusal. *)
Definition callApprover (approve : list ECall → ApprovalRequest → outcome (ApprovalDecision * option error))
    (r : ApprovalRequest) : EE (ApprovalDecision * option error) :=
  recover (ecall (EApprove r) (fun h => approve h r))
    (fun _ => mret ({| Approval_Approved := false; Approval_Actor := ""; Approval_Reason := "" |},
                    Some (errors_New "approver panicked"))).

Definition approval_record (turn : Z) (class : Classification) (a : ApprovalRecord) : ExecutionRecord :=
  let r := execution_record turn ExecutionApproval in
  {| r with Exec_Record_Classification := class; Exec_Record_Approval := Some a |}.

(** The decision to record: a refusal unless the approver answered in time,
    without an error and under a name. *)
Definition settle_decision (decision : ApprovalDecision) (approvalErr : option error) : EE ApprovalDecision :=
  expired ← (if is_some approvalErr then mret None else ctx_Err CtxApproval);
  if is_some approvalErr || is_some expired || blank (Approval_Actor decision)
  then
    timeout ← ctx_Err CtxApproval;
    mret {| Approval_Approved := false; Approval_Actor := "fabricrunner";
            Approval_Reason := if is_some timeout then "approval_timeout" else "approval_failed" |}
  else mret decision.

Definition engineRun_approve (ctx : EngineContext) (turn : Z) (manifest : ContentManifest) (scope : PolicyScope) : EE unit :=
  match approver with
  | None => lm_fail ErrApprovalDenied
  | Some approve =>
      class ← lm_lift (ContentManifest_EffectiveClassification manifest);
      if class =s ClassSecret then lm_fail ErrApprovalDenied
      else
        let r := {| Approval_Scope := scope; Approval_Manifest := manifest |} in
        '(decision, approvalErr) ← callApprover approve r;
        decision ← settle_decision decision approvalErr;
        engineRun_record CtxFinal (approval_record turn class {| Approval_Request := r; Approval_Decision := decision |}) ;;
        if negb (Approval_Approved decision)
        then
          timeout ← ctx_Err CtxApproval;
          lm_fail (default ErrApprovalDenied (errors_Join [Some ErrApprovalDenied; approvalErr; timeout]))
        else
          err ← ctx_Err ctx;
          match err with Some e => lm_fail e | None => mret tt end
  end.

(** [engineRun.resolveApproval] of a verdict that requires approval: the
    verdict that allows once the approval is recorded. *)
Definition granted (v : PolicyVerdict) : PolicyVerdict :=
  {| v with Verdict_Policy := "fabricrunner.approval"; Verdict_PolicyVersion := "1";
            Verdict_RuleID := "approval.granted"; Verdict_Action := PolicyAllow;
            Verdict_Reason := "recorded approval granted" |}.

Definition engineRun_resolveApproval (ctx : EngineContext) (turn : Z) (manifest : ContentManifest) (v : PolicyVerdict)
    : EE PolicyVerdict :=
  if negb (PolicyVerdict_RequiresApproval v) then mret v
  else
    engineRun_approve ctx turn manifest (Verdict_Scope v) ;;
    engineRun_recordPolicy ctx turn manifest (granted v) ;;
    mret (granted v).

Definition budget_record (turn : Z) (b : BudgetRecord) : ExecutionRecord :=
  let r := execution_record turn ExecutionBudget in {| r with Exec_Record_Budget := Some b |}.

(** [engineRun.budgetFailure] only ever returns an error. *)
Definition engineRun_budgetFailure {A} (ctx : EngineContext) (turn : Z) (dimension : string) : EE A :=
  lm_modify (fun s => {| s with es_budgetDimension := dimension |}) ;;
  err ← attempt (engineRun_record ctx (budget_record turn
                   {| BudgetRecord_Reserved := zero_SpendBound; BudgetRecord_Dimension := dimension |}));
  lm_fail (default ErrLoopBudgetExceeded (errors_Join [Some (Errorf dimension [ErrLoopBudgetExceeded]); error_of err])).

(** The switch on the first dimension over what is left of [limit] after [used]. *)
Definition exceeded_dimension (b limit used : SpendBound) : string :=
  if sub64 (Spend_InputTokens limit) (Spend_InputTokens used) <? Spend_InputTokens b then "input_tokens"
  else if sub64 (Spend_OutputTokens limit) (Spend_OutputTokens used) <? Spend_OutputTokens b then "output_tokens"
  else if sub64 (Spend_Cost limit) (Spend_Cost used) <? Spend_Cost b then "cost"
  else "".

Definition spend_sum (x y : SpendBound) : SpendBound :=
  {| Spend_InputTokens := add64 (Spend_InputTokens x) (Spend_InputTokens y);
     Spend_OutputTokens := add64 (Spend_OutputTokens x) (Spend_OutputTokens y);
     Spend_Cost := add64 (Spend_Cost x) (Spend_Cost y) |}.

Definition budget_spend : SpendBound :=
  let budget := Eng_Budget request in
  {| Spend_InputTokens := MaxInputTokens budget; Spend_OutputTokens := MaxOutputTokens budget; Spend_Cost := MaxCost budget |}.

Definition engineRun_reserve (ctx : EngineContext) (turn : Z) (r : ModelRequest) (descriptor : ModelDescriptor) : EE SpendBound :=
  match spend_estimator with
  | None => lm_fail (errors_New "engine requires conservative spend estimator before model calls")
  | Some estimate =>
      answer ← ecall (EEstimate (CloneModelRequest r) (ModelDescriptor_Clone descriptor))
                 (fun h => estimate h (CloneModelRequest r) (ModelDescriptor_Clone descriptor));
      bound ← lm_lift answer;
      lm_lift (SpendBound_Validate bound) ;;
      s ← lm_get;
      let dimension := exceeded_dimension bound budget_spend (es_reserved s) in
      if dimension ≠s "" then engineRun_budgetFailure ctx turn dimension
      else if Spend_OutputTokens bound <? Request_MaxOutputTokens r
      then lm_fail (errors_New "requested output cap exceeds spend bound")
      else
        engineRun_record ctx (budget_record turn {| BudgetRecord_Reserved := bound; BudgetRecord_Dimension := "" |}) ;;
        lm_modify (fun s => {| s with es_reserved := spend_sum (es_reserved s) bound |}) ;;
        mret bound
  end.

Definition engineRun_admit (ctx : EngineContext) : EE unit :=
  if MaxSteps (Eng_Budget request) <? 1 then engineRun_budgetFailure ctx 0 "steps" else mret tt.

(* ------------------------------------------------------------------ *)
(** ** Manifests *)

(** [valueManifest], given what [json.Marshal] made of the value. *)
Definition valueManifest (encoded : result bytes) (class : Classification) : result ContentManifest :=
  encoded ← encoded;
  Ok {| Items := [{| Item_SHA256 := sha256_hex encoded; Item_MediaType := "application/json";
                     Item_SizeBytes := Z.of_nat (String.length encoded); Item_Classification := class |}] |}.

(** The loop over the parts of the messages: the highest classification. *)
Fixpoint manifest_class (parts : list ContentPart) (class : Classification) : result Classification :=
  match parts with
  | [] => Ok class
  | part :: parts' =>
      let class := if classificationRank class <? classificationRank (Part_Classification part)
                   then Part_Classification part else class in
      require (negb ((Part_Type part =s ContentArtifact) || (Part_Type part =s ContentImage) ||
                     (Part_Type part =s ContentDocument)))
        "engine artifact materialization is not implemented" ;;
      manifest_class parts' class
  end.

Definition modelManifest (r : ModelRequest) (class : Classification) : result ContentManifest :=
  class ← manifest_class (concat (Message_Content <$> Request_Messages r)) class;
  valueManifest (marshal_model_request {| r with Request_Model := zero_ModelRef |}) class.

Definition higherClassification (a b : Classification) : Classification :=
  let b := if b =s "" then ClassConfidential else b in
  if classificationRank a <? classificationRank b then b else a.

End engine.
