(* ===== verification/LoopRecords.v ===== *)
(** * The events of the turn loop as the engine records them

    The event of a run of Loop.v, in the record that EngineTurn.v makes of it,
    against the checks the workload projection makes of a record (Execution.v):
    of all of them only those that depend on the placement and on the records
    around it are left to decide. *)

From Stdlib Require Import ZArith Lia.
From S2P Require Import Prelude Effects GoNum GoText GoJson GoHash Ident Domain Event Store Model Stream Policy Routing Deterministic LoopTypes Loop LoopTools.
From S2P Require Import Execution LoopInvariant LoopRun Telemetry Projection Engine EngineTurn.

(* ------------------------------------------------------------------ *)
(** ** The classification of a record *)

Lemma higherClassification_valid a b : Classification_Validate a = Ok tt → Classification_Validate (higherClassification a b) = Ok tt.
Proof.
  rewrite !Classification_Validate_rank. unfold higherClassification. cbv zeta. intros Ha.
  set (b' := if b =s "" then ClassConfidential else b). destruct (Z.ltb_spec (classificationRank a) (classificationRank b')); lia.
Qed.

Section records.
Context `{EngineCarriers}.

(** Whatever the classifications in the event are. *)
Lemma loop_event_class_valid request event :
  Classification_Validate (Eng_Classification request) = Ok tt → Classification_Validate (loop_event_class request event) = Ok tt.
Proof.
  intros Hc. unfold loop_event_class. cbv zeta.
  set (class0 := Eng_Classification request) in *.
  set (class1 := if is_some (LoopEvent_ModelEvent event) || _ then _ else class0).
  assert (Classification_Validate class1 = Ok tt) as H1 by (unfold class1; destruct (_ || _); [by apply higherClassification_valid | done]).
  set (class2 := match LoopEvent_ToolOutput event with Some o => _ | None => class1 end).
  assert (Classification_Validate class2 = Ok tt) as H2 by (unfold class2; destruct (LoopEvent_ToolOutput event); [by apply higherClassification_valid | done]).
  destruct (LoopEvent_Message event) as [m|]; [|done]. generalize dependent class2. clear.
  induction (Message_Content m) as [|part parts IH]; intros class Hclass; [done|]. by apply IH, higherClassification_valid.
Qed.

(** The record the engine makes of an event of the loop. *)
Definition recorded_event (request : EngineRequest) (event : LoopEvent) : ExecutionRecord :=
  stamp_record request (loop_record (loop_event_class request event) event).

(** All the other checks of such a record hold. *)
Lemma check_recorded `{Quoting} request event workloadID envelope execution :
  Classification_Validate (Eng_Classification request) = Ok tt → 0 <= LoopEvent_Turn event →
  ID_Validate (Event_AttemptID envelope) = Ok tt → Event_CorrelationID envelope = workloadID →
  check_record workloadID envelope execution (recorded_event request event) =
    (h ← scan_history (Eng_StepID request) (LoopEvent_Turn event) execution empty_history; check_loop h (recorded_event request event)).
Proof.
  intros Hc Hturn Hid Hcorr. pose proof (loop_event_class_valid request event Hc) as Hclass. unfold check_record. rewrite Hid, Hcorr, String.eqb_refl.
  cbn [require mbind result_bind]. change (Exec_Record_StepID (recorded_event request event)) with (Eng_StepID request).
  change (Exec_Record_Turn (recorded_event request event)) with (LoopEvent_Turn event).
  destruct (scan_history _ _ _ _) as [h|e]; [|done]. cbn [mbind result_bind].
  destruct (Z.ltb_spec (LoopEvent_Turn event) 0); [lia|]. cbn [negb require mbind result_bind].
  assert (Classification_Validate (Exec_Record_Classification (recorded_event request event)) = Ok tt) as ->.
  { unfold recorded_event, stamp_record. cbn. by destruct (_ =s ""). }
  change (payload_count (recorded_event request event)) with 1. cbn [Z.eqb Pos.eqb require mbind result_bind].
  change (check_stage workloadID envelope h (recorded_event request event)) with (check_loop h (recorded_event request event)).
  by destruct (check_loop h (recorded_event request event)) as [[]|e].
Qed.

End records.

(* ------------------------------------------------------------------ *)
(** ** Properties *)

(** C20. The workload projection accepts the events of the loop: of all it checks of
    a record, for any event of any run in the record the engine makes of it, what
    remains to decide is only that the step has not finished and, unless the event
    is the terminal one, that a placement with the model of the event was recorded
    for this turn.  This holds at the place the event has in the stream: after the
    loop events before it, which begin at the checkpoint the run continues from, in
    an event of an attempt that is correlated with the workload.  The selector
    substitutes valid messages (which matters for checkpoints only), and sequence
    and turn fit their integers. *)
Theorem Run_events_accepted `{Collaborators, EngineCarriers, Quoting} fuel stream_fuel request r s k e earlier
    (engine : EngineRequest) workloadID envelope execution :
  started request → sized request stream_fuel → MaxModelCalls (Loop_Budget request) < int64_max →
  Run fuel stream_fuel request = (r, s) → r ≠ Exhausted →
  let events := recorded (history s) in
  0 <= start_sequence request → start_sequence request + Z.of_nat (length events) < uint64_mod →
  events !! k = Some e → (LoopEvent_Type e = LoopEventCheckpoint → selector_ok) →
  match last earlier with
  | Some p => LoopEvent_Sequence p = start_sequence request ∧ LoopEvent_Type p ≠ LoopEventStopped
  | None => start_sequence request = 0
  end →
  loop_events (Eng_StepID engine) execution = earlier ++ take k events →
  Classification_Validate (Eng_Classification engine) = Ok tt →
  ID_Validate (Event_AttemptID envelope) = Ok tt → Event_CorrelationID envelope = workloadID →
  check_record workloadID envelope execution (recorded_event engine e) =
    (h ← scan_history (Eng_StepID engine) (LoopEvent_Turn e) execution empty_history;
     when (LoopEvent_Type e ≠s LoopEventStopped) (check_placement h e)).
Proof.
  intros Hs Hsz Hmax HR Hr events Hs0 Hlen Hk Hsel Hearlier Hexec Hclass Hid Hcorr.
  rewrite check_recorded by (done || by eapply run_turns).
  destruct (scan_history _ _ execution _) as [h|] eqn:Hscan; [|done]. cbn [mbind result_bind].
  apply scan_history_Ok in Hscan as [_ Hlast]. rewrite Hexec in Hlast. cbn [empty_history previousLoop] in Hlast.
  destruct (run_events _ _ _ _ _ Hs Hsz HR Hr) as [Hseq Hev]. destruct (Hev k e Hk) as (Hw & Hc & _).
  pose proof (lookup_lt_Some _ _ _ Hk) as Hkl. fold events in Hseq, Hev, Hc.
  assert (∀ j p, (j <= k)%nat → events !! j = Some p → LoopEvent_Sequence p = start_sequence request + Z.of_nat j + 1) as Hnum.
  { intros j p Hj Hjp. rewrite (Hseq j p Hjp). apply wrapu64_id. unfold is_uint64. lia. }
  pose proof (Hnum k e ltac:(done) Hk) as He.
  assert (match k with O => previousLoop h = last earlier | S j => ∃ p, events !! j = Some p ∧ previousLoop h = Some p end) as Hprev.
  { destruct k as [|j]; [rewrite app_nil_r in Hlast; by destruct (last earlier)|].
    destruct (lookup_lt_is_Some_2 events j ltac:(lia)) as [p Hj]. exists p. split; [done|].
    by rewrite last_app, (last_take_snoc _ _ _ Hj) in Hlast. }
  apply event_checks; try done; [lia | | |].
  - unfold next_loop_sequence. destruct k as [|j]; [rewrite Hprev; destruct (last earlier); [destruct Hearlier as [-> _]|]|].
    + rewrite wrapu64_id; [lia|]. unfold is_uint64. lia.
    + lia.
    + destruct Hprev as (p & Hj & ->). rewrite (Hnum j p) by (done || lia). rewrite wrapu64_id; [lia|]. unfold is_uint64. lia.
  - intros p Hp. destruct k as [|j]; [rewrite Hprev in Hp; rewrite Hp in Hearlier; apply Hearlier|].
    destruct Hprev as (q & Hj & Hq). rewrite Hp in Hq. injection Hq as <-. intros Hst.
    destruct (Hev j p Hj) as (_ & _ & Hfinal). specialize (Hfinal Hst). lia.
  - intros Hty. destruct (Hc Hty) as (p & Hl & Hpt). exists p. split; [|done].
    destruct k as [|j]; [done|]. destruct Hprev as (q & Hj & ->). rewrite (last_take_snoc _ _ _ Hj) in Hl. congruence.
Qed.
