(* ===== verification/EngineRun.v ===== *)
(** * Runs of the execution engine: src/engine.go and src/recovery.go

    [Engine.Run] and [Engine.Resume]: the checks of a request, the first drafts,
    recovery from the stream of an interrupted run, the turn loop with the engine
    as its collaborators, and the final records.  The loop is any [TurnLoop]:
    a function of the collaborators it is given that returns its result and the
    history of the calls it made.  The loop of Loop.v is one. *)

From Stdlib Require Import ZArith Lia.
From S2P Require Import Prelude Effects GoNum GoText GoJson GoHash Ident Domain Event Store Model Stream Policy Routing.
From S2P Require Import Telemetry LoopTypes Loop Execution Projection Engine EngineTurn.

(* ------------------------------------------------------------------ *)
(** ** The engine as the collaborators of a loop *)

(** The values the JSON decoder and the schema library of a loop pass around. *)
Class SchemaLibrary := {
  LibraryDocument : Type;
  LibrarySchema : Type;
  library_unmarshal : bytes → result LibraryDocument;
  library_compile : LibraryDocument → result LibrarySchema;
  library_validate : LibrarySchema → LibraryDocument → result unit;
}.

(** The loop holds the engine's providers, streams and tools by their index. *)
#[global] Instance engine_carriers `{SchemaLibrary} : Carriers :=
  {| Handler := nat; Middleware := Empty_set; Selector := unit; Sink := unit; TurnProvider := nat; StreamHandle := nat;
     Document := LibraryDocument; Schema := LibrarySchema |}.

Section runs.
Context `{Hcarriers : EngineCarriers, Henv : !EngineEnv, Hencoder : !PayloadEncoder, Hquoting : Quoting}.
Context `{Hlibrary : SchemaLibrary, Hdecoder : PayloadDecoder}.
Abbreviation EE := (EM EngineState) (only parsing).

Section callbacks.
Context (request : EngineRequest).

Definition observe_contexts : EE Observation :=
  loop ← ctx_Err CtxLoop;
  cause ← ecall (ECause CtxLoop) (fun h => Returns (context_cause h CtxLoop));
  parent ← ctx_Err CtxRun;
  mret {| obs_loop := loop;
          obs_wall_time := match cause with Some e => errors_Is e "loop budget exceeded" | None => false end;
          obs_parent := parent |}.

Definition select_turn_callback (turn : TurnContext) : EE TurnSelection :=
  '(messages, placement) ← engineRun_SelectTurn request CtxLoop turn;
  mret {| Selection_Messages := messages; Selection_Provider := Some (place_provider placement);
          Selection_Model := place_model placement |}.

Definition record_context (terminal : bool) : EngineContext := if terminal then CtxTerminal else CtxLoop.

(** What a call of the loop makes the engine do. *)
Definition callback (k : Call) : EE unit :=
  match k with
  | CallContext => _ ← observe_contexts; mret tt
  | CallSelect turn => _ ← select_turn_callback turn; mret tt
  | CallProviderName p => _ ← engineProvider_Name p; mret tt
  | CallStream p r => _ ← engineProvider_Stream request p r; mret tt
  | CallRecv stream => _ ← engineModelStream_Recv request CtxLoop stream; mret tt
  | CallCloseStream stream => _ ← engineModelStream_Close request stream; mret tt
  | CallExecute handler invocation => _ ← engineToolHandler_Execute request CtxLoop handler invocation; mret tt
  | CallProcess _ _ _ => mret tt
  | CallRecord terminal event => engineRun_RecordLoopEvent request (record_context terminal) event
  | CallCloseTool handler => _ ← engineToolHandler_Close request CtxTerminal handler; mret tt
  end.

(** The state of the engine after the calls of a loop that started in [s]. *)
Definition engine_after (s : EngineState) (h : list Call) : EngineState := foldl (fun s k => snd (callback k s)) s h.

(** How a callback that returns a value and an error ends, for its caller.  No
    callback runs out of fuel. *)
Definition with_error {A} (r : ending A) : outcome (result A) :=
  match r with
  | Done a => Returns (Ok a)
  | Failed e => Returns (Err e)
  | Panicked v => Panics v
  | Exhausted => Panics "out of fuel"
  end.

(** The same for one that returns a value. *)
Definition without_error {A} (zero : A) (r : ending A) : outcome A :=
  match r with
  | Done a => Returns a
  | Failed _ => Returns zero
  | Panicked v => Panics v
  | Exhausted => Panics "out of fuel"
  end.

(** The same for one that returns an error. *)
Definition only_error (r : ending unit) : outcome (option error) :=
  match r with
  | Done _ => Returns None
  | Failed e => Returns (Some e)
  | Panicked v => Panics v
  | Exhausted => Panics "out of fuel"
  end.

Definition no_observation : Observation := {| obs_loop := None; obs_wall_time := false; obs_parent := None |}.

(** The engine of a run as a loop started in [s0] sees it. *)
Definition engine_collaborators (s0 : EngineState) : Collaborators :=
  let at_ {A} (h : list Call) (m : EE A) := fst (m (engine_after s0 h)) in
  {| observe := fun h => match at_ h observe_contexts with Done o => o | _ => no_observation end;
     select := fun h _ turn => with_error (at_ h (select_turn_callback turn));
     provider_name := fun h p => without_error "" (at_ h (engineProvider_Name p));
     provider_stream := fun h p r =>
       with_error (at_ h (index ← engineProvider_Stream request p r; mret (Some index)));
     recv := fun h stream => with_error (at_ h (engineModelStream_Recv request CtxLoop stream));
     close_stream := fun h stream => without_error None (at_ h (engineModelStream_Close request stream));
     execute := fun h handler invocation =>
       with_error (at_ h (engineToolHandler_Execute request CtxLoop handler invocation));
     process := fun _ (middleware : Empty_set) _ _ => match middleware with end;
     record := fun h _ terminal event =>
       only_error (at_ h (engineRun_RecordLoopEvent request (record_context terminal) event));
     close_tool := fun h handler => without_error None (at_ h (engineToolHandler_Close request CtxTerminal handler));
     schedule := fun h n => engine_schedule (engine_history (engine_after s0 h)) n;
     unmarshal := library_unmarshal;
     compile := library_compile;
     schema_validate := library_validate |}.

End callbacks.

(** [TurnLoop]: what its [Run] returns or how it panics, and the calls it made. *)
Definition TurnLoop : Type :=
  Collaborators → LoopRequest nat Empty_set unit unit → ending (option error) * LoopResult * list Call.

(** The loop of src/loop/engine.go. *)
Definition loop_Engine (fuel stream_fuel : nat) : TurnLoop := fun collaborators r =>
  let '(returned, s) := Run (H0:=collaborators) fuel stream_fuel r in (returned, loop_result s, history s).

(** The configuration of an [Engine] that may be missing. *)
Record Engine : Type := {
  Engine_Store : bool;
  Engine_Loop : option TurnLoop;
}.

(* ------------------------------------------------------------------ *)
(** ** Requests *)

Definition default_part_class (p : ContentPart) : ContentPart :=
  if Part_Classification p =s "" then {| p with Part_Classification := ClassConfidential |} else p.

(** The initial request of a run: a clone whose parts are all labelled. *)
Definition label_initial (r : ModelRequest) : ModelRequest :=
  let r := CloneModelRequest r in
  {| r with Request_Messages :=
       (fun m => {| m with Message_Content := default_part_class <$> Message_Content m |}) <$> Request_Messages r |}.

Definition default_class (c : Classification) : Classification := if c =s "" then ClassConfidential else c.

Definition normalise (r : EngineRequest) : EngineRequest :=
  {| r with Eng_Classification := default_class (Eng_Classification r);
            Eng_ModelOutputClassification := default_class (Eng_ModelOutputClassification r);
            Eng_Initial := label_initial (Eng_Initial r) |}.

(** The checks of [run] on the request and the request it goes on with. *)
Definition check_request (r : EngineRequest) : result EngineRequest :=
  ID_Validate (Eng_SessionID r) ;;
  require (negb (blank (Eng_Goal r))) "workload goal is required" ;;
  Zone_Validate (Eng_SourceZone r) ;;
  Requirements_Validate (Eng_Requirements r) ;;
  let r := normalise r in
  Classification_Validate (Eng_Classification r) ;;
  each RoutingCandidate_Validate (Eng_Candidates r) ;;
  require (negb (Z.of_nat (length (Eng_Candidates r)) =? 0)) "engine requires routing candidates" ;;
  Ok r.

(** The tools of the loop: each wrapped, and known by its index. *)
Definition wrap_tools (tools : list (ToolBinding ExternalHandler)) : list (ToolBinding nat) :=
  imap (fun i b => {| Binding_Definition := Binding_Definition b; Binding_Handler := (fun _ => i) <$> Binding_Handler b;
                      Binding_ParallelSafe := Binding_ParallelSafe b |}) tools.

Definition loop_request_of (r : EngineRequest) (continuation : option LoopCheckpoint) : LoopRequest nat Empty_set unit unit :=
  {| Loop_Continuation := continuation; Loop_WorkloadID := Eng_WorkloadID r; Loop_StepID := Eng_StepID r;
     Loop_AttemptID := Eng_AttemptID r; Loop_Initial := Eng_Initial r; Loop_Tools := wrap_tools (Eng_Tools r);
     Loop_Middleware := []; Loop_Selector := Some tt; Loop_Sink := Some tt; Loop_Budget := Eng_Budget r;
     Loop_ParallelTools := Eng_ParallelTools r; Loop_ModelOutputClassification := Eng_ModelOutputClassification r;
     Loop_ToolErrorClassification := Eng_Classification r |}.

Definition requestDigest (r : EngineRequest) : result string :=
  data ← marshal_engine_request r (Binding_Definition <$> Eng_Tools r);
  Ok (sha256_hex data).

(** The drafts that create and start the workload and its step. *)
Definition initial_drafts (r : EngineRequest) : list engineDraft :=
  [DraftWorkloadCreated {| Created_SessionID := Eng_SessionID r; Created_Goal := Eng_Goal r; Created_Budget := Eng_Budget r |};
   DraftWorkloadTransitioned {| WTransition_From := WorkloadCreated; WTransition_To := WorkloadRunning |};
   DraftStepCreated {| SCreated_ID := Eng_StepID r; SCreated_ParentStepID := ""; SCreated_Kind := StepModelTurn;
                       SCreated_Requirements := Eng_Requirements r; SCreated_Budget := Eng_Budget r; SCreated_Attempt := 1;
                       SCreated_IdempotencyKey := "" |};
   DraftStepTransitioned {| STransition_StepID := Eng_StepID r; STransition_From := StepPending; STransition_To := StepReady |};
   DraftStepTransitioned {| STransition_StepID := Eng_StepID r; STransition_From := StepReady; STransition_To := StepLeased |};
   DraftStepTransitioned {| STransition_StepID := Eng_StepID r; STransition_From := StepLeased; STransition_To := StepRunning |}].

Definition request_record (r : EngineRequest) (digest : string) : ExecutionRecord :=
  let x := execution_record 0 ExecutionRequest in
  {| x with Exec_Record_StepID := Eng_StepID r; Exec_Record_Classification := Eng_Classification r;
            Exec_Record_RequestSHA256 := digest |}.

(* ------------------------------------------------------------------ *)
(** ** Recovery: recovery.go *)

(** What the loop over the execution records of [restore] builds. *)
Record Restored : Type := {
  rs_match : bool;
  rs_checkpoint : option LoopEvent;
  rs_reserved : SpendBound;
  rs_extraCalls : Z;
  rs_compactionUsage : Usage;
}.

Definition restore_record (digest : string) (x : Restored) (r : ExecutionRecord) : Restored :=
  let x := if Exec_Record_Stage r =s ExecutionRequest
           then {| x with rs_match := Exec_Record_RequestSHA256 r =s digest |} else x in
  let x := match Exec_Record_Budget r with
           | Some b =>
               {| x with rs_checkpoint := if BudgetRecord_Dimension b =s "" then None else rs_checkpoint x;
                         rs_reserved := spend_sum (rs_reserved x) (BudgetRecord_Reserved b) |}
           | None => x
           end in
  let x := match Exec_Record_Compaction r with
           | Some c => {| x with rs_extraCalls := add64 (rs_extraCalls x) 1;
                                 rs_compactionUsage := add_usage (rs_compactionUsage x) (Compaction_Usage c) |}
           | None => x
           end in
  let x := match Exec_Record_Loop r with
           | Some e => {| x with rs_checkpoint :=
                            if LoopEvent_Type e =s LoopEventCheckpoint then Some (LoopEvent_Clone e) else None |}
           | None => x
           end in
  match Exec_Record_Compaction r with
  | Some _ => {| x with rs_checkpoint := None |}
  | None => x
  end.

Definition restore_records (digest : string) (x : Restored) (records : list ExecutionRecord) : Restored :=
  foldl (restore_record digest) x records.

(** The loop of [restore] over the loaded events. *)
Fixpoint apply_events (events : list Event) : ST WorkloadProjection unit :=
  match events with
  | [] => mret tt
  | event :: events' => Apply event ;; apply_events events'
  end.

Definition restored_projection (aggregate : AggregateRef) (events : list Event) : result WorkloadProjection :=
  projection ← NewWorkloadProjection aggregate;
  match apply_events events projection with (Ok _, p) => Ok p | (Err e, _) => Err e end.

Definition resumed_record (digest : string) : ExecutionRecord :=
  let x := execution_record 0 ExecutionResumed in {| x with Exec_Record_RequestSHA256 := digest |}.

(** [restore]: the checkpoint to continue from, and the deadline. *)
Definition engineRun_restore (request : EngineRequest) (ctx : EngineContext) (digest : string)
    : EE (LoopCheckpoint * Z) :=
  loaded ← ecall (ELoad ctx (engine_aggregate request) 0) (fun h => Returns (store_load h (engine_aggregate request) 0));
  events ← lm_lift loaded;
  projection ← lm_lift (restored_projection (engine_aggregate request) events);
  match last events with
  | None => lm_fail ErrAggregateNotFound
  | Some event =>
      lm_lift (require (Workload_State (Projection_Workload projection) =s WorkloadRunning) "only running workloads can resume") ;;
      s ← lm_get;
      let x := restore_records digest
                 {| rs_match := false; rs_checkpoint := None; rs_reserved := es_reserved s;
                    rs_extraCalls := es_extraCalls s; rs_compactionUsage := es_compactionUsage s |}
                 (Projection_Execution projection) in
      lm_modify (fun s => {| s with es_reserved := rs_reserved x; es_extraCalls := rs_extraCalls x;
                                    es_compactionUsage := rs_compactionUsage x |}) ;;
      lm_lift (require (rs_match x) "resume request differs from committed request") ;;
      match rs_checkpoint x with
      | None => lm_fail ErrUncertainOutcome
      | Some checkpoint =>
          lm_lift (require (Event_AttemptID event =s Eng_AttemptID request) "resume attempt mismatch") ;;
          lm_modify (fun s => {| s with es_sequence := Event_Sequence event; es_stepApproved := true;
                                        es_cause := Event_ID event |}) ;;
          engineRun_record request ctx (resumed_record digest) ;;
          result ← deref (LoopEvent_Checkpoint checkpoint);
          mret ({| Checkpoint_Sequence := LoopEvent_Sequence checkpoint; Checkpoint_Result := LoopResult_Clone result |},
                Time_Add (Workload_CreatedAt (Projection_Workload projection)) (MaxWallTime (Eng_Budget request)))
      end
  end.

(* ------------------------------------------------------------------ *)
(** ** The run *)

(** [e.Loop.Run(runCtx, loopRequest)] *)
Definition run_loop (loop : TurnLoop) (request : EngineRequest) (r : LoopRequest nat Empty_set unit unit)
    : EE (LoopResult * option error) := fun s =>
  let '(returned, result, h) := loop (engine_collaborators request s) r in
  let s' := engine_after request s h in
  match returned with
  | Done err => (Done (result, err), s')
  | Failed e => (Done (result, Some e), s')
  | Panicked v => (Panicked v, s')
  | Exhausted => (Exhausted, s')
  end.

(** The result of the loop with the work of the engine itself added. *)
Definition add_engine_work (s : EngineState) (r : LoopResult) : LoopResult :=
  {| r with
     LoopResult_BudgetExceeded := if es_budgetDimension s ≠s "" then es_budgetDimension s else LoopResult_BudgetExceeded r;
     LoopResult_ModelCalls := add64 (LoopResult_ModelCalls r) (es_extraCalls s);
     LoopResult_Usage := add_usage (LoopResult_Usage r) (es_compactionUsage s) |}.

(** The final state of the workload and of its step, with the failure code. *)
Record Verdict : Type := {
  final_state : WorkloadState;
  final_step : StepState;
  final_code : string;
}.

Definition final_verdict (runErr cancelled : option error) (r : LoopResult) : Verdict :=
  let v := if is_some runErr
           then {| final_state := WorkloadFailed; final_step := StepFailed; final_code := "execution_failed" |}
           else {| final_state := WorkloadSucceeded; final_step := StepSucceeded; final_code := "" |} in
  let v := if is_some cancelled || (LoopResult_Stop r =s StopCancelled)
           then {| final_state := WorkloadCancelled; final_step := StepCancelled; final_code := "cancelled" |} else v in
  if LoopResult_BudgetExceeded r ≠s "" then {| v with final_code := "budget_exceeded" |} else v.

(** The classification of the result: that of the request or a higher part. *)
Definition result_class (request : EngineRequest) (r : LoopResult) : Classification :=
  foldl (fun class part => higherClassification class (Part_Classification part)) (Eng_Classification request)
    (concat (Message_Content <$> LoopResult_Messages r)).

Definition finish_record (request : EngineRequest) (r : LoopResult) (code : string) : ExecutionRecord :=
  let x := execution_record 0 ExecutionFinished in
  {| x with Exec_Record_StepID := Eng_StepID request; Exec_Record_Classification := result_class request r;
            Exec_Record_Result := Some r; Exec_Record_FailureCode := code |}.

(** The last append of a run. *)
Definition finish_drafts (request : EngineRequest) (r : LoopResult) (v : Verdict) : list engineDraft :=
  [DraftExecutionRecorded (finish_record request r (final_code v));
   DraftStepTransitioned {| STransition_StepID := Eng_StepID request; STransition_From := StepRunning;
                            STransition_To := final_step v |};
   DraftWorkloadTransitioned {| WTransition_From := WorkloadRunning; WTransition_To := final_state v |}].

(** The store of the engine as [Replay] uses it, with the context [ctx]. *)
Definition engine_store (ctx : EngineContext) : EventStore EngineState :=
  {| Append := fun _ ref expected drafts s =>
       (store_append (engine_history s) ref expected drafts, note_call (EAppend ctx ref expected drafts) s);
     Load := fun _ ref after s =>
       (store_load (engine_history s) ref after, note_call (ELoad ctx ref after) s) |}.

(** [Engine.Replay], once the engine is not nil. *)
Definition Engine_Replay (e : Engine) (ctx : EngineContext) (id : ID) : EE WorkloadProjection :=
  if negb (Engine_Store e) then lm_fail (errors_New "event store is nil")
  else fun s =>
    let view := context_view (engine_history s) ctx in
    match LoadWorkloadProjection (H1:=engine_store ctx) view view {| Ref_Type := WorkloadAggregateType; Ref_ID := id |} s with
    | (Ok p, s') => (Done p, s')
    | (Err e, s') => (Failed e, s')
    end.

(** The result as the final record has it, given what the loop returned, the
    errors joined so far, and the cause for which the run's context ended. *)
Definition settle_result (cause : option error) (r : LoopResult) : LoopResult :=
  match cause with
  | Some c => if errors_Is c "loop budget exceeded" then {| r with LoopResult_BudgetExceeded := "wall_time" |} else r
  | None => r
  end.

Definition settle_error (cause runErr : option error) (r : LoopResult) : option error :=
  let runErr := if LoopResult_Stop r =s StopCancelled then errors_Join [runErr; Some Canceled] else runErr in
  match cause with Some _ => errors_Join [runErr; cause] | None => runErr end.

(** The records of [observe] at the start and at the end of a run. *)
Definition observe_all (request : EngineRequest) (kinds : list string) (outcome : string) : EE unit :=
  foldr (fun kind rest => engineRun_observe request kind outcome ;; rest) (mret tt) kinds.

(** From the end of the loop on: [cleanup], the final records and [Replay]. *)
Definition finish_engine (e : Engine) (request : EngineRequest) (result : LoopResult) (runErr : option error)
    : EE (option WorkloadProjection * option error) :=
  cleanupErr ← engineRun_cleanup request;
  s ← lm_get;
  let result := add_engine_work s result in
  cause ← ecall (ECause CtxRun) (fun h => Returns (context_cause h CtxRun));
  let runErr := settle_error cause (errors_Join [runErr; cleanupErr]) result in
  let result := settle_result cause result in
  cancelled ← ctx_Err CtxCaller;
  let verdict := final_verdict runErr cancelled result in
  appended ← attempt (engineRun_append request CtxFinal (finish_drafts request result verdict));
  (if is_ok appended then observe_all request [RecordAttempt; RecordStep; RecordWorkload] (final_state verdict) else mret tt) ;;
  loaded ← attempt (Engine_Replay e CtxFinal (Eng_WorkloadID request));
  mret (match loaded with Ok p => Some p | Err _ => None end,
        errors_Join [runErr; error_of appended; error_of loaded]).

(** [run] of an engine with a store, a loop and a router, on a checked request:
    either the workload is created and admitted or it is restored, and then the
    loop runs. *)
Definition start_engine (request : EngineRequest) (resume : bool) (digest : string)
    : EE (option LoopCheckpoint) :=
  if resume
  then
    '(checkpoint, deadline) ← engineRun_restore request CtxRun digest;
    ecall (EWithDeadline deadline) (fun _ => Returns tt) ;;
    mret (Some checkpoint)
  else
    engineRun_append request CtxRun (initial_drafts request ++ [DraftExecutionRecorded (request_record request digest)]) ;;
    mret None.

Definition execute_engine (loop : TurnLoop) (request : EngineRequest) (resume : bool) : EE (LoopResult * option error) :=
  lm_lift (LoopRequest_Validate (loop_request_of request None)) ;;
  digest ← lm_lift (requestDigest request);
  checkpoint ← start_engine request resume digest;
  observe_all request [RecordWorkload; RecordStep; RecordAttempt] "started" ;;
  admitted ← (if resume then mret (Ok tt) else attempt (engineRun_admit request CtxRun));
  match admitted with
  | Err err => mret (zero_LoopResult, Some err)
  | Ok _ => run_loop loop request (LoopRequest_Clone (loop_request_of request checkpoint))
  end.

Definition run_engine (e : Engine) (loop : TurnLoop) (request : EngineRequest) (resume : bool)
    : EE (option WorkloadProjection * option error) :=
  '(result, runErr) ← execute_engine loop request resume;
  finish_engine e request result runErr.

(** [Engine.run]; a nil engine has neither store nor loop. *)
Definition Engine_run (e : Engine) (raw : EngineRequest) (resume : bool) : EE (option WorkloadProjection * option error) :=
  cancelled ← ctx_Err CtxCaller;
  match cancelled with
  | Some err => lm_fail err
  | None =>
      match Engine_Loop e with
      | Some loop =>
          if negb (Engine_Store e) || negb (is_some engine_router)
          then lm_fail (errors_New "engine requires store, loop and router")
          else
            request ← lm_lift (check_request raw);
            run_engine e loop request resume
      | None => lm_fail (errors_New "engine requires store, loop and router")
      end
  end.

(** [Engine.Run] and [Engine.Resume] *)
Definition Engine_Run (e : Engine) (request : EngineRequest) : EE (option WorkloadProjection * option error) :=
  Engine_run e request false.

Definition Engine_Resume (e : Engine) (request : EngineRequest) : EE (option WorkloadProjection * option error) :=
  Engine_run e request true.

(** The state in which a run starts. *)
Definition initial_state : EngineState :=
  {| engine_history := []; es_sequence := 0; es_cause := ""; es_storeErr := None; es_stepApproved := false;
     es_compactionUsage := zero_Usage; es_extraCalls := 0; es_reserved := zero_SpendBound; es_budgetDimension := "";
     es_observationSequence := 0; es_providers := []; es_streams := []; es_closed := ∅ |}.

End runs.
