(* ===== verification/EngineInvariant.v ===== *)
(** * Invariants of a run of the execution engine

    What has to be shown of a predicate on the state of the engine for it to
    hold throughout [Engine_run], whatever the loop calls: that the plain calls
    and the bookkeeping keep it, and that the five operations that hand out
    providers, stream, receive, execute and close do. *)

From Stdlib Require Import ZArith Lia.
From S2P Require Import Prelude Effects GoNum GoText GoJson GoHash Ident Domain Event Store Model Stream Policy Routing.
From S2P Require Import Telemetry LoopTypes Loop Execution Projection Engine EngineTurn EngineRun.

Section invariants.
Context `{Hcarriers : EngineCarriers, Henv : !EngineEnv, Hencoder : !PayloadEncoder, Hquoting : Quoting}.
Context `{Hlibrary : SchemaLibrary, Hdecoder : PayloadDecoder}.
Abbreviation EE := (EM EngineState) (only parsing).

(** The calls without an effect of their own, and those that do not even append. *)
Definition plain (k : ECall) : bool :=
  match k with EStream _ _ | EExecute _ _ | ECloseHandler _ => false | _ => true end.

Definition silent (k : ECall) : bool := match k with EAppend _ _ _ _ => false | _ => plain k end.

(** States that differ in their bookkeeping only: the end of the stream may be
    part of it, or not. *)
Record same_effects (s s' : EngineState) : Prop := {
  se_history : engine_history s' = engine_history s;
  se_reserved : es_reserved s' = es_reserved s;
  se_providers : es_providers s' = es_providers s;
  se_streams : es_streams s' = es_streams s;
  se_closed : es_closed s' = es_closed s;
}.

Record same_ledger (s s' : EngineState) : Prop := {
  sl_effects : same_effects s s';
  sl_sequence : es_sequence s' = es_sequence s;
  sl_cause : es_cause s' = es_cause s;
  sl_storeErr : es_storeErr s' = es_storeErr s;
}.

Class quiet_invariant (request : EngineRequest) (I : EngineState → Prop) : Prop := {
  qi_books s s' : same_ledger s s' → I s → I s';
  qi_call s k : silent k = true → I s → I (note_call k s);
  qi_append ctx entries : invariant I (engineRun_append request ctx entries);
}.

Lemma invariant_ecall {A} (I : EngineState → Prop) k (answer : list ECall → outcome A) :
  (∀ s, I s → I (note_call k s)) → invariant I (ecall k answer).
Proof. apply invariant_perform. Qed.

Lemma triple_finally {A} P I (m : EE A) fin :
  triple P m (λ _, I) I → invariant I fin → triple P (finally m fin) (λ _, I) I.
Proof.
  intros Hm Hf s Hs. specialize (Hm s Hs). unfold finally. destruct (m s) as [r s1].
  assert (I s1) as H1 by (by destruct r). specialize (Hf s1 H1). destruct (fin s1) as [r2 s2].
  destruct r, r2; exact Hf.
Qed.

Lemma invariant_finally {A} I (m : EE A) fin : invariant I m → invariant I fin → invariant I (finally m fin).
Proof. apply triple_finally. Qed.

(** A predicate on the effects that plain calls keep is kept by appending. *)
Lemma quiet_effects request I :
  (∀ s s', same_effects s s' → I s → I s') → (∀ s k, plain k = true → I s → I (note_call k s)) → quiet_invariant request I.
Proof.
  intros Hb Hc.
  assert (∀ f, (∀ s, same_effects s (f s)) → invariant I (lm_modify f)) as Hm.
  { intros f Hf. apply invariant_modify. intros s. by apply Hb. }
  split; [intros s s' [] | intros s k Hk; apply Hc; by destruct k | intros ctx entries].
  - by apply Hb.
  - unfold engineRun_append, store_fail, ctx_Err. invariant_steps;
      match goal with
      | |- invariant _ (ecall _ _) => apply invariant_ecall; intros ?; by apply Hc
      | |- invariant _ (lm_modify _) => by apply Hm
      | |- ∀ s, _ => intros ?; by apply Hb
      end.
Qed.

Lemma quiet_and request I J :
  quiet_invariant request I → quiet_invariant request J → quiet_invariant request (λ s, I s ∧ J s).
Proof.
  intros HI HJ. split.
  - intros s s' Hs [? ?]. split; [by apply (qi_books s s') | by apply (qi_books s s')].
  - intros s k Hk [? ?]. split; by apply qi_call.
  - intros ctx entries s [Hi Hj]. pose proof (qi_append ctx entries s Hi) as H1.
    pose proof (qi_append ctx entries s Hj) as H2. by destruct (engineRun_append _ _ _ s) as [[] s'].
Qed.

Lemma triple_with {A} (I : EngineState → Prop) P (m : EE A) Q :
  invariant I m → triple P m Q (λ _, True) → triple (λ s, I s ∧ P s) m (λ a s, I s ∧ Q a s) I.
Proof.
  intros Hi Hm s [HI HP]. specialize (Hi s HI). specialize (Hm s HP). by destruct (m s) as [[] s'].
Qed.

(** An invariant with what was known before. *)
Lemma kept_with {A} (I X : EngineState → Prop) (m : EE A) :
  invariant (λ s, I s ∧ X s) m → triple (λ s, I s ∧ X s) m (λ _ s, I s ∧ X s) I.
Proof. intros Hm s Hs. specialize (Hm s Hs). by destruct (m s) as [[] s']; try apply Hm. Qed.

(* ------------------------------------------------------------------ *)
(** ** The operations without effects of their own *)

Section quiet.
Context (request : EngineRequest) (I : EngineState → Prop) `{HI : !quiet_invariant request I}.

Abbreviation kept := (invariant I).

Lemma books f : (∀ s, same_ledger s (f s)) → invariant I (lm_modify f).
Proof. intros Hf. apply invariant_modify. intros s. by apply qi_books. Qed.

Lemma plain_call {A} k (answer : list ECall → outcome A) : silent k = true → kept (ecall k answer).
Proof. intros Hk. apply invariant_ecall. intros s. by apply qi_call. Qed.

Ltac quiet_step :=
  match goal with
  | |- invariant _ (ecall _ _) => apply plain_call; reflexivity
  | |- invariant _ (lm_modify _) => apply books; by repeat split
  | |- invariant _ (finally _ _) => apply invariant_finally
  | |- invariant _ (ctx_Err _) => unfold ctx_Err
  | |- invariant _ (engine_stop _) => unfold engine_stop
  | |- _ => invariant_step
  end.
Ltac quiet := repeat quiet_step.

Lemma append_quiet ctx entries : kept (engineRun_append request ctx entries).
Proof. apply qi_append. Qed.

Lemma observe_quiet kind outcome : kept (engineRun_observe request kind outcome).
Proof. unfold engineRun_observe. quiet. Qed.

Lemma record_quiet ctx r : kept (engineRun_record request ctx r).
Proof. apply append_quiet. Qed.

Lemma recordPolicy_quiet ctx turn manifest v : kept (engineRun_recordPolicy request ctx turn manifest v).
Proof. unfold engineRun_recordPolicy. quiet; [apply record_quiet | apply observe_quiet]. Qed.

Lemma approve_quiet ctx turn manifest scope : kept (engineRun_approve request ctx turn manifest scope).
Proof. unfold engineRun_approve, callApprover, settle_decision. quiet; apply record_quiet. Qed.

Lemma resolveApproval_quiet ctx turn manifest v : kept (engineRun_resolveApproval request ctx turn manifest v).
Proof. unfold engineRun_resolveApproval. quiet; [apply approve_quiet | apply recordPolicy_quiet]. Qed.

Lemma budgetFailure_quiet {A} ctx turn dimension : kept (engineRun_budgetFailure (A:=A) request ctx turn dimension).
Proof. unfold engineRun_budgetFailure. quiet. apply record_quiet. Qed.

(** It never returns a value. *)
Lemma budgetFailure_triple {A} ctx turn dimension (Q : A → EngineState → Prop) :
  triple I (engineRun_budgetFailure request ctx turn dimension) Q I.
Proof.
  unfold engineRun_budgetFailure. eapply triple_bind; [apply books; by repeat split|]. intros u.
  eapply triple_bind; [apply invariant_attempt, record_quiet|]. intros r. apply triple_fail.
Qed.

Lemma admit_quiet ctx : kept (engineRun_admit request ctx).
Proof. unfold engineRun_admit. quiet. apply budgetFailure_quiet. Qed.

Lemma contextSize_quiet r : kept (engineRun_contextSize request r).
Proof.
  unfold engineRun_contextSize. generalize {| size_count := 0; size_threshold := false; size_overflow := false |} as size.
  induction (Eng_Candidates request) as [|c cs IH]; intros size; cbn [context_loop]; quiet; apply IH.
Qed.

Lemma candidate_execution_quiet ctx turn manifest c : kept (candidate_execution request ctx turn manifest c).
Proof. unfold candidate_execution. quiet; [apply recordPolicy_quiet | apply resolveApproval_quiet]. Qed.

Lemma egress_verdict_quiet ctx turn manifest source destination purpose :
  kept (egress_verdict request ctx turn manifest source destination purpose).
Proof. unfold egress_verdict. quiet. apply recordPolicy_quiet. Qed.

Lemma egress_resolved_quiet ctx turn manifest source destination purpose :
  kept (egress_resolved request ctx turn manifest source destination purpose).
Proof. unfold egress_resolved. quiet; [apply egress_verdict_quiet | apply resolveApproval_quiet]. Qed.

Lemma evaluate_candidates_quiet ctx turn manifest cs : kept (evaluate_candidates request ctx turn manifest cs).
Proof.
  induction cs as [|c cs IH]; cbn [evaluate_candidates]; quiet;
    auto using candidate_execution_quiet, egress_resolved_quiet.
Qed.

Lemma Name_quiet index : kept (engineProvider_Name index).
Proof. unfold engineProvider_Name. quiet. Qed.

Lemma release_event_quiet ctx stream event : kept (release_event request ctx stream event).
Proof. unfold release_event. quiet; auto using egress_verdict_quiet, resolveApproval_quiet. Qed.

Lemma Close_stream_quiet index : kept (engineModelStream_Close request index).
Proof. unfold engineModelStream_Close. quiet. apply observe_quiet. Qed.

Lemma RecordLoopEvent_quiet ctx event : kept (engineRun_RecordLoopEvent request ctx event).
Proof. apply record_quiet. Qed.

Lemma RecordSandboxEvent_quiet ctx event : kept (engineRun_RecordSandboxEvent request ctx event).
Proof. unfold engineRun_RecordSandboxEvent. quiet; [apply record_quiet | apply observe_quiet]. Qed.

Lemma report_events_quiet ctx events : kept (report_events request ctx events).
Proof. induction events as [|e events IH]; cbn [report_events]; quiet; [apply RecordSandboxEvent_quiet | apply IH]. Qed.

Lemma tool_call_quiet {A} ctx handler k (answer : list ECall → outcome A) :
  (∀ s, I s → I (note_call k s)) → kept (tool_call request ctx handler k answer).
Proof.
  intros Hk. unfold tool_call. apply invariant_bind; [apply invariant_get | intros s].
  apply invariant_bind; [apply report_events_quiet | intros _]. by apply invariant_ecall.
Qed.

Lemma authorize_tool_quiet ctx call capability : kept (authorize_tool request ctx call capability).
Proof. unfold authorize_tool, or_stop. quiet; auto using recordPolicy_quiet, resolveApproval_quiet. Qed.

Lemma observe_contexts_quiet : kept observe_contexts.
Proof. unfold observe_contexts. quiet. Qed.

Lemma observe_all_quiet kinds outcome : kept (observe_all request kinds outcome).
Proof. induction kinds as [|k kinds IH]; cbn [observe_all foldr]; quiet; [apply observe_quiet | apply IH]. Qed.

Lemma Replay_state e ctx id s :
  snd (Engine_Replay e ctx id s) = s ∨ ∃ ref, snd (Engine_Replay e ctx id s) = note_call (ELoad ctx ref 0) s.
Proof.
  unfold Engine_Replay. destruct (negb (Engine_Store e)); [by left|].
  unfold LoadWorkloadProjection. destruct (NewWorkloadProjection _) as [p|err]; [|by left]. right. eexists.
  unfold Replay. cbn [Load engine_store]. destruct (store_load _ _ _) as [events|err]; [|done].
  destruct (replay_loop _ _ _ _ _) as [[[]|err] p']; [|done]. by destruct (Projection_Version p' =? 0).
Qed.

Lemma Replay_quiet e ctx id : kept (Engine_Replay e ctx id).
Proof.
  intros s Hs. pose proof (Replay_state e ctx id s) as Hr. destruct (Engine_Replay e ctx id s) as [r s']. cbn [snd] in Hr.
  assert (I s') as Hs' by (destruct Hr as [-> | [ref ->]]; [done | by apply qi_call]). by destruct r.
Qed.

(* ------------------------------------------------------------------ *)
(** ** The operations with effects, given that the predicate keeps theirs *)

Ltac effect_step :=
  match goal with
  | |- invariant _ (engineRun_observe _ _ _) => apply observe_quiet
  | |- invariant _ (engineRun_record _ _ _) => apply record_quiet
  | |- invariant _ (engineRun_budgetFailure _ _ _ _) => apply budgetFailure_quiet
  | |- invariant _ (engineRun_approve _ _ _ _ _) => apply approve_quiet
  | |- invariant _ (evaluate_candidates _ _ _ _ _) => apply evaluate_candidates_quiet
  | |- invariant _ (release_event _ _ _ _) => apply release_event_quiet
  | |- invariant _ (authorize_tool _ _ _ _) => apply authorize_tool_quiet
  | |- invariant _ (tool_call _ _ _ _ _) => apply tool_call_quiet; intros ?; apply qi_call; reflexivity
  | |- invariant _ (closeEngineTool _ _ _) => unfold closeEngineTool
  | |- _ => quiet_step
  end.
Ltac effects := repeat effect_step.

Lemma reserve_kept ctx turn r descriptor :
  (∀ s b, I s → I {| s with es_reserved := b |}) → kept (engineRun_reserve request ctx turn r descriptor).
Proof. intros Hb. unfold engineRun_reserve. effects. apply invariant_modify. intros s. apply Hb. Qed.

Lemma take_candidate_kept ctx turn manifest r c :
  (∀ s b, I s → I {| s with es_reserved := b |}) →
  (∀ s p, I s → I {| s with es_providers := es_providers s ++ [p] |}) → kept (take_candidate request ctx turn manifest r c).
Proof.
  intros Hb Hp. unfold take_candidate. effects; [by apply reserve_kept |]. apply invariant_modify. intros s. apply Hp.
Qed.

Lemma selectPlacement_take ctx turn initial tools :
  (∀ turn manifest r c, kept (take_candidate request ctx turn manifest r c)) →
  kept (engineRun_selectPlacement request ctx turn initial tools).
Proof. intros Ht. unfold engineRun_selectPlacement. effects. apply Ht. Qed.

Lemma selectPlacement_kept ctx turn initial tools :
  (∀ s b, I s → I {| s with es_reserved := b |}) →
  (∀ s p, I s → I {| s with es_providers := es_providers s ++ [p] |}) →
  kept (engineRun_selectPlacement request ctx turn initial tools).
Proof. intros Hb Hp. apply selectPlacement_take. intros. by apply take_candidate_kept. Qed.

Lemma provider_Stream_kept index r :
  (∀ s p, I s → I (note_call (EStream p r) s)) →
  (∀ s x, I s → I {| s with es_streams := es_streams s ++ [x] |}) → kept (engineProvider_Stream request index r).
Proof.
  intros Hc Hs. unfold engineProvider_Stream. effects; [apply invariant_ecall; intros s; apply Hc|].
  apply invariant_modify. intros s. apply Hs.
Qed.

Lemma Recv_account ctx index :
  (∀ event, kept (account_usage request ctx index event)) → kept (engineModelStream_Recv request ctx index).
Proof. intros Ha. unfold engineModelStream_Recv. effects. apply Ha. Qed.

Lemma Recv_kept ctx index :
  (∀ s x, I s → I {| s with es_streams := <[index := x]> (es_streams s) |}) → kept (engineModelStream_Recv request ctx index).
Proof.
  intros Hs. apply Recv_account. intros event. unfold account_usage. effects. apply invariant_modify. intros s. apply Hs.
Qed.

Lemma Execute_kept ctx index call :
  (∀ s handler, I s → I (note_call (EExecute handler call) s)) → kept (engineToolHandler_Execute request ctx index call).
Proof. intros Hc. unfold engineToolHandler_Execute. effects. apply tool_call_quiet. intros s. apply Hc. Qed.

Lemma Close_kept ctx index :
  (∀ s handler, I s → I (note_call (ECloseHandler handler) s)) →
  (∀ s err, I s → I {| s with es_closed := <[index := err]> (es_closed s) |}) → kept (engineToolHandler_Close request ctx index).
Proof.
  intros Hc Hm. unfold engineToolHandler_Close. effects; [apply tool_call_quiet; intros s; apply Hc|].
  apply invariant_modify. intros s. apply Hm.
Qed.

Lemma restore_kept ctx digest :
  (∀ s b, I s → I {| s with es_reserved := b |}) →
  (∀ s sequence cause, I s → I {| s with es_sequence := sequence; es_cause := cause |}) →
  kept (engineRun_restore request ctx digest).
Proof.
  intros Hb Hs. unfold engineRun_restore. effects; apply invariant_modify; intros s Hi.
  - match goal with |- I {| s with es_reserved := ?b; es_extraCalls := ?n; es_compactionUsage := ?u |} =>
      apply (qi_books {| s with es_reserved := b |}); [done | by apply Hb] end.
  - match goal with |- I {| s with es_sequence := ?n; es_stepApproved := true; es_cause := ?c |} =>
      apply (qi_books {| s with es_sequence := n; es_cause := c |}); [done | by apply Hs] end.
Qed.

End quiet.

(* ------------------------------------------------------------------ *)
(** ** Whole runs *)

(** What the loop may call. *)
Class loop_invariant (request : EngineRequest) (I : EngineState → Prop) : Prop := {
  ri_quiet : quiet_invariant request I;
  ri_place ctx turn initial tools : invariant I (engineRun_selectPlacement request ctx turn initial tools);
  ri_stream index r : invariant I (engineProvider_Stream request index r);
  ri_recv ctx index : invariant I (engineModelStream_Recv request ctx index);
  ri_execute ctx index call : invariant I (engineToolHandler_Execute request ctx index call);
  ri_close ctx index : invariant I (engineToolHandler_Close request ctx index);
}.
#[local] Existing Instance ri_quiet.

(** A whole run may also recover from the stream. *)
Class run_invariant (request : EngineRequest) (I : EngineState → Prop) : Prop := {
  ri_loop : loop_invariant request I;
  ri_restore ctx digest : invariant I (engineRun_restore request ctx digest);
}.
#[local] Existing Instance ri_loop.

Section run.
Context (request : EngineRequest) (I : EngineState → Prop) `{HI : !loop_invariant request I}.

Abbreviation kept := (invariant I).

Ltac run_step :=
  match goal with
  | |- invariant _ (ecall _ _) => apply (plain_call request); [apply _ | reflexivity]
  | |- invariant _ (lm_modify _) => apply (books request); [apply _ | by repeat split]
  | |- invariant _ (engineModelStream_Recv _ _ _) => apply ri_recv
  | |- invariant _ (engineProvider_Stream _ _ _) => apply ri_stream
  | |- invariant _ (engineRun_selectPlacement _ _ _ _ _) => apply ri_place
  | |- invariant _ (engineToolHandler_Execute _ _ _ _) => apply ri_execute
  | |- invariant _ (engineToolHandler_Close _ _ _) => apply ri_close
  | |- invariant _ (engineRun_contextSize _ _) => apply contextSize_quiet; apply _
  | |- invariant _ (engineRun_budgetFailure _ _ _ _) => apply budgetFailure_quiet; apply _
  | |- invariant _ (engineRun_append _ _ _) => apply append_quiet; apply _
  | |- invariant _ (engineRun_record _ _ _) => apply record_quiet; apply _
  | |- invariant _ (engineRun_admit _ _) => apply admit_quiet; apply _
  | |- invariant _ (engineModelStream_Close _ _) => apply Close_stream_quiet; apply _
  | |- invariant _ (engineRun_RecordLoopEvent _ _ _) => apply RecordLoopEvent_quiet; apply _
  | |- invariant _ (engineProvider_Name _) => apply (Name_quiet request); apply _
  | |- invariant _ observe_contexts => apply (observe_contexts_quiet request); apply _
  | |- invariant _ (observe_all _ _ _) => apply observe_all_quiet; apply _
  | |- invariant _ (Engine_Replay _ _ _) => apply (Replay_quiet request); apply _
  | |- invariant _ (ctx_Err _) => unfold ctx_Err
  | |- _ => invariant_step
  end.
Ltac run := repeat run_step.

Lemma summary_loop_kept fuel ctx index i validator text usage :
  kept (summary_loop request fuel ctx index i validator text usage).
Proof.
  revert i validator text usage. induction fuel as [|fuel IH]; intros i validator text usage; cbn [summary_loop]; run; apply IH.
Qed.

Lemma stream_summary_kept ctx provider r : kept (stream_summary request ctx provider r).
Proof. unfold stream_summary. generalize compaction_fuel. intros fuel. run. apply summary_loop_kept. Qed.

Lemma prepareContext_kept ctx turn : kept (engineRun_prepareContext request ctx turn).
Proof. unfold engineRun_prepareContext, compact. run; apply stream_summary_kept. Qed.

Lemma SelectTurn_kept ctx turn : kept (engineRun_SelectTurn request ctx turn).
Proof. unfold engineRun_SelectTurn. run. apply prepareContext_kept. Qed.

Lemma callback_kept k : kept (callback request k).
Proof. destruct k; cbn [callback]; unfold select_turn_callback; run. apply SelectTurn_kept. Qed.

Lemma engine_after_kept s h : I s → I (engine_after request s h).
Proof.
  revert s. induction h as [|k h IH]; intros s Hs; [done|]. cbn. apply IH.
  pose proof (callback_kept k s Hs) as Hk. by destruct (callback request k s) as [[] s'].
Qed.

Lemma run_loop_kept loop r : kept (run_loop loop request r).
Proof.
  intros s Hs. unfold run_loop. destruct (loop _ r) as [[returned result] h].
  pose proof (engine_after_kept s h Hs). by destruct returned.
Qed.

Lemma cleanup_loop_kept ctx indices acc : kept (cleanup_loop request ctx indices acc).
Proof. revert acc. induction indices as [|i indices IH]; intros acc; cbn [cleanup_loop]; run; apply IH. Qed.

Lemma finish_engine_kept e result runErr : kept (finish_engine e request result runErr).
Proof. unfold finish_engine, engineRun_cleanup. run. apply cleanup_loop_kept. Qed.

Lemma execute_engine_kept `{!run_invariant request I} loop resume : kept (execute_engine loop request resume).
Proof. unfold execute_engine, start_engine. run; apply run_loop_kept || apply ri_restore. Qed.

Lemma run_engine_kept `{!run_invariant request I} e loop resume : kept (run_engine e loop request resume).
Proof. unfold run_engine. run; [apply execute_engine_kept; apply _ | apply finish_engine_kept]. Qed.

(** A run that does not recover keeps what its loop keeps. *)
Lemma run_engine_fresh_kept e loop : kept (run_engine e loop request false).
Proof. unfold run_engine, execute_engine, start_engine. run; apply finish_engine_kept || apply run_loop_kept. Qed.

End run.

(** A run keeps what holds of its normalised request. *)
Lemma check_request_Ok raw request : check_request raw = Ok request → request = normalise raw.
Proof. unfold check_request. rewrite !seq_Ok. cbn zeta. intros H. destruct_and!. congruence. Qed.

Lemma Engine_Run_kept raw I `{!loop_invariant (normalise raw) I} e : invariant I (Engine_Run e raw).
Proof.
  unfold Engine_Run, Engine_run. apply invariant_bind; [apply (plain_call (normalise raw)); [apply _ | done]|].
  intros [err|]; [apply invariant_fail|].
  destruct (Engine_Loop e) as [loop|]; [|apply invariant_fail]. destruct (_ || _); [apply invariant_fail|].
  destruct (check_request raw) as [request|err] eqn:E; [|apply invariant_fail].
  apply check_request_Ok in E as ->. apply run_engine_fresh_kept; apply _.
Qed.

Lemma Engine_run_kept raw I `{!run_invariant (normalise raw) I} e resume : invariant I (Engine_run e raw resume).
Proof.
  unfold Engine_run. apply invariant_bind; [apply (plain_call (normalise raw)); [apply _ | done]|]. intros [err|]; [apply invariant_fail|].
  destruct (Engine_Loop e) as [loop|]; [|apply invariant_fail]. destruct (_ || _); [apply invariant_fail|].
  destruct (check_request raw) as [request|err] eqn:E; [|apply invariant_fail].
  apply check_request_Ok in E as ->. apply run_engine_kept; apply _.
Qed.

End invariants.
#[export] Existing Instance ri_quiet.
#[export] Existing Instance ri_loop.
