(* ===== verification/EngineLedger.v ===== *)
(** * What a run of the execution engine has made durable

    The drafts that the calls of a history committed to the workload stream, and
    what is known after the operations that write them: a record is durable, a
    verdict is settled, an approval was given.  What is durable stays so. *)

From Stdlib Require Import ZArith Lia.
From S2P Require Import Prelude Effects GoNum GoText GoJson GoHash Ident Domain Event Store Model Stream Policy Routing.
From S2P Require Import Telemetry LoopTypes Execution Projection Engine EngineTurn EngineRun EngineInvariant.

Section ledger.
Context `{Hcarriers : EngineCarriers, Henv : !EngineEnv, Hencoder : !PayloadEncoder, Hquoting : Quoting}.
Context `{Hlibrary : SchemaLibrary, Hdecoder : PayloadDecoder}.
Abbreviation EE := (EM EngineState) (only parsing).
Context (request : EngineRequest).

(* ------------------------------------------------------------------ *)
(** ** The drafts committed by a history *)

(** The drafts that a call committed, after the calls [h]: those of an append
    for which the store returned one event each. *)
Definition commits (h : list ECall) (k : ECall) : list EventDraft :=
  match k with
  | EAppend _ aggregate expected drafts =>
      match store_append h aggregate expected drafts with
      | Ok events => if Z.of_nat (length events) =? Z.of_nat (length drafts) then drafts else []
      | Err _ => []
      end
  | _ => []
  end.

Fixpoint committed_from (h l : list ECall) : list EventDraft :=
  match l with
  | [] => []
  | k :: l' => commits h k ++ committed_from (h ++ [k]) l'
  end.

Definition committed (h : list ECall) : list EventDraft := committed_from [] h.

Lemma committed_from_app h l1 l2 : committed_from h (l1 ++ l2) = committed_from h l1 ++ committed_from (h ++ l1) l2.
Proof.
  revert h. induction l1 as [|k l1 IH]; intros h; cbn; [by rewrite app_nil_r|].
  by rewrite IH, <-!app_assoc.
Qed.

Lemma committed_snoc h k : committed (h ++ [k]) = committed h ++ commits h k.
Proof. unfold committed. rewrite committed_from_app. cbn. by rewrite app_nil_r. Qed.

(** A property of histories that further calls keep. *)
Definition stable (X : list ECall → Prop) : Prop := ∀ h h', h `prefix_of` h' → X h → X h'.

Lemma stable_quiet X : stable X → quiet_invariant request (λ s, X (engine_history s)).
Proof.
  intros HX. apply quiet_effects.
  - intros s s' [-> _ _ _ _]. done.
  - intros s k _ Hs. eapply HX; [|exact Hs]. cbn. by exists [k].
Qed.

Lemma stable_and X Y : stable X → stable Y → stable (λ h, X h ∧ Y h).
Proof. intros HX HY h h' Hp [? ?]. split; [by eapply HX | by eapply HY]. Qed.

Lemma stable_exists {A} (X : A → list ECall → Prop) : (∀ a, stable (X a)) → stable (λ h, ∃ a, X a h).
Proof. intros HX h h' Hp [a Ha]. exists a. by eapply HX. Qed.

Lemma stable_or X Y : stable X → stable Y → stable (λ h, X h ∨ Y h).
Proof. intros HX HY h h' Hp [?|?]; [left; by eapply HX | right; by eapply HY]. Qed.

Lemma stable_impl (P : Prop) X : (P → stable X) → stable (λ h, P → X h).
Proof. intros HX h h' Hp Hx HP. eapply HX; eauto. Qed.

Lemma stable_pure (P : Prop) : stable (λ _, P).
Proof. by intros h h' _. Qed.

(** The call [k] was made, after the calls [h0]. *)
Definition made (h0 : list ECall) (k : ECall) (h : list ECall) : Prop := (h0 ++ [k]) `prefix_of` h.

Lemma made_stable h0 k : stable (made h0 k).
Proof. intros h h' Hp Hm. unfold made. by transitivity h. Qed.

Lemma made_snoc h0 x h k : made h0 x (h ++ [k]) ↔ made h0 x h ∨ (h0 = h ∧ x = k).
Proof.
  unfold made. split.
  - intros [l Hl]. destruct l as [|y l _] using rev_ind.
    + rewrite app_nil_r in Hl. apply app_inj_tail in Hl as [-> ->]. by right.
    + left. rewrite app_assoc in Hl. apply app_inj_tail in Hl as [-> _]. by eexists.
  - intros [H|[-> ->]]; [by apply prefix_app_r | done].
Qed.

Lemma made_lookup h n k : h !! n = Some k → made (take n h) k h.
Proof. intros H. exists (drop (S n) h). rewrite <-app_assoc. symmetry. by apply take_drop_middle. Qed.

Lemma made_nil h0 k : ¬ made h0 k [].
Proof. intros [l Hl]. by destruct h0. Qed.

(* ------------------------------------------------------------------ *)
(** ** Durable records *)

(** The record is in the stream, stamped with the step and the identifiers of
    the run. *)
Definition durable (r : ExecutionRecord) (h : list ECall) : Prop :=
  ∃ d, d ∈ committed h ∧ Draft_Type d = EventTypeExecutionRecorded ∧ Draft_CorrelationID d = Eng_WorkloadID request ∧
       Draft_AttemptID d = Eng_AttemptID request ∧ encode_execution_record (stamp_record request r) = Ok (Draft_Payload d).

Lemma durable_stable r : stable (durable r).
Proof.
  intros h h' [l ->] (d & Hd & Hx). exists d. split; [|done].
  unfold committed. rewrite committed_from_app. apply elem_of_app. by left.
Qed.

(** The verdict is recorded for the manifest. *)
Definition policy_durable (turn : Z) (manifest : ContentManifest) (v : PolicyVerdict) (h : list ECall) : Prop :=
  ∃ class, ContentManifest_EffectiveClassification manifest = Ok class ∧ durable (policy_record turn class manifest v) h.

(** Someone named approved the scope for the manifest, which is not secret, and
    the decision is recorded. *)
Definition approved (turn : Z) (manifest : ContentManifest) (scope : PolicyScope) (h : list ECall) : Prop :=
  ∃ class decision,
    ContentManifest_EffectiveClassification manifest = Ok class ∧ class ≠ ClassSecret ∧
    Approval_Approved decision = true ∧ blank (Approval_Actor decision) = false ∧
    durable (approval_record turn class {| Approval_Request := {| Approval_Scope := scope; Approval_Manifest := manifest |};
                                           Approval_Decision := decision |}) h.

(** [v] is what became of the recorded verdict [v0]: itself, or what an approval
    made of a verdict that required one. *)
Definition settled (turn : Z) (manifest : ContentManifest) (v0 v : PolicyVerdict) (h : list ECall) : Prop :=
  policy_durable turn manifest v0 h ∧
  ((PolicyVerdict_RequiresApproval v0 = false ∧ v = v0) ∨
   (PolicyVerdict_RequiresApproval v0 = true ∧ v = granted v0 ∧ approved turn manifest (Verdict_Scope v0) h ∧
    policy_durable turn manifest v h)).

(** The verdict is what the policy of the moment made of the question. *)
Definition execution_answered (q : ExecutionPolicyRequest) (v : PolicyVerdict) (h : list ECall) : Prop :=
  ∃ h0 ctx, made h0 (EExecutionPolicy q) h ∧ v = fst (EvaluateExecutionPolicy (context_view h0 ctx) (execution_policy h0) q).

Definition egress_answered (q : DataEgressPolicyRequest) (v : PolicyVerdict) (h : list ECall) : Prop :=
  ∃ h0 ctx, made h0 (EEgressPolicy q) h ∧ v = fst (EvaluateDataEgressPolicy (context_view h0 ctx) (egress_policy h0) q).

Lemma policy_durable_stable turn manifest v : stable (policy_durable turn manifest v).
Proof. apply stable_exists. intros class. apply stable_and; [apply stable_pure | apply durable_stable]. Qed.

Lemma approved_stable turn manifest scope : stable (approved turn manifest scope).
Proof.
  do 2 (apply stable_exists; intros ?). repeat (apply stable_and; [apply stable_pure|]). apply durable_stable.
Qed.

Lemma settled_stable turn manifest v0 v : stable (settled turn manifest v0 v).
Proof.
  apply stable_and; [apply policy_durable_stable|]. apply stable_or; [apply stable_pure|].
  do 2 (apply stable_and; [apply stable_pure|]). apply stable_and; [apply approved_stable | apply policy_durable_stable].
Qed.

Lemma execution_answered_stable q v : stable (execution_answered q v).
Proof. do 2 (apply stable_exists; intros ?). apply stable_and; [apply made_stable | apply stable_pure]. Qed.

Lemma egress_answered_stable q v : stable (egress_answered q v).
Proof. do 2 (apply stable_exists; intros ?). apply stable_and; [apply made_stable | apply stable_pure]. Qed.

(* ------------------------------------------------------------------ *)
(** ** What the operations make durable

    [gives m Q]: when [m] returns [a], [Q a] holds of the history. *)

Definition gives {A} (m : EE A) (Q : A → list ECall → Prop) : Prop :=
  triple (λ _, True) m (λ a s, Q a (engine_history s)) (λ _, True).

Lemma gives_any {A} (m : EE A) : gives m (λ _ _, True).
Proof. intros s _. by destruct (m s) as [[] s']. Qed.

Lemma gives_fail {A} e (Q : A → list ECall → Prop) : gives (lm_fail e) Q.
Proof. by intros s _. Qed.

Lemma gives_ret {A} (a : A) (Q : A → list ECall → Prop) : (∀ h, Q a h) → gives (mret a) Q.
Proof. intros HQ s _. apply HQ. Qed.

Lemma gives_lift {A B} (r : result A) (f : A → EE B) R : (∀ a, r = Ok a → gives (f a) R) → gives (lm_lift r ≫= f) R.
Proof. intros Hf. destruct r as [a|e]; [by apply Hf | apply gives_fail]. Qed.

(** What comes before does not matter. *)
Lemma gives_after {A B} (m : EE A) (f : A → EE B) R : (∀ a, gives (f a) R) → gives (m ≫= f) R.
Proof. intros Hf. eapply triple_bind; [apply gives_any | exact Hf]. Qed.

(** What [m] gives is kept by what follows. *)
Lemma gives_bind {A B} (m : EE A) (f : A → EE B) Q R :
  gives m Q → (∀ a, triple (λ s, Q a (engine_history s)) (f a) (λ b s, R b (engine_history s)) (λ _, True)) → gives (m ≫= f) R.
Proof. apply triple_bind. Qed.

Lemma triple_kept {A} I (m : EE A) (Q : A → EngineState → Prop) :
  invariant I m → (∀ a s, I s → Q a s) → triple I m Q (λ _, True).
Proof. intros Hm HQ s Hs. specialize (Hm s Hs). destruct (m s) as [[] s']; auto. Qed.

Lemma triple_keep {A} (X : list ECall → Prop) (m : EE A) Q :
  stable X → invariant (λ s, X (engine_history s)) m → gives m Q →
  triple (λ s, X (engine_history s)) m (λ a s, X (engine_history s) ∧ Q a (engine_history s)) (λ _, True).
Proof.
  intros _ Hi Hm s Hs. specialize (Hi s Hs). specialize (Hm s I). by destruct (m s) as [[] s'].
Qed.

Lemma make_drafts_single cause entry ds :
  make_drafts request cause [entry] = Ok ds → ∃ d, make_draft request cause entry = Ok d ∧ ds = [d].
Proof. cbn [make_drafts]. destruct (make_draft _ _ _) as [d|]; [|done]. intros [= <-]. by exists d. Qed.

Lemma make_draft_Ok cause r d :
  make_draft request cause (DraftExecutionRecorded r) = Ok d →
  Draft_Type d = EventTypeExecutionRecorded ∧ Draft_CorrelationID d = Eng_WorkloadID request ∧
  Draft_AttemptID d = Eng_AttemptID request ∧ Draft_CausationID d = cause ∧ encode_execution_record r = Ok (Draft_Payload d).
Proof.
  unfold make_draft, NewCoreEventDraft. cbn [draft_payload draft_kind]. rewrite bind_Ok. intros (d0 & H & [= <-]).
  rewrite bind_Ok in H. destruct H as (payload & Hp & H). rewrite wrapf_Ok in Hp. cbn zeta in H.
  rewrite seq_Ok in H. destruct H as [_ [= <-]]. done.
Qed.

(** An append that returns has committed its drafts. *)
Lemma append_gives ctx entries :
  gives (engineRun_append request ctx entries)
    (λ _ h, ∃ cause ds, make_drafts request cause entries = Ok ds ∧ ∀ d, d ∈ ds → d ∈ committed h).
Proof.
  intros s _. unfold engineRun_append. unfold mbind at 1, lm_bind, lm_get. destruct (es_storeErr s); [done|].
  destruct (make_drafts request (es_cause s) entries) as [ds|e] eqn:Ed; [|done]. cbn zeta.
  unfold mbind, lm_bind, ecall, perform. destruct (store_append _ _ _ ds) as [events|e] eqn:Ea.
  - destruct (_ =? _) eqn:El; cbn [negb]; [|done].
    assert (∀ d, d ∈ ds → d ∈ committed (engine_history s ++ [EAppend ctx (engine_aggregate request) (es_sequence s) ds])) as Hc.
    { intros d Hd. rewrite committed_snoc. cbn [commits]. rewrite Ea, El. apply elem_of_app. by right. }
    destruct (last events) as [e|]; cbn; by exists (es_cause s), ds.
  - cbn. by destruct (is_some _).
Qed.

Lemma record_gives ctx r : gives (engineRun_record request ctx r) (λ _, durable r).
Proof.
  eapply triple_post; [apply append_gives|]. intros u s (cause & ds & Hds & Hc).
  apply make_drafts_single in Hds as (d & Hd & ->). apply make_draft_Ok in Hd as (? & ? & ? & _ & ?).
  exists d. split_and!; try done. apply Hc. by constructor.
Qed.

Lemma observe_keep X kind outcome : stable X → invariant (λ s, X (engine_history s)) (engineRun_observe request kind outcome).
Proof. intros HX. by apply observe_quiet, stable_quiet. Qed.

Lemma recordPolicy_gives ctx turn manifest v :
  gives (engineRun_recordPolicy request ctx turn manifest v) (λ _, policy_durable turn manifest v).
Proof.
  unfold engineRun_recordPolicy. apply gives_lift. intros class Hc. eapply gives_bind; [apply record_gives|]. intros u.
  eapply triple_kept; [by apply (observe_keep _ _ _ (durable_stable _))|]. intros _ s Hd. by exists class.
Qed.

Lemma settle_decision_gives decision approvalErr :
  gives (settle_decision decision approvalErr)
    (λ d _, Approval_Approved d = true → blank (Approval_Actor d) = false).
Proof.
  unfold settle_decision. apply gives_after. intros expired. destruct (_ || _ || _) eqn:E.
  - apply gives_after. intros timeout. by apply gives_ret.
  - apply gives_ret. intros _ _. by apply orb_false_iff in E as [_ E].
Qed.

Lemma approve_gives ctx turn manifest scope :
  gives (engineRun_approve request ctx turn manifest scope) (λ _, approved turn manifest scope).
Proof.
  unfold engineRun_approve. destruct approver as [approve|]; [|apply gives_fail].
  apply gives_lift. intros class Hc. destruct (String.eqb_spec class ClassSecret) as [|Hs]; [apply gives_fail|].
  cbn zeta. apply gives_after. intros [decision0 approvalErr].
  eapply triple_bind; [apply settle_decision_gives|]. intros decision.
  set (named := Approval_Approved decision = true → blank (Approval_Actor decision) = false).
  apply (triple_pre _ (λ s, named ∧ True)); [apply triple_pure; intros Hnamed | by intros s Hd].
  match goal with |- triple _ ?m _ _ => change (gives m (λ _, approved turn manifest scope)) end.
  eapply gives_bind; [apply record_gives|]. intros u.
  destruct (Approval_Approved decision) eqn:Ea; cbn [negb].
  - eapply triple_bind;
      [apply triple_kept; [apply (plain_call request (λ s, durable _ (engine_history s)) (HI := stable_quiet _ (durable_stable _))); done|];
       intros err s Hd; exact Hd |].
    intros [e|]; [by intros s _ | intros s Hd]. exists class, decision. split_and!; try done. by apply Hnamed.
  - by intros s _.
Qed.

Lemma settled_self turn manifest v h :
  policy_durable turn manifest v h → PolicyVerdict_RequiresApproval v = false → settled turn manifest v v h.
Proof. intros Hp Hr. split; [done|]. by left. Qed.

Lemma resolve_gives ctx turn manifest v :
  triple (λ s, policy_durable turn manifest v (engine_history s)) (engineRun_resolveApproval request ctx turn manifest v)
    (λ v' s, settled turn manifest v v' (engine_history s)) (λ _, True).
Proof.
  unfold engineRun_resolveApproval. destruct (PolicyVerdict_RequiresApproval v) eqn:Er; cbn [negb].
  - pose proof (policy_durable_stable turn manifest v) as H1. pose proof (approved_stable turn manifest (Verdict_Scope v)) as H2.
    pose proof (stable_and _ _ H1 H2) as H12.
    eapply triple_bind; [apply (triple_keep _ _ _ H1 (approve_quiet request _ (HI := stable_quiet _ H1) _ _ _ _) (approve_gives _ _ _ _))|].
    intros u.
    eapply triple_bind; [apply (triple_keep _ _ _ H12 (recordPolicy_quiet request _ (HI := stable_quiet _ H12) _ _ _ _)
                                 (recordPolicy_gives _ _ _ _))|].
    intros u' s [[Hd Ha] Hg]. split; [done|]. by right.
  - intros s Hd. by apply settled_self.
Qed.

End ledger.
