(* ===== verification/EngineSafety.v ===== *)
(** * Policy before effect in a run of the execution engine

    Whatever the turn loop, the model, the tools and the policies do: a tool is
    executed only after its verdict is recorded and allows, inside a sandbox if
    it has side effects, and a provider is streamed from only after a durable
    routing decision selected its eligible candidate and reserved the spend. *)

From Stdlib Require Import ZArith Lia.
From S2P Require Import Prelude Effects GoNum GoText GoJson GoHash Ident Domain Event Store Model Stream Policy Routing.
From S2P Require Import Telemetry LoopTypes Execution Projection Engine EngineTurn EngineRun EngineInvariant EngineLedger.

Section safety.
Context `{Hcarriers : EngineCarriers, Henv : !EngineEnv, Hencoder : !PayloadEncoder, Hquoting : Quoting}.
Context `{Hlibrary : SchemaLibrary, Hdecoder : PayloadDecoder}.
Abbreviation EE := (EM EngineState) (only parsing).
Context (request : EngineRequest).

(* ------------------------------------------------------------------ *)
(** ** Rules *)

Lemma ecall_gives {A} k (answer : list ECall → outcome A) :
  gives (ecall k answer) (λ a h, ∃ h0, made h0 k h ∧ answer h0 = Returns a).
Proof.
  apply triple_perform; [|done]. intros s a _ Ha. exists (engine_history s). split; [|done]. by apply made_snoc; right.
Qed.

Lemma or_stop_triple {A} P (m : EE A) Q : triple P m Q (λ _, True) → triple P (or_stop m) Q (λ _, True).
Proof.
  intros Hm. unfold or_stop. eapply triple_bind; [by apply triple_attempt|]. intros [a|e]; [apply triple_ret | by intros s _].
Qed.

Lemma stop_triple {A} P e e' (Q : A → EngineState → Prop) : triple P (engine_stop e ;; lm_fail e') Q (λ _, True).
Proof. by intros s _. Qed.

Lemma or_stop_invariant {A} I (m : EE A) : quiet_invariant request I → invariant I m → invariant I (or_stop m).
Proof.
  intros HI Hm. unfold or_stop. apply invariant_bind; [by apply invariant_attempt|]. intros [a|e]; [apply invariant_ret|].
  apply invariant_bind; [by apply (plain_call request) | intros _; apply invariant_fail].
Qed.

(** The next operation keeps the stable fact [X] and gives its own. *)
Lemma keep_then {A B} (X : list ECall → Prop) (m : EE A) (f : A → EE B) Q R :
  stable X → (quiet_invariant request (λ s, X (engine_history s)) → invariant (λ s, X (engine_history s)) m) → gives m Q →
  (∀ a, triple (λ s, X (engine_history s) ∧ Q a (engine_history s)) (f a) R (λ _, True)) →
  triple (λ s, X (engine_history s)) (m ≫= f) R (λ _, True).
Proof.
  intros HX Hi Hm Hf. eapply triple_bind; [|exact Hf]. apply triple_keep; [done | | done]. by apply Hi, stable_quiet.
Qed.

(* ------------------------------------------------------------------ *)
(** ** Tools *)

(** The tool's own answer about its sandbox. *)
Definition prepared (handler : ExternalHandler) (capability : SandboxCapability) (h : list ECall) : Prop :=
  ∃ h0, made h0 (EPrepareSandbox handler) h ∧ prepare_sandbox h0 handler = Returns (Ok capability).

(** A recorded verdict of the policy on exactly this call allows it, or was
    approved. *)
Definition call_authorized (call : ToolInvocation) (capability : SandboxCapability) (h : list ECall) : Prop :=
  ∃ manifest v0 v,
    valueManifest (marshal_tool_call (Invocation_Call call)) (Eng_ModelOutputClassification request) = Ok manifest ∧
    PolicyVerdict_Allows v = true ∧
    execution_answered (tool_policy_request request call capability manifest) v0 h ∧
    settled request (Invocation_Turn call) manifest v0 v h.

(** What is required before a tool executes a call. *)
Definition tool_permission (handler : ExternalHandler) (call : ToolInvocation) (h : list ECall) : Prop :=
  ∃ index binding capability,
    Eng_Tools request !! index = Some binding ∧ Binding_Handler binding = Some handler ∧
    (Tool_SideEffecting (Binding_Definition binding) = true → Sandbox_Established capability = true) ∧
    (Sandbox_Established capability = true → prepared handler capability h) ∧
    call_authorized call capability h.

Definition tools_permitted (h : list ECall) : Prop :=
  ∀ h0 handler call, made h0 (EExecute handler call) h → tool_permission handler call h0.

Lemma prepared_stable handler capability : stable (prepared handler capability).
Proof. apply stable_exists. intros h0. apply stable_and; [apply made_stable | apply stable_pure]. Qed.

Lemma call_authorized_stable call capability : stable (call_authorized call capability).
Proof.
  do 3 (apply stable_exists; intros ?). do 2 (apply stable_and; [apply stable_pure|]).
  apply stable_and; [apply execution_answered_stable | apply settled_stable].
Qed.

Lemma allows_no_approval v : PolicyVerdict_Allows v = true → PolicyVerdict_RequiresApproval v = false.
Proof. unfold PolicyVerdict_Allows, PolicyVerdict_RequiresApproval. by intros ->%String.eqb_eq. Qed.

Lemma authorize_tool_gives ctx call capability :
  gives (authorize_tool request ctx call capability) (λ _, call_authorized call capability).
Proof.
  unfold authorize_tool. apply gives_lift. intros manifest Hm. cbn zeta.
  set (q := tool_policy_request request call capability manifest).
  eapply gives_bind with (Q := λ '(v, _), execution_answered q v).
  { eapply triple_post; [apply ecall_gives|]. intros [v err] s (h0 & Hh & [= Ha]). exists h0, ctx. by rewrite Ha. }
  intros [v0 err0]. set (X := execution_answered q v0). assert (stable X) as HX by apply execution_answered_stable.
  eapply (keep_then X); [done | intros; by apply (plain_call request) | apply gives_any |]. intros [e|]; [by intros s _|].
  eapply triple_pre; [|intros s [Hx _]; exact Hx].
  set (Y := policy_durable request (Invocation_Turn call) manifest v0).
  assert (stable Y) as HY by apply policy_durable_stable.
  eapply (keep_then X) with (Q := λ _, Y); [done | | |].
  - intros HI. by apply or_stop_invariant, recordPolicy_quiet.
  - apply or_stop_triple, recordPolicy_gives.
  - intros u. pose proof (stable_and _ _ HX HY) as HXY.
    eapply triple_bind with (Q := λ v s, X (engine_history s) ∧ settled request (Invocation_Turn call) manifest v0 v (engine_history s)).
    + destruct (PolicyVerdict_Allows v0) eqn:Ea.
      * intros s [Hx Hy]. split; [done|]. apply settled_self; [done | by apply allows_no_approval].
      * eapply triple_conseq; [apply (triple_with (λ s, X (engine_history s)));
          [|apply or_stop_triple, resolve_gives] | by intros s [? ?] | done | done].
        apply or_stop_invariant, resolveApproval_quiet; by apply stable_quiet.
    + intros v. destruct (PolicyVerdict_Allows v) eqn:Ea; [|apply stop_triple].
      intros s [Hx Hs]. by exists manifest, v0, v.
Qed.

Lemma tools_permitted_note s k :
  (match k with EExecute handler call => tool_permission handler call (engine_history s) | _ => True end) →
  tools_permitted (engine_history s) → tools_permitted (engine_history (note_call k s)).
Proof. intros Hk Ht h0 handler call [Hm|[-> <-]]%made_snoc; [by apply Ht | done]. Qed.

Lemma tools_permitted_quiet : quiet_invariant request (λ s, tools_permitted (engine_history s)).
Proof.
  apply quiet_effects; [by intros s s' [-> _ _ _ _]|]. intros s k Hk. apply tools_permitted_note. by destruct k.
Qed.

Lemma tools_permitted_execute ctx index call :
  invariant (λ s, tools_permitted (engine_history s)) (engineToolHandler_Execute request ctx index call).
Proof.
  pose proof tools_permitted_quiet as HI. unfold engineToolHandler_Execute.
  apply invariant_deref_bind. intros binding Eb. apply invariant_deref_bind. intros handler Eh.
  set (I := λ s, tools_permitted (engine_history s)) in *.
  set (X := λ capability (h : list ECall), Sandbox_Established capability = true → prepared handler capability h).
  assert (∀ capability, stable (X capability)) as HX by (intros c; apply stable_impl; intros _; apply prepared_stable).
  eapply triple_bind with (Q := λ capability s, I s ∧ X capability (engine_history s)).
  { destruct (is_sandboxed handler); [|intros s Hs; split; [done | by unfold X]].
    eapply triple_bind with (Q := λ answer s, I s ∧ ∀ c, answer = Ok c → X c (engine_history s)).
    - unfold tool_call. apply (triple_bind _ _ (λ _, I)); [apply invariant_get|]. intros s0.
      apply (triple_bind _ _ (λ _, I)); [by apply report_events_quiet|]. intros u.
      eapply triple_conseq; [apply (triple_with I); [by apply (plain_call request) | apply ecall_gives] | by split | | done].
      intros answer s (Hi & h0 & Hm & Ha). split; [done|]. intros c ->. intros _. by exists h0.
    - intros [c|e]; [intros s [Hi Hc]; split; [done | by apply Hc] | by intros s [Hi _]]. }
  intros capability. destruct (_ && _) eqn:Esb; [by intros s [Hi _]|].
  set (Y := λ h, X capability h ∧ call_authorized call capability h).
  assert (stable Y) as HY by (apply stable_and; [apply HX | apply call_authorized_stable]).
  eapply triple_bind with (Q := λ _ s, I s ∧ Y (engine_history s)).
  { apply triple_with; [by apply authorize_tool_quiet|]. apply (triple_keep (X capability) _ (λ _, call_authorized call capability));
      [apply HX | by apply authorize_tool_quiet, stable_quiet | apply authorize_tool_gives]. }
  intros u. pose proof (quiet_and request _ _ HI (stable_quiet request _ HY)) as HIY.
  apply triple_bind with (Q := λ _ s, I s ∧ Y (engine_history s)).
  { by apply kept_with, observe_quiet. }
  intros u'. apply triple_finally; [|by apply observe_quiet].
  eapply triple_bind; [|intros answer; apply invariant_lift]. unfold tool_call.
  apply (triple_bind _ _ (λ _ s, I s ∧ Y (engine_history s))); [by intros s Hs|]. intros s0.
  apply (triple_bind _ _ (λ _ s, I s ∧ Y (engine_history s))).
  { by apply kept_with, report_events_quiet. }
  intros u''. assert (∀ s, I s ∧ Y (engine_history s) → I (note_call (EExecute handler call) s)) as Hnote.
  { intros s [Hi [Hc Ha]]. apply tools_permitted_note; [|exact Hi]. exists index, binding, capability. split_and!; try done.
    intros Hse. rewrite Hse in Esb. by apply negb_false_iff in Esb. }
  apply triple_perform; intros s a Hs _; by apply Hnote.
Qed.

#[global] Instance tools_permitted_run : run_invariant request (λ s, tools_permitted (engine_history s)).
Proof.
  pose proof tools_permitted_quiet as HI.
  assert (∀ k s, (match k with EExecute _ _ => False | _ => True end) → tools_permitted (engine_history s) →
    tools_permitted (engine_history (note_call k s))) as Hc by (intros k s Hk; apply tools_permitted_note; by destruct k).
  split; [split; intros; try done|].
  - by apply selectPlacement_kept.
  - apply provider_Stream_kept; [done | by intros; apply Hc | done].
  - by apply Recv_kept.
  - apply tools_permitted_execute.
  - apply Close_kept; [done | by intros; apply Hc | done].
  - intros. by apply restore_kept.
Qed.

(* ------------------------------------------------------------------ *)
(** ** Models *)

(** The verdicts of a candidate are what became of recorded answers of the
    policies on exactly this manifest and placement. *)
Definition candidate_settled (turn : Z) (manifest : ContentManifest) (c : RoutingCandidate) (h : list ECall) : Prop :=
  (∃ v0, execution_answered (candidate_policy_request request manifest c) v0 h ∧
         settled request turn manifest v0 (Cand_ExecutionVerdict c) h) ∧
  (Cand_Zone c ≠ Eng_SourceZone request → ∃ e0 e,
     Cand_EgressVerdict c = Some e ∧
     egress_answered (egress_policy_request request manifest (Eng_SourceZone request) (Cand_Zone c) "model_request") e0 h ∧
     settled request turn manifest e0 e h).

(** What is durable before a provider is handed out. *)
Definition provider_permission (prov : engineProvider) (h : list ECall) : Prop :=
  ∃ manifest routing c,
    durable request (routing_record (prov_turn prov) routing) h ∧
    c ∈ Route_Candidates (Routing_Request routing) ∧ Cand_ID c = Decision_SelectedCandidateID (Routing_Decision routing) ∧
    eligible (Routing_Request routing) c ∧ Route_ManifestSHA256 (Routing_Request routing) = manifest_digest manifest ∧
    candidate_settled (prov_turn prov) manifest c h ∧
    durable request (budget_record (prov_turn prov)
      {| BudgetRecord_Reserved := prov_bound prov; BudgetRecord_Dimension := "" |}) h ∧
    engine_providers (ModelRef_Provider (Descriptor_Ref (Cand_Model c))) = Some (prov_provider prov) ∧
    prov_zone prov = Cand_Zone c.

Record models_permitted (s : EngineState) : Prop := {
  mp_providers : Forall (λ prov, provider_permission prov (engine_history s)) (es_providers s);
  mp_streams : ∀ h0 p r, made h0 (EStream p r) (engine_history s) →
    ∃ prov, prov_provider prov = p ∧ provider_permission prov h0;
}.

Lemma candidate_settled_stable turn manifest c : stable (candidate_settled turn manifest c).
Proof.
  apply stable_and.
  - apply stable_exists. intros v0. apply stable_and; [apply execution_answered_stable | apply settled_stable].
  - apply stable_impl. intros _. do 2 (apply stable_exists; intros ?). apply stable_and; [apply stable_pure|].
    apply stable_and; [apply egress_answered_stable | apply settled_stable].
Qed.

Lemma provider_permission_stable prov : stable (provider_permission prov).
Proof.
  do 3 (apply stable_exists; intros ?). apply stable_and; [apply durable_stable|].
  do 4 (apply stable_and; [apply stable_pure|]). apply stable_and; [apply candidate_settled_stable|].
  apply stable_and; [apply durable_stable | apply stable_pure].
Qed.

Lemma candidate_execution_gives ctx turn manifest c :
  gives (candidate_execution request ctx turn manifest c)
    (λ v h, ∃ v0, execution_answered (candidate_policy_request request manifest c) v0 h ∧ settled request turn manifest v0 v h).
Proof.
  unfold candidate_execution. cbn zeta. set (q := candidate_policy_request request manifest c).
  eapply gives_bind with (Q := λ '(v, _), execution_answered q v).
  { eapply triple_post; [apply ecall_gives|]. intros [v err] s (h0 & Hh & [= Ha]). exists h0, ctx. by rewrite Ha. }
  intros [v0 err0]. set (X := execution_answered q v0). assert (stable X) as HX by apply execution_answered_stable.
  eapply (keep_then X); [done | intros; by apply (plain_call request) | apply gives_any |]. intros [e|]; [by intros s _|].
  eapply triple_pre; [|intros s [Hx _]; exact Hx].
  eapply (keep_then X); [done | intros; by apply recordPolicy_quiet | apply recordPolicy_gives |]. intros u.
  eapply triple_conseq; [apply (triple_with (λ s, X (engine_history s))); [|apply resolve_gives] | done | | done].
  - by apply resolveApproval_quiet, stable_quiet.
  - intros v s [Hx Hs]. by exists v0.
Qed.

Lemma egress_verdict_gives ctx turn manifest source destination purpose :
  gives (egress_verdict request ctx turn manifest source destination purpose)
    (λ v h, egress_answered (egress_policy_request request manifest source destination purpose) v h ∧
            policy_durable request turn manifest v h).
Proof.
  unfold egress_verdict. cbn zeta. set (q := egress_policy_request request manifest source destination purpose).
  eapply gives_bind with (Q := λ '(v, _), egress_answered q v).
  { eapply triple_post; [apply ecall_gives|]. intros [v err] s (h0 & Hh & [= Ha]). exists h0, ctx. by rewrite Ha. }
  intros [v0 err0]. set (X := egress_answered q v0). assert (stable X) as HX by apply egress_answered_stable.
  eapply (keep_then X); [done | intros; by apply (plain_call request) | apply gives_any |]. intros [e|]; [by intros s _|].
  eapply triple_pre; [|intros s [Hx _]; exact Hx].
  eapply (keep_then X); [done | intros; by apply recordPolicy_quiet | apply recordPolicy_gives |]. intros u.
  by intros s Hs.
Qed.

(** The same with the approval it may need. *)
Lemma egress_resolved_gives ctx turn manifest source destination purpose :
  gives (egress_resolved request ctx turn manifest source destination purpose)
    (λ e h, ∃ e0, egress_answered (egress_policy_request request manifest source destination purpose) e0 h ∧
                  settled request turn manifest e0 e h).
Proof.
  unfold egress_resolved.
  eapply gives_bind; [apply egress_verdict_gives|]. intros e0.
  set (X := egress_answered (egress_policy_request request manifest source destination purpose) e0).
  assert (stable X) as HX by apply egress_answered_stable.
  eapply triple_conseq; [apply (triple_with (λ s, X (engine_history s))); [|apply resolve_gives] | done | | done].
  - by apply resolveApproval_quiet, stable_quiet.
  - intros e s [Hx Hs]. by exists e0.
Qed.

Lemma stable_Forall {A} (X : A → list ECall → Prop) l : (∀ a, stable (X a)) → stable (λ h, Forall (λ a, X a h) l).
Proof. intros HX h h' Hp Hl. eapply Forall_impl; [exact Hl|]. intros a. by apply HX. Qed.

Lemma evaluate_candidates_gives ctx turn manifest cs :
  gives (evaluate_candidates request ctx turn manifest cs)
    (λ cs' h, Forall (λ c, candidate_settled turn manifest c h) cs').
Proof.
  induction cs as [|c cs IH]; cbn [evaluate_candidates]; [apply gives_ret; intros; constructor|].
  eapply gives_bind; [apply candidate_execution_gives|]. intros v.
  set (X := λ h, ∃ v0, execution_answered (candidate_policy_request request manifest c) v0 h ∧ settled request turn manifest v0 v h).
  assert (stable X) as HX by
    (apply stable_exists; intros v0; apply stable_and; [apply execution_answered_stable | apply settled_stable]).
  set (Y := λ (egress : option PolicyVerdict) h, Cand_Zone c ≠ Eng_SourceZone request → ∃ e0 e, egress = Some e ∧
    egress_answered (egress_policy_request request manifest (Eng_SourceZone request) (Cand_Zone c) "model_request") e0 h ∧
    settled request turn manifest e0 e h).
  assert (∀ egress, stable (Y egress)) as HY.
  { intros egress. apply stable_impl. intros _. do 2 (apply stable_exists; intros ?). apply stable_and; [apply stable_pure|].
    apply stable_and; [apply egress_answered_stable | apply settled_stable]. }
  eapply (keep_then X) with (Q := Y); [done | | |].
  - intros HI. destruct (Cand_Zone c ≠s _); [|apply invariant_ret].
    apply invariant_bind; [by apply egress_resolved_quiet | intros e; apply invariant_ret].
  - destruct (String.eqb_spec (Cand_Zone c) (Eng_SourceZone request)) as [Hz|Hz]; cbn [negb];
      [apply gives_ret; intros h Hne; by destruct (Hne Hz)|]. eapply gives_bind; [apply egress_resolved_gives|].
    intros e s (e0 & He). cbn. intros _. by exists e0, e.
  - intros egress. pose proof (stable_and _ _ HX (HY egress)) as HXY.
    eapply (keep_then (λ h, X h ∧ Y egress h)); [exact HXY | intros; by apply evaluate_candidates_quiet | exact IH |].
    intros rest s [[Hx Hy] Hr]. constructor; [by split | exact Hr].
Qed.

Lemma reserve_gives ctx turn r descriptor :
  gives (engineRun_reserve request ctx turn r descriptor)
    (λ bound, durable request (budget_record turn {| BudgetRecord_Reserved := bound; BudgetRecord_Dimension := "" |})).
Proof.
  unfold engineRun_reserve. destruct spend_estimator as [estimate|]; [|apply gives_fail].
  apply gives_after. intros answer. apply gives_lift. intros bound _. apply gives_lift. intros u _.
  apply gives_after. intros s0. cbn zeta. destruct (_ ≠s _).
  { unfold engineRun_budgetFailure. do 2 (apply gives_after; intros ?). apply gives_fail. }
  destruct (_ <? _); [apply gives_fail|]. eapply gives_bind; [apply record_gives|]. intros u'. by intros s Hs.
Qed.

Lemma models_permitted_call s k :
  match k with EStream p _ => ∃ prov, prov_provider prov = p ∧ provider_permission prov (engine_history s) | _ => True end →
  models_permitted s → models_permitted (note_call k s).
Proof.
  intros Hk [Hp Hs]. split.
  - eapply Forall_impl; [exact Hp|]. intros prov. apply provider_permission_stable. by exists [k].
  - intros h0 p r [Hm|[-> <-]]%made_snoc; [by apply (Hs h0 p r) | done].
Qed.

Lemma models_permitted_quiet : quiet_invariant request models_permitted.
Proof.
  apply quiet_effects.
  - intros s s' [Hh _ Hp _ _] [H1 H2]. split; rewrite ?Hh, ?Hp; done.
  - intros s k Hk. apply models_permitted_call. by destruct k.
Qed.

Lemma models_permitted_stream index r : invariant models_permitted (engineProvider_Stream request index r).
Proof.
  pose proof models_permitted_quiet as HI. unfold engineProvider_Stream.
  apply (triple_bind _ _ (λ s0 s, s0 = s ∧ models_permitted s)); [by intros s Hs|]. intros s0.
  apply (triple_bind _ _ (λ p s, models_permitted s ∧ provider_permission p (engine_history s))).
  { intros s [<- Hs]. destruct (es_providers s0 !! index) as [p|] eqn:Ep; [|done]. split; [done|].
    by apply (Forall_lookup_1 _ _ _ _ (mp_providers _ Hs) Ep). }
  intros p. pose proof (quiet_and request _ _ HI (stable_quiet request _ (provider_permission_stable p))) as HIX.
  apply (triple_bind _ _ (λ _ s, models_permitted s ∧ provider_permission p (engine_history s))).
  { by apply kept_with, observe_quiet. }
  intros u. apply (triple_bind _ _ (λ _, models_permitted)).
  { apply triple_perform; intros s a [Hs Hp] _; apply models_permitted_call; [|done| |done]; by exists p. }
  intros [[stream|]|e].
  - apply invariant_bind; [apply invariant_get|]. intros s1. apply invariant_bind; [|intros ?; apply invariant_ret].
    apply invariant_modify. by intros s [H1 H2].
  - apply invariant_fail.
  - apply invariant_bind; [by apply observe_quiet | intros ?; apply invariant_fail].
Qed.

Lemma List_find_elem {A} (f : A → bool) l x : List.find f l = Some x → x ∈ l ∧ f x = true.
Proof. intros Hf%find_some. destruct Hf. split; [by apply list_elem_of_In | done]. Qed.

Lemma take_candidate_permitted ctx turn manifest r c routing :
  Cand_ID c = Decision_SelectedCandidateID (Routing_Decision routing) → c ∈ Route_Candidates (Routing_Request routing) →
  eligible (Routing_Request routing) c → Route_ManifestSHA256 (Routing_Request routing) = manifest_digest manifest →
  triple (λ s, models_permitted s ∧ candidate_settled turn manifest c (engine_history s) ∧
               durable request (routing_record turn routing) (engine_history s))
    (take_candidate request ctx turn manifest r c) (λ _, models_permitted) models_permitted.
Proof.
  intros Hid Hin He Hd. pose proof models_permitted_quiet as HI. unfold take_candidate.
  destruct (engine_providers _) as [provider|] eqn:Ep; [|by intros s [? _]]. cbn zeta.
  set (X := λ h, candidate_settled turn manifest c h ∧ durable request (routing_record turn routing) h).
  assert (stable X) as HX by (apply stable_and; [apply candidate_settled_stable | apply durable_stable]).
  pose proof (quiet_and request _ _ HI (stable_quiet request _ HX)) as HIX.
  apply (triple_bind _ _ (λ _ s, models_permitted s ∧ X (engine_history s))); [by intros s Hs|]. intros s0.
  apply (triple_bind _ _ (λ _ s, models_permitted s ∧ X (engine_history s))).
  { apply kept_with. destruct (_ && _); [|apply invariant_ret].
    apply invariant_bind; [by apply approve_quiet | intros u; by apply (books request)]. }
  intros u. set (Y := λ (bound : SpendBound) h, durable request (budget_record turn
    {| BudgetRecord_Reserved := bound; BudgetRecord_Dimension := "" |}) h).
  apply (triple_bind _ _ (λ bound s, (models_permitted s ∧ X (engine_history s)) ∧ Y bound (engine_history s))).
  { eapply triple_conseq; [apply (triple_with (λ s, models_permitted s ∧ X (engine_history s)) (λ _, True)
       (engineRun_reserve request ctx turn _ (Cand_Model c)) (λ bound s, Y bound (engine_history s)));
       [apply reserve_kept; [done | by intros s b [[? ?] ?]] | apply reserve_gives] | by split | done | by intros s [? _]]. }
  intros bound. apply (triple_bind _ _ (λ s0 s, s0 = s ∧ (models_permitted s ∧ X (engine_history s)) ∧ Y bound (engine_history s)));
    [by intros s Hs|].
  intros s1. eapply triple_bind; [apply triple_modify with (Q := λ _, models_permitted) | intros ?; apply invariant_ret].
  intros s [-> [[[H1 H2] [Hc Hr]] Hb]]. split; [|exact H2]. apply Forall_app. split; [exact H1|].
  apply Forall_singleton. exists manifest, routing, c. split_and!; try done; apply Hc.
Qed.

Lemma models_permitted_place ctx turn initial tools :
  invariant models_permitted (engineRun_selectPlacement request ctx turn initial tools).
Proof.
  pose proof models_permitted_quiet as HI. unfold engineRun_selectPlacement. cbn zeta.
  apply invariant_lift_bind. intros manifest Hm.
  apply invariant_bind; [by apply (plain_call request)|]. intros observedAt. apply invariant_bind; [by apply (plain_call request)|]. intros deadline.
  set (X := λ cs h, Forall (λ c, candidate_settled (Turn_Turn turn) manifest c h) cs).
  assert (∀ cs, stable (X cs)) as HX by (intros cs; apply stable_Forall; intros c; apply candidate_settled_stable).
  apply (triple_bind _ _ (λ cs s, models_permitted s ∧ X cs (engine_history s))).
  { eapply triple_conseq; [apply (triple_with models_permitted (λ _, True)); [by apply evaluate_candidates_quiet |
      apply evaluate_candidates_gives] | by split | done | done]. }
  intros cs. set (routing := routing_request _ _ _ _ _ cs).
  pose proof (quiet_and request _ _ HI (stable_quiet request _ (HX cs))) as HIX.
  apply (triple_bind _ _ (λ '(d, err) s, (models_permitted s ∧ X cs (engine_history s)) ∧
    (err = None → ∀ c, c ∈ cs → Cand_ID c = Decision_SelectedCandidateID d → eligible routing c))).
  { eapply triple_conseq; [apply (triple_with (λ s, models_permitted s ∧ X cs (engine_history s)) (λ _, True));
      [by apply (plain_call request) | apply ecall_gives] | by split | | by intros s [? _]].
    intros [d err] s [Hs (h0 & _ & Ha)]. split; [exact Hs|]. intros -> c Hc.
    destruct (EvaluateRouter _ _ _) as [a|] eqn:Er; [|done]. injection Ha as ->. by eapply EvaluateRouter_eligible. }
  intros [d err]. apply triple_pre with (λ s, (err = None → ∀ c, c ∈ cs → Cand_ID c = Decision_SelectedCandidateID d →
    eligible routing c) ∧ (models_permitted s ∧ X cs (engine_history s))); [|by intros s [? ?]]. apply triple_pure. intros Hel.
  destruct (_ && _); [by intros s [? _]|].
  set (rr := {| Routing_Request := routing; Routing_Decision := d |}).
  set (Y := durable request (routing_record (Turn_Turn turn) rr)).
  apply (triple_bind _ _ (λ _ s, (models_permitted s ∧ X cs (engine_history s)) ∧ Y (engine_history s))).
  { eapply triple_conseq; [apply (triple_with (λ s, models_permitted s ∧ X cs (engine_history s)) (λ _, True));
      [by apply record_quiet | apply record_gives] | by split | done | by intros s [? _]]. }
  intros u. pose proof (quiet_and request _ _ HIX (stable_quiet request _ (durable_stable request (routing_record (Turn_Turn turn) rr)))) as HIXY.
  apply (triple_bind _ _ (λ _ s, (models_permitted s ∧ X cs (engine_history s)) ∧ Y (engine_history s))).
  { eapply triple_conseq; [apply kept_with, (observe_quiet request _ (HI := HIXY)) | done | done | by intros s [? _]]. }
  intros u'. destruct err as [e|]; [by intros s [[? _] _]|].
  destruct (List.find _ cs) as [c|] eqn:Ef; [|by intros s [[? _] _]].
  apply List_find_elem in Ef as [Hc Hid%String.eqb_eq].
  eapply triple_pre; [apply (take_candidate_permitted _ _ _ _ _ rr); [done | done | by apply Hel | done]|].
  intros s [[Hs Hx] Hy]. split_and!; [done | | done]. by apply (proj1 (Forall_forall _ _) Hx).
Qed.

#[global] Instance models_permitted_run : run_invariant request models_permitted.
Proof.
  pose proof models_permitted_quiet as HI.
  assert (∀ k s, (match k with EStream _ _ => False | _ => True end) → models_permitted s → models_permitted (note_call k s))
    as Hc by (intros k s Hk; apply models_permitted_call; by destruct k).
  split; [split; intros; try done|].
  - apply models_permitted_place.
  - apply models_permitted_stream.
  - apply Recv_kept; [done | by intros s x [? ?]].
  - apply Execute_kept; [done | by intros; apply Hc].
  - apply Close_kept; [done | by intros; apply Hc | by intros s err [? ?]].
  - intros. by apply restore_kept; [|intros s b [? ?]|intros s n c [? ?]].
Qed.

(* ------------------------------------------------------------------ *)
(** ** Events *)

(** A recorded verdict of the egress policy on exactly this event lets it out of
    the zone of its provider, or an approval does. *)
Definition event_released (stream : engineModelStream) (event : ModelEvent) (h : list ECall) : Prop :=
  ∃ manifest v0 v,
    valueManifest (marshal_model_event event) (Eng_ModelOutputClassification request) = Ok manifest ∧
    PolicyVerdict_Allows v = true ∧
    egress_answered (egress_policy_request request manifest (strm_zone stream) (Eng_SourceZone request) "model_result") v0 h ∧
    settled request (strm_turn stream) manifest v0 v h.

Lemma release_event_gives ctx stream event :
  gives (release_event request ctx stream event) (λ _, event_released stream event).
Proof.
  unfold release_event. apply gives_lift. intros manifest Hm.
  eapply gives_bind; [apply egress_verdict_gives|]. intros v0.
  set (X := egress_answered (egress_policy_request request manifest (strm_zone stream) (Eng_SourceZone request) "model_result") v0).
  assert (stable X) as HX by apply egress_answered_stable.
  destruct (PolicyVerdict_Allows v0) eqn:Ea.
  { intros s [Hx Hp]. exists manifest, v0, v0. split_and!; try done. apply settled_self; [done | by apply allows_no_approval]. }
  eapply triple_bind.
  { eapply triple_conseq; [apply (triple_with (λ s, X (engine_history s))); [|apply resolve_gives] | done | | done].
    - by apply resolveApproval_quiet, stable_quiet.
    - intros v s Hs. exact Hs. }
  intros v. destruct (PolicyVerdict_Allows v) eqn:Ev; [|by intros s _].
  intros s [Hx Hs]. by exists manifest, v0, v.
Qed.

End safety.

(* ------------------------------------------------------------------ *)
(** ** Properties *)

Lemma run_tools_permitted `{Hcarriers : EngineCarriers, Henv : !EngineEnv, Hencoder : !PayloadEncoder, Hquoting : Quoting,
    Hlibrary : SchemaLibrary, Hdecoder : PayloadDecoder} e raw resume :
  tools_permitted (normalise raw) (engine_history (snd (Engine_run e raw resume initial_state))).
Proof.
  destruct (Engine_run e raw resume initial_state) as [r s] eqn:E.
  refine (invariant_run _ _ _ _ _ (Engine_run_kept raw _ (run_invariant0 := tools_permitted_run _) e resume) _ E).
  intros h handler' call' Hm. by destruct (made_nil h (EExecute handler' call')).
Qed.

(** C1. In every run, fresh or resumed, whatever the turn loop asks for, a tool
    executes a call only when it is bound in the request, is established in a
    sandbox of its own answer if it has side effects, and a recorded verdict of
    the execution policy on exactly this call and capability allows it or was
    approved by a recorded decision of a named approver. *)
Theorem tools_authorized `{Hcarriers : EngineCarriers, Henv : !EngineEnv, Hencoder : !PayloadEncoder, Hquoting : Quoting,
    Hlibrary : SchemaLibrary, Hdecoder : PayloadDecoder} e raw resume h0 handler call :
  made h0 (EExecute handler call) (engine_history (snd (Engine_run e raw resume initial_state))) →
  tool_permission (normalise raw) handler call h0.
Proof. apply run_tools_permitted. Qed.

(** C2. In every run, fresh or resumed, whatever the turn loop asks for, a provider
    is streamed from only when a durable routing decision selected a candidate
    of its own that passes every gate for this manifest, the verdicts of the
    candidate are what became of recorded answers of the policies on exactly
    this placement, and a spend reservation for it is durable. *)
Theorem models_authorized `{Hcarriers : EngineCarriers, Henv : !EngineEnv, Hencoder : !PayloadEncoder, Hquoting : Quoting,
    Hlibrary : SchemaLibrary, Hdecoder : PayloadDecoder} e raw resume h0 p r :
  made h0 (EStream p r) (engine_history (snd (Engine_run e raw resume initial_state))) →
  ∃ prov, prov_provider prov = p ∧ provider_permission (normalise raw) prov h0.
Proof.
  destruct (Engine_run e raw resume initial_state) as [r' s] eqn:E.
  refine (mp_streams _ _ (invariant_run _ _ _ _ _ (Engine_run_kept raw _ (run_invariant0 := models_permitted_run _) e resume) _ E) h0 p r).
  split; [constructor|]. intros h p' r'' Hm. by destruct (made_nil h (EStream p' r'')).
Qed.

(** C27. An event that a stream hands on fits in what is left of the bound of the
    stream, and when its content comes from another zone a recorded verdict of
    the egress policy on exactly this event lets it in, or an approval does. *)
Theorem Recv_releases `{Hcarriers : EngineCarriers, Henv : !EngineEnv, Hencoder : !PayloadEncoder, Hquoting : Quoting}
    request ctx index s event s' :
  engineModelStream_Recv request ctx index s = (Done event, s') →
  ∃ stream, es_streams s !! index = Some stream ∧
    (∀ u, ModelEvent_Usage event = Some u →
       Usage_Validate u = Ok tt ∧ exceeded_dimension (usage_spend u) (strm_bound stream) (strm_used stream) = "") ∧
    (quarantined event = true → strm_zone stream ≠ Eng_SourceZone request →
       event_released request stream event (engine_history s')).
Proof.
  unfold engineModelStream_Recv. rewrite bind_Done. intros (s0 & s1 & [= <- <-] & H).
  rewrite bind_Done in H. destruct H as (stream & s2 & Hd & H).
  destruct (es_streams s !! index) as [x|] eqn:Ex; [|done]. injection Hd as <- <-. exists x. split; [done|].
  rewrite bind_Done in H. destruct H as (answer & s3 & Ha & H).
  rewrite bind_Done in H. destruct H as (event' & s4 & [-> ->]%lift_Done & H).
  rewrite bind_Done in H. destruct H as (u & s5 & Hu & H).
  rewrite bind_Done in H. destruct H as (u' & s6 & Hr & [= <- <-]).
  assert (es_streams s3 = es_streams s) as Hs3.
  { unfold ecall, perform in Ha. destruct (external_recv _ _); [|done]. by injection Ha as _ <-. }
  split.
  - intros usage He. unfold account_usage in Hu. rewrite He in Hu.
    rewrite bind_Done in Hu. destruct Hu as ([] & s7 & [Hv ->]%lift_Done & Hu). split; [done|].
    rewrite bind_Done in Hu. destruct Hu as (s8 & s9 & [= <- <-] & Hu).
    rewrite bind_Done in Hu. destruct Hu as (stream & s10 & Hd & Hu). rewrite Hs3, Ex in Hd. injection Hd as <- <-.
    cbn zeta in Hu. destruct (String.eqb_spec (exceeded_dimension (usage_spend usage) (strm_bound x) (strm_used x)) "") as [|Hne];
      [done|]. cbn [negb] in Hu. unfold engineRun_budgetFailure in Hu. rewrite !bind_Done in Hu.
    destruct Hu as (? & ? & _ & Hu). rewrite bind_Done in Hu. by destruct Hu as (? & ? & _ & Hu).
  - intros Hq Hz. rewrite Hq in Hr. rewrite (proj2 (String.eqb_neq _ _) Hz) in Hr. cbn [orb negb] in Hr.
    pose proof (release_event_gives request ctx x event' s5 I) as Hg. by rewrite Hr in Hg.
Qed.
