(* ===== verification/EngineBudget.v ===== *)
(** * Reservations in a run of the execution engine

    What is reserved is exactly what the providers handed out may spend,
    never more than the budget of the workload, and no stream delivers usage
    beyond the bound of its provider. *)

From Stdlib Require Import ZArith Lia.
From S2P Require Import Prelude Effects GoNum GoText GoJson GoHash Ident Domain Event Store Model Stream Policy Routing.
From S2P Require Import Telemetry LoopTypes Loop Execution Projection Engine EngineTurn EngineRun EngineInvariant.

(* ------------------------------------------------------------------ *)
(** ** Bounds *)

(** [b] is not negative and at most [limit], in each dimension. *)
Record spend_within (b limit : SpendBound) : Prop := {
  sw_input : 0 <= Spend_InputTokens b <= Spend_InputTokens limit;
  sw_output : 0 <= Spend_OutputTokens b <= Spend_OutputTokens limit;
  sw_cost : 0 <= Spend_Cost b <= Spend_Cost limit;
}.

Definition spend_sized (b : SpendBound) : Prop :=
  is_int64 (Spend_InputTokens b) ∧ is_int64 (Spend_OutputTokens b) ∧ is_int64 (Spend_Cost b).

(** The sum without overflow. *)
Definition spend_plus (x y : SpendBound) : SpendBound :=
  {| Spend_InputTokens := Spend_InputTokens x + Spend_InputTokens y;
     Spend_OutputTokens := Spend_OutputTokens x + Spend_OutputTokens y;
     Spend_Cost := Spend_Cost x + Spend_Cost y |}.

Definition spend_total (l : list SpendBound) : SpendBound := foldr spend_plus zero_SpendBound l.

Lemma spend_plus_assoc x y z : spend_plus x (spend_plus y z) = spend_plus (spend_plus x y) z.
Proof. unfold spend_plus. cbn. f_equal; lia. Qed.

Lemma spend_plus_zero x : spend_plus x zero_SpendBound = x.
Proof. destruct x. unfold spend_plus. cbn. f_equal; lia. Qed.

Lemma spend_plus_comm x y : spend_plus x y = spend_plus y x.
Proof. unfold spend_plus. f_equal; lia. Qed.

Lemma spend_total_app l k : spend_total (l ++ k) = spend_plus (spend_total l) (spend_total k).
Proof.
  unfold spend_total. induction l as [|x l IH]; cbn; [by rewrite spend_plus_comm, spend_plus_zero|].
  by rewrite IH, spend_plus_assoc.
Qed.

Lemma SpendBound_Validate_Ok b u :
  SpendBound_Validate b = Ok u ↔ 0 <= Spend_InputTokens b ∧ 0 <= Spend_OutputTokens b ∧ 0 <= Spend_Cost b.
Proof. unfold SpendBound_Validate. rewrite require_Ok. simpl_bool. tauto. Qed.

(** A bound in which no dimension exceeds what is left is added exactly. *)
Lemma spend_fits b limit used :
  spend_sized limit → spend_within used limit →
  0 <= Spend_InputTokens b → 0 <= Spend_OutputTokens b → 0 <= Spend_Cost b →
  exceeded_dimension b limit used = "" →
  spend_sum used b = spend_plus used b ∧ spend_within (spend_sum used b) limit ∧ spend_within b limit.
Proof.
  intros (S1 & S2 & S3) [U1 U2 U3] B1 B2 B3. unfold exceeded_dimension. unfold_int64.
  exact64.
  destruct (Z.ltb_spec (Spend_InputTokens limit - Spend_InputTokens used) (Spend_InputTokens b)); [done|].
  destruct (Z.ltb_spec (Spend_OutputTokens limit - Spend_OutputTokens used) (Spend_OutputTokens b)); [done|].
  destruct (Z.ltb_spec (Spend_Cost limit - Spend_Cost used) (Spend_Cost b)); [done|]. intros _.
  assert (spend_sum used b = spend_plus used b) as Hs.
  { unfold spend_sum, spend_plus. by exact64. }
  split; [exact Hs|]. rewrite Hs. split; split; cbn; lia.
Qed.

Section budget.
Context `{Hcarriers : EngineCarriers, Henv : !EngineEnv, Hencoder : !PayloadEncoder, Hquoting : Quoting}.
Context `{Hlibrary : SchemaLibrary, Hdecoder : PayloadDecoder}.
Abbreviation EE := (EM EngineState) (only parsing).
Context (request : EngineRequest).

Abbreviation limit := (budget_spend request).

(** What the providers handed out may spend. *)
Definition handed_out (ps : list engineProvider) : SpendBound := spend_total (prov_bound <$> ps).

Definition stream_within (x : engineModelStream) : Prop :=
  spend_within (strm_used x) (strm_bound x) ∧ spend_within (strm_bound x) limit.

(** The reservations of a run that started with [r0] reserved and no provider. *)
Record spend_ok (r0 : SpendBound) (s : EngineState) : Prop := {
  so_reserved : spend_within (es_reserved s) limit;
  so_exact : es_reserved s = spend_plus r0 (handed_out (es_providers s));
  so_providers : Forall (λ p, spend_within (prov_bound p) limit) (es_providers s);
  so_streams : Forall stream_within (es_streams s);
}.

Context (sized : spend_sized limit) (r0 : SpendBound).

Lemma spend_ok_books s s' : same_effects s s' → spend_ok r0 s → spend_ok r0 s'.
Proof. intros [_ Hr Hp Hs _] [H1 H2 H3 H4]. split; rewrite ?Hr, ?Hp, ?Hs; done. Qed.

Lemma spend_ok_call k s : spend_ok r0 s → spend_ok r0 (note_call k s).
Proof. intros [H1 H2 H3 H4]. by split. Qed.

#[local] Instance spend_ok_quiet : quiet_invariant request (spend_ok r0).
Proof. apply quiet_effects; [apply spend_ok_books | intros s k _; apply spend_ok_call]. Qed.

(** A successful reservation: the bound is added, and within the budget. *)
Lemma reserve_spend ctx turn r descriptor :
  triple (spend_ok r0) (engineRun_reserve request ctx turn r descriptor)
    (λ b s, spend_within b limit ∧ ∃ s0, spend_ok r0 s0 ∧ s = {| s0 with es_reserved := spend_plus (es_reserved s0) b |} ∧
            spend_within (es_reserved s) limit) (spend_ok r0).
Proof.
  unfold engineRun_reserve. destruct spend_estimator as [estimate|]; [|apply triple_fail].
  eapply triple_bind; [apply (plain_call request); [apply _ | done]|]. intros answer.
  apply triple_lift_bind; [done|]. intros b _. apply triple_lift_bind; [done|]. intros u (V1 & V2 & V3)%SpendBound_Validate_Ok.
  apply (triple_bind _ _ (λ s0 s, s0 = s ∧ spend_ok r0 s)); [by intros s Hs|]. intros s0. cbn zeta.
  destruct (String.eqb_spec (exceeded_dimension b limit (es_reserved s0)) "") as [Hx|Hx]; cbn [negb].
  2: { eapply triple_pre; [apply budgetFailure_triple; apply _ | by intros s [_ Hs]]. }
  destruct (_ <? _); [by intros s [_ Hs]|].
  apply (triple_bind _ _ (λ _ s, spend_ok r0 s ∧ es_reserved s = es_reserved s0)).
  { eapply triple_pre with (P' := λ s, spend_ok r0 s ∧ es_reserved s = es_reserved s0); [|by intros s [-> Hs]].
    apply kept_with, (record_quiet request). apply quiet_and; [apply _|].
    apply quiet_effects; [by intros s s' [_ -> _ _ _] | done]. }
  intros u'. eapply triple_bind with (Q := λ _ s, ∃ s1, spend_ok r0 s1 ∧ spend_within b limit ∧
    s = {| s1 with es_reserved := spend_plus (es_reserved s1) b |} ∧ spend_within (es_reserved s) limit).
  - apply triple_modify. intros s [Hs He]. rewrite <-He in Hx.
    destruct (spend_fits b limit (es_reserved s) sized (so_reserved _ _ Hs) V1 V2 V3 Hx) as (Hsum & Hw & Hb).
    exists s. rewrite <-Hsum. done.
  - intros v s (s1 & H1 & H2 & H3 & H4). split; [done|]. by exists s1.
Qed.

Lemma take_candidate_spend ctx turn manifest r c : invariant (spend_ok r0) (take_candidate request ctx turn manifest r c).
Proof.
  unfold take_candidate. destruct (engine_providers _) as [provider|]; [|apply invariant_fail]. cbn zeta.
  apply invariant_bind; [apply invariant_get|]. intros s0.
  apply invariant_bind.
  { destruct (_ && _); [|apply invariant_ret].
    apply invariant_bind; [apply approve_quiet; apply _ | intros u; apply (books request); [apply _ | by repeat split]]. }
  intros u. eapply triple_bind; [apply reserve_spend|]. intros b.
  apply (triple_bind _ _ (λ _ s, spend_within b limit ∧ ∃ s0, spend_ok r0 s0 ∧
    s = {| s0 with es_reserved := spend_plus (es_reserved s0) b |} ∧ spend_within (es_reserved s) limit)); [by intros s Hs|].
  intros s1. eapply triple_bind; [apply triple_modify with (Q := λ _, spend_ok r0) | intros ?; apply invariant_ret].
  intros s (Hb & s2 & [H1 H2 H3 H4] & -> & Hw). split; cbn; [exact Hw | | | exact H4].
  - rewrite H2. unfold handed_out. rewrite fmap_app, spend_total_app, <-spend_plus_assoc. f_equal. f_equal.
    cbn. by rewrite spend_plus_zero.
  - apply Forall_app. split; [exact H3 | by apply Forall_singleton].
Qed.

Lemma selectPlacement_spend ctx turn initial tools :
  invariant (spend_ok r0) (engineRun_selectPlacement request ctx turn initial tools).
Proof. apply selectPlacement_take; [apply _|]. intros. apply take_candidate_spend. Qed.

Lemma spend_ok_streams s l : Forall stream_within l → spend_ok r0 s → spend_ok r0 {| s with es_streams := l |}.
Proof. intros Hl [H1 H2 H3 H4]. by split. Qed.

Lemma provider_Stream_spend index r : invariant (spend_ok r0) (engineProvider_Stream request index r).
Proof.
  unfold engineProvider_Stream. apply (triple_bind _ _ (λ s0 s, s0 = s ∧ spend_ok r0 s)); [by intros s Hs|]. intros s0.
  apply (triple_bind _ _ (λ p s, spend_within (prov_bound p) limit ∧ spend_ok r0 s)).
  { intros s [<- Hs]. destruct (es_providers s0 !! index) as [p|] eqn:Ep; [|done]. split; [|done].
    by apply (Forall_lookup_1 _ _ _ _ (so_providers _ _ Hs) Ep). }
  intros p. apply triple_pure. intros Hp.
  apply invariant_bind; [apply observe_quiet; apply _|]. intros u.
  apply invariant_bind; [apply invariant_ecall; intros s; apply spend_ok_call|]. intros [[stream|]|e].
  - apply invariant_bind; [apply invariant_get|]. intros s1. apply invariant_bind; [|intros ?; apply invariant_ret].
    apply invariant_modify. intros s Hs. apply spend_ok_streams; [|exact Hs].
    apply Forall_app. split; [apply Hs|]. apply Forall_singleton. split; [|exact Hp].
    destruct Hp as [P1 P2 P3]. by split; cbn; lia.
  - apply invariant_fail.
  - apply invariant_bind; [apply observe_quiet; apply _ | intros ?; apply invariant_fail].
Qed.

Lemma usage_nonnegative u v :
  Usage_Validate u = Ok v → 0 <= Usage_InputTokens u ∧ 0 <= Usage_OutputTokens u ∧ 0 <= Usage_Cost u.
Proof. unfold Usage_Validate. rewrite require_Ok. simpl_bool. tauto. Qed.

Lemma account_usage_spend ctx index event : invariant (spend_ok r0) (account_usage request ctx index event).
Proof.
  unfold account_usage. destruct (ModelEvent_Usage event) as [u|]; [|apply invariant_ret].
  apply invariant_lift_bind. intros v (U1 & U2 & U3)%usage_nonnegative.
  apply (triple_bind _ _ (λ s0 s, s0 = s ∧ spend_ok r0 s)); [by intros s Hs|]. intros s0.
  apply (triple_bind _ _ (λ x s, stream_within x ∧ spend_ok r0 s)).
  { intros s [<- Hs]. destruct (es_streams s0 !! index) as [x|] eqn:Ex; [|done]. split; [|done].
    by apply (Forall_lookup_1 _ _ _ _ (so_streams _ _ Hs) Ex). }
  intros x. apply triple_pure. intros [Hu Hb]. cbn zeta.
  destruct (String.eqb_spec (exceeded_dimension (usage_spend u) (strm_bound x) (strm_used x)) "") as [Hx|Hx]; cbn [negb].
  2: { apply budgetFailure_triple. apply _. }
  apply invariant_modify. intros s Hs. apply spend_ok_streams; [|exact Hs].
  apply Forall_insert; [apply Hs|]. split; [|exact Hb].
  apply (spend_fits (usage_spend u) (strm_bound x) (strm_used x)); try done.
  destruct Hb as [B1 B2 B3], sized as (S1 & S2 & S3). unfold spend_sized. unfold_int64. lia.
Qed.

Lemma Recv_spend ctx index : invariant (spend_ok r0) (engineModelStream_Recv request ctx index).
Proof. apply Recv_account; [apply _|]. intros event. apply account_usage_spend. Qed.

#[export] Instance spend_ok_loop : loop_invariant request (spend_ok r0).
Proof.
  split; intros.
  - apply _.
  - apply selectPlacement_spend.
  - apply provider_Stream_spend.
  - apply Recv_spend.
  - apply Execute_kept; [apply _|]. intros s handler. apply spend_ok_call.
  - apply Close_kept; [apply _ | intros s handler; apply spend_ok_call | by intros s err [? ? ? ?]].
Qed.

End budget.

(* ------------------------------------------------------------------ *)
(** ** Properties *)

(** C4. In a fresh run whose budget is valid, what is reserved is exactly the sum of
    the bounds of the providers handed out, in exact arithmetic, and within the
    budget in tokens and cost; no stream delivers usage beyond the bound of its
    provider.  From any state within the budget, such as that of a resumed run,
    no sequence of calls of a turn loop leaves it. *)
Theorem reservations_within_budget `{Hcarriers : EngineCarriers, Henv : !EngineEnv, Hencoder : !PayloadEncoder,
    Hquoting : Quoting, Hlibrary : SchemaLibrary, Hdecoder : PayloadDecoder} e raw :
  let limit := budget_spend (normalise raw) in
  spend_sized limit → Budget_Validate (Eng_Budget raw) = Ok tt →
  (let s := snd (Engine_Run e raw initial_state) in
   spend_within (es_reserved s) limit ∧ es_reserved s = handed_out (es_providers s) ∧
   Forall (stream_within (normalise raw)) (es_streams s)) ∧
  ∀ r0 s h, spend_ok (normalise raw) r0 s → spend_ok (normalise raw) r0 (engine_after (normalise raw) s h).
Proof.
  intros limit Hsz Hb. apply Budget_Validate_Ok in Hb as (_ & B1 & B2 & _ & _ & _ & B3 & _).
  split.
  - destruct (Engine_Run e raw initial_state) as [r s] eqn:E.
    pose proof (spend_ok_loop (normalise raw) Hsz zero_SpendBound) as HI.
    assert (spend_ok (normalise raw) zero_SpendBound s) as [H1 H2 _ H4].
    { refine (invariant_run _ _ _ _ _ (Engine_Run_kept raw _ e) _ E). split; cbn; try done. }
    split_and!; [exact H1 | | exact H4]. cbn [snd]. by rewrite H2, spend_plus_comm, spend_plus_zero.
  - intros r0 s h Hs. apply engine_after_kept; [by apply spend_ok_loop | exact Hs].
Qed.
