(* ===== verification/EngineChain.v ===== *)
(** * The appends of a run of the execution engine

    Every append of a run names the version and the cause that the one before
    it left, and after an append whose outcome is unknown there is no other. *)

From Stdlib Require Import ZArith Lia.
From S2P Require Import Prelude Effects GoNum GoText GoJson GoHash Ident Domain Event Store Model Stream Policy Routing.
From S2P Require Import Telemetry LoopTypes Loop Execution Projection Engine EngineTurn EngineRun EngineInvariant EngineLedger.

Section chain.
Context `{Hcarriers : EngineCarriers, Henv : !EngineEnv, Hencoder : !PayloadEncoder, Hquoting : Quoting}.
Context `{Hlibrary : SchemaLibrary, Hdecoder : PayloadDecoder}.
Context (request : EngineRequest).

(** The version of the stream and its last event, as the answers to the appends
    of a history tell. *)
Definition head_step (h : list ECall) (k : ECall) (x : Z * ID) : Z * ID :=
  match k with
  | EAppend _ aggregate expected drafts =>
      match store_append h aggregate expected drafts with
      | Ok events =>
          if Z.of_nat (length events) =? Z.of_nat (length drafts)
          then match last events with Some e => (Event_Sequence e, Event_ID e) | None => x end
          else x
      | Err _ => x
      end
  | _ => x
  end.

Fixpoint head_from (h l : list ECall) (x : Z * ID) : Z * ID :=
  match l with
  | [] => x
  | k :: l' => head_from (h ++ [k]) l' (head_step h k x)
  end.

Definition head (h : list ECall) : Z * ID := head_from [] h (0, "").

Lemma head_from_snoc h l k x : head_from h (l ++ [k]) x = head_step (h ++ l) k (head_from h l x).
Proof.
  revert h x. induction l as [|k' l IH]; intros h x; cbn; [by rewrite app_nil_r|]. by rewrite IH, <-app_assoc.
Qed.

Lemma head_snoc h k : head (h ++ [k]) = head_step h k (head h).
Proof. unfold head. by rewrite head_from_snoc. Qed.

Definition appends (k : ECall) : bool := match k with EAppend _ _ _ _ => true | _ => false end.

(** An append whose outcome is unknown: it failed while its context was live, or
    the store returned too few events. *)
Definition broken (h : list ECall) (k : ECall) : Prop :=
  match k with
  | EAppend ctx aggregate expected drafts =>
      match store_append h aggregate expected drafts with
      | Ok events => length events ≠ length drafts
      | Err _ => context_view (h ++ [k]) ctx 0 = None
      end
  | _ => False
  end.

(** What an append asks for, after the calls [h]. *)
Definition chained (h : list ECall) (k : ECall) : Prop :=
  match k with
  | EAppend _ aggregate expected drafts =>
      aggregate = engine_aggregate request ∧ expected = fst (head h) ∧
      Forall (λ d, Draft_CausationID d = snd (head h) ∧ Draft_CorrelationID d = Eng_WorkloadID request ∧
                   Draft_AttemptID d = Eng_AttemptID request) drafts
  | _ => True
  end.

Record chain_ok (s : EngineState) : Prop := {
  ch_head : head (engine_history s) = (es_sequence s, es_cause s);
  ch_made : ∀ h0 k, made h0 k (engine_history s) → chained h0 k;
  ch_latch : ∀ h0 k, made h0 k (engine_history s) → broken h0 k → es_storeErr s ≠ None;
  ch_last : ∀ h0 k h1 k1, made h0 k (engine_history s) → broken h0 k → made h1 k1 (engine_history s) →
    (h0 ++ [k]) `prefix_of` h1 → appends k1 = false;
}.

Lemma make_draft_chained cause entry d :
  make_draft request cause entry = Ok d →
  Draft_CausationID d = cause ∧ Draft_CorrelationID d = Eng_WorkloadID request ∧ Draft_AttemptID d = Eng_AttemptID request.
Proof. unfold make_draft. rewrite bind_Ok. by intros (d0 & _ & [= <-]). Qed.

Lemma make_drafts_chained cause entries ds :
  make_drafts request cause entries = Ok ds →
  Forall (λ d, Draft_CausationID d = cause ∧ Draft_CorrelationID d = Eng_WorkloadID request ∧
               Draft_AttemptID d = Eng_AttemptID request) ds.
Proof.
  revert ds. induction entries as [|e entries IH]; intros ds; cbn [make_drafts]; [intros [= <-]; constructor|].
  rewrite bind_Ok. intros (d & Hd & H). rewrite bind_Ok in H. destruct H as (rest & Hr & [= <-]).
  constructor; [by eapply make_draft_chained | by apply IH].
Qed.

(** Changes that do not touch the stream. *)
Lemma chain_ok_books s s' :
  engine_history s' = engine_history s → es_sequence s' = es_sequence s → es_cause s' = es_cause s →
  (es_storeErr s ≠ None → es_storeErr s' ≠ None) → chain_ok s → chain_ok s'.
Proof.
  intros Hh Hq Hc He [H1 H2 H3 H4]. split; rewrite ?Hh, ?Hq, ?Hc; try done. intros h0 k Hm Hb. by apply He, (H3 h0 k).
Qed.

Lemma chain_ok_call s k : appends k = false → chain_ok s → chain_ok (note_call k s).
Proof.
  intros Hk [H1 H2 H3 H4]. split; cbn [note_call engine_history es_sequence es_cause es_storeErr].
  - rewrite head_snoc. by destruct k.
  - intros h0 k0 [Hm|[-> ->]]%made_snoc; [by apply H2 | by destruct k].
  - intros h0 k0 [Hm|[-> ->]]%made_snoc Hb; [by apply (H3 h0 k0) | by destruct k].
  - intros h0 k0 h1 k1 [Hm|[-> ->]]%made_snoc Hb Hm1 Hp; [|by destruct k].
    apply made_snoc in Hm1 as [Hm1|[-> ->]]; [by apply (H4 h0 k0 h1 k1) | done].
Qed.

(** One append that is chained, with what the engine keeps of the answer. *)
Lemma chain_ok_append s ctx entries ds s' :
  let k := EAppend ctx (engine_aggregate request) (es_sequence s) ds in
  chain_ok s → es_storeErr s = None → make_drafts request (es_cause s) entries = Ok ds →
  engine_history s' = engine_history s ++ [k] →
  head_step (engine_history s) k (es_sequence s, es_cause s) = (es_sequence s', es_cause s') →
  (broken (engine_history s) k → es_storeErr s' ≠ None) → chain_ok s'.
Proof.
  intros k [H1 H2 H3 H4] Hs Hd Hh' Hh He. split; rewrite Hh'.
  - by rewrite head_snoc, H1.
  - intros h0 k0 [Hm|[-> ->]]%made_snoc; [by apply H2|]. cbn [chained k]. rewrite H1. split_and!; try done.
    by eapply make_drafts_chained.
  - intros h0 k0 [Hm|[-> ->]]%made_snoc Hb; [by destruct (H3 h0 k0 Hm Hb) | by apply He].
  - intros h0 k0 h1 k1 [Hm|[-> ->]]%made_snoc Hb Hm1 Hp; [by destruct (H3 h0 k0 Hm Hb)|].
    apply prefix_length in Hp. rewrite length_app in Hp. cbn in Hp.
    apply made_snoc in Hm1 as [Hm1%prefix_length|[-> ->]]; [|lia]. rewrite length_app in Hm1. lia.
Qed.

Lemma chain_ok_quiet_append ctx entries : invariant chain_ok (engineRun_append request ctx entries).
Proof.
  intros s Hs. unfold engineRun_append. unfold mbind at 1, lm_bind, lm_get.
  destruct (es_storeErr s) as [e|] eqn:Ee; [done|].
  destruct (make_drafts request (es_cause s) entries) as [ds|e] eqn:Ed.
  2: { by apply (chain_ok_books s). }
  set (k := EAppend ctx (engine_aggregate request) (es_sequence s) ds).
  pose proof (λ s', chain_ok_append s ctx entries ds s' Hs Ee Ed) as Ha.
  fold k in Ha. cbn [head_step k broken] in Ha.
  unfold mbind, lm_bind, ecall, perform. destruct (store_append _ _ _ ds) as [events|e] eqn:Eappend.
  - destruct (Z.eqb_spec (Z.of_nat (length events)) (Z.of_nat (length ds))) as [Hl|Hl]; cbn [negb].
    + destruct (last events) as [e|] eqn:El; apply Ha; try done; lia.
    + by apply Ha.
  - unfold ctx_Err, ecall, perform. cbn [engine_history note_call].
    destruct (context_view (engine_history s ++ [k]) ctx 0) as [c|] eqn:Ec; cbn [is_some].
    + apply (chain_ok_call (note_call k s)); [done|]. apply Ha; try done.
    + apply (chain_ok_books (note_call (EContext ctx) (let s' := note_call k s in {| s' with es_storeErr := Some e |}))); try done.
      apply chain_ok_call; [done|]. by apply Ha.
Qed.

#[export] Instance chain_ok_quiet : quiet_invariant request chain_ok.
Proof.
  split.
  - intros s s' [[Hh _ _ _ _] Hq Hc He]. apply chain_ok_books; by rewrite ?He.
  - intros s k Hk. apply chain_ok_call. by destruct k.
  - apply chain_ok_quiet_append.
Qed.

#[export] Instance chain_ok_loop : loop_invariant request chain_ok.
Proof.
  assert (∀ s s', engine_history s' = engine_history s → es_sequence s' = es_sequence s → es_cause s' = es_cause s →
    es_storeErr s' = es_storeErr s → chain_ok s → chain_ok s') as Hb.
  { intros s s' H1 H2 H3 H4. apply chain_ok_books; by rewrite ?H4. }
  split; intros.
  - apply _.
  - apply selectPlacement_kept; [apply _ | |]; intros s x; by apply Hb.
  - apply provider_Stream_kept; [apply _ | |]; intros s x; [by apply chain_ok_call | by apply Hb].
  - apply Recv_kept; [apply _|]. intros s x. by apply Hb.
  - apply Execute_kept; [apply _|]. intros s x. by apply chain_ok_call.
  - apply Close_kept; [apply _ | |]; intros s x; [by apply chain_ok_call | by apply Hb].
Qed.

Lemma initial_chain : chain_ok initial_state.
Proof. split; [done | | | intros h0 k h1 k1 Hm]; try (intros h0 k Hm); by destruct (made_nil h0 k Hm). Qed.

End chain.

(* ------------------------------------------------------------------ *)
(** ** Properties *)

(** C12. The appends of a fresh run form one chain: each goes to the stream of the
    workload with the version and the cause that the complete appends before it
    left, under the identifiers of the run.  After an append whose outcome is
    unknown, because it failed in a live context or returned too few events,
    there is no other. *)
Theorem appends_chained `{Hcarriers : EngineCarriers, Henv : !EngineEnv, Hencoder : !PayloadEncoder, Hquoting : Quoting,
    Hlibrary : SchemaLibrary, Hdecoder : PayloadDecoder} e raw h0 k :
  let h := engine_history (snd (Engine_Run e raw initial_state)) in
  made h0 k h →
  chained (normalise raw) h0 k ∧
  (broken h0 k → ∀ h1 k1, made h1 k1 h → (h0 ++ [k]) `prefix_of` h1 → appends k1 = false).
Proof.
  destruct (Engine_Run e raw initial_state) as [r s] eqn:E. intros h Hm.
  destruct (invariant_run _ _ _ _ _ (Engine_Run_kept raw _ (loop_invariant0 := chain_ok_loop (normalise raw)) e)
    (initial_chain (normalise raw)) E) as [_ H2 _ H4].
  split; [by apply H2|]. intros Hb h1 k1 Hm1 Hp. by apply (H4 h0 k h1 k1).
Qed.
