(* ===== verification/EngineClose.v ===== *)
(** * Cleaning up after a run of the execution engine

    However the turn loop ends and whatever it closed itself, after the cleanup
    of the engine every tool of the request has been closed exactly once. *)

From Stdlib Require Import ZArith Lia Permutation.
From S2P Require Import Prelude Effects GoNum GoText GoJson GoHash Ident Domain Event Store Model Stream Policy Routing.
From S2P Require Import Telemetry LoopTypes Loop Execution Projection Engine EngineTurn EngineRun EngineInvariant.

Section close.
Context `{Hcarriers : EngineCarriers, Henv : !EngineEnv, Hencoder : !PayloadEncoder, Hquoting : Quoting}.
Context `{Hlibrary : SchemaLibrary, Hdecoder : PayloadDecoder}.
Abbreviation EE := (EM EngineState) (only parsing).
Context (request : EngineRequest).

(** The handlers closed by a history. *)
Definition closed_handlers (h : list ECall) : list ExternalHandler :=
  omap (λ k, match k with ECloseHandler handler => Some handler | _ => None end) h.

Definition tool_at (i : nat) : option ExternalHandler := Eng_Tools request !! i ≫= Binding_Handler.

Definition tool_count : nat := length (Eng_Tools request).

(** The tools closed so far are those whose [closeOnce] has run. *)
Record closed_ok (s : EngineState) : Prop := {
  co_handlers : closed_handlers (engine_history s) ≡ₚ omap tool_at (elements (dom (es_closed s)));
  co_range : ∀ i, i ∈ dom (es_closed s) → (i < tool_count)%nat;
}.

Lemma closed_handlers_app h l : closed_handlers (h ++ l) = closed_handlers h ++ closed_handlers l.
Proof. apply omap_app. Qed.

Lemma closed_ok_same s s' :
  closed_handlers (engine_history s') = closed_handlers (engine_history s) → es_closed s' = es_closed s → closed_ok s → closed_ok s'.
Proof. intros Hh Hc [H1 H2]. split; by rewrite ?Hh, Hc. Qed.

Lemma closed_ok_call s k :
  (match k with ECloseHandler _ => False | _ => True end) → closed_ok s → closed_ok (note_call k s).
Proof.
  intros Hk. apply closed_ok_same; [|done]. cbn. rewrite closed_handlers_app. destruct k; by rewrite ?app_nil_r.
Qed.

#[local] Instance closed_ok_quiet : quiet_invariant request closed_ok.
Proof.
  apply quiet_effects.
  - intros s s' [Hh _ _ _ Hc]. apply closed_ok_same; by rewrite ?Hh.
  - intros s k Hk. apply closed_ok_call. by destruct k.
Qed.

(** Nothing is closed while nothing of this changes. *)
#[local] Instance same_closed_quiet l c :
  quiet_invariant request (λ s, closed_handlers (engine_history s) = l ∧ es_closed s = c).
Proof.
  apply quiet_effects.
  - by intros s s' [-> _ _ _ ->].
  - intros s k Hk [H1 H2]. split; [|done]. cbn. rewrite closed_handlers_app, H1. destruct k; by rewrite ?app_nil_r.
Qed.

(* ------------------------------------------------------------------ *)
(** ** Operations that always return *)

(** It ends with a value or an error, and never panics. *)
Definition returns {A} (m : EE A) : Prop := ∀ s, match fst (m s) with Done _ | Failed _ => True | _ => False end.
(** It always ends with a value. *)
Definition succeeds {A} (m : EE A) : Prop := ∀ s, ∃ a s', m s = (Done a, s').

Lemma returns_bind {A B} (m : EE A) (f : A → EE B) : returns m → (∀ a, returns (f a)) → returns (m ≫= f).
Proof.
  intros Hm Hf s. specialize (Hm s). unfold mbind, lm_bind. destruct (m s) as [[a|e|v|] s']; try done. apply Hf.
Qed.

Lemma succeeds_returns {A} (m : EE A) : succeeds m → returns m.
Proof. intros Hm s. destruct (Hm s) as (a & s' & ->). done. Qed.

Lemma returns_attempt {A} (m : EE A) : returns m → succeeds (attempt m).
Proof. intros Hm s. specialize (Hm s). unfold attempt. destruct (m s) as [[a|e|v|] s']; try done; by eexists _, _. Qed.

Lemma succeeds_bind {A B} (m : EE A) (f : A → EE B) : succeeds m → (∀ a, succeeds (f a)) → succeeds (m ≫= f).
Proof. intros Hm Hf s. destruct (Hm s) as (a & s' & E). unfold mbind, lm_bind. rewrite E. apply Hf. Qed.

Lemma succeeds_ret {A} (a : A) : succeeds (mret a).
Proof. intros s. by eexists _, _. Qed.

Lemma succeeds_modify f : succeeds (lm_modify f).
Proof. intros s. by eexists _, _. Qed.

Lemma succeeds_get : succeeds lm_get.
Proof. intros s. by eexists _, _. Qed.

Lemma append_returns ctx entries : returns (engineRun_append request ctx entries).
Proof.
  intros s. unfold engineRun_append, store_fail, ctx_Err, ecall, perform, mbind, lm_bind, lm_get. repeat (case_match; simplify_eq/=); done.
Qed.

Lemma record_returns ctx r : returns (engineRun_record request ctx r).
Proof. apply append_returns. Qed.

Lemma observe_succeeds kind outcome : succeeds (engineRun_observe request kind outcome).
Proof.
  unfold engineRun_observe. destruct (negb observer_set); [apply succeeds_ret|].
  apply succeeds_bind; [apply succeeds_modify|]. intros u. apply succeeds_bind; [apply succeeds_get|]. intros s.
  destruct (NewRecord _); [|apply succeeds_ret]. intros s'. by eexists _, _.
Qed.

Lemma RecordSandboxEvent_returns ctx event : returns (engineRun_RecordSandboxEvent request ctx event).
Proof.
  unfold engineRun_RecordSandboxEvent. apply returns_bind; [apply succeeds_returns, returns_attempt, record_returns|].
  intros [u|e]; [apply succeeds_returns, observe_succeeds | done].
Qed.

Lemma report_events_succeeds ctx events : succeeds (report_events request ctx events).
Proof.
  induction events as [|e events IH]; cbn [report_events]; [apply succeeds_ret|].
  apply succeeds_bind; [apply returns_attempt, RecordSandboxEvent_returns | by intros _].
Qed.

(** Closing a tool closes it once, panics included. *)
Lemma closeEngineTool_closes ctx handler s :
  ∃ err s', closeEngineTool request ctx handler s = (Done err, s') ∧
    closed_handlers (engine_history s') = closed_handlers (engine_history s) ++ [handler] ∧ es_closed s' = es_closed s.
Proof.
  unfold closeEngineTool, recover, tool_call, mbind, lm_bind, lm_get.
  destruct (report_events_succeeds ctx (sandbox_events (engine_history s) handler) s) as (u & s1 & E).
  pose proof (report_events_quiet request _ (HI := same_closed_quiet (closed_handlers (engine_history s)) (es_closed s))
    ctx (sandbox_events (engine_history s) handler) s (conj eq_refl eq_refl)) as Hq.
  rewrite E in Hq |- *. destruct Hq as [Hq1 Hq2].
  unfold ecall, perform. destruct (external_close _ _) as [err|v]; eexists _, _; split_and!; try done; cbn;
    by rewrite closed_handlers_app, Hq1.
Qed.

Lemma tool_at_insert (c : gmap nat (option error)) i handler err :
  c !! i = None → tool_at i = Some handler →
  omap tool_at (elements (dom (<[i := err]> c))) ≡ₚ omap tool_at (elements (dom c)) ++ [handler].
Proof.
  intros Hi Hh. rewrite dom_insert_L. rewrite elements_union_singleton by (by apply not_elem_of_dom). cbn.
  rewrite Hh. by rewrite Permutation_app_comm.
Qed.

(** [Close]: the tool is closed now or was before. *)
Lemma Close_closes ctx i :
  triple closed_ok (engineToolHandler_Close request ctx i) (λ _ s, closed_ok s ∧ i ∈ dom (es_closed s)) closed_ok.
Proof.
  unfold engineToolHandler_Close. apply (triple_bind _ _ (λ s0 s, s0 = s ∧ closed_ok s)); [by intros s Hs|]. intros s0.
  destruct (es_closed s0 !! i) as [err|] eqn:Ec.
  { intros s [<- Hs]. split; [done|]. by apply elem_of_dom_2 in Ec. }
  apply triple_deref_bind; [by intros s [_ Hs]|]. intros binding Eb.
  apply triple_deref_bind; [by intros s [_ Hs]|]. intros handler Eh.
  set (mid := λ s, closed_handlers (engine_history s) = closed_handlers (engine_history s0) ++ [handler] ∧
                   es_closed s = es_closed s0).
  apply (triple_bind _ _ (λ _ s, closed_ok s0 ∧ mid s)).
  { intros s [<- Hs]. by destruct (closeEngineTool_closes ctx handler s0) as (err & s' & -> & H). }
  intros err. apply triple_pure. intros [H1 H2].
  apply (triple_bind _ _ (λ _, mid)).
  { intros s Hs. destruct (returns_attempt _ (record_returns ctx (cleanup_record (is_some err))) s) as (r & s' & E).
    pose proof (invariant_attempt _ _ (record_quiet request _ (HI := same_closed_quiet _ _) ctx (cleanup_record (is_some err))) s Hs) as Hq.
    by rewrite E in Hq |- *. }
  intros recorded. cbn zeta. eapply triple_bind; [apply triple_modify with (Q := λ _ s, closed_ok s ∧ i ∈ dom (es_closed s))|].
  - intros s [Hh Hc]. cbn [es_closed]. rewrite Hc. split; [split; cbn [engine_history es_closed]|]; rewrite ?Hh, ?Hc.
    + rewrite tool_at_insert; [by rewrite H1 | done | unfold tool_at; by rewrite Eb].
    + intros j. rewrite dom_insert_L. intros [->%elem_of_singleton|Hj]%elem_of_union; [|by apply H2].
      by apply lookup_lt_Some in Eb.
    + rewrite dom_insert_L. set_solver.
  - intros ? s Hs. exact Hs.
Qed.

#[export] Instance closed_ok_run : run_invariant request closed_ok.
Proof.
  assert (∀ s s', engine_history s' = engine_history s → es_closed s' = es_closed s → closed_ok s → closed_ok s') as Hb.
  { intros s s' H1 H2. apply closed_ok_same; by rewrite ?H1. }
  split; [split; intros|intros].
  - apply _.
  - apply selectPlacement_kept; [apply _ | |]; intros s x; by apply Hb.
  - apply provider_Stream_kept; [apply _ | |]; intros s x; [by apply closed_ok_call | by apply Hb].
  - apply Recv_kept; [apply _|]. intros s x. by apply Hb.
  - apply Execute_kept; [apply _|]. intros s x. by apply closed_ok_call.
  - intros s Hs. pose proof (Close_closes ctx index s Hs) as Hc.
    destruct (engineToolHandler_Close request ctx index s) as [[] s']; apply Hc.
  - apply restore_kept; [apply _ | |]; intros s x; [by apply Hb | intros y; by apply Hb].
Qed.

(** A tool that was closed stays so. *)
#[local] Instance still_closed_run i : run_invariant request (λ s, i ∈ dom (es_closed s)).
Proof.
  assert (quiet_invariant request (λ s, i ∈ dom (es_closed s))) as HI.
  { apply quiet_effects; [by intros s s' [_ _ _ _ ->] | done]. }
  split; [split; intros; try done|intros].
  - by apply selectPlacement_kept.
  - by apply provider_Stream_kept.
  - by apply Recv_kept.
  - by apply Execute_kept.
  - apply Close_kept; [done|done|]. intros s err. cbn. rewrite dom_insert_L. set_solver.
  - by apply restore_kept.
Qed.

(** [cleanup] closes what is left. *)
Lemma cleanup_loop_closes ctx indices acc :
  triple closed_ok (cleanup_loop request ctx indices acc)
    (λ _ s, closed_ok s ∧ ∀ i, i ∈ indices → i ∈ dom (es_closed s)) closed_ok.
Proof.
  revert acc. induction indices as [|i indices IH]; intros acc; cbn [cleanup_loop]; [by intros s Hs; split; [|set_solver]|].
  eapply triple_bind; [apply Close_closes|]. intros err s [Hs Hi].
  specialize (IH (errors_Join [acc; err]) s Hs).
  pose proof (cleanup_loop_kept request (λ s, i ∈ dom (es_closed s)) ctx indices (errors_Join [acc; err]) s Hi) as Hk.
  destruct (cleanup_loop _ _ _ _ s) as [[] s']; try done. split; [apply IH|].
  intros j [->|Hj]%elem_of_cons; [exact Hk | by apply IH].
Qed.

Lemma all_tools_closed s :
  closed_ok s → (∀ i, (i < tool_count)%nat → i ∈ dom (es_closed s)) →
  closed_handlers (engine_history s) ≡ₚ omap Binding_Handler (Eng_Tools request).
Proof.
  intros [H1 H2] Hall. rewrite H1.
  assert (elements (dom (es_closed s)) ≡ₚ seq 0 tool_count) as ->.
  { apply NoDup_Permutation; [apply NoDup_elements | apply NoDup_seq|]. intros i.
    rewrite elem_of_elements, elem_of_seq. split; [intros Hi; apply H2 in Hi; lia | intros Hi; apply Hall; lia]. }
  unfold tool_at, tool_count. clear. apply reflexive_eq.
  induction (Eng_Tools request) as [|b l IH]; [done|]. cbn [length seq omap list_omap].
  rewrite <-fmap_S_seq.
  transitivity (match Binding_Handler b with Some h => h :: omap (λ i, l !! i ≫= Binding_Handler) (seq 0 (length l))
                | None => omap (λ i, l !! i ≫= Binding_Handler) (seq 0 (length l)) end).
  - assert (omap (λ i, (b :: l) !! i ≫= Binding_Handler) (S <$> seq 0 (length l)) =
            omap (λ i, l !! i ≫= Binding_Handler) (seq 0 (length l))) as Ho.
    { generalize (seq 0 (length l)). intros k. induction k as [|j k IHk]; [done|]. cbn. by rewrite IHk. }
    cbn in Ho |- *. rewrite Ho. done.
  - rewrite IH. done.
Qed.

End close.
