(* ===== verification/EngineEnds.v ===== *)
(** * Runs of the execution engine end

    Nothing the engine does between the calls of its loop goes on forever,
    whatever its collaborators answer: the receive loop of a compaction stops at
    its own bound.  So a run ends when its loop does. *)

From Stdlib Require Import ZArith Lia.
From S2P Require Import Prelude Effects GoNum GoText GoJson GoHash Ident Domain Event Store Model Stream Policy Routing.
From S2P Require Import Telemetry LoopTypes Loop Execution Projection Engine EngineTurn EngineRun.

Section ends.
Context `{Hcarriers : EngineCarriers, Henv : !EngineEnv, Hencoder : !PayloadEncoder, Hquoting : Quoting}.
Context `{Hlibrary : SchemaLibrary, Hdecoder : PayloadDecoder}.
Abbreviation EE := (EM EngineState) (only parsing).
Context (request : EngineRequest).

Lemma ends_ecall {A} k (answer : list ECall → outcome A) : ends (ecall k answer).
Proof. apply ends_perform. Qed.

Lemma ends_finally {A} (m : EE A) fin : ends m → ends (finally m fin).
Proof. intros Hm s. specialize (Hm s). unfold finally. destruct (m s) as [r s1]. by destruct (fin s1). Qed.

Ltac engine_ends_step :=
  match goal with
  | |- ends (ecall _ _) => apply ends_ecall
  | |- ends (finally _ _) => apply ends_finally
  | |- _ => ends_step
  end.
Ltac engine_ends := repeat engine_ends_step.

Lemma append_ends ctx entries : ends (engineRun_append request ctx entries).
Proof. unfold engineRun_append, store_fail, ctx_Err. engine_ends. Qed.

Lemma observe_ends kind outcome : ends (engineRun_observe request kind outcome).
Proof. unfold engineRun_observe. engine_ends. Qed.

Lemma record_ends ctx r : ends (engineRun_record request ctx r).
Proof. apply append_ends. Qed.

Lemma recordPolicy_ends ctx turn manifest v : ends (engineRun_recordPolicy request ctx turn manifest v).
Proof. unfold engineRun_recordPolicy. engine_ends; [apply record_ends | apply observe_ends]. Qed.

Lemma approve_ends ctx turn manifest scope : ends (engineRun_approve request ctx turn manifest scope).
Proof. unfold engineRun_approve, callApprover, settle_decision, ctx_Err. engine_ends; apply record_ends. Qed.

Lemma resolveApproval_ends ctx turn manifest v : ends (engineRun_resolveApproval request ctx turn manifest v).
Proof. unfold engineRun_resolveApproval. engine_ends; [apply approve_ends | apply recordPolicy_ends]. Qed.

Lemma budgetFailure_ends {A} ctx turn dimension : ends (engineRun_budgetFailure (A:=A) request ctx turn dimension).
Proof. unfold engineRun_budgetFailure. engine_ends. apply record_ends. Qed.

#[local] Hint Resolve append_ends observe_ends record_ends recordPolicy_ends approve_ends resolveApproval_ends
  budgetFailure_ends : engine_ends.

Lemma contextSize_ends r : ends (engineRun_contextSize request r).
Proof.
  unfold engineRun_contextSize. generalize {| size_count := 0; size_threshold := false; size_overflow := false |} as size.
  induction (Eng_Candidates request) as [|c cs IH]; intros size; cbn [context_loop]; engine_ends; apply IH.
Qed.

Lemma evaluate_candidates_ends ctx turn manifest cs : ends (evaluate_candidates request ctx turn manifest cs).
Proof.
  induction cs as [|c cs IH]; cbn [evaluate_candidates];
    unfold candidate_execution, egress_resolved, egress_verdict, ctx_Err; engine_ends; auto with engine_ends.
Qed.

Lemma selectPlacement_ends ctx turn initial tools : ends (engineRun_selectPlacement request ctx turn initial tools).
Proof.
  unfold engineRun_selectPlacement, take_candidate, engineRun_reserve.
  engine_ends; auto using evaluate_candidates_ends with engine_ends.
Qed.

Lemma Stream_ends index r : ends (engineProvider_Stream request index r).
Proof. unfold engineProvider_Stream. engine_ends; auto with engine_ends. Qed.

Lemma Recv_ends ctx index : ends (engineModelStream_Recv request ctx index).
Proof.
  unfold engineModelStream_Recv, account_usage, release_event, egress_verdict, ctx_Err. engine_ends; auto with engine_ends.
Qed.

Lemma Close_stream_ends index : ends (engineModelStream_Close request index).
Proof. unfold engineModelStream_Close. engine_ends; auto with engine_ends. Qed.

Lemma report_events_ends ctx events : ends (report_events request ctx events).
Proof.
  induction events as [|e events IH]; cbn [report_events]; unfold engineRun_RecordSandboxEvent, engine_stop;
    engine_ends; auto with engine_ends.
Qed.

Lemma Execute_ends ctx index call : ends (engineToolHandler_Execute request ctx index call).
Proof.
  unfold engineToolHandler_Execute, authorize_tool, or_stop, tool_call, ctx_Err, engine_stop.
  engine_ends; auto using report_events_ends with engine_ends.
Qed.

Lemma Close_ends ctx index : ends (engineToolHandler_Close request ctx index).
Proof.
  unfold engineToolHandler_Close, closeEngineTool, tool_call. engine_ends; auto using report_events_ends with engine_ends.
Qed.

(** The bound of the receive loop: at the round [compaction_events] it fails. *)
Lemma summary_loop_ends fuel ctx index i validator text usage :
  0 <= i <= compaction_events → compaction_events - i < Z.of_nat fuel →
  ends (summary_loop request fuel ctx index i validator text usage).
Proof.
  revert i validator text usage. induction fuel as [|fuel IH]; intros i validator text usage Hi Hf; [lia|].
  cbn [summary_loop]. apply ends_bind; [apply ends_attempt, Recv_ends|]. intros [event|e]; [|engine_ends].
  destruct (Validator_Accept event validator) as [[u|e] validator']; [|engine_ends].
  destruct (Z.leb_spec compaction_events i); cbn [orb]; [engine_ends|]. destruct (_ <? _); [engine_ends|].
  destruct (absorb_summary event text usage) as [[text' usage']|e]; [|engine_ends]. apply IH; lia.
Qed.

Lemma stream_summary_ends ctx provider r : ends (stream_summary request ctx provider r).
Proof.
  unfold stream_summary. apply ends_bind; [apply ends_modify|]. intros u.
  apply ends_bind; [apply Stream_ends|]. intros index. apply ends_bind.
  - apply summary_loop_ends; unfold compaction_events; [lia|]. by vm_compute.
  - intros r'. engine_ends. apply Close_stream_ends.
Qed.

Lemma prepareContext_ends ctx turn : ends (engineRun_prepareContext request ctx turn).
Proof.
  unfold engineRun_prepareContext, compact.
  engine_ends; auto using contextSize_ends, selectPlacement_ends, stream_summary_ends with engine_ends.
Qed.

Lemma SelectTurn_ends ctx turn : ends (engineRun_SelectTurn request ctx turn).
Proof.
  unfold engineRun_SelectTurn. engine_ends; auto using prepareContext_ends, selectPlacement_ends with engine_ends.
Qed.

Lemma callback_ends k : ends (callback request k).
Proof.
  destruct k; cbn [callback]; unfold observe_contexts, select_turn_callback, engineProvider_Name, ctx_Err, engineRun_RecordLoopEvent;
    engine_ends; auto using SelectTurn_ends, Stream_ends, Recv_ends, Close_stream_ends, Execute_ends, Close_ends with engine_ends.
Qed.

Lemma restore_ends ctx digest : ends (engineRun_restore request ctx digest).
Proof. unfold engineRun_restore. engine_ends; auto with engine_ends. Qed.

Lemma Replay_ends e ctx id : ends (Engine_Replay e ctx id).
Proof.
  intros s. unfold Engine_Replay. destruct (negb _); [done|]. by destruct (LoadWorkloadProjection _ _ _ s) as [[p|err] s'].
Qed.

Lemma observe_all_ends kinds outcome : ends (observe_all request kinds outcome).
Proof. induction kinds as [|k kinds IH]; cbn [observe_all foldr]; engine_ends; [apply observe_ends | apply IH]. Qed.

Lemma cleanup_loop_ends ctx indices acc : ends (cleanup_loop request ctx indices acc).
Proof. revert acc. induction indices as [|i indices IH]; intros acc; cbn [cleanup_loop]; engine_ends; [apply Close_ends | apply IH]. Qed.

Lemma finish_engine_ends e result runErr : ends (finish_engine e request result runErr).
Proof.
  unfold finish_engine, engineRun_cleanup, ctx_Err.
  engine_ends; auto using cleanup_loop_ends, observe_all_ends, Replay_ends with engine_ends.
Qed.

Lemma run_engine_ends e loop resume :
  (∀ c r, fst (fst (loop c r)) ≠ Exhausted) → ends (run_engine e loop request resume).
Proof.
  intros Hl. unfold run_engine, execute_engine, start_engine, engineRun_admit.
  assert (∀ r, ends (run_loop loop request r)) as Hrun.
  { intros r s. unfold run_loop. specialize (Hl (engine_collaborators request s) r).
    destruct (loop (engine_collaborators request s) r) as [[[] result] h]; done. }
  engine_ends; auto using restore_ends, observe_all_ends, finish_engine_ends with engine_ends.
Qed.

End ends.
