(* ===== verification/EngineFinish.v ===== *)
(** * How runs of the execution engine end

    A run that was accepted always tries to record its end, whatever happened,
    what it records agrees with the error it returns, every tool has been closed
    once, and nothing goes on forever. *)

From Stdlib Require Import ZArith Lia Permutation.
From S2P Require Import Prelude Effects GoNum GoText GoJson GoHash Ident Domain Event Store Model Stream Policy Routing.
From S2P Require Import Telemetry LoopTypes Loop Execution Projection Engine EngineTurn EngineRun EngineInvariant.
From S2P Require Import EngineLedger EngineClose EngineEnds.

Section finish.
Context `{Hcarriers : EngineCarriers, Henv : !EngineEnv, Hencoder : !PayloadEncoder, Hquoting : Quoting}.
Context `{Hlibrary : SchemaLibrary, Hdecoder : PayloadDecoder}.
Abbreviation EE := (EM EngineState) (only parsing).

(* ------------------------------------------------------------------ *)
(** ** A run that returns went through its end *)

Lemma Engine_run_Done e raw resume s x s' :
  Engine_run e raw resume s = (Done x, s') →
  ∃ loop s1, Engine_Loop e = Some loop ∧ check_request raw = Ok (normalise raw) ∧ run_engine e loop (normalise raw) resume s1 = (Done x, s') ∧
    s1 = note_call (EContext CtxCaller) s.
Proof.
  unfold Engine_run. rewrite bind_Done. intros (cancelled & s1 & Hc & H). destruct cancelled; [done|].
  destruct (Engine_Loop e) as [loop|] eqn:Hloop; [|done]. destruct (_ || _); [done|].
  rewrite bind_Done in H. destruct H as (request & s2 & [Hr ->]%lift_Done & H).
  pose proof (check_request_Ok _ _ Hr) as ->. exists loop, s1. split_and!; try done.
  unfold ctx_Err, ecall, perform in Hc. congruence.
Qed.

(* ------------------------------------------------------------------ *)
(** ** The last append *)

(** The end that is recorded, given whether the run was cancelled and whether
    something went wrong: the states of the workload and of its step. *)
Definition ends_as (cancelled wrong : Prop) (v : Verdict) : Prop :=
  (cancelled ∧ final_state v = WorkloadCancelled ∧ final_step v = StepCancelled) ∨
  (¬ cancelled ∧ wrong ∧ final_state v = WorkloadFailed ∧ final_step v = StepFailed) ∨
  (¬ cancelled ∧ ¬ wrong ∧ final_state v = WorkloadSucceeded ∧ final_step v = StepSucceeded).

Lemma final_verdict_ends runErr cancelled r :
  ends_as (cancelled ≠ None ∨ LoopResult_Stop r = StopCancelled) (runErr ≠ None) (final_verdict runErr cancelled r).
Proof.
  unfold final_verdict, ends_as. destruct (String.eqb_spec (LoopResult_Stop r) StopCancelled), cancelled, runErr, (LoopResult_BudgetExceeded r ≠s "");
    cbn; naive_solver.
Qed.

Lemma ends_as_iff (c c' w w' : Prop) v : (c ↔ c') → (w ↔ w') → ends_as c w v → ends_as c' w' v.
Proof. unfold ends_as. tauto. Qed.

(** What a run ends with before its end is recorded: the result and the error of
    its loop, the error of cleaning up, why the context of the run ended, if it
    did, and whether that of the caller did. *)
Record Ending : Type := {
  ending_result : LoopResult;
  ending_loop : option error;
  ending_cleanup : option error;
  ending_cause : option error;
  ending_cancelled : option error;
}.

Definition went_wrong (x : Ending) : Prop :=
  ending_loop x ≠ None ∨ ending_cleanup x ≠ None ∨ ending_cause x ≠ None ∨ LoopResult_Stop (ending_result x) = StopCancelled.

Definition was_cancelled (x : Ending) : Prop := ending_cancelled x ≠ None ∨ LoopResult_Stop (ending_result x) = StopCancelled.

(** Where these are found in a run: [s] is the state in which its loop begins, [s']
    the one in which its end is recorded. *)
Definition comes_to (loop : TurnLoop) (request : EngineRequest) (resume : bool) (s : EngineState) (x : Ending) (s' : EngineState) : Prop :=
  ∃ s1 s2, execute_engine loop request resume s = (Done (ending_result x, ending_loop x), s1) ∧
    engineRun_cleanup request s1 = (Done (ending_cleanup x), s2) ∧
    ending_cause x = context_cause (engine_history s2) CtxRun ∧
    ctx_Err CtxCaller (note_call (ECause CtxRun) s2) = (Done (ending_cancelled x), s').

(** The final records were sent to the store, with a context that outlives that
    of the caller, or could not be encoded. *)
Definition end_sent (request : EngineRequest) (cause : ID) (r : LoopResult) (v : Verdict) (h : list ECall) : Prop :=
  match make_drafts request cause (finish_drafts request r v) with
  | Ok drafts => ∃ h0 expected, made h0 (EAppend CtxFinal (engine_aggregate request) expected drafts) h
  | Err _ => True
  end.

(** They are in the stream. *)
Definition end_recorded (request : EngineRequest) (r : LoopResult) (v : Verdict) (h : list ECall) : Prop :=
  ∃ cause drafts, make_drafts request cause (finish_drafts request r v) = Ok drafts ∧ ∀ d, d ∈ drafts → d ∈ committed h.

Lemma end_sent_stable request cause r v : stable (end_sent request cause r v).
Proof.
  unfold end_sent. destruct (make_drafts _ _ _); [|by intros h h']. do 2 (apply stable_exists; intros ?). apply made_stable.
Qed.

Lemma end_recorded_stable request r v : stable (end_recorded request r v).
Proof.
  do 2 (apply stable_exists; intros ?). apply stable_and; [apply stable_pure|].
  intros h h' [l ->] Hc d Hd. unfold committed. rewrite committed_from_app. apply elem_of_app. left. by apply Hc.
Qed.

(** An append finds the stream latched, or fails to encode, or is sent. *)
Lemma append_sent request ctx entries s r s' :
  engineRun_append request ctx entries s = (r, s') →
  es_storeErr s ≠ None ∨
  match make_drafts request (es_cause s) entries with
  | Ok drafts => ∃ h0 expected, made h0 (EAppend ctx (engine_aggregate request) expected drafts) (engine_history s')
  | Err _ => True
  end.
Proof.
  unfold engineRun_append. unfold mbind at 1, lm_bind, lm_get.
  destruct (es_storeErr s) as [e|] eqn:Ee; [by left|]. right.
  destruct (make_drafts request (es_cause s) entries) as [ds|e] eqn:Ed; [|done].
  exists (engine_history s), (es_sequence s). revert H.
  set (k := EAppend ctx (engine_aggregate request) (es_sequence s) ds).
  assert (∀ s', engine_history s' = engine_history s ++ [k] → made (engine_history s) k (engine_history s')) as Hm
    by (intros s2 ->; by apply made_snoc; right).
  unfold mbind, lm_bind, ecall, perform. destruct (store_append _ _ _ ds) as [events|e].
  - destruct (negb _); [intros [= <- <-]; by apply Hm|]. destruct (last events); intros [= <- <-]; by apply Hm.
  - unfold ctx_Err, ecall, perform. cbn [engine_history note_call].
    destruct (is_some _); intros [= <- <-]; apply made_snoc; left; by apply made_snoc; right.
Qed.

(** What the end of a run guarantees, when its loop and its cleanup came to [x] in
    the state [s0]. *)
Record outcome_ok (request : EngineRequest) (x : Ending) (s0 : EngineState) (p : option WorkloadProjection) (err : option error)
    (s : EngineState) (r : LoopResult) (v : Verdict) : Prop := {
  oc_result : r = settle_result (ending_cause x) (add_engine_work s0 (ending_result x));
  oc_ends : ends_as (was_cancelled x) (went_wrong x) v;
  oc_sent : es_storeErr s0 ≠ None ∨ end_sent request (es_cause s0) r v (engine_history s);
  oc_error : went_wrong x → err ≠ None;
  oc_nil : err = None → end_recorded request r v (engine_history s) ∧ p ≠ None;
}.

Lemma errors_Join_None es : errors_Join es = None ↔ Forall (λ e, e = None) es.
Proof.
  unfold errors_Join. split.
  - destruct (omap id es) eqn:E; [|done]. intros _. induction es as [|[e|] es IH]; [constructor | done | constructor; [done|]].
    by apply IH.
  - intros Hf. assert (omap id es = []) as ->; [|done]. induction Hf as [|e es -> _ IH]; [done|]. exact IH.
Qed.

Lemma settle_error_None cause runErr r :
  settle_error cause runErr r = None ↔ cause = None ∧ runErr = None ∧ LoopResult_Stop r ≠ StopCancelled.
Proof.
  unfold settle_error. destruct (String.eqb_spec (LoopResult_Stop r) StopCancelled) as [Hr|Hr], cause as [c|];
    rewrite ?errors_Join_None, ?Forall_cons; naive_solver.
Qed.

Lemma finish_engine_outcome e request result runErr s p err s' :
  finish_engine e request result runErr s = (Done (p, err), s') →
  ∃ cleanup cause cancelled s1 s0 r v,
    engineRun_cleanup request s = (Done cleanup, s1) ∧ cause = context_cause (engine_history s1) CtxRun ∧
    ctx_Err CtxCaller (note_call (ECause CtxRun) s1) = (Done cancelled, s0) ∧
    outcome_ok request {| ending_result := result; ending_loop := runErr; ending_cleanup := cleanup; ending_cause := cause;
                          ending_cancelled := cancelled |} s0 p err s' r v.
Proof.
  unfold finish_engine. rewrite bind_Done. intros (cleanupErr & s1 & Hclean & H).
  rewrite bind_Done in H. destruct H as (s1' & s2 & Hg & H). injection Hg as <- <-.
  rewrite bind_Done in H. destruct H as (cause & s3 & Hcause & H). injection Hcause as <- <-.
  rewrite bind_Done in H. destruct H as (cancelled & s4 & Hcancelled & H).
  set (cause := context_cause (engine_history s1) CtxRun) in *. set (r0 := add_engine_work s1 result) in H.
  set (runErr' := settle_error cause (errors_Join [runErr; cleanupErr]) r0) in H.
  set (r := settle_result cause r0) in H. set (v := final_verdict runErr' cancelled r) in H.
  rewrite bind_Done in H. destruct H as (appended & s5 & Ha & H).
  rewrite bind_Done in H. destruct H as (u & s6 & Ho & H).
  rewrite bind_Done in H. destruct H as (loaded & s7 & Hl & H). injection H as <- <- <-.
  exists cleanupErr, cause, cancelled, s1, s4, r, v. split_and!; [done..|].
  (* what the later steps keep *)
  assert (∀ I, quiet_invariant request I → I s5 → I s7) as Hkeep.
  { intros I HI Hs. refine (invariant_run I _ _ _ _ _ _ Hl); [apply invariant_attempt; by apply (Replay_quiet request)|].
    refine (invariant_run I _ _ _ _ _ Hs Ho). destruct (is_ok appended); [by apply observe_all_quiet | apply invariant_ret]. }
  assert (LoopResult_Stop r = LoopResult_Stop result) as Hstop by (unfold r, settle_result; by destruct cause; [destruct (errors_Is _ _)|]).
  assert (runErr' = None ↔ runErr = None ∧ cleanupErr = None ∧ cause = None ∧ LoopResult_Stop result ≠ StopCancelled) as Hwrong.
  { unfold runErr'. rewrite settle_error_None, errors_Join_None, !Forall_cons, Forall_nil. change (LoopResult_Stop r0) with (LoopResult_Stop result). tauto. }
  split.
  - unfold ctx_Err, ecall, perform in Hcancelled. by injection Hcancelled as _ <-.
  - eapply ends_as_iff; [| |apply final_verdict_ends]; rewrite ?Hstop; [done|]. rewrite Hwrong. unfold went_wrong. cbn.
    destruct runErr, cleanupErr, cause, (decide (LoopResult_Stop result = StopCancelled)); naive_solver.
  - assert (∃ r', engineRun_append request CtxFinal (finish_drafts request r v) s4 = (r', s5)) as [r' Hr'].
    { apply attempt_Done in Ha. destruct appended; by eexists. }
    destruct (append_sent _ _ _ _ _ _ Hr') as [Hsent|Hsent]; [by left | right].
    by apply (Hkeep _ (stable_quiet request _ (end_sent_stable request _ r v))).
  - intros Hw Herr. apply errors_Join_None, Forall_cons in Herr as [Herr%Hwrong _]. unfold went_wrong in Hw. cbn in Hw. naive_solver.
  - intros Herr. rewrite errors_Join_None, !Forall_cons in Herr. destruct Herr as (_ & H3 & H5 & _). split.
    + apply (Hkeep _ (stable_quiet request _ (end_recorded_stable request r v))).
      destruct appended as [u'|e']; [|done]. apply attempt_Done in Ha.
      pose proof (append_gives request CtxFinal (finish_drafts request r v) s4 I) as Hg. by rewrite Ha in Hg.
    + by destruct loaded.
Qed.

(* ------------------------------------------------------------------ *)
(** ** The tools *)

Lemma finish_engine_closes e request result runErr :
  triple (closed_ok request) (finish_engine e request result runErr)
    (λ _ s, closed_handlers (engine_history s) ≡ₚ omap Binding_Handler (Eng_Tools request)) (λ _, True).
Proof.
  unfold finish_engine. eapply triple_bind.
  { eapply triple_conseq; [apply cleanup_loop_closes | done | | done]. intros a s [H1 H2].
    apply (all_tools_closed request s H1). intros i Hi. apply H2, elem_of_seq. unfold tool_count in Hi. lia. }
  intros cleanupErr. set (Q := λ s, closed_handlers (engine_history s) ≡ₚ omap Binding_Handler (Eng_Tools request)).
  assert (quiet_invariant request Q) as HQ.
  { apply quiet_effects.
    - intros s s' [Hh _ _ _ _]. unfold Q. by rewrite Hh.
    - intros s k Hk. unfold Q. cbn [note_call engine_history]. rewrite closed_handlers_app. destruct k; by rewrite ?app_nil_r. }
  apply triple_kept; [|done].
  apply invariant_bind; [apply invariant_get|]. intros s1.
  apply invariant_bind; [by apply (plain_call request)|]. intros cause.
  apply invariant_bind; [by apply (plain_call request)|]. intros cancelled.
  apply invariant_bind; [by apply invariant_attempt, append_quiet|]. intros appended.
  apply invariant_bind; [destruct (is_ok appended); [by apply observe_all_quiet | apply invariant_ret]|]. intros u.
  apply invariant_bind; [by apply invariant_attempt, (Replay_quiet request)|]. intros loaded. apply invariant_ret.
Qed.

Lemma initial_closed_ok request : closed_ok request initial_state.
Proof. split; cbn; rewrite dom_empty_L; [by rewrite elements_empty | set_solver]. Qed.

End finish.

(* ------------------------------------------------------------------ *)
(** ** Properties *)

(** C9. Whatever the turn loop, the tools and the store do, a run that was accepted
    and returns records how it ended, and that agrees with what happened: it is
    recorded as cancelled exactly if the caller cancelled it or the loop stopped as
    cancelled, and else as failed exactly if the loop or the cleanup returned an
    error or the context of the run had ended, and as succeeded exactly if none of
    these, the step always as the workload, with the result of the loop and the
    work of the engine itself.  These records are sent to the store
    under a context of their own, unless an append before them left the stream in an
    unknown state or they cannot be encoded.  If anything went wrong the run returns
    an error; when it returns none, the end is in the stream and the projection was
    loaded. *)
Theorem Engine_run_finalises `{Hcarriers : EngineCarriers, Henv : !EngineEnv, Hencoder : !PayloadEncoder, Hquoting : Quoting,
    Hlibrary : SchemaLibrary, Hdecoder : PayloadDecoder} e raw resume s p err s' :
  Engine_run e raw resume s = (Done (p, err), s') →
  ∃ loop x s0 r v,
    Engine_Loop e = Some loop ∧ comes_to loop (normalise raw) resume (note_call (EContext CtxCaller) s) x s0 ∧
    r = settle_result (ending_cause x) (add_engine_work s0 (ending_result x)) ∧
    ends_as (was_cancelled x) (went_wrong x) v ∧
    (es_storeErr s0 ≠ None ∨ end_sent (normalise raw) (es_cause s0) r v (engine_history s')) ∧
    (went_wrong x → err ≠ None) ∧
    (err = None → end_recorded (normalise raw) r v (engine_history s') ∧ p ≠ None).
Proof.
  intros (loop & s1 & Hloop & _ & H & ->)%Engine_run_Done. apply bind_Done in H as ([result runErr] & s2 & Hexec & H).
  apply finish_engine_outcome in H as (cleanup & cause & cancelled & s3 & s0 & r & v & Hclean & Hcause & Hcancelled & [H0 H1 H2 H3 H4]).
  eexists loop, _, s0, r, v. split_and!; [exact Hloop | | exact H0 | exact H1 | exact H2 | exact H3 | exact H4]. by exists s2, s3.
Qed.

(** C26. Whatever the turn loop closes itself, a run that returns has closed the
    handler of every tool of its request exactly once, panics of the handlers
    included; on every other path no tool is closed twice. *)
Theorem Engine_run_closes_tools `{Hcarriers : EngineCarriers, Henv : !EngineEnv, Hencoder : !PayloadEncoder, Hquoting : Quoting,
    Hlibrary : SchemaLibrary, Hdecoder : PayloadDecoder} e raw resume :
  let '(r, s) := Engine_run e raw resume initial_state in
  match r with
  | Done _ => closed_handlers (engine_history s) ≡ₚ omap Binding_Handler (Eng_Tools raw)
  | _ => closed_handlers (engine_history s) ≡ₚ omap (tool_at (normalise raw)) (elements (dom (es_closed s)))
  end.
Proof.
  destruct (Engine_run e raw resume initial_state) as [r s] eqn:E.
  pose proof (invariant_run _ _ _ _ _ (Engine_run_kept raw (closed_ok (normalise raw)) e resume) (initial_closed_ok _) E) as Hc.
  destruct r as [x| | |]; try apply Hc.
  apply Engine_run_Done in E as (loop & s1 & _ & _ & H & ->). apply bind_Done in H as ([result runErr] & s2 & Hx & H).
  set (request := normalise raw) in *.
  assert (closed_ok request s2) as Hs2.
  { refine (invariant_run _ _ _ _ _ (execute_engine_kept request (closed_ok request) loop resume) _ Hx).
    apply closed_ok_call; [done | apply initial_closed_ok]. }
  pose proof (finish_engine_closes e request result runErr s2 Hs2) as Hf. by rewrite H in Hf.
Qed.

(** A run ends whenever its turn loop does, whatever the policies, the
    router, the approver, the providers and their streams, the tools and the
    store answer: a compaction stops at its own bound of events. *)
Theorem Engine_run_ends `{Hcarriers : EngineCarriers, Henv : !EngineEnv, Hencoder : !PayloadEncoder, Hquoting : Quoting,
    Hlibrary : SchemaLibrary, Hdecoder : PayloadDecoder} e raw resume s :
  (∀ loop c r, Engine_Loop e = Some loop → fst (fst (loop c r)) ≠ Exhausted) →
  fst (Engine_run e raw resume s) ≠ Exhausted ∧
  ∀ k, fst (callback (normalise raw) k s) ≠ Exhausted.
Proof.
  intros Hl. split; [|intros k; apply callback_ends].
  assert (ends (Engine_run e raw resume)) as He; [|apply He]. unfold Engine_run, ctx_Err.
  apply ends_bind; [apply ends_ecall|]. intros [err|]; [apply ends_fail|].
  destruct (Engine_Loop e) as [loop|] eqn:El; [|apply ends_fail]. destruct (_ || _); [apply ends_fail|].
  apply ends_bind; [apply ends_lift|]. intros request. apply run_engine_ends. intros c r. by apply Hl.
Qed.
