(* ===== verification/EngineRestore.v ===== *)
(** * Recovery of the execution engine: src/recovery.go

    What the scan of [restore] computes, as properties of the records alone, and
    that a resumed run has no effect at all unless the stream ends at a
    checkpoint, with nothing after it that could have reached the outside. *)

From Stdlib Require Import ZArith Lia.
From S2P Require Import Prelude Effects GoNum GoText GoJson GoHash Ident Domain Event Store Model Stream Policy Routing.
From S2P Require Import Telemetry LoopTypes Loop Execution Projection Engine EngineTurn EngineRun EngineInvariant.
From S2P Require Import EngineLedger EngineSafety.

(* ------------------------------------------------------------------ *)
(** ** The scan *)

(** What a record means for the boundary to resume from: nothing, or the
    checkpoint it is, or that something happened after the last one. *)
Definition boundary_effect (r : ExecutionRecord) : option (option LoopEvent) :=
  if is_some (Exec_Record_Compaction r) then Some None
  else match Exec_Record_Loop r with
       | Some e => Some (if LoopEvent_Type e =s LoopEventCheckpoint then Some e else None)
       | None =>
           match Exec_Record_Budget r with
           | Some b => if BudgetRecord_Dimension b =s "" then Some None else None
           | None => None
           end
       end.

(** The records end at the checkpoint [e]: no reservation, compaction or other
    loop event follows it. *)
Definition at_boundary (l : list ExecutionRecord) (e : LoopEvent) : Prop :=
  ∃ before r after, l = before ++ r :: after ∧ Exec_Record_Loop r = Some e ∧ LoopEvent_Type e = LoopEventCheckpoint ∧
    Exec_Record_Compaction r = None ∧ Forall (λ x, boundary_effect x = None) after.

(** The digest of the last committed request is [digest]. *)
Definition request_matches (digest : string) (l : list ExecutionRecord) : bool :=
  match last (List.filter (λ r, Exec_Record_Stage r =s ExecutionRequest) l) with
  | Some r => Exec_Record_RequestSHA256 r =s digest
  | None => false
  end.

Lemma restore_record_checkpoint digest x r :
  rs_checkpoint (restore_record digest x r) = match boundary_effect r with Some o => o | None => rs_checkpoint x end.
Proof.
  unfold restore_record, boundary_effect.
  destruct (Exec_Record_Compaction r) as [c|]; [done|]. cbn [is_some].
  destruct (Exec_Record_Loop r) as [e|]; cbn [rs_checkpoint].
  - rewrite LoopEvent_Clone_id. done.
  - destruct (Exec_Record_Budget r) as [b|]; cbn [rs_checkpoint].
    + destruct (_ =s ExecutionRequest); cbn; by destruct (BudgetRecord_Dimension b =s "").
    + by destruct (_ =s ExecutionRequest).
Qed.

Lemma restore_record_match digest x r :
  rs_match (restore_record digest x r) =
  if Exec_Record_Stage r =s ExecutionRequest then Exec_Record_RequestSHA256 r =s digest else rs_match x.
Proof.
  unfold restore_record. destruct (_ =s ExecutionRequest), (Exec_Record_Compaction r), (Exec_Record_Loop r), (Exec_Record_Budget r);
    reflexivity.
Qed.

Lemma restore_record_reserved digest x r :
  rs_reserved (restore_record digest x r) =
  match Exec_Record_Budget r with Some b => spend_sum (rs_reserved x) (BudgetRecord_Reserved b) | None => rs_reserved x end.
Proof.
  unfold restore_record. destruct (_ =s ExecutionRequest), (Exec_Record_Compaction r), (Exec_Record_Loop r), (Exec_Record_Budget r);
    reflexivity.
Qed.

Lemma restore_record_compaction digest x r :
  (rs_extraCalls (restore_record digest x r), rs_compactionUsage (restore_record digest x r)) =
  match Exec_Record_Compaction r with
  | Some c => (add64 (rs_extraCalls x) 1, add_usage (rs_compactionUsage x) (Compaction_Usage c))
  | None => (rs_extraCalls x, rs_compactionUsage x)
  end.
Proof.
  unfold restore_record. destruct (_ =s ExecutionRequest), (Exec_Record_Compaction r), (Exec_Record_Loop r), (Exec_Record_Budget r);
    reflexivity.
Qed.

(** The boundary by the last record that matters. *)
Lemma restore_records_checkpoint digest l x :
  rs_checkpoint (restore_records digest x l) = default (rs_checkpoint x) (last (omap boundary_effect l)).
Proof.
  unfold restore_records. revert x. induction l as [|r l IH] using rev_ind; intros x; [done|].
  rewrite foldl_app, omap_app. cbn [foldl]. rewrite restore_record_checkpoint, IH. cbn.
  destruct (boundary_effect r) as [o|]; [by rewrite last_snoc | by rewrite app_nil_r].
Qed.

Lemma last_effect_boundary l e : last (omap boundary_effect l) = Some (Some e) ↔ at_boundary l e.
Proof.
  split.
  - induction l as [|r l IH] using rev_ind; [done|]. rewrite omap_app. cbn [omap list_omap].
    destruct (boundary_effect r) as [o|] eqn:Er.
    + rewrite last_snoc. intros [= ->]. exists l, r, []. revert Er. unfold boundary_effect.
      destruct (Exec_Record_Compaction r); [done|]. cbn. destruct (Exec_Record_Loop r) as [e'|].
      * destruct (String.eqb_spec (LoopEvent_Type e') LoopEventCheckpoint); [|done]. by intros [= ->].
      * destruct (Exec_Record_Budget r) as [b|]; [|done]. by destruct (_ =s "").
    + rewrite app_nil_r. intros (before & r' & after & -> & H1 & H2 & H3 & H4)%IH.
      exists before, r', (after ++ [r]). split_and!; try done; [by rewrite <-app_assoc|].
      apply Forall_app. by split; [|apply Forall_singleton].
  - intros (before & r & after & -> & H1 & H2 & H3 & H4). rewrite omap_app. cbn [omap list_omap].
    assert (boundary_effect r = Some (Some e)) as -> by (unfold boundary_effect; by rewrite H3, H1, H2).
    assert (omap boundary_effect after = []) as ->; [|by rewrite last_snoc].
    induction H4 as [|y after Hy _ IH]; [done|]. cbn. by rewrite Hy.
Qed.

Lemma restore_records_match digest l x :
  rs_match x = false → rs_match (restore_records digest x l) = request_matches digest l.
Proof.
  intros Hx. unfold restore_records, request_matches. induction l as [|r l IH] using rev_ind; [done|].
  rewrite foldl_app, List.filter_app. cbn [foldl List.filter]. rewrite restore_record_match, IH.
  destruct (_ =s ExecutionRequest); [by rewrite last_snoc | by rewrite app_nil_r].
Qed.

(* ------------------------------------------------------------------ *)
(** ** Resuming *)

Section resume.
Context `{Hcarriers : EngineCarriers, Henv : !EngineEnv, Hencoder : !PayloadEncoder, Hquoting : Quoting}.
Context `{Hlibrary : SchemaLibrary, Hdecoder : PayloadDecoder}.
Abbreviation EE := (EM EngineState) (only parsing).
Context (request : EngineRequest).

(** The stream of a run that may be resumed, at the checkpoint [e]. *)
Definition resumable (events : list Event) (e : LoopEvent) : Prop :=
  ∃ projection digest event,
    restored_projection (engine_aggregate request) events = Ok projection ∧
    Workload_State (Projection_Workload projection) = WorkloadRunning ∧
    requestDigest request = Ok digest ∧ request_matches digest (Projection_Execution projection) = true ∧
    at_boundary (Projection_Execution projection) e ∧
    last events = Some event ∧ Event_AttemptID event = Eng_AttemptID request.

(** What is known before a resumed run has any effect. *)
Definition resume_permitted (h : list ECall) : Prop :=
  ∃ h0 events e digest,
    made h0 (ELoad CtxRun (engine_aggregate request) 0) h ∧ store_load h0 (engine_aggregate request) 0 = Ok events ∧
    resumable events e ∧ requestDigest request = Ok digest ∧ durable request (resumed_record digest) h.

Lemma resume_permitted_stable : stable resume_permitted.
Proof.
  do 4 (apply stable_exists; intros ?). apply stable_and; [apply made_stable|].
  do 3 (apply stable_and; [apply stable_pure|]). apply durable_stable.
Qed.

Lemma restore_gives digest :
  requestDigest request = Ok digest → gives (engineRun_restore request CtxRun digest) (λ _, resume_permitted).
Proof.
  intros Hd. unfold engineRun_restore. eapply gives_bind; [apply ecall_gives|]. intros loaded.
  set (X := λ h, ∃ h0, made h0 (ELoad CtxRun (engine_aggregate request) 0) h ∧
                 Returns (store_load h0 (engine_aggregate request) 0) = Returns loaded).
  assert (stable X) as HX by (apply stable_exists; intros h0; apply stable_and; [apply made_stable | apply stable_pure]).
  apply triple_lift_bind; [done|]. intros events ->.
  apply triple_lift_bind; [done|]. intros projection Hp.
  destruct (last events) as [event|] eqn:El; [|by intros s _].
  apply triple_lift_bind; [done|]. intros u1 Hst%require_Ok%String.eqb_eq.
  apply (triple_bind _ _ (λ _ s, X (engine_history s))); [by intros s Hs|]. intros s0. cbn zeta.
  set (x := restore_records digest _ (Projection_Execution projection)).
  apply (triple_bind _ _ (λ _ s, X (engine_history s))); [by intros s Hs|]. intros u2.
  apply triple_lift_bind; [done|]. intros u3 Hm%require_Ok.
  destruct (rs_checkpoint x) as [checkpoint|] eqn:Ec; [|by intros s _].
  apply triple_lift_bind; [done|]. intros u4 Ha%require_Ok%String.eqb_eq.
  apply (triple_bind _ _ (λ _ s, X (engine_history s))); [by intros s Hs|]. intros u5.
  eapply (keep_then request X) with (Q := λ _, durable request (resumed_record digest));
    [done | intros; by apply record_quiet | apply record_gives |]. intros u6.
  apply triple_deref_bind; [done|]. intros result _ s [(h0 & Hh0 & [= Hl]) Hdur].
  exists h0, events, checkpoint, digest. split_and!; try done.
  exists projection, digest, event. subst x. rewrite restore_records_match in Hm by done.
  rewrite restore_records_checkpoint in Ec. cbn [rs_checkpoint] in Ec. split_and!; try done.
  apply last_effect_boundary. by destruct (last (omap _ _)) as [[c|]|]; simplify_eq/=.
Qed.

(** Every call with an effect was permitted. *)
Definition effects_permitted (s : EngineState) : Prop :=
  ∀ h0 k, made h0 k (engine_history s) → plain k = false → resume_permitted h0.

Lemma effects_permitted_call s k :
  plain k = true ∨ resume_permitted (engine_history s) → effects_permitted s → effects_permitted (note_call k s).
Proof.
  intros Hk Hs h0 k0 [Hm|[-> ->]]%made_snoc Hp; [by apply (Hs h0 k0)|]. destruct Hk as [Hk|Hk]; [congruence | done].
Qed.

#[local] Instance effects_permitted_quiet : quiet_invariant request effects_permitted.
Proof.
  apply quiet_effects.
  - intros s s' [Hh _ _ _ _]. unfold effects_permitted. by rewrite Hh.
  - intros s k Hk. apply effects_permitted_call. by left.
Qed.

(** After that, whatever the run does is permitted. *)
Definition resumed (s : EngineState) : Prop := effects_permitted s ∧ resume_permitted (engine_history s).

#[local] Instance resumed_loop : loop_invariant request resumed.
Proof.
  assert (quiet_invariant request resumed) as HI
    by (apply (quiet_and request); [apply _ | apply stable_quiet, resume_permitted_stable]).
  assert (∀ s k, resumed s → resumed (note_call k s)) as Hc.
  { intros s k [H1 H2]. split; [apply effects_permitted_call; [by right | done]|].
    eapply resume_permitted_stable; [|exact H2]. by exists [k]. }
  assert (∀ s s', engine_history s' = engine_history s → resumed s → resumed s') as Hb.
  { intros s s' Hh. unfold resumed, effects_permitted. by rewrite Hh. }
  split; intros.
  - done.
  - apply selectPlacement_kept; [done | |]; intros s x; by apply Hb.
  - apply provider_Stream_kept; [done | |]; intros s x; [apply Hc | by apply Hb].
  - apply Recv_kept; [done|]. intros s x. by apply Hb.
  - apply Execute_kept; [done|]. intros s x. apply Hc.
  - apply Close_kept; [done | |]; intros s x; [apply Hc | by apply Hb].
Qed.

Lemma execute_resumed loop : triple effects_permitted (execute_engine loop request true) (λ _, resumed) effects_permitted.
Proof.
  unfold execute_engine. apply triple_lift_bind; [done|]. intros u1 _.
  apply triple_lift_bind; [done|]. intros digest Hd.
  apply (triple_bind _ _ (λ _, resumed)).
  { unfold start_engine. apply (triple_bind _ _ (λ _, resumed)).
    - eapply triple_conseq; [apply (triple_with effects_permitted (λ _, True)); [|by apply restore_gives] | by split | by intros a s Hs | done].
      apply restore_kept; [apply _ | |]; by intros s x.
    - intros [checkpoint deadline]. apply (triple_conseq _ resumed _ _ (λ _, resumed) _ resumed); [|done|done|by intros s [? _]].
      apply (invariant_bind resumed); [apply (plain_call request); [apply _ | done] | intros u; apply invariant_ret]. }
  intros checkpoint. apply (triple_conseq _ resumed _ _ (λ _, resumed) _ resumed); [|done|done|by intros s [? _]].
  apply (invariant_bind resumed); [apply observe_all_quiet; apply _|]. intros u.
  apply invariant_bind; [apply invariant_ret|]. intros [u'|err]; [|apply invariant_ret].
  apply run_loop_kept. apply _.
Qed.

Lemma run_resumed e loop : invariant effects_permitted (run_engine e loop request true).
Proof.
  unfold run_engine. eapply triple_bind; [apply execute_resumed|]. intros [result runErr].
  apply (triple_conseq _ resumed _ _ (λ _, resumed) _ resumed); [apply (finish_engine_kept request resumed) | done | |].
  - by intros x s [Hs _].
  - by intros s [Hs _].
Qed.

End resume.

(* ------------------------------------------------------------------ *)
(** ** Properties *)

(** C25. The scan of [restore] finds the checkpoint [e] exactly when the records end
    at it: [e] is a recorded checkpoint and no reservation, compaction or other
    loop event follows.  It accepts the request exactly when the last committed
    request has the same digest. *)
Theorem restore_scan digest l e :
  let x := restore_records digest {| rs_match := false; rs_checkpoint := None; rs_reserved := zero_SpendBound;
                                     rs_extraCalls := 0; rs_compactionUsage := zero_Usage |} l in
  (rs_checkpoint x = Some e ↔ at_boundary l e) ∧
  rs_match x = request_matches digest l ∧
  rs_reserved x = foldl spend_sum zero_SpendBound (omap (λ r, BudgetRecord_Reserved <$> Exec_Record_Budget r) l) ∧
  (rs_extraCalls x, rs_compactionUsage x) =
    foldl (λ acc c, (add64 acc.1 1, add_usage acc.2 (Compaction_Usage c))) (0, zero_Usage) (omap Exec_Record_Compaction l).
Proof.
  cbn zeta. split_and!.
  - rewrite restore_records_checkpoint. cbn [rs_checkpoint]. rewrite <-last_effect_boundary.
    by destruct (last (omap boundary_effect l)) as [[c|]|]; cbn; split; intros; simplify_eq.
  - by apply restore_records_match.
  - unfold restore_records. induction l as [|r l IH] using rev_ind; [done|].
    rewrite foldl_app, omap_app, foldl_app. cbn [foldl]. rewrite restore_record_reserved, IH.
    cbn. by destruct (Exec_Record_Budget r).
  - unfold restore_records. induction l as [|r l IH] using rev_ind; [done|].
    rewrite foldl_app, omap_app, foldl_app. cbn [foldl]. rewrite restore_record_compaction, <-IH.
    cbn. by destruct (Exec_Record_Compaction r).
Qed.

(** C8. A resumed run reaches the outside only from a committed turn boundary:
    before any provider is streamed from and any tool executed or closed, the
    stream was loaded and replays to a running workload, its last request is the
    one resumed, its records end at a checkpoint, its last event is of the same
    attempt, and the resumption is durable. *)
Theorem Resume_only_at_boundary `{Hcarriers : EngineCarriers, Henv : !EngineEnv, Hencoder : !PayloadEncoder, Hquoting : Quoting,
    Hlibrary : SchemaLibrary, Hdecoder : PayloadDecoder} e raw h0 k :
  made h0 k (engine_history (snd (Engine_Resume e raw initial_state))) → plain k = false →
  resume_permitted (normalise raw) h0.
Proof.
  assert (invariant (effects_permitted (normalise raw)) (Engine_Resume e raw)) as Hi.
  { unfold Engine_Resume, Engine_run. apply invariant_bind; [apply (plain_call (normalise raw)); [apply effects_permitted_quiet | done]|].
    intros [err|]; [apply invariant_fail|].
    destruct (Engine_Loop e) as [loop|]; [|apply invariant_fail]. destruct (_ || _); [apply invariant_fail|].
    apply invariant_lift_bind. intros request ->%check_request_Ok. apply run_resumed. }
  destruct (Engine_Resume e raw initial_state) as [r s'] eqn:E.
  refine (invariant_run _ _ _ _ _ Hi _ E h0 k). intros h k' Hm. by destruct (made_nil h k').
Qed.
