(* ===== verification/EngineCompaction.v ===== *)
(** * Compaction by the execution engine: src/context.go

    Which messages a compaction may summarise, and that a summary replaces the
    history of a turn only once its record is durable. *)

From Stdlib Require Import ZArith Lia.
From S2P Require Import Prelude Effects GoNum GoText GoJson GoHash Ident Domain Event Store Model Stream Policy Routing.
From S2P Require Import Telemetry LoopTypes Loop Execution Projection Engine EngineTurn EngineRun EngineInvariant EngineLedger.

Lemma filter_sublist {A} (f : A → bool) (l : list A) : List.filter f l `sublist_of` l.
Proof. induction l as [|x l IH]; [constructor|]. cbn [List.filter]. destruct (f x); by constructor. Qed.

Section compaction.
Context `{Hcarriers : EngineCarriers, Henv : !EngineEnv, Hencoder : !PayloadEncoder, Hquoting : Quoting}.
Context `{Hlibrary : SchemaLibrary, Hdecoder : PayloadDecoder}.
Abbreviation EE := (EM EngineState) (only parsing).
Context (request : EngineRequest).

(** The rank of a part, unlabelled parts counting as confidential. *)
Definition part_rank (part : ContentPart) : Z := classificationRank (default_class (Part_Classification part)).

(** A message that a compaction may read: none of its parts is above the
    workload. *)
Definition permitted_input (m : Message) : Prop :=
  Forall (λ part, part_rank part <= classificationRank (Eng_Classification request)) (Message_Content m).

Lemma higherClassification_rank a b :
  classificationRank (higherClassification a b) = Z.max (classificationRank a) (classificationRank (default_class b)).
Proof.
  unfold higherClassification, default_class.
  destruct (classificationRank a <? classificationRank (if b =s "" then ClassConfidential else b)) eqn:E;
    [apply Z.ltb_lt in E | apply Z.ltb_ge in E]; lia.
Qed.

Lemma message_class_rank parts class c :
  classificationRank (foldl (λ x part, higherClassification x (Part_Classification part)) class parts) <= c ↔
  classificationRank class <= c ∧ Forall (λ part, part_rank part <= c) parts.
Proof.
  revert class. induction parts as [|part parts IH]; intros class; cbn [foldl]; [rewrite Forall_nil; tauto|].
  rewrite IH, higherClassification_rank, Forall_cons. unfold part_rank. split; intros H; destruct_and!; split_and!; try done; lia.
Qed.

(** Nothing is excluded that may be read, and nothing is read that may not. *)
Lemma excluded_false m :
  0 <= classificationRank (Eng_Classification request) → excluded request m = false ↔ permitted_input m.
Proof.
  intros Hc. unfold excluded, message_class, permitted_input. rewrite Z.ltb_ge, message_class_rank.
  change (classificationRank ClassPublic) with 0. tauto.
Qed.

(** The indices left out and the messages that remain. *)
Lemma partition_messages_spec i messages :
  snd (partition_messages request i messages) = List.filter (λ m, negb (excluded request m)) messages ∧
  ∀ j, j ∈ fst (partition_messages request i messages) ↔
       ∃ n m, j = i + Z.of_nat n ∧ messages !! n = Some m ∧ excluded request m = true.
Proof.
  revert i. induction messages as [|m messages IH]; intros i; cbn [partition_messages].
  { split; [done|]. intros j. cbn. split; [by intros ?%elem_of_nil | by intros (n & m & _ & ? & _)]. }
  destruct (IH (i + 1)) as [H1 H2]. destruct (partition_messages request (i + 1) messages) as [ex inputs].
  cbn [fst snd] in *. cbn [List.filter].
  assert (∀ j, (∃ n m', j = i + Z.of_nat n ∧ (m :: messages) !! n = Some m' ∧ excluded request m' = true) ↔
               (j = i ∧ excluded request m = true) ∨ j ∈ ex) as Hsplit.
  { intros j. rewrite H2. split.
    - intros ([|n] & m' & -> & Hn & He); [left; cbn in Hn; simplify_eq; split; [lia | done]|].
      right. exists n, m'. split_and!; [lia | done | done].
    - intros [[-> He]|(n & m' & -> & Hn & He)]; [by exists 0%nat, m; split_and!; [lia|..]|].
      exists (S n), m'. split_and!; [lia | done | done]. }
  destruct (excluded request m) eqn:Em; cbn [negb fst snd]; (split; [by rewrite H1|]); intros j; rewrite Hsplit;
    rewrite ?elem_of_cons; naive_solver.
Qed.

(** A compaction whose record is durable, of permitted inputs only. *)
Definition compacted (turn : TurnContext) (messages : list Message) (h : list ECall) : Prop :=
  ∃ class text record,
    messages = [text_message class text] ∧ class = Eng_Classification request ∧ text ≠ "" ∧
    Compaction_Summary record = text_message class text ∧
    Compaction_Inputs record = snd (partition_messages request 0 (Turn_Messages turn)) ∧
    Compaction_Excluded record = fst (partition_messages request 0 (Turn_Messages turn)) ∧
    Compaction_Inputs record ≠ [] ∧
    durable request (compaction_record (Turn_Turn turn) class record) h.

(** The class of a summary is that of the workload, or the compaction fails. *)
Lemma summary_class :
  (classificationRank (Eng_Classification request) <?
   classificationRank (higherClassification (Eng_Classification request) (Eng_ModelOutputClassification request))) = false →
  higherClassification (Eng_Classification request) (Eng_ModelOutputClassification request) = Eng_Classification request.
Proof.
  unfold higherClassification. set (b := if _ =s "" then _ else _).
  destruct (classificationRank (Eng_Classification request) <? classificationRank b) eqn:E; [by rewrite E | done].
Qed.

Lemma compact_gives ctx turn r before : gives (compact request ctx turn r before) (compacted turn).
Proof.
  unfold compact. apply gives_after. intros s0. destruct (_ <=? _).
  { unfold engineRun_budgetFailure. do 2 (apply gives_after; intros ?). apply gives_fail. }
  destruct (partition_messages request 0 (Turn_Messages turn)) as [ex inputs] eqn:Ep. cbn zeta.
  destruct (Z.eqb_spec (Z.of_nat (length inputs)) 0) as [|Hi]; [apply gives_fail|].
  apply gives_after. intros size. destruct (size_overflow size); [apply gives_fail|].
  apply gives_after. intros placement. apply gives_after. intros [text usage].
  destruct (Z.eqb_spec (Z.of_nat (String.length text)) 0) as [|Ht]; [apply gives_fail|].
  destruct (_ <? _) eqn:Ec; [apply gives_fail|]. apply summary_class in Ec. rewrite Ec.
  apply gives_after. intros after. destruct (size_overflow after); [apply gives_fail|].
  eapply gives_bind; [apply record_gives|]. intros u.
  eapply triple_bind with (Q := λ _ s, durable request _ (engine_history s)); [by apply triple_modify|].
  intros u'. eapply triple_pre; [apply triple_ret|]. intros s Hd. rewrite CloneMessages_id.
  eexists _, text, _. split_and!; [done | done | | | | | | exact Hd];
    cbn [Compaction_Summary Compaction_Inputs Compaction_Excluded]; rewrite ?CloneMessages_id, ?Ep; try done; by intros ->.
Qed.

End compaction.

(* ------------------------------------------------------------------ *)
(** ** Properties *)

(** C28. When a turn is compacted, its history is replaced by one message, at the
    classification of the workload, whose record is already durable.  The
    record holds exactly the messages of the turn none of whose parts is above
    the workload, unlabelled parts counting as confidential, in their order, and
    the indices of all the others. *)
Theorem compaction_durable `{Hcarriers : EngineCarriers, Henv : !EngineEnv, Hencoder : !PayloadEncoder, Hquoting : Quoting}
    request ctx turn s messages s' :
  0 <= classificationRank (Eng_Classification request) →
  engineRun_prepareContext request ctx turn s = (Done (Some messages), s') →
  ∃ class text record,
    messages = [text_message class text] ∧ class = Eng_Classification request ∧ text ≠ "" ∧
    Compaction_Summary record = text_message class text ∧ Compaction_Inputs record ≠ [] ∧
    durable request (compaction_record (Turn_Turn turn) class record) (engine_history s') ∧
    Compaction_Inputs record `sublist_of` Turn_Messages turn ∧
    (∀ m, m ∈ Compaction_Inputs record ↔ m ∈ Turn_Messages turn ∧ permitted_input request m) ∧
    (∀ j, j ∈ Compaction_Excluded record ↔
          ∃ n m, j = Z.of_nat n ∧ Turn_Messages turn !! n = Some m ∧ ¬ permitted_input request m).
Proof.
  intros Hc. unfold engineRun_prepareContext. rewrite bind_Done. intros (size & s1 & _ & H).
  destruct (negb _); [by destruct (size_overflow size)|]. destruct (negb _); [done|].
  rewrite bind_Done in H. destruct H as (m & s2 & H & [= <- <-]).
  pose proof (λ r before, compact_gives request ctx turn r before s1 I) as Hg.
  match type of H with compact _ _ _ ?r ?b _ = _ => specialize (Hg r b) end. rewrite H in Hg.
  destruct Hg as (class & text & record & H1 & H2 & H3 & H4 & H5 & H6 & H7 & H8).
  destruct (partition_messages_spec request 0 (Turn_Messages turn)) as [Hin Hex].
  exists class, text, record. split_and!; try done.
  - rewrite H5, Hin. apply filter_sublist.
  - intros x. rewrite H5, Hin, list_elem_of_In, filter_In, negb_true_iff, <-list_elem_of_In, <-excluded_false; done.
  - intros j. rewrite H6, Hex. split; intros (n & x & Hj & Hn & He); exists n, x; split_and!; try done.
    + intros Hp%excluded_false; [congruence | done].
    + destruct (excluded request x) eqn:E; [done|]. by apply excluded_false in E.
Qed.
