(* ===== verification/EngineExample.v ===== *)
(** * The theorems on the execution engine at concrete runs

    An engine with the baseline policy, the deterministic router, an approver
    who approves, one provider and one sandboxed tool, and the witnesses of the
    properties of the engine at runs of it: a fresh run driven by a script of
    calls, and a run resumed from a stream that ends at a checkpoint. *)

From Stdlib Require Import ZArith Lia.
From S2P Require Import Prelude Effects GoNum GoText GoJson GoHash Ident Domain Event Store Model Stream Policy Routing.
From S2P Require Import Baseline Deterministic Telemetry LoopTypes Loop LoopTools LoopInvariant LoopRun Execution Projection Engine EngineTurn LoopRecords EngineRun.
From S2P Require Import EngineInvariant EngineLedger EngineSafety EngineBudget EngineChain EngineFinish EngineRestore EngineCompaction.

(* ------------------------------------------------------------------ *)
(** ** The engine *)

Definition script_carriers : EngineCarriers :=
  {| ExternalHandler := string; ExternalProvider := string; ExternalStream := string |}.

#[local] Existing Instance script_carriers.

Definition script_receives (h : list (ECall (H:=script_carriers))) : nat :=
  length (List.filter (fun k => match k with ERecv _ => true | _ => false end) h).

(** The contexts never end, the store accepts everything and loads [loaded]. *)
Definition script_env (loaded : result (list Event)) : EngineEnv (H:=script_carriers) :=
  {| context_view := fun _ _ _ => None; context_cause := fun _ _ => None; deadline := fun _ => 10000; now := fun _ => 1000;
     store_append := fun _ ref expected drafts =>
       Ok (imap (fun i d => make_event example_id ref (expected + Z.of_nat i + 1) d 10) drafts);
     store_load := fun _ _ _ => loaded;
     execution_policy := fun _ => Some (EvaluateExecution background);
     egress_policy := fun _ => Some (EvaluateDataEgress background);
     engine_router := Some (fun _ => Route (H:=example_quoting) background);
     context_counter := Some (fun _ r _ => Returns (Ok (if Z.of_nat (length (Request_Messages r)) =? 2 then 7500 else 10)));
     spend_estimator := Some (fun _ _ _ => Returns (Ok {| Spend_InputTokens := 20; Spend_OutputTokens := 20; Spend_Cost := 5 |}));
     approver := Some (fun _ _ => Returns ({| Approval_Approved := true; Approval_Actor := "operator"; Approval_Reason := "" |}, None));
     engine_providers := fun name => if name =s "p" then Some "provider" else None;
     external_name := fun _ p => Returns p;
     external_stream := fun _ _ _ => Returns (Ok (Some "stream"));
     external_recv := fun h _ => Returns (from_option Ok (Err io_EOF) (mjoin (drop 4 example_turns !! script_receives h)));
     external_close_stream := fun _ _ => Returns None;
     is_sandboxed := fun _ => true;
     prepare_sandbox := fun _ _ => Returns (Ok {| Sandbox_Established := true; Sandbox_Backend := "native" |});
     external_execute := fun _ _ _ => Returns (Ok (example_output "2"));
     external_close := fun _ _ => Panics "close";
     sandbox_events := fun _ _ => [{| SandboxEvent_Phase := "established"; SandboxEvent_Backend := "native"; SandboxEvent_PartialEffects := false |}];
     engine_schedule := fun _ n => seq 0 n;
     observer_set := true |}.

(** Encodings that name the kind of the value. *)
Definition script_encoder : PayloadEncoder (H:=script_carriers) :=
  {| encode_workload_created := fun _ => Ok "1"; encode_workload_transitioned := fun _ => Ok "2";
     encode_step_created := fun _ => Ok "4"; encode_step_transitioned := fun _ => Ok "5";
     encode_execution_record := fun r => Ok (dquote +:+ Exec_Record_Stage r +:+ dquote);
     marshal_model_request := fun _ => Ok "request"; marshal_model_event := fun _ => Ok "event";
     marshal_tool_call := fun _ => Ok "call"; marshal_messages := fun _ => Ok "messages";
     marshal_engine_request := fun _ _ => Ok "engine" |}.

Definition script_library : SchemaLibrary :=
  {| LibraryDocument := bytes; LibrarySchema := bytes; library_unmarshal := Ok; library_compile := Ok;
     library_validate := fun _ _ => Ok tt |}.

Definition script_request : EngineRequest (H:=script_carriers) :=
  {| Eng_WorkloadID := example_id; Eng_SessionID := example_id; Eng_StepID := example_id; Eng_AttemptID := example_id;
     Eng_Goal := "goal"; Eng_SourceZone := ZonePersonal; Eng_Classification := ClassInternal;
     Eng_ModelOutputClassification := ClassInternal; Eng_Initial := example_model_request None;
     Eng_Tools := [example_binding]; Eng_Requirements := zero_Requirements;
     Eng_Candidates := [example_candidate example_uuid 2 example_digest];
     Eng_Budget := {| MaxSteps := 1; MaxInputTokens := 100; MaxOutputTokens := 100; MaxModelCalls := 3; MaxToolCalls := 3;
       MaxChildSteps := 0; MaxCost := 100; MaxWallTime := 1000 |};
     Eng_Autonomous := false; Eng_ParallelTools := false |}.

Definition script_turn : TurnContext :=
  {| Turn_WorkloadID := example_id; Turn_StepID := example_id; Turn_AttemptID := example_id; Turn_Turn := 1;
     Turn_Messages := Request_Messages (example_model_request None); Turn_Usage := zero_Usage |}.

Definition script_invocation : ToolInvocation :=
  {| Invocation_WorkloadID := example_id; Invocation_StepID := example_id; Invocation_AttemptID := example_id;
     Invocation_Turn := 1; Invocation_Call := example_call |}.

#[local] Existing Instance script_encoder.
#[local] Existing Instance script_library.
#[local] Existing Instance example_quoting.
#[local] Existing Instance table_decoder.

(** A loop that selects a turn, streams from its provider and runs the tool. *)
Definition script_calls : list (Call (H:=engine_carriers)) :=
  let C := engine_carriers in
  [CallSelect (H:=C) script_turn; CallStream (H:=C) 0%nat (example_model_request None); CallRecv (H:=C) 0%nat;
   CallCloseStream (H:=C) 0%nat; CallExecute (H:=C) 0%nat script_invocation; CallCloseTool (H:=C) 0%nat].

Definition script_loop : TurnLoop := fun _ _ => (Done None, zero_LoopResult, script_calls).

Definition script_engine : EngineRun.Engine := {| Engine_Store := true; Engine_Loop := Some script_loop |}.

Definition script_loaded : result (list Event) := Err (errors_New "offline").

Definition script_run := Engine_run (Henv:=script_env script_loaded) script_engine script_request false initial_state.


Definition script_history : list (ECall (H:=script_carriers)) := engine_history (snd script_run).

(** The first [n] calls of the run, and the next. *)
Definition script_before (n : nat) : list (ECall (H:=script_carriers)) := take n script_history.

(** The call at [n], and the model request of the call that streams. *)
Definition script_at (n : nat) : ECall (H:=script_carriers) := nth n script_history ENow.

Definition streamed_request (k : ECall (H:=script_carriers)) : ModelRequest :=
  match k with EStream _ r => r | _ => example_model_request None end.

Lemma script_made n k : script_history !! n = Some k → made (script_before n) k script_history.
Proof. exact (made_lookup (Hcarriers:=script_carriers) script_history n k). Qed.

(* ------------------------------------------------------------------ *)
(** ** Witnesses at the run *)

Section witnesses.
#[local] Instance script_environment : EngineEnv (H:=script_carriers) := script_env script_loaded.

Lemma script_run_Run : script_run = Engine_Run script_engine script_request initial_state.
Proof. reflexivity. Qed.

Example tools_authorized_witness : tool_permission (normalise script_request) "handler" script_invocation (script_before 42).
Proof.
  apply (tools_authorized script_engine script_request false). apply script_made. vm_compute. reflexivity.
Defined.

Example models_authorized_witness :
  ∃ prov, prov_provider prov = "provider" ∧ provider_permission (normalise script_request) prov (script_before 22).
Proof.
  apply (models_authorized script_engine script_request false (script_before 22) "provider" (streamed_request (script_at 22))).
  apply script_made. vm_compute. reflexivity.
Defined.

Example appends_chained_witness :
  appends (script_at 13) = true ∧ chained (normalise script_request) (script_before 13) (script_at 13).
Proof.
  split; [vm_compute; reflexivity|].
  refine (proj1 (appends_chained script_engine script_request (script_before 13) (script_at 13) _)).
  unfold Engine_Run. apply script_made. vm_compute. reflexivity.
Defined.

Example Engine_run_ends_witness : fst script_run ≠ Exhausted.
Proof.
  refine (proj1 (Engine_run_ends script_engine script_request false initial_state _)). by intros loop c r [= <-].
Defined.

Example reservations_within_budget_witness :
  es_reserved (snd script_run) = {| Spend_InputTokens := 20; Spend_OutputTokens := 20; Spend_Cost := 5 |} ∧
  spend_within (es_reserved (snd script_run)) (budget_spend (normalise script_request)).
Proof.
  split; [vm_compute; reflexivity|].
  assert (spend_sized (budget_spend (normalise script_request))) as Hs by (repeat split; vm_compute; discriminate).
  assert (Budget_Validate (Eng_Budget script_request) = Ok tt) as Hb by reflexivity.
  rewrite script_run_Run. apply (proj1 (reservations_within_budget script_engine script_request Hs Hb)).
Defined.

Example Engine_run_finalises_witness :
  ∃ x s0 r v, comes_to script_loop (normalise script_request) false (note_call (EContext CtxCaller) initial_state) x s0 ∧
    ends_as (was_cancelled x) (went_wrong x) v ∧ (es_storeErr s0 ≠ None ∨ end_sent (normalise script_request) (es_cause s0) r v script_history).
Proof.
  assert (match fst script_run with Done _ => true | _ => false end = true) as E by (vm_compute; reflexivity).
  unfold script_history. destruct script_run as [[[p err]| | |] s'] eqn:Er; try discriminate E.
  unfold script_run in Er. apply Engine_run_finalises in Er as (loop & x & s0 & r & v & Hloop & Hx & _ & Hv & Hsent & _).
  injection Hloop as <-. by exists x, s0, r, v.
Defined.

(** A stream of another zone that has handed on one event. *)
Definition script_remote : engineModelStream (H:=script_carriers) :=
  {| strm_stream := "stream"; strm_zone := ZoneManagedCloud; strm_turn := 1;
     strm_bound := {| Spend_InputTokens := 20; Spend_OutputTokens := 20; Spend_Cost := 5 |}; strm_used := zero_SpendBound |}.

Definition script_receiving : EngineState :=
  let s := initial_state in {| s with engine_history := [ERecv "stream"]; es_streams := [script_remote] |}.

Definition script_text : ModelEvent := example_event ModelEventTextDelta 2 "done" "".
Definition script_received := engineModelStream_Recv script_request CtxLoop 0 script_receiving.

Example Recv_releases_witness : event_released script_request script_remote script_text (engine_history (snd script_received)).
Proof.
  assert (fst script_received = Done script_text) as E by (vm_compute; reflexivity).
  destruct (Recv_releases script_request CtxLoop 0 script_receiving script_text (snd script_received)) as (x & Hx & _ & H).
  { rewrite <-E. exact (surjective_pairing script_received). }
  injection Hx as <-. apply H; [reflexivity | discriminate].
Defined.

(** A turn whose second message is secret, in a context it no longer fits. *)
Definition script_messages : list Message := [text_message ClassPublic "hi"; text_message ClassSecret "token"].

Definition compacted_request : EngineRequest (H:=script_carriers) :=
  let r := script_request in
  let initial := example_model_request None in
  {| r with Eng_Initial := {| initial with Request_AutomaticCompaction := true |} |}.

Definition compacted_turn : TurnContext := let turn := script_turn in {| turn with Turn_Messages := script_messages |}.

Definition script_compacted := engineRun_prepareContext compacted_request CtxLoop compacted_turn initial_state.

Example compaction_durable_witness :
  ∃ record, Compaction_Summary record = text_message ClassInternal "done" ∧
    durable compacted_request (compaction_record 1 ClassInternal record) (engine_history (snd script_compacted)) ∧
    (1 ∈ Compaction_Excluded record ↔
      ∃ n m, 1 = Z.of_nat n ∧ script_messages !! n = Some m ∧ ¬ permitted_input compacted_request m).
Proof.
  assert (fst script_compacted = Done (Some [text_message ClassInternal "done"])) as E by (vm_compute; reflexivity).
  destruct (compaction_durable compacted_request CtxLoop compacted_turn initial_state
    [text_message ClassInternal "done"] (snd script_compacted))
    as (class & text & record & H1 & H2 & _ & H4 & _ & H6 & _ & _ & H8).
  { vm_compute. discriminate. }
  { rewrite <-E. exact (surjective_pairing script_compacted). }
  cbn in H2. subst class. injection H1 as <-. exists record. split_and!; [exact H4 | exact H6 | exact (H8 1)].
Defined.
End witnesses.

(* ------------------------------------------------------------------ *)
(** ** A stream that ends at a checkpoint, and its resumption *)

Definition checkpoint_result : LoopResult :=
  let r := zero_LoopResult in {| r with LoopResult_ModelCalls := 1; LoopResult_ToolCalls := 1; LoopResult_Stop := StopToolUse |}.

Definition checkpoint_event (n : Z) (type : string) : LoopEvent :=
  {| LoopEvent_Checkpoint := if type =s LoopEventCheckpoint then Some checkpoint_result else None; LoopEvent_Sequence := n;
     LoopEvent_Type := type; LoopEvent_Turn := 1; LoopEvent_Model := {| ModelRef_Provider := "p"; ModelRef_Model := "m" |};
     LoopEvent_ModelEvent := None;
     LoopEvent_Message := if type =s LoopEventMessageAppended
       then Some {| Message_Role := RoleTool; Message_Content := tool_content [example_call]
                      [{| execution_output := example_output "2"; execution_failure := None |}] |} else None;
     LoopEvent_ToolCall := None; LoopEvent_ToolOutput := None; LoopEvent_FailureCode := ""; LoopEvent_Stop := "" |}.

Definition resumed_record_of (turn : Z) (stage : string) : ExecutionRecord :=
  let r := execution_record turn stage in
  {| r with Exec_Record_StepID := example_id; Exec_Record_Classification := ClassInternal |}.

Definition resumed_loop (n : Z) (type : string) : ExecutionRecord :=
  let r := resumed_record_of 1 ExecutionLoopEvent in {| r with Exec_Record_Loop := Some (checkpoint_event n type) |}.

(** The records of the stream, by the payload that decodes to them. *)
Definition resumed_records : list (bytes * ExecutionRecord) :=
  let request := resumed_record_of 0 ExecutionRequest in
  let routing := resumed_record_of 1 ExecutionRoutingDecided in
  let decision := match Route background example_route_request with Some (d, _) => Some d | None => None end in
  [("10", {| request with Exec_Record_RequestSHA256 := sha256_hex "engine" |});
   ("11", {| routing with Exec_Record_Routing :=
        (fun d => {| Routing_Request := example_route_request; Routing_Decision := d |}) <$> decision |});
   ("12", resumed_loop 1 LoopEventTurnStarted);
   ("13", resumed_loop 2 LoopEventMessageAppended);
   ("14", resumed_loop 3 LoopEventCheckpoint)].

Definition resumed_step (b : bytes) : result StepTransitionedPayload :=
  let move from to := Ok {| STransition_StepID := example_id; STransition_From := from; STransition_To := to |} in
  if b =s "6" then move StepPending StepReady
  else if b =s "7" then move StepReady StepLeased
  else if b =s "8" then move StepLeased StepRunning
  else Err (errors_New "decode event payload").

Definition resumed_decoder : PayloadDecoder :=
  {| decode_workload_created := decode_workload_created (PayloadDecoder:=table_decoder);
     decode_workload_transitioned := decode_workload_transitioned (PayloadDecoder:=table_decoder);
     decode_step_created := decode_step_created (PayloadDecoder:=table_decoder);
     decode_step_transitioned := resumed_step;
     decode_execution_record := fun b =>
       match List.find (fun x => fst x =s b) resumed_records with
       | Some x => Ok (snd x)
       | None => Err (errors_New "decode event payload")
       end |}.

Definition resumed_events : list Event :=
  imap (fun i d => make_event example_id example_ref (Z.of_nat i + 1)
          {| Draft_Type := fst d; Draft_SchemaVersion := 1; Draft_CausationID := ""; Draft_CorrelationID := example_id;
             Draft_AttemptID := example_id; Draft_Payload := snd d |} 10)
    ([(EventTypeWorkloadCreated, "1"); (EventTypeWorkloadTransitioned, "2"); (EventTypeStepCreated, "4");
      (EventTypeStepTransitioned, "6"); (EventTypeStepTransitioned, "7"); (EventTypeStepTransitioned, "8")] ++
     ((fun x => (EventTypeExecutionRecorded, fst x)) <$> resumed_records)).

Section resumption.
#[local] Instance resumed_environment : EngineEnv (H:=script_carriers) := script_env (Ok resumed_events).
#[local] Existing Instance resumed_decoder | 0.

Definition resumed_run := Engine_run (Hdecoder:=resumed_decoder) script_engine script_request true initial_state.
Definition resumed_history : list (ECall (H:=script_carriers)) := engine_history (snd resumed_run).

Example Resume_only_at_boundary_witness :
  plain (nth 20 resumed_history ENow) = false ∧ resume_permitted (normalise script_request) (take 20 resumed_history).
Proof.
  split; [vm_compute; reflexivity|].
  apply (Resume_only_at_boundary script_engine script_request (take 20 resumed_history) (nth 20 resumed_history ENow)).
  - unfold Engine_Resume. exact (made_lookup resumed_history 20 (nth 20 resumed_history ENow) ltac:(vm_compute; reflexivity)).
  - vm_compute. reflexivity.
Defined.
End resumption.

(* ------------------------------------------------------------------ *)
(** ** The events of the loop in the records of the engine *)

Definition example_events : list LoopEvent := recorded (history (snd example_run)).

(** The records before the ninth event: the routing of the turn, and the events. *)
Definition example_recorded : list ExecutionRecord :=
  let routing := execution_record 1 ExecutionRoutingDecided in
  {| routing with Exec_Record_StepID := example_id;
     Exec_Record_Routing := Some {| Routing_Request := example_route_request;
       Routing_Decision := let decision := zero_RoutingDecision in {| decision with Decision_SelectedCandidateID := example_uuid2 |} |} |}
  :: map (recorded_event script_request) (take 8 example_events).

Definition example_envelope : Event :=
  make_event example_id {| Ref_Type := WorkloadAggregateType; Ref_ID := example_id |} 1
    {| Draft_Type := EventTypeExecutionRecorded; Draft_SchemaVersion := 1; Draft_CausationID := example_id;
       Draft_CorrelationID := example_id; Draft_AttemptID := example_id; Draft_Payload := "" |} 0.

(** The ninth event is the checkpoint of the first turn. *)
Example Run_events_accepted_witness :
  ∃ e, example_events !! 8%nat = Some e ∧ LoopEvent_Type e = LoopEventCheckpoint ∧
    check_record example_id example_envelope example_recorded (recorded_event script_request e) = Ok tt.
Proof.
  assert (∃ e, example_events !! 8%nat = Some e ∧ LoopEvent_Type e = LoopEventCheckpoint ∧ LoopEvent_Turn e = 1 ∧
    LoopEvent_Model e = {| ModelRef_Provider := "p"; ModelRef_Model := "m" |}) as (e & He & Ht & Hturn & Hm).
  { eexists. split; [vm_compute; reflexivity|]. by split_and!. }
  exists e. split_and!; [done | done |].
  rewrite (Run_events_accepted (H0:=example_calm) 4 10 example_loop_request (fst example_run) (snd example_run) 8 e []
    script_request example_id example_envelope example_recorded example_started example_sized).
  - rewrite Hturn, Ht. unfold check_placement, placement_matches. rewrite Hm. vm_compute. reflexivity.
  - by vm_compute.
  - apply surjective_pairing.
  - vm_compute. discriminate.
  - done.
  - by vm_compute.
  - exact He.
  - intros _ h k c selection messages Hs. cbn in Hs. by injection Hs as <-.
  - reflexivity.
  - vm_compute. reflexivity.
  - reflexivity.
  - reflexivity.
  - reflexivity.
Defined.
