(* ===== verification/Sse.v ===== *)
(** * Server-sent events: what src/provider/openaicompat/stream.go and
    src/provider/anthropic/stream.go have in common

    The two packages each have their own copy of the line scanner, of the queue
    of numbered events, of the wait for the next server-sent event and of the
    loop of [Recv].  They are modelled once here, over any state that contains
    a [StreamBase].

    The body of a response is what reading it to its end delivers.  Contexts
    and the [select] of [nextSSE] answer by a count of the looks at them, so
    they may end at any moment; the body is closed by the first [Close]. *)

From Stdlib Require Import ZArith Lia Ascii.
From S2P Require Import Prelude Effects GoNum GoText Model Stream.

(* ------------------------------------------------------------------ *)
(** ** bufio.Scanner with ScanLines *)

(** The bytes of a body, the error after them (none is io.EOF), and whether the
    last bytes come with the end. *)
Record Body : Type := {
  body_bytes : bytes;
  body_error : option error;
  body_end_with_data : bool;
}.

Definition ErrTooLong : error := Sentinel "bufio.Scanner: token too long".

Definition dropCR (line : string) : string := strings_TrimSuffix line carriage_return.

(** The lines [Scan] delivers and what [Err] returns after the last: [line] is
    the part of a line already read, and a line must fit in a buffer of [limit]
    bytes with its end. *)
Fixpoint scan_lines (body : Body) (limit : Z) (line rest : string) : list string * option error :=
  match rest with
  | EmptyString =>
      let n := Z.of_nat (String.length line) in
      if n =? 0 then ([], body_error body)
      else if (limit <? n) || ((n =? limit) && negb (body_end_with_data body)) then ([], Some ErrTooLong)
      else ([dropCR line], body_error body)
  | String c rest' =>
      if Ascii.eqb c (Ascii.ascii_of_nat 10)
      then
        if limit <=? Z.of_nat (String.length line) then ([], Some ErrTooLong)
        else let '(lines, err) := scan_lines body limit "" rest' in (dropCR line :: lines, err)
      else scan_lines body limit (line +:+ String c "") rest'
  end.

(** [sseDecoder]: the lines still to be scanned and the error after them. *)
Record sseDecoder : Type := {
  dec_lines : list string;
  dec_err : option error;
  dec_maxEventBytes : Z;
  dec_exhausted : bool;
}.

(** The largest token: the buffer starts at [initial] bytes and grows to the
    maximum given to [Buffer], if that is more. *)
Definition scan_limit (maxEventBytes : Z) : Z :=
  let initial := if maxEventBytes <? 65536 then maxEventBytes else 65536 in
  Z.max initial (add64 maxEventBytes 1).

Definition newSSEDecoder (body : Body) (maxEventBytes : Z) : sseDecoder :=
  let '(lines, err) := scan_lines body (scan_limit maxEventBytes) "" (body_bytes body) in
  {| dec_lines := lines; dec_err := err; dec_maxEventBytes := maxEventBytes; dec_exhausted := false |}.

(** One more data line after [data]: the bytes it adds and the data with it. *)
Definition additional_bytes (data value : string) : Z :=
  let n := Z.of_nat (String.length value) in
  if 0 <? Z.of_nat (String.length data) then n + 1 else n.

Definition append_line (data value : string) : string :=
  (if 0 <? Z.of_nat (String.length data) then data +:+ newline else data) +:+ value.

(* ------------------------------------------------------------------ *)
(** ** The events both packages make *)

(** An event with its number. *)
Definition numbered (event : ModelEvent) (k : Z) : ModelEvent := {| event with ModelEvent_Sequence := k |}.

(** An event of a type with nothing else set. *)
Definition empty_event (type : string) : ModelEvent :=
  {| ModelEvent_Type := type; ModelEvent_Sequence := 0; ModelEvent_Text := ""; ModelEvent_ToolCallDelta := None;
     ModelEvent_ToolCall := None; ModelEvent_Usage := None; ModelEvent_Stop := ""; ModelEvent_Error := None;
     ModelEvent_Extension := None |}.

Definition text_event (text : string) : ModelEvent :=
  let e := empty_event ModelEventTextDelta in {| e with ModelEvent_Text := text |}.
Definition delta_event (delta : ToolCallDelta) : ModelEvent :=
  let e := empty_event ModelEventToolCallDelta in {| e with ModelEvent_ToolCallDelta := Some delta |}.
Definition call_event (call : ToolCall) : ModelEvent :=
  let e := empty_event ModelEventToolCall in {| e with ModelEvent_ToolCall := Some call |}.
Definition usage_event (usage : Usage) : ModelEvent :=
  let e := empty_event ModelEventUsage in {| e with ModelEvent_Usage := Some usage |}.
Definition stop_event (stop : string) : ModelEvent :=
  let e := empty_event ModelEventStop in {| e with ModelEvent_Stop := stop |}.

(** The event both packages make of an error the provider reports. *)
Definition provider_error_event : ModelEvent :=
  let e := empty_event ModelEventError in
  {| e with ModelEvent_Error := Some {| ModelError_Code := "provider_error"; ModelError_Message := "provider reported an error";
                                        ModelError_Retryable := false; ModelError_SafeToReroute := false |} |}.

(* ------------------------------------------------------------------ *)
(** ** What a stream shares: its context, body and queue *)

Record StreamBase : Type := {
  sb_tick : nat;
  sb_closed : bool;
  sb_body_closes : nat;
  sb_sequence : Z;
  sb_queue : list ModelEvent;
  sb_done : bool;
}.

(** How the [select] of [nextSSE] goes on: the decoder answered, or one of the
    two contexts ended first, with its error. *)
Inductive SelectBranch : Type :=
| BranchResult
| BranchCaller (err : error)
| BranchStream (err : error).

Class StreamEnv := {
  caller_err : nat → option error;
  parent_err : nat → option error;
  select_branch : nat → SelectBranch;
  body_close_err : option error;
}.

(** A state with the fields of [StreamBase]. *)
Class HasBase (S : Type) := {
  base : S → StreamBase;
  on_base : (StreamBase → StreamBase) → S → S;
  base_on_base : ∀ f s, base (on_base f s) = f (base s);
}.

Definition new_base : StreamBase :=
  {| sb_tick := 0; sb_closed := false; sb_body_closes := 0; sb_sequence := 0; sb_queue := []; sb_done := false |}.

Definition ErrSSEProtocol (package : string) : error := Sentinel ("invalid " +:+ package +:+ " event stream").

Section streams.
Context {S : Type} `{HasBase S, StreamEnv}.

Definition get_base : EM S StreamBase := s ← lm_get; mret (base s).

(** One look at something that may change at any moment. *)
Definition look {A} (f : nat → A) : EM S A :=
  b ← get_base;
  lm_modify (on_base (fun b => {| b with sb_tick := Nat.succ (sb_tick b) |})) ;;
  mret (f (sb_tick b)).

(** [ctx.Err()] and [stream.ctx.Err()]: the latter was cancelled by [Close]. *)
Definition caller_Err : EM S (option error) := look caller_err.

Definition stream_Err : EM S (option error) :=
  b ← get_base;
  err ← look parent_err;
  mret (if sb_closed b then Some (default Canceled err) else err).

Definition stream_Close : EM S (option error) :=
  b ← get_base;
  (if sb_closed b then mret tt
   else lm_modify (on_base (fun b => {| b with sb_closed := true; sb_body_closes := Nat.succ (sb_body_closes b) |}))) ;;
  mret body_close_err.

(** [nextSSE], given the decoder's [Next]. *)
Definition stream_nextSSE {A} (next : EM S A) : EM S A :=
  branch ← look select_branch;
  match branch with
  | BranchResult =>
      answer ← attempt next;
      err ← caller_Err;
      match err with
      | Some e => stream_Close ;; lm_fail e
      | None => lm_lift answer
      end
  | BranchCaller e => stream_Close ;; lm_fail e
  | BranchStream e => stream_Close ;; lm_fail e
  end.

Definition stream_enqueue (event : ModelEvent) : EM S unit :=
  lm_modify (on_base (fun b =>
    let sequence := wrapu64 (sb_sequence b + 1) in
    {| b with sb_sequence := sequence; sb_queue := sb_queue b ++ [numbered event sequence] |})).

Definition stream_done : EM S unit := lm_modify (on_base (fun b => {| b with sb_done := true |})).

(** The error of [nextSSE] as [Recv] returns it. *)
Definition stream_receive_error {A} (package missing_end : string) (err : error) : EM S A :=
  stopped ← stream_Err;
  match stopped with
  | Some e => lm_fail e
  | None =>
      cancelled ← caller_Err;
      match cancelled with
      | Some e => lm_fail e
      | None =>
          if errors_Is err "EOF" then lm_fail (Errorf missing_end [ErrSSEProtocol package])
          else lm_fail (Errorf "" [ErrSSEProtocol package])
      end
  end.

(** The loop of [Recv] until there is an event: [round] is its body. *)
Fixpoint stream_fill (round : EM S unit) (fuel : nat) : EM S unit :=
  match fuel with
  | O => lm_exhausted
  | Datatypes.S fuel' =>
      b ← get_base;
      match sb_queue b with
      | _ :: _ => mret tt
      | [] => if sb_done b then lm_fail io_EOF else round ;; stream_fill round fuel'
      end
  end.

(** [Recv] *)
Definition stream_Recv (package : string) (round : EM S unit) (fuel : nat) : EM S ModelEvent :=
  cancelled ← caller_Err;
  match cancelled with
  | Some e => lm_fail e
  | None =>
      stopped ← stream_Err;
      match stopped with
      | Some e => lm_fail e
      | None =>
          stream_fill round fuel ;;
          b ← get_base;
          event ← deref (head (sb_queue b));
          lm_modify (on_base (fun b => {| b with sb_queue := tail (sb_queue b) |})) ;;
          match ModelEvent_Validate event with
          | Ok _ => mret (ModelEvent_Clone event)
          | Err _ => lm_fail (Errorf "generated event" [ErrSSEProtocol package])
          end
      end
  end.

End streams.

(* ------------------------------------------------------------------ *)
(** ** The events of a stream so far *)

(** [sent] was handed on and the queue follows it: numbered from 1, the start
    event first, a terminal event only at the end, which [t] tells. *)
Record flow (t : bool) (sent : list ModelEvent) (b : StreamBase) : Prop := {
  fl_sequence : sb_sequence b = wrapu64 (Z.of_nat (length (sent ++ sb_queue b)));
  fl_numbers : ∀ i e, (sent ++ sb_queue b) !! i = Some e → ModelEvent_Sequence e = wrapu64 (Z.of_nat i + 1);
  fl_start : ∀ i e, (sent ++ sb_queue b) !! i = Some e → (ModelEvent_Type e = ModelEventStart ↔ i = 0%nat);
  fl_terminal : ∀ i e, (sent ++ sb_queue b) !! i = Some e → is_terminal e = true →
    t = true ∧ Datatypes.S i = length (sent ++ sb_queue b);
  fl_last : t = true → ∃ e, last (sent ++ sb_queue b) = Some e ∧ is_terminal e = true;
  fl_valid : Forall (λ e, ModelEvent_Validate e = Ok tt) sent;
}.

Lemma flow_prefix t sent b : flow t sent b → Z.of_nat (length sent) < uint64_mod → protocol_prefix sent.
Proof.
  intros [_ Hn Hs Ht _ Hv] Hlen i e Hi. pose proof (lookup_lt_Some _ _ _ Hi) as Hlt.
  assert ((sent ++ sb_queue b) !! i = Some e) as Ha by (by apply lookup_app_l_Some).
  rewrite Forall_lookup in Hv. split_and!; [by eapply Hv | | by eapply Hs |].
  - rewrite (Hn _ _ Ha), wrapu64_id; [done | unfold is_uint64; lia].
  - intros Hterm. destruct (Ht _ _ Ha Hterm) as [_ He]. rewrite length_app in He. lia.
Qed.

Lemma flow_complete sent b :
  flow true sent b → sb_queue b = [] → Z.of_nat (length sent) < uint64_mod → protocol_complete sent.
Proof.
  intros H Hq Hlen. split; [by eapply flow_prefix|]. destruct (fl_last _ _ _ H) as (e & He & Ht); [done|].
  rewrite Hq, app_nil_r in He. by exists e.
Qed.

(** Handing on the first event of the queue. *)
Lemma flow_shift t sent b e q b' :
  flow t sent b → sb_queue b = e :: q → sb_queue b' = q → sb_sequence b' = sb_sequence b → ModelEvent_Validate e = Ok tt →
  flow t (sent ++ [e]) b'.
Proof.
  intros [H1 H2 H3 H4 H5 H6] Hq Hq' Hs Hv.
  assert ((sent ++ [e]) ++ sb_queue b' = sent ++ sb_queue b) as E by (by rewrite Hq, Hq', <-app_assoc).
  split; rewrite ?E; try done; [by rewrite Hs|]. apply Forall_snoc. done.
Qed.

Lemma flow_enqueue sent b event n b' :
  flow false sent b →
  (ModelEvent_Type event = ModelEventStart ↔ sent ++ sb_queue b = []) →
  n = wrapu64 (sb_sequence b + 1) → sb_sequence b' = n → sb_queue b' = sb_queue b ++ [numbered event n] →
  flow (is_terminal event) sent b'.
Proof.
  intros [H1 H2 H3 H4 _ H6] Hst Hn Hs Hq. set (x := numbered event n) in *.
  set (l := sent ++ sb_queue b) in *.
  assert (sent ++ sb_queue b' = l ++ [x]) as E by (unfold l; by rewrite Hq, app_assoc).
  assert (n = wrapu64 (Z.of_nat (length l) + 1)) as Hx.
  { rewrite Hn, H1. unfold wrapu64. by rewrite Zplus_mod_idemp_l. }
  assert (is_terminal x = is_terminal event) as Hterm by done.
  split; rewrite ?E; try done.
  - rewrite length_app, Hs, Hx. f_equal. cbn. lia.
  - intros i e [Hi|[-> <-]]%lookup_snoc; [by apply H2 | exact Hx].
  - intros i e [Hi|[-> <-]]%lookup_snoc; [by apply H3|]. change (ModelEvent_Type x) with (ModelEvent_Type event).
    rewrite Hst. split; [by intros -> | by intros ?%length_zero_iff_nil].
  - intros i e [Hi|[-> <-]]%lookup_snoc Ht; [by destruct (H4 _ _ Hi Ht)|].
    split; [done|]. rewrite length_app. cbn. lia.
  - intros Ht. exists x. by rewrite last_snoc.
Qed.

(** An event without its number. *)
Definition payload (e : ModelEvent) : ModelEvent := numbered e 0.

(** The fragments among events. *)
Definition deltas_of (events : list ModelEvent) : list ToolCallDelta := omap ModelEvent_ToolCallDelta events.

(* ------------------------------------------------------------------ *)
(** ** The interface of the two kinds of streams *)

(** A kind of streams: the body of the loop of its [Recv], a bound on how often
    it can still run, and whether a first event was queued. *)
Class SseStream (S : Type) `{HasBase S} := {
  sse_package : string;
  sse_round : EM S unit;
  sse_weight : S → nat;
  sse_started : S → bool;
}.

(** What relates the events sent and queued so far to the rest of the state. *)
Class SseSpec (S : Type) := { sse_inv : list ModelEvent → S → Prop }.

Section interface.
Context {S : Type} `{SseStream S, SseSpec S}.

(** All events so far: those handed on and those queued. *)
Definition events_of (sent : list ModelEvent) (s : S) : list ModelEvent := sent ++ sb_queue (base s).

Definition flowing (sent : list ModelEvent) (s : S) : Prop :=
  flow (sb_done (base s)) sent (base s) ∧ (sse_started s = true ↔ events_of sent s ≠ []) ∧ sse_inv (events_of sent s) s.

(** A relation of events and state that does not depend on the shared fields. *)
Definition framed (I : list ModelEvent → S → Prop) : Prop := ∀ all f s, I all s → I all (on_base f s).

(** A property that does not depend on contexts and the body. *)
Definition undisturbed (P : S → Prop) : Prop :=
  ∀ f s, (∀ b, sb_queue (f b) = sb_queue b ∧ sb_sequence (f b) = sb_sequence b ∧ sb_done (f b) = sb_done b) →
    P s → P (on_base f s).

End interface.

(** Nothing else in the state depends on the shared fields. *)
Class SseFrame (S : Type) `{SseStream S, SseSpec S} : Prop := {
  weight_on_base : ∀ f (s : S), sse_weight (on_base f s) = sse_weight s;
  started_on_base : ∀ f (s : S), sse_started (on_base f s) = sse_started s;
  inv_framed : framed (sse_inv (S:=S));
}.

(** A failure that is not the end of the stream. *)
Definition sse_failed {S : Type} (e : error) (_ : S) : Prop := errors_Is e "EOF" = false.

(** What a kind of streams promises: a round keeps the events well formed, takes
    something from what is left to read, and does not fail with io.EOF. *)
Class SseLaws (S : Type) `{SseStream S, !SseSpec S} : Prop := {
  sse_frame :: SseFrame S;
  round_total : ∀ sent n,
    total (λ s : S, flowing sent s ∧ sb_done (base s) = false ∧ sse_weight s = n) sse_round
      (λ _ s, flowing sent s ∧ (sse_weight s < n)%nat) sse_failed;
}.

(** Errors of contexts are [Canceled] or [DeadlineExceeded], not io.EOF. *)
Class EnvLaws `{StreamEnv} : Prop := {
  caller_not_EOF : ∀ n e, caller_err n = Some e → errors_Is e "EOF" = false;
  parent_not_EOF : ∀ n e, parent_err n = Some e → errors_Is e "EOF" = false;
}.

Section theory.
Context {S : Type} `{Hbase : HasBase S, Henv : StreamEnv}.

Lemma look_total {A} (f : nat → A) P (F : error → S → Prop) :
  undisturbed P → total P (look f) (λ a s, (∃ n, a = f n) ∧ P s) F.
Proof.
  intros HP. unfold look, get_base. eapply total_bind; [eapply total_bind; [apply total_get|]|].
  { intros s0. apply (total_ret _ _ (λ b s, P s)). by intros s [-> Hs]. }
  intros b. eapply total_bind; [apply (total_modify _ _ (λ _ s, P s)); intros s Hs; by apply HP|].
  intros u. apply total_ret. intros s Hs. split; [by eexists | done].
Qed.

Lemma caller_Err_total P (F : error → S → Prop) :
  undisturbed P → total P caller_Err (λ a s, (∃ n, a = caller_err n) ∧ P s) F.
Proof. apply look_total. Qed.

Lemma stream_Err_total P (F : error → S → Prop) :
  undisturbed P → total P stream_Err (λ a s, (∀ e, a = Some e → e = Canceled ∨ ∃ n, parent_err n = Some e) ∧ P s) F.
Proof.
  intros HP. unfold stream_Err, get_base. eapply total_bind; [eapply total_bind; [apply total_get|]|].
  { intros s0. apply (total_ret _ _ (λ b s, P s)). by intros s [-> Hs]. }
  intros b. eapply total_bind; [by apply (look_total _ P)|]. intros err. apply total_ret. intros s [[n ->] Hs].
  split; [|done]. intros e. destruct (sb_closed b), (parent_err n) as [x|] eqn:E; cbn; intros [= <-]; eauto.
Qed.

Lemma stream_Close_total P (F : error → S → Prop) :
  undisturbed P → total P stream_Close (λ _, P) F.
Proof.
  intros HP. unfold stream_Close, get_base. eapply total_bind; [eapply total_bind; [apply total_get|]|].
  { intros s0. apply (total_ret _ _ (λ b s, P s)). by intros s [-> Hs]. }
  intros b. eapply (total_bind _ _ (λ _, P)); [|intros _; by apply total_ret].
  destruct (sb_closed b); [by apply total_ret|]. apply total_modify. intros s Hs. by apply HP.
Qed.

(** [nextSSE] does what the decoder does, or closes the stream and fails. *)
Lemma stream_nextSSE_total {A} (next : EM S A) P Q :
  (∀ a, undisturbed (Q a)) → undisturbed P →
  total P next Q (λ _ _, True) → total P (stream_nextSSE next) Q (λ _ _, True).
Proof.
  intros HQ HP Hn. unfold stream_nextSSE. eapply total_bind; [by apply (look_total _ P)|].
  assert (undisturbed (λ _ : S, True)) as HT by done.
  assert (∀ (e : error) (G : A → S → Prop), total (λ _, True) (stream_Close ;; lm_fail e) G (λ _ _, True)) as Hclose.
  { intros e G. eapply total_bind; [by apply (stream_Close_total (λ _, True))|]. intros ?. by apply total_fail. }
  intros [|e|e]; [|eapply total_pre; [apply Hclose|done]..].
  eapply total_bind; [eapply (total_pre _ P); [apply total_attempt, Hn | by intros s [_ Hs]]|].
  intros r. cbn beta. eapply total_bind.
  { apply (caller_Err_total (λ s, match r with Ok a => Q a s | Err _ => True end)).
    intros f s Hf Hs. destruct r; [by apply HQ | done]. }
  intros [e|]; [eapply total_pre; [apply Hclose | done]|].
  apply total_lift; intros x -> s [_ Hs]; done.
Qed.

Lemma receive_error_total {A} package missing_end err (Q : A → S → Prop) :
  EnvLaws → total (λ _, True) (stream_receive_error package missing_end err) Q sse_failed.
Proof.
  intros Hlaws. assert (undisturbed (λ _ : S, True)) as HT by done.
  unfold stream_receive_error. eapply total_bind; [by apply (stream_Err_total (λ _, True))|].
  intros [e|].
  { apply total_fail. intros s [He Hs]. destruct (He e eq_refl) as [->|[n Hn]]; [done|].
    by eapply parent_not_EOF. }
  eapply total_bind; [eapply (total_pre _ (λ _, True)); [by apply (caller_Err_total (λ _, True)) | done]|].
  intros [e|].
  { apply total_fail. intros s [[n Hn] Hs]. by eapply caller_not_EOF. }
  destruct (errors_Is err "EOF"); apply total_fail; intros s [_ Hs];
    unfold sse_failed, ErrSSEProtocol; cbn -[String.eqb String.append]; by rewrite orb_false_r.
Qed.

End theory.

(* ------------------------------------------------------------------ *)
(** ** Rounds *)

Section rounds.
Context {S : Type} `{Hbase : HasBase S, Henv : StreamEnv, Hstream : !SseStream S, Hspec : !SseSpec S, Hframe : !SseFrame S}.
Implicit Types I J : list ModelEvent → S → Prop.

Lemma flow_base t sent b b' :
  sb_queue b' = sb_queue b → sb_sequence b' = sb_sequence b → flow t sent b → flow t sent b'.
Proof. intros Hq Hs [H1 H2 H3 H4 H5 H6]. split; rewrite ?Hq, ?Hs; done. Qed.

Lemma flowing_undisturbed sent : undisturbed (flowing (S:=S) sent).
Proof.
  intros f s Hf (H1 & H2 & H3). unfold flowing, events_of. rewrite base_on_base, started_on_base.
  destruct (Hf (base s)) as (Hq & Hs & Hd). rewrite Hq, Hd. split_and!; [by eapply flow_base | done | by apply inv_framed].
Qed.

Lemma weight_undisturbed n : undisturbed (λ s : S, sse_weight s = n).
Proof. intros f s _ Hs. by rewrite weight_on_base. Qed.

(** A stream before the next round. *)
Definition sse_ready (sent : list ModelEvent) (n : nat) (s : S) : Prop :=
  flowing sent s ∧ sb_done (base s) = false ∧ sse_weight s = n.

(** A stream that has not ended, with less than [n] left to read. *)
Definition sse_live (sent : list ModelEvent) (n : nat) (s : S) : Prop :=
  flowing sent s ∧ sb_done (base s) = false ∧ (sse_weight s < n)%nat.

(** One that has started, too, where [I] holds in the middle of a round. *)
Definition sse_open I (sent : list ModelEvent) (n : nat) (s : S) : Prop :=
  flow false sent (base s) ∧ sse_started s = true ∧ events_of sent s ≠ [] ∧ I (events_of sent s) s ∧
  sb_done (base s) = false ∧ (sse_weight s < n)%nat.

(** How a round may end. *)
Definition sse_after (sent : list ModelEvent) (n : nat) (s : S) : Prop := flowing sent s ∧ (sse_weight s < n)%nat.

Lemma ready_undisturbed sent n : undisturbed (sse_ready sent n).
Proof.
  intros f s Hf (H1 & H2 & H3). unfold sse_ready. rewrite base_on_base, weight_on_base.
  destruct (Hf (base s)) as (_ & _ & ->). split_and!; try done. by apply flowing_undisturbed.
Qed.

Lemma live_undisturbed sent n : undisturbed (sse_live sent n).
Proof.
  intros f s Hf (H1 & H2 & H3). unfold sse_live. rewrite base_on_base, weight_on_base.
  destruct (Hf (base s)) as (_ & _ & ->). split_and!; try done. by apply flowing_undisturbed.
Qed.

Lemma live_open sent n s : sse_live sent n s → sse_started s = true → sse_open sse_inv sent n s.
Proof. intros ((Hf & Hst & HI) & Hd & Hw) Hs. rewrite Hd in Hf. split_and!; try done. by apply Hst. Qed.

Lemma live_after sent n s : sse_live sent n s → sse_after sent n s.
Proof. by intros (? & _ & ?). Qed.

Lemma open_after sent n s : sse_open sse_inv sent n s → sse_after sent n s.
Proof. intros (Hf & Hs & Hne & HI & Hd & Hw). split; [|done]. unfold flowing. rewrite Hd. by split_and!. Qed.

Lemma open_fail {A} P e (Q : A → S → Prop) : errors_Is e "EOF" = false → total P (lm_fail e) Q sse_failed.
Proof. intros He. by apply total_fail. Qed.

(** A change that touches neither the shared fields nor what is left to read. *)
Lemma open_modify I J sent n f F :
  (∀ s, base (f s) = base s ∧ sse_weight (f s) = sse_weight s ∧ sse_started (f s) = sse_started s) →
  (∀ all s, I all s → J all (f s)) → total (sse_open I sent n) (lm_modify f) (λ _, sse_open J sent n) F.
Proof.
  intros Hf HIJ. apply total_modify. intros s (H1 & H2 & H3 & H4 & H5 & H6). destruct (Hf s) as (Hb & Hw & Hs).
  unfold sse_open, events_of in *. rewrite Hb, Hw, Hs. split_and!; try done. by apply HIJ.
Qed.

(** Queueing an event: only the start event may come first, and only it. *)
Lemma flow_enqueue_event t sent (s : S) event :
  flow false sent (base s) → (ModelEvent_Type event = ModelEventStart ↔ events_of sent s = []) → is_terminal event = t →
  ∃ s' k, stream_enqueue event s = (Done tt, s') ∧ flow t sent (base s') ∧
    (∃ f, s' = on_base f s) ∧ sb_done (base s') = sb_done (base s) ∧
    events_of sent s' = events_of sent s ++ [numbered event k].
Proof.
  intros Hf Hty <-. set (k := wrapu64 (sb_sequence (base s) + 1)).
  eexists _, k. split; [reflexivity|]. cbn beta. unfold events_of. rewrite base_on_base. cbn [sb_queue sb_done].
  split_and!; [| by eexists | done | by rewrite app_assoc].
  eapply flow_enqueue; [exact Hf | exact Hty | done | done | done].
Qed.

Lemma enqueue_open I J sent n event F :
  framed J → ModelEvent_Type event ≠ ModelEventStart → is_terminal event = false →
  (∀ k all s, I all s → J (all ++ [numbered event k]) s) →
  total (sse_open I sent n) (stream_enqueue event) (λ _, sse_open J sent n) F.
Proof.
  intros HJ Hty Ht HIJ s (Hf & Hs & Hne & HI & Hd & Hw).
  destruct (flow_enqueue_event false sent s event) as (s' & k & -> & Hf' & [f ->] & Hd' & He); [done | by split | done|].
  unfold sse_open. rewrite He, Hd', started_on_base, weight_on_base. split_and!; try done.
  - by intros [_ ?]%app_eq_nil.
  - by apply HJ, HIJ.
Qed.

(** The terminal event is queued but the stream does not know it yet. *)
Definition sse_pending (sent : list ModelEvent) (n : nat) (s : S) : Prop :=
  flow true sent (base s) ∧ (sse_started s = true ↔ events_of sent s ≠ []) ∧ sse_inv (events_of sent s) s ∧
  (sse_weight s < n)%nat.

Lemma enqueue_last I sent n event F :
  ModelEvent_Type event ≠ ModelEventStart → is_terminal event = true →
  (∀ k all s, I all s → sse_inv (all ++ [numbered event k]) s) →
  total (sse_open I sent n) (stream_enqueue event) (λ _, sse_pending sent n) F.
Proof.
  intros Hty Ht HIJ s (Hf & Hs & Hne & HI & Hd & Hw).
  destruct (flow_enqueue_event true sent s event) as (s' & k & -> & Hf' & [f ->] & Hd' & He); [done | by split | done|].
  unfold sse_pending. rewrite He, started_on_base, weight_on_base. split_and!; try done.
  - split; [|done]. by intros _ [_ ?]%app_eq_nil.
  - by apply inv_framed, HIJ.
Qed.

Lemma done_pending sent n F : total (sse_pending sent n) stream_done (λ _, sse_after sent n) F.
Proof.
  apply total_modify. intros s (Hf & Hst & HI & Hw). unfold sse_after, flowing, events_of.
  rewrite base_on_base, started_on_base, weight_on_base. cbn [sb_done sb_queue].
  split_and!; try done; [by apply (flow_base _ _ (base s)) | by apply inv_framed].
Qed.

End rounds.

(* ------------------------------------------------------------------ *)
(** ** Receiving *)

Section receiving.
Context {S : Type} `{Hbase : HasBase S, Henv : StreamEnv, Hstream : !SseStream S, Hspec : !SseSpec S,
  Hlaws : !SseLaws S, Henvlaws : !EnvLaws}.

(** [Recv] with enough fuel for all that is left to read. *)
Definition sse_Recv : EM S ModelEvent := fun s => stream_Recv sse_package sse_round (Datatypes.S (sse_weight s)) s.

(** At the end of a stream: nothing is left and the terminal event was sent. *)
Definition at_end (s : S) : Prop := sb_queue (base s) = [] ∧ sb_done (base s) = true.

(** Less is left to read, or as much and fewer events to hand on. *)
Definition closer (n k : nat) (s : S) : Prop :=
  (sse_weight s < n)%nat ∨ (sse_weight s = n ∧ (length (sb_queue (base s)) < k)%nat).

Lemma fill_total sent fuel n k :
  (n < fuel)%nat →
  total (λ s, flowing sent s ∧ sse_weight s = n ∧ length (sb_queue (base s)) = k) (stream_fill sse_round fuel)
    (λ _ s, flowing sent s ∧ sb_queue (base s) ≠ [] ∧ closer n (Datatypes.S k) s)
    (λ e s, errors_Is e "EOF" = true → flowing sent s ∧ at_end s).
Proof.
  revert n k. induction fuel as [|fuel IH]; intros n k Hn; [lia|]. cbn [stream_fill].
  unfold get_base. eapply total_bind; [eapply total_bind; [apply total_get|]|].
  { intros s0. apply (total_ret _ _ (λ b s, b = base s ∧ flowing sent s ∧ sse_weight s = n ∧ length (sb_queue (base s)) = k)).
    by intros s [-> Hs]. }
  intros b. destruct (sb_queue b) as [|e q] eqn:Eq.
  - destruct (sb_done b) eqn:Ed.
    + apply total_fail. by intros s (-> & Hf & _) _.
    + eapply total_bind.
      { eapply (total_conseq _ (λ s, flowing sent s ∧ sb_done (base s) = false ∧ sse_weight s = n));
          [apply round_total | | intros a s Hs; exact Hs |].
        - by intros s (-> & Hf & Hw & _).
        - intros e s He. unfold sse_failed in He. by rewrite He. }
      intros ?. intros s [Hf Hw].
      pose proof (IH (sse_weight s) (length (sb_queue (base s))) ltac:(lia) s ltac:(done)) as H.
      destruct (stream_fill _ _ s) as [[[]|e|v|] s']; try done.
      destruct H as (Hf' & Hq & Hc). split_and!; [done | done|]. left. destruct Hc as [|[-> _]]; lia.
  - apply total_ret. intros s (-> & Hf & Hw & <-). rewrite Eq. split_and!; [done | done|]. right. rewrite Eq. split; [done | lia].
Qed.

Lemma Recv_total sent n k :
  total (λ s, flowing sent s ∧ sse_weight s = n ∧ length (sb_queue (base s)) = k) sse_Recv
    (λ e s, flowing (sent ++ [e]) s ∧ closer n k s)
    (λ e s, errors_Is e "EOF" = true → flowing sent s ∧ at_end s).
Proof.
  intros s0 Hs0. unfold sse_Recv. set (fuel := Datatypes.S (sse_weight s0)).
  set (P := λ s, flowing sent s ∧ sse_weight s = n ∧ length (sb_queue (base s)) = k).
  assert (undisturbed P) as Hu.
  { intros f s Hf (H1 & H2 & H3). split_and!; [by apply flowing_undisturbed | by apply weight_undisturbed|].
    rewrite base_on_base. destruct (Hf (base s)) as (-> & _ & _). done. }
  enough (total P (stream_Recv sse_package sse_round fuel) (λ e s, flowing (sent ++ [e]) s ∧ closer n k s)
    (λ e s, errors_Is e "EOF" = true → flowing sent s ∧ at_end s)) as Ht by (by apply (Ht s0)).
  unfold stream_Recv. eapply total_bind; [by apply caller_Err_total|].
  intros [e|].
  { apply total_fail. intros s [[i Hk] _] He. by rewrite (caller_not_EOF i e) in He. }
  eapply total_bind; [eapply (total_pre _ P); [by apply stream_Err_total | by intros s [_ Hs]]|].
  intros [e|].
  { apply total_fail. intros s [He _] Ht. destruct (He e eq_refl) as [->|[i Hi]]; [done|].
    by rewrite (parent_not_EOF i e) in Ht. }
  eapply total_bind.
  { eapply (total_pre _ P); [apply (fill_total sent fuel n k); destruct Hs0 as (_ & <- & _); subst fuel; lia | by intros s [_ Hs]]. }
  intros ?. unfold get_base. eapply total_bind; [eapply total_bind; [apply total_get|]|].
  { intros s1. apply (total_ret _ _ (λ b s, b = base s ∧ flowing sent s ∧ sb_queue (base s) ≠ [] ∧ closer n (Datatypes.S k) s)).
    by intros s [-> Hs]. }
  intros b. destruct (sb_queue b) as [|event q] eqn:Eq; [by intros s (-> & _ & H & _); rewrite Eq in H|]. cbn [head deref].
  unfold deref. eapply total_bind.
  { apply (total_ret event _ (λ a s, a = event ∧ b = base s ∧ flowing sent s ∧ closer n (Datatypes.S k) s)). by intros s (-> & Hf & _ & Hc). }
  intros x. apply total_pure. intros ->. intros s (-> & (Hf & Hst & HI) & Hc).
  destruct (ModelEvent_Validate event) as [[]|] eqn:Ev.
  - unfold mbind, lm_bind, lm_modify, mret, lm_ret. cbn beta iota. rewrite ModelEvent_Clone_id. unfold flowing, closer, events_of in *.
    rewrite !base_on_base, started_on_base, weight_on_base. cbn [sb_done sb_queue].
    rewrite Eq in Hst, HI, Hc |- *. cbn [tail]. rewrite <-app_assoc. split_and!; try done.
    + eapply flow_shift; [exact Hf | exact Eq | done | done | done].
    + by apply inv_framed.
    + cbn [length] in Hc. destruct Hc as [|[]]; [by left | right; split; [done | lia]].
  - unfold mbind, lm_bind, lm_modify, lm_fail, ErrSSEProtocol. cbn -[String.append on_base]. by rewrite orb_false_r.
Qed.

(** The state after [n] receives and the stream as its consumers see it. *)
Definition after_recvs (n : nat) (s : S) : S := Nat.iter n (fun s => snd (sse_Recv s)) s.

Definition received {A} (r : ending A) : result A :=
  match r with Done a => Ok a | Failed e => Err e | _ => Err (errors_New "panic") end.

Definition as_stream (s : S) : ModelStream :=
  {| Stream_Recv := fun i => received (fst (sse_Recv (after_recvs i s))); Stream_Close := body_close_err |}.

Lemma as_stream_0 s : Stream_Recv (as_stream s) 0 = received (fst (sse_Recv s)).
Proof. done. Qed.

Lemma after_recvs_comm n s : after_recvs n (snd (sse_Recv s)) = after_recvs (Datatypes.S n) s.
Proof. induction n as [|n IH]; [done | exact (f_equal (fun s => snd (sse_Recv s)) IH)]. Qed.

Lemma as_stream_succ s i : Stream_Recv (as_stream s) (Datatypes.S i) = Stream_Recv (as_stream (snd (sse_Recv s))) i.
Proof. unfold as_stream, Stream_Recv. by rewrite <-after_recvs_comm. Qed.

Lemma delivers_nil s e : fst (sse_Recv s) = Failed e → delivers (as_stream s) [] e.
Proof. intros He. split; [done|]. cbn [length]. by rewrite as_stream_0, He. Qed.

Lemma delivers_cons s x es e :
  fst (sse_Recv s) = Done x → delivers (as_stream (snd (sse_Recv s))) es e → delivers (as_stream s) (x :: es) e.
Proof.
  intros Hx [Hes He]. split.
  - intros [|i] y; [intros [= <-]; by rewrite as_stream_0, Hx|]. intros Hi. rewrite as_stream_succ. by apply Hes.
  - cbn [length]. by rewrite as_stream_succ.
Qed.

(** A well formed stream ends: it hands on some events and then fails, without
    a panic.  It stays well formed until then, and also after io.EOF, with which
    it only fails at its end. *)
Lemma stream_delivers s sent :
  flowing sent s →
  ∃ es e, delivers (as_stream s) es e ∧ fst (sse_Recv (after_recvs (length es) s)) = Failed e ∧
    flowing (sent ++ es) (after_recvs (length es) s) ∧
    (errors_Is e "EOF" = true →
      let s' := snd (sse_Recv (after_recvs (length es) s)) in flowing (sent ++ es) s' ∧ at_end s').
Proof.
  remember (sse_weight s) as n eqn:Hn. remember (length (sb_queue (base s))) as k eqn:Hk.
  revert k sent s Hn Hk. induction (lt_wf n) as [n _ IHn]. intros k.
  induction (lt_wf k) as [k _ IHk]. intros sent s Hn Hk Hf.
  pose proof (Recv_total sent n k s ltac:(done)) as Ht. destruct (sse_Recv s) as [[x|e|v|] s'] eqn:Es; try done.
  - destruct Ht as [Hf' Hc].
    assert (∃ es e, delivers (as_stream s') es e ∧ fst (sse_Recv (after_recvs (length es) s')) = Failed e ∧
      flowing ((sent ++ [x]) ++ es) (after_recvs (length es) s') ∧
      (errors_Is e "EOF" = true →
        let t := snd (sse_Recv (after_recvs (length es) s')) in flowing ((sent ++ [x]) ++ es) t ∧ at_end t))
      as (es & e & Hd & He & Hfl & Hend).
    { destruct Hc as [Hlt|[Heq Hlt]]; [by eapply (IHn _ Hlt) | by eapply (IHk _ Hlt)]. }
    exists (x :: es), e. change (length (x :: es)) with (Datatypes.S (length es)).
    rewrite <-after_recvs_comm, Es. cbn [snd]. rewrite <-app_assoc in Hfl, Hend.
    split_and!; try done. apply delivers_cons; by rewrite Es.
  - exists [], e. change (after_recvs (length (@nil ModelEvent)) s) with s. rewrite Es, app_nil_r. split_and!; try done.
    apply delivers_nil. by rewrite Es.
Qed.

(** What a new stream delivers follows the protocol, and it is complete when the
    stream ends with io.EOF. *)
Lemma stream_follows_protocol s es e :
  flowing [] s → delivers (as_stream s) es e → Z.of_nat (length es) < uint64_mod →
  protocol_prefix es ∧ fst (sse_Recv (after_recvs (length es) s)) = Failed e ∧
  (errors_Is e "EOF" = true → protocol_complete es ∧ sse_inv es (snd (sse_Recv (after_recvs (length es) s)))).
Proof.
  intros Hs Hd Hlen. destruct (stream_delivers s [] Hs) as (es' & e' & Hd' & He & Hf & Hend).
  destruct (delivers_unique _ _ _ _ _ Hd Hd') as [<- <-]. cbn [app] in Hf, Hend.
  split_and!; [eapply flow_prefix; [apply Hf | done] | done|].
  intros Heof. destruct (Hend Heof) as [(Hfl & _ & HI) [Hq Hdone]]. rewrite Hdone in Hfl. split; [by eapply flow_complete|].
  unfold events_of in HI. by rewrite Hq, app_nil_r in HI.
Qed.

(** So [DrainStream] accepts it exactly when it ends with io.EOF and closes
    without an error. *)
Lemma drain_accepts s es e fuel ctx :
  flowing [] s → delivers (as_stream s) es e → Z.of_nat (length es) < uint64_mod →
  (length es < fuel)%nat → (∀ n, is_some (ctx 0%nat) = true → is_some (ctx n) = true) →
  ∃ evs err, DrainStream fuel ctx (Some (as_stream s)) = Some (evs, err) ∧ evs `prefix_of` es ∧
    (err = None ↔ evs = es ∧ errors_Is e "EOF" = true ∧ body_close_err = None).
Proof.
  intros Hs Hd Hlen Hfuel Hctx. destruct (stream_follows_protocol s es e Hs Hd Hlen) as (_ & _ & Hc).
  destruct (DrainStream_outcome fuel ctx (as_stream s) es e) as (evs & err & H1 & _ & H2 & H3); try done.
  exists evs, err. split_and!; [done | done|]. rewrite H3. unfold as_stream. cbn [Stream_Close].
  split; [by intros (-> & _ & ? & ?) | intros (-> & Heof & ?)]. split_and!; try done. by destruct (Hc Heof).
Qed.

End receiving.
