(* ===== verification/SseFrames.v ===== *)
(** * Framing of server-sent events

    The lines a scanner finds in a body, and bodies written as frames of data
    lines: what a server sends for a list of messages.  [ChatStream] and
    [MessageStream] show that their decoders read the messages back. *)

From Stdlib Require Import ZArith Lia Ascii.
From S2P Require Import Prelude Effects GoNum GoText Model Stream Sse.

Definition line_feed : ascii := Ascii.ascii_of_nat 10.

(** A text that can stand on a line of its own. *)
Definition line_text (l : string) : Prop :=
  l ≠ "" ∧ contains_byte line_feed l = false ∧ strings_HasSuffix l carriage_return = false.

#[global] Instance line_text_dec l : Decision (line_text l).
Proof. unfold line_text. apply _. Defined.

(** [lines] one after the other. *)
Definition unlines (lines : list string) : string := foldr (fun l t => l +:+ newline +:+ t) "" lines.

Lemma unlines_cons l lines : unlines (l :: lines) = l +:+ newline +:+ unlines lines.
Proof. done. Qed.

Lemma unlines_app lines1 lines2 : unlines (lines1 ++ lines2) = unlines lines1 +:+ unlines lines2.
Proof. induction lines1 as [|l lines1 IH]; [done|]. cbn [app]. by rewrite !unlines_cons, IH, !append_assoc. Qed.

Lemma scan_lines_line body limit line l rest :
  contains_byte line_feed l = false → Z.of_nat (String.length (line +:+ l)) < limit →
  scan_lines body limit line (l +:+ newline +:+ rest) =
  (let '(lines, err) := scan_lines body limit "" rest in (dropCR (line +:+ l) :: lines, err)).
Proof.
  revert line. induction l as [|c l IH]; intros line Hl Hlen.
  - rewrite append_nil_l, append_nil_r in *. unfold newline. rewrite append_cons, append_nil_l. cbn [scan_lines].
    replace (Ascii.eqb _ _) with true by done. destruct (Z.leb_spec limit (Z.of_nat (String.length line))); [lia | done].
  - rewrite append_cons. cbn [contains_byte] in Hl. apply orb_false_iff in Hl as [Hc Hl].
    cbn [scan_lines]. unfold line_feed in Hc. rewrite Ascii.eqb_sym, Hc.
    assert (line +:+ String c l = (line +:+ String c "") +:+ l) as E by (by rewrite append_assoc).
    rewrite IH; [by rewrite E | done | by rewrite <-E].
Qed.

(** A body that ends with a line. *)
Definition body_of (lines : list string) (err : option error) : Body :=
  {| body_bytes := unlines lines; body_error := err; body_end_with_data := true |}.

Lemma scan_lines_unlines limit lines err body :
  Forall (λ l, contains_byte line_feed l = false ∧ Z.of_nat (String.length l) < limit) lines → body_error body = err →
  scan_lines body limit "" (unlines lines) = (dropCR <$> lines, err).
Proof.
  intros H Hb. induction H as [|l lines [Hl Hlen] _ IH]; [by cbn; rewrite Hb|].
  rewrite unlines_cons, scan_lines_line by done. by rewrite IH, append_nil_l.
Qed.

Lemma has_prefix_empty (s : string) : strings_HasPrefix s "" = true.
Proof. by destruct s. Qed.

Lemma has_suffix_append (s t : string) (u : ascii) :
  t ≠ "" → strings_HasSuffix (s +:+ t) (String u "") = strings_HasSuffix t (String u "").
Proof.
  intros Ht. unfold strings_HasSuffix. rewrite rev_string_app. destruct (rev_string t) as [|c r] eqn:E.
  { by apply rev_string_nil in E. }
  rewrite append_cons. change (rev_string (String u "")) with (String u ""). cbn [strings_HasPrefix].
  by rewrite !has_prefix_empty.
Qed.

Lemma dropCR_line s : strings_HasSuffix s carriage_return = false → dropCR s = s.
Proof. intros H. unfold dropCR, strings_TrimSuffix. by rewrite H. Qed.

Lemma contains_byte_append a (s t : string) : contains_byte a (s +:+ t) = contains_byte a s || contains_byte a t.
Proof. induction s as [|b s IH]; [done|]. rewrite append_cons. cbn [contains_byte]. by rewrite IH, orb_assoc. Qed.

(** A field of an event as a line. *)
Definition field_line (field value : string) : string := field +:+ ": " +:+ value.

Lemma field_line_ok field value :
  contains_byte line_feed field = false → line_text value →
  contains_byte line_feed (field_line field value) = false ∧ dropCR (field_line field value) = field_line field value.
Proof.
  intros Hf (Hne & Hl & Hs). unfold field_line. split.
  - by rewrite !contains_byte_append, Hf, Hl.
  - apply dropCR_line. unfold carriage_return in *. rewrite <-append_assoc. by rewrite has_suffix_append.
Qed.

(** Reading the value of a field. *)
Lemma cut_field field value :
  contains_byte ":" field = false → strings_Cut (field_line field value) ":" = (field, " " +:+ value, true).
Proof.
  unfold field_line. induction field as [|c field IH]; intros Hf; [done|].
  cbn [contains_byte] in Hf. apply orb_false_iff in Hf as [Hc Hf]. rewrite append_cons. cbn [strings_Cut].
  rewrite Ascii.eqb_sym, Hc. by rewrite (IH Hf).
Qed.

Lemma trim_space value : strings_TrimPrefix (" " +:+ value) " " = value.
Proof. unfold strings_TrimPrefix. cbn. by destruct value. Qed.

(** The messages a decoder makes of data lines. *)
Definition message (lines : list string) : string := String.concat newline lines.

Lemma append_nonempty (s t : string) : t ≠ "" → s +:+ t ≠ "".
Proof. destruct s; [done|]. by rewrite append_cons. Qed.

Lemma string_length_pos (s : string) : s ≠ "" → (0 <? Z.of_nat (String.length s)) = true.
Proof. destruct s; [done|]. intros _. apply Z.ltb_lt. cbn [String.length]. lia. Qed.

Lemma append_line_first l : append_line "" l = l.
Proof. done. Qed.

Lemma append_line_next data l : data ≠ "" → append_line data l = data +:+ newline +:+ l.
Proof. intros H. unfold append_line. by rewrite string_length_pos, append_assoc by done. Qed.

Lemma fold_append_line data lines :
  data ≠ "" → Forall (λ l, l ≠ "") lines → foldl append_line data lines = message (data :: lines).
Proof.
  intros Hd Hl. revert data Hd. induction Hl as [|l lines Hl _ IH]; intros data Hd; [done|].
  cbn [foldl]. rewrite append_line_next by done.
  rewrite IH by (by apply append_nonempty, append_nonempty). unfold message. cbn [String.concat].
  destruct lines; [done | by rewrite !append_assoc].
Qed.

Lemma message_append_lines l lines :
  l ≠ "" → Forall (λ l, l ≠ "") lines → foldl append_line "" (l :: lines) = message (l :: lines).
Proof. intros Hl Hls. cbn [foldl]. rewrite append_line_first. by apply fold_append_line. Qed.

Lemma length_append_line data l :
  Z.of_nat (String.length (append_line data l)) = Z.of_nat (String.length data) + additional_bytes data l.
Proof.
  unfold append_line, additional_bytes. destruct (0 <? _); rewrite !length_append; [|lia].
  change (String.length newline) with 1%nat. lia.
Qed.

Lemma fold_append_line_length data lines :
  (String.length data <= String.length (foldl append_line data lines))%nat.
Proof.
  revert data. induction lines as [|l lines IH]; intros data; [done|]. cbn [foldl].
  specialize (IH (append_line data l)). pose proof (length_append_line data l).
  assert (0 <= additional_bytes data l) by (unfold additional_bytes; destruct (0 <? _); lia). lia.
Qed.

(** The largest line: the event limit is never out of reach of the scanner. *)
Lemma scan_limit_ge max : 0 <= max < 9223372036854775807 → max < scan_limit max.
Proof. intros H. unfold scan_limit. rewrite add64_exact; [lia | unfold_int64; lia]. Qed.

(* ------------------------------------------------------------------ *)
(** ** Reading frames *)

(** [next] hands on [messages] one by one and then fails with [e]. *)
Fixpoint reads {D A} (next : D → result A * D) (d : D) (messages : list A) (e : error) : Prop :=
  match messages with
  | [] => fst (next d) = Err e
  | m :: messages' => fst (next d) = Ok m ∧ reads next (snd (next d)) messages' e
  end.

(** The lines of a frame with the data lines [ls]. *)
Definition data_frame (ls : list string) : list string := (field_line "data" <$> ls) ++ [""].

(** The data lines of a frame a decoder with the limit [max] accepts. *)
Definition frame_ok (max : Z) (ls : list string) : Prop :=
  ls ≠ [] ∧ Forall line_text ls ∧ Forall (λ l, Z.of_nat (String.length (field_line "data" l)) <= max) ls ∧
  Z.of_nat (String.length (message ls)) <= max.

#[global] Instance frame_ok_dec max ls : Decision (frame_ok max ls).
Proof. unfold frame_ok. apply _. Defined.

(** Lines that are scanned as they were written. *)
Definition scanned (max : Z) (l : string) : Prop :=
  contains_byte line_feed l = false ∧ Z.of_nat (String.length l) <= max ∧ dropCR l = l.

Lemma scanned_field max field value :
  contains_byte line_feed field = false → line_text value → Z.of_nat (String.length (field_line field value)) <= max →
  scanned max (field_line field value).
Proof. intros Hf Hv Hlen. by destruct (field_line_ok field value Hf Hv). Qed.

Lemma scanned_empty max : 0 <= max → scanned max "".
Proof. done. Qed.

Lemma data_frame_scanned max ls : 0 <= max → frame_ok max ls → Forall (scanned max) (data_frame ls).
Proof.
  intros Hm (_ & Hl & Hlen & _). unfold data_frame. apply Forall_app. split; [|by repeat constructor].
  apply Forall_fmap. rewrite Forall_forall in Hl, Hlen. apply Forall_forall. intros l Hin.
  by apply scanned_field; [done | apply Hl | apply Hlen].
Qed.

(** A decoder of a body of such lines has them to read, and then its error. *)
Lemma newSSEDecoder_lines max lines err :
  0 <= max < 9223372036854775807 → Forall (scanned max) lines →
  newSSEDecoder (body_of lines err) max =
  {| dec_lines := lines; dec_err := err; dec_maxEventBytes := max; dec_exhausted := false |}.
Proof.
  intros Hm Hl. pose proof (scan_limit_ge max Hm) as Hlim. unfold newSSEDecoder. cbn [body_of body_bytes].
  rewrite (scan_lines_unlines _ _ err); [| |done].
  - f_equal. induction Hl as [|l lines (_ & _ & H) _ IH]; [done|]. rewrite fmap_cons. by rewrite H, IH.
  - eapply Forall_impl; [exact Hl|]. intros l (H1 & H2 & _). split; [done | lia].
Qed.

(** The data of a frame that was read entirely. *)
Lemma frame_message max ls : frame_ok max ls → foldl append_line "" ls = message ls ∧ message ls ≠ "".
Proof.
  intros (Hne & Hl & _). destruct ls as [|l ls]; [done|].
  assert (Forall (λ l, l ≠ "") (l :: ls)) as Hn by (eapply Forall_impl; [exact Hl | by intros x []]).
  inversion Hn as [|? ? Hx Hxs]; subst. split; [by apply message_append_lines|].
  rewrite <-message_append_lines by done. intros E. apply (f_equal String.length) in E.
  pose proof (fold_append_line_length l ls) as Hle. cbn [foldl] in E. rewrite append_line_first in E. cbn [String.length] in E.
  destruct l; [done|]. cbn [String.length] in Hle. lia.
Qed.

(** An environment in which nothing is cancelled and the body closes. *)
Definition live_env : StreamEnv :=
  {| caller_err := fun _ => None; parent_err := fun _ => None; select_branch := fun _ => BranchResult; body_close_err := None |}.

Lemma live_laws : EnvLaws (H:=live_env).
Proof. by split. Qed.
