(* ===== verification/ChatStream.v ===== *)
(** * Streams of OpenAI-compatible providers: src/provider/openaicompat/stream.go

    The decoder of server-sent events, the translation of completion chunks
    into model events and the assembly of tool calls from their fragments.
    Decoding a chunk with encoding/json is the interface [ChunkDecoder]. *)

From Stdlib Require Import ZArith Lia.
From stdpp Require Import sorting.
From S2P Require Import Prelude Effects GoNum GoText Domain Model Stream Sse.

(* ------------------------------------------------------------------ *)
(** ** Chunks *)

Record toolCallChunk : Type := {
  Chunk_Call_Index : Z;
  Chunk_Call_ID : string;
  Chunk_Call_Type : string;
  Chunk_Call_Name : string;
  Chunk_Call_Arguments : string;
}.

Record completionDelta : Type := {
  Chunk_Content : option string;
  Chunk_Refusal : option string;
  Chunk_ToolCalls : list toolCallChunk;
}.

Record completionChoice : Type := {
  Choice_Index : Z;
  Choice_Delta : completionDelta;
  Choice_FinishReason : option string;
}.

Record completionUsage : Type := {
  Chunk_PromptTokens : Z;
  Chunk_CompletionTokens : Z;
  Chunk_CachedTokens : Z;
}.

(** [providerError] has no fields: only whether there is one counts. *)
Record completionChunk : Type := {
  Chunk_Choices : list completionChoice;
  Chunk_Usage : option completionUsage;
  Chunk_Error : bool;
}.

Class ChunkDecoder := { decode_chunk : bytes → result completionChunk }.

(* ------------------------------------------------------------------ *)
(** ** The stream *)

Record callAccumulator : Type := {
  acc_id : string;
  acc_name : string;
  acc_arguments : string;
}.

Record chatStream : Type := {
  chat_base : StreamBase;
  chat_decoder : sseDecoder;
  chat_finish : string;
  chat_calls : gmap Z callAccumulator;
  chat_usage : option Usage;
}.

#[global] Program Instance chat_has_base : HasBase chatStream :=
  {| base := chat_base; on_base := fun f s => {| s with chat_base := f (chat_base s) |} |}.
Next Obligation. done. Qed.

Definition chat_package : string := "OpenAI-compatible".

Definition chat_error (text : string) : error := Errorf text [ErrSSEProtocol chat_package].

Definition normalizeFinishReason (reason : string) : string :=
  if reason =s "stop" then StopEndTurn
  else if (reason =s "tool_calls") || (reason =s "function_call") then StopToolUse
  else if reason =s "length" then StopMaxTokens
  else if reason =s "content_filter" then StopRefusal
  else StopUnknown.

Section chat.
Context `{Henv : StreamEnv, Hdecoder : ChunkDecoder}.
Abbreviation CS := (EM chatStream) (only parsing).

(* ------------------------------------------------------------------ *)
(** ** The decoder *)

(** The loop of [Next] over the lines: the lines it leaves and the event, the
    error, or [None] when the scanner has no more. *)
Fixpoint chat_next_loop (max : Z) (lines : list string) (data : string) : list string * option (result string) * string :=
  match lines with
  | [] => ([], None, data)
  | line :: lines' =>
      if line =s ""
      then if Z.of_nat (String.length data) =? 0 then chat_next_loop max lines' data else (lines', Some (Ok data), data)
      else if strings_HasPrefix line ":" then chat_next_loop max lines' data
      else
        let '(field, value, found) := strings_Cut line (Ascii.ascii_of_nat 58) in
        if negb found || (field ≠s "data") then chat_next_loop max lines' data
        else
          let value := strings_TrimPrefix value " " in
          if max <? Z.of_nat (String.length data) + additional_bytes data value
          then (lines', Some (Err (errors_New "SSE event exceeds configured size limit")), data)
          else chat_next_loop max lines' (append_line data value)
  end.

(** [Next]: its answer and the decoder after it. *)
Definition chat_decoder_next (d : sseDecoder) : result string * sseDecoder :=
  if dec_exhausted d then (Err io_EOF, d)
  else
    let '(lines, answer, data) := chat_next_loop (dec_maxEventBytes d) (dec_lines d) "" in
    match answer with
    | Some r => (r, {| d with dec_lines := lines |})
    | None =>
        (match dec_err d with
         | Some e => Err e
         | None => if 0 <? Z.of_nat (String.length data) then Ok data else Err io_EOF
         end, {| d with dec_lines := lines; dec_exhausted := true |})
    end.

Definition chat_Next : CS string := fun s =>
  let '(r, d) := chat_decoder_next (chat_decoder s) in
  (match r with Ok data => Done data | Err e => Failed e end, {| s with chat_decoder := d |}).

(* ------------------------------------------------------------------ *)
(** ** Chunks into events *)

Definition chat_usage_of (u : completionUsage) : Usage :=
  {| Usage_InputTokens := Chunk_PromptTokens u; Usage_OutputTokens := Chunk_CompletionTokens u;
     Usage_CacheReadTokens := Chunk_CachedTokens u; Usage_CacheWriteTokens := 0; Usage_Cost := 0 |}.

(** The usage of a chunk, at most once. *)
Definition chat_take_usage (u : option completionUsage) : CS unit :=
  match u with
  | None => mret tt
  | Some u =>
      s ← lm_get;
      if is_some (chat_usage s) then lm_fail (chat_error "repeated usage payload")
      else match Usage_Validate (chat_usage_of u) with
           | Err _ => lm_fail (chat_error "")
           | Ok _ => lm_modify (fun s => {| s with chat_usage := Some (chat_usage_of u) |})
           end
  end.

(** A text of a delta, unless it is missing or empty. *)
Definition chat_text (text : option string) : CS unit :=
  match text with
  | Some t => if t =s "" then mret tt else stream_enqueue (text_event t)
  | None => mret tt
  end.

Definition chat_delta (c : toolCallChunk) : ToolCallDelta :=
  {| Delta_Index := Chunk_Call_Index c; Delta_ID := Chunk_Call_ID c; Delta_Name := Chunk_Call_Name c;
     Delta_InputFragment := Chunk_Call_Arguments c |}.

Definition empty_accumulator : callAccumulator := {| acc_id := ""; acc_name := ""; acc_arguments := "" |}.

Definition accumulate (a : callAccumulator) (d : ToolCallDelta) : callAccumulator :=
  {| acc_id := acc_id a +:+ Delta_ID d; acc_name := acc_name a +:+ Delta_Name d;
     acc_arguments := acc_arguments a +:+ Delta_InputFragment d |}.

Fixpoint chat_tool_calls (calls : list toolCallChunk) : CS unit :=
  match calls with
  | [] => mret tt
  | c :: calls' =>
      if (Chunk_Call_Index c <? 0) || ((Chunk_Call_Type c ≠s "") && (Chunk_Call_Type c ≠s "function"))
      then lm_fail (chat_error "invalid function-call fragment")
      else match ToolCallDelta_Validate (chat_delta c) with
           | Err _ => lm_fail (chat_error "")
           | Ok _ =>
               lm_modify (fun s =>
                 {| s with chat_calls :=
                      <[Chunk_Call_Index c :=
                          accumulate (default empty_accumulator (chat_calls s !! Chunk_Call_Index c)) (chat_delta c)]>
                        (chat_calls s) |}) ;;
               stream_enqueue (delta_event (chat_delta c)) ;;
               chat_tool_calls calls'
           end
  end.

Definition chat_take_finish (reason : option string) : CS unit :=
  match reason with
  | None => mret tt
  | Some r =>
      s ← lm_get;
      if (chat_finish s ≠s "") && (chat_finish s ≠s r) then lm_fail (chat_error "conflicting finish reasons")
      else lm_modify (fun s => {| s with chat_finish := r |})
  end.

Definition consumeChunk (data : bytes) : CS unit :=
  match decode_chunk data with
  | Err _ => lm_fail (chat_error "malformed chunk JSON")
  | Ok chunk =>
      if Chunk_Error chunk then stream_enqueue provider_error_event ;; stream_done
      else if 1 <? Z.of_nat (length (Chunk_Choices chunk))
      then lm_fail (chat_error "multiple completion choices are unsupported")
      else
        chat_take_usage (Chunk_Usage chunk) ;;
        match Chunk_Choices chunk with
        | [] => mret tt
        | choice :: _ =>
            if negb (Choice_Index choice =? 0) then lm_fail (chat_error "completion choice index is unsupported")
            else
              chat_text (Chunk_Content (Choice_Delta choice)) ;;
              chat_text (Chunk_Refusal (Choice_Delta choice)) ;;
              chat_tool_calls (Chunk_ToolCalls (Choice_Delta choice)) ;;
              chat_take_finish (Choice_FinishReason choice)
        end
  end.

(* ------------------------------------------------------------------ *)
(** ** The end of a stream *)

Definition chat_indices (calls : gmap Z callAccumulator) : list Z := merge_sort Z.le (elements (dom calls)).

Definition completed_call (a : callAccumulator) : ToolCall :=
  {| Call_ID := acc_id a; Call_Name := acc_name a; Call_Input := acc_arguments a |}.

(** The event with which a completed call is probed. *)
Definition call_probe (call : ToolCall) : ModelEvent := numbered (call_event call) 1.

Fixpoint chat_complete_calls (indices : list Z) (seen : gset string) : CS unit :=
  match indices with
  | [] => mret tt
  | i :: indices' =>
      s ← lm_get;
      a ← deref (chat_calls s !! i);
      let call := completed_call a in
      match ModelEvent_Validate (call_probe call) with
      | Err _ => lm_fail (chat_error "completed function call")
      | Ok _ =>
          if bool_decide (Call_ID call ∈ seen) then lm_fail (chat_error "duplicate completed call ID")
          else
            stream_enqueue (call_event call) ;;
            chat_complete_calls indices' ({[ Call_ID call ]} ∪ seen)
      end
  end.

Definition finalize : CS unit :=
  s ← lm_get;
  if chat_finish s =s "" then lm_fail (chat_error "[DONE] arrived without a finish reason")
  else
    let indices := chat_indices (chat_calls s) in
    let stop := normalizeFinishReason (chat_finish s) in
    let none := Z.of_nat (length indices) =? 0 in
    if (stop =s StopToolUse) && none then lm_fail (chat_error "tool finish contained no calls")
    else if (stop ≠s StopToolUse) && negb none then lm_fail (chat_error "completed calls have finish reason")
    else
      chat_complete_calls indices ∅ ;;
      match chat_usage s with Some u => stream_enqueue (usage_event u) | None => mret tt end ;;
      stream_enqueue (stop_event stop).

(* ------------------------------------------------------------------ *)
(** ** Recv *)

(** The body of the loop of [Recv]. *)
Definition chat_round : CS unit :=
  answer ← attempt (stream_nextSSE chat_Next);
  match answer with
  | Err err => stream_receive_error chat_package "stream ended before [DONE]" err
  | Ok data =>
      if data =s "" then mret tt
      else if data =s "[DONE]" then finalize ;; stream_done
      else consumeChunk data
  end.

#[global] Instance chat_stream : SseStream chatStream :=
  {| sse_package := chat_package; sse_round := chat_round;
     sse_weight := fun s => (length (dec_lines (chat_decoder s)) + if dec_exhausted (chat_decoder s) then 0 else 1)%nat;
     sse_started := fun _ => true |}.

Definition chatStream_Recv : CS ModelEvent := sse_Recv.
Definition chatStream_Close : CS (option error) := stream_Close.

(** [newChatStream]: the start event is queued. *)
Definition newChatStream (body : Body) (maxEventBytes : Z) : chatStream :=
  snd (stream_enqueue (empty_event ModelEventStart)
    {| chat_base := new_base; chat_decoder := newSSEDecoder body maxEventBytes; chat_finish := ""; chat_calls := ∅;
       chat_usage := None |}).

End chat.

(* ------------------------------------------------------------------ *)
(** ** Tool calls and their fragments *)

(** What the fragments [ds] of the call with index [i] say together. *)
Definition fragments (i : Z) (ds : list ToolCallDelta) : list ToolCallDelta := filter (λ d, Delta_Index d = i) ds.
Definition joined (ds : list ToolCallDelta) : callAccumulator :=
  {| acc_id := String.concat "" (Delta_ID <$> ds); acc_name := String.concat "" (Delta_Name <$> ds);
     acc_arguments := String.concat "" (Delta_InputFragment <$> ds) |}.

(** The calls the fragments [ds] make up, by ascending index. *)
Definition delta_indices (ds : list ToolCallDelta) : list Z := merge_sort Z.le (remove_dups (Delta_Index <$> ds)).
Definition assembled (ds : list ToolCallDelta) : list ToolCall :=
  (λ i, completed_call (joined (fragments i ds))) <$> delta_indices ds.

(** [calls] collects the fragments [ds]. *)
Definition gathers (ds : list ToolCallDelta) (calls : gmap Z callAccumulator) : Prop :=
  ∀ i, calls !! i = (if decide (fragments i ds = []) then None else Some (joined (fragments i ds))).

Lemma joined_snoc ds d : joined (ds ++ [d]) = accumulate (joined ds) d.
Proof. unfold joined, accumulate. by rewrite !fmap_snoc, !concat_nil_snoc. Qed.

Lemma gathers_nil : gathers [] ∅.
Proof. done. Qed.

Lemma gathers_snoc ds calls d :
  gathers ds calls →
  gathers (ds ++ [d]) (<[Delta_Index d := accumulate (default empty_accumulator (calls !! Delta_Index d)) d]> calls).
Proof.
  intros H i. unfold fragments. rewrite filter_app, filter_cons, filter_nil. fold (fragments i ds).
  destruct (decide (Delta_Index d = i)) as [<-|Hne].
  - rewrite lookup_insert_eq, decide_False by (by intros [_ ?]%app_eq_nil). rewrite joined_snoc, H.
    by destruct (decide _) as [->|].
  - rewrite lookup_insert_ne by done. rewrite app_nil_r. apply H.
Qed.

Lemma fragments_nil i ds : fragments i ds = [] ↔ i ∉ (Delta_Index <$> ds).
Proof.
  unfold fragments. split.
  - intros H [d [-> Hd]]%list_elem_of_fmap. assert (d ∈ filter (λ x, Delta_Index x = Delta_Index d) ds) as Hin.
    { by apply list_elem_of_filter. } rewrite H in Hin. by apply not_elem_of_nil in Hin.
  - intros Hi. destruct (filter _ ds) as [|d l] eqn:E; [done|]. destruct Hi.
    assert (d ∈ filter (λ x, Delta_Index x = i) ds) as [<- Hd]%list_elem_of_filter by (rewrite E; left).
    by apply list_elem_of_fmap_2.
Qed.

Lemma gathers_indices ds calls : gathers ds calls → chat_indices calls = delta_indices ds.
Proof.
  intros H. unfold chat_indices, delta_indices.
  apply (StronglySorted_unique Z.le); try apply StronglySorted_merge_sort; try apply _.
  rewrite !merge_sort_Permutation. apply NoDup_Permutation; [apply NoDup_elements | apply NoDup_remove_dups|].
  intros i. rewrite elem_of_elements, elem_of_remove_dups, elem_of_dom, H. destruct (decide _) as [Hn|Hn].
  - rewrite fragments_nil in Hn. split; [by intros [? ?] | done].
  - rewrite fragments_nil in Hn. split; [intros _; by destruct (decide (i ∈ Delta_Index <$> ds)) | by eexists].
Qed.

Lemma gathers_lookup ds calls i :
  gathers ds calls → i ∈ delta_indices ds → calls !! i = Some (joined (fragments i ds)).
Proof.
  intros H. unfold delta_indices. rewrite merge_sort_Permutation, elem_of_remove_dups. intros Hi.
  rewrite H. destruct (decide _) as [Hn|]; [|done]. by apply fragments_nil in Hn.
Qed.

(* ------------------------------------------------------------------ *)
(** ** What a stream sends *)

(** The events of a running stream. *)
Definition streamed (e : ModelEvent) : Prop :=
  ModelEvent_Type e = ModelEventStart ∨ ModelEvent_Type e = ModelEventTextDelta ∨ ModelEvent_Type e = ModelEventToolCallDelta.

(** How a stream with the fragments [ds] goes on and ends. *)
Inductive chat_ending (ds : list ToolCallDelta) : list ModelEvent → Prop :=
| chat_running : chat_ending ds []
| chat_reported : chat_ending ds [provider_error_event]
| chat_stopped usage stop :
    NoDup (Call_ID <$> assembled ds) → (stop = StopToolUse ↔ assembled ds ≠ []) →
    chat_ending ds ((call_event <$> assembled ds) ++ option_list (usage_event <$> usage) ++ [stop_event stop]).

Definition chat_shape (all : list ModelEvent) (calls : gmap Z callAccumulator) : Prop :=
  ∃ pre post, payload <$> all = pre ++ post ∧ Forall streamed pre ∧ gathers (deltas_of pre) calls ∧
    chat_ending (deltas_of pre) post.

#[global] Instance chat_spec : SseSpec chatStream := {| sse_inv := fun all s => chat_shape all (chat_calls s) |}.

(** In the middle of a round, with the fragments [more] collected but not sent. *)
Definition chat_mid (more : list ToolCallDelta) (all : list ModelEvent) (s : chatStream) : Prop :=
  Forall streamed (payload <$> all) ∧ gathers (deltas_of (payload <$> all) ++ more) (chat_calls s).

(** In the middle of the end: the fragments are [ds], the calls [calls] were sent. *)
Definition chat_final (ds : list ToolCallDelta) (calls : list ToolCall) (all : list ModelEvent) (s : chatStream) : Prop :=
  ∃ pre, payload <$> all = pre ++ (call_event <$> calls) ∧ Forall streamed pre ∧ deltas_of pre = ds ∧
    gathers ds (chat_calls s).

Lemma chat_mid_streamed all s e k :
  streamed e → chat_mid (option_list (ModelEvent_ToolCallDelta e)) all s → chat_mid [] (all ++ [numbered e k]) s.
Proof.
  intros He [Hall Hg]. split; rewrite fmap_app; [by apply Forall_app; split; [|apply Forall_singleton]|].
  rewrite app_nil_r. unfold deltas_of in *. rewrite omap_app. cbn. by destruct (ModelEvent_ToolCallDelta e).
Qed.

Lemma chat_mid_running all s : chat_mid [] all s → chat_shape all (chat_calls s).
Proof. intros [Hall Hg]. eexists _, []. rewrite app_nil_r in *. split_and!; try done. constructor. Qed.

(** A stream without a terminal event is running. *)
Lemma chat_shape_running all s :
  (∀ i e, all !! i = Some e → is_terminal e = false) → chat_shape all (chat_calls s) → chat_mid [] all s.
Proof.
  intros Ht (pre & post & Hall & Hpre & Hg & Hend).
  assert (∀ x, last post = Some x → is_terminal x = false) as Hlast.
  { intros x Hx. assert (last (payload <$> all) = Some x) as H by (by rewrite Hall, last_app, Hx).
    rewrite fmap_last in H. destruct (last all) as [e|] eqn:E; [|done]. injection H as <-. rewrite last_lookup in E.
    by apply Ht in E. }
  destruct Hend as [| |usage stop _ _].
  - rewrite app_nil_r in Hall. unfold chat_mid. by rewrite Hall, app_nil_r.
  - by specialize (Hlast _ eq_refl).
  - specialize (Hlast (stop_event stop)). rewrite !app_assoc, last_snoc in Hlast. by specialize (Hlast eq_refl).
Qed.

Lemma chat_mid_error all s k : chat_mid [] all s → chat_shape (all ++ [numbered provider_error_event k]) (chat_calls s).
Proof.
  intros [Hall Hg]. rewrite app_nil_r in Hg. eexists _, [provider_error_event]. rewrite fmap_app.
  split_and!; try done. constructor.
Qed.

Lemma chat_final_call ds calls all s call k :
  chat_final ds calls all s → chat_final ds (calls ++ [call]) (all ++ [numbered (call_event call) k]) s.
Proof. intros (pre & Hall & Hpre & Hg). exists pre. split_and!; try apply Hg; try done. by rewrite !fmap_app, Hall, app_assoc. Qed.

(** What the usage and the stop add. *)
Definition chat_finished (ds : list ToolCallDelta) (usage : option Usage) (all : list ModelEvent) (s : chatStream) : Prop :=
  ∃ pre, payload <$> all = pre ++ (call_event <$> assembled ds) ++ option_list (usage_event <$> usage) ∧
    Forall streamed pre ∧ deltas_of pre = ds ∧ gathers ds (chat_calls s).

Lemma chat_final_usage ds all s usage k :
  chat_final ds (assembled ds) all s → chat_finished ds (Some usage) (all ++ [numbered (usage_event usage) k]) s.
Proof. intros (pre & Hall & Hg). exists pre. split; [|done]. by rewrite fmap_app, Hall, app_assoc. Qed.

Lemma chat_finished_stop ds usage all s stop k :
  NoDup (Call_ID <$> assembled ds) → (stop = StopToolUse ↔ assembled ds ≠ []) →
  chat_finished ds usage all s → chat_shape (all ++ [numbered (stop_event stop) k]) (chat_calls s).
Proof.
  intros Hids Hstop (pre & Hall & Hpre & <- & Hg). eexists pre, _. rewrite fmap_app, Hall, <-!app_assoc.
  split_and!; [done | done | done|]. by constructor.
Qed.

(* ------------------------------------------------------------------ *)
(** ** Rounds *)

Section laws.
Context `{Henv : StreamEnv, Henvlaws : !EnvLaws, Hdecoder : ChunkDecoder}.

#[global] Instance chat_frame : SseFrame chatStream.
Proof. split; [done | done | by intros all f s]. Qed.

(** An open stream whose events and calls are as [chat_mid] says. *)
Abbreviation chat_open more := (sse_open (S:=chatStream) (chat_mid more)).

Lemma chat_mid_framed more : framed (chat_mid more).
Proof. by intros all f s. Qed.
Lemma chat_final_framed ds calls : framed (chat_final ds calls).
Proof. by intros all f s. Qed.
Lemma chat_finished_framed ds usage : framed (chat_finished ds usage).
Proof. by intros all f s. Qed.
Hint Resolve chat_mid_framed chat_final_framed chat_finished_framed : core.

Lemma chat_next_loop_lines max lines data lines' answer data' :
  chat_next_loop max lines data = (lines', answer, data') →
  (length lines' <= length lines)%nat ∧
  match answer with Some _ => (length lines' < length lines)%nat | None => lines' = [] end.
Proof.
  revert data. induction lines as [|line lines IH]; intros data; cbn [chat_next_loop]; [by intros [= <- <- _]|].
  cbn [length]. assert (∀ d, chat_next_loop max lines d = (lines', answer, data') →
    (length lines' <= S (length lines))%nat ∧
    match answer with Some _ => (length lines' < S (length lines))%nat | None => lines' = [] end) as Hrec.
  { intros d Hd. destruct (IH d Hd) as [H1 H2]. destruct answer; [lia | split; [lia | done]]. }
  destruct (_ =s "").
  { destruct (_ =? 0); [apply Hrec | intros [= <- <- _]; lia]. }
  destruct (strings_HasPrefix _ _); [apply Hrec|]. destruct (strings_Cut _ _) as [[field value] found].
  destruct (_ || _); [apply Hrec|]. destruct (_ <? _); [intros [= <- <- _]; lia | apply Hrec].
Qed.

Lemma chat_Next_total sent n : total (sse_ready sent n) chat_Next (λ _, sse_live sent n) (λ _ _, True).
Proof.
  intros s (Hf & Hd & Hw). unfold chat_Next, chat_decoder_next. cbn in Hw.
  destruct (dec_exhausted (chat_decoder s)) eqn:Ex; [done|].
  destruct (chat_next_loop _ _ _) as [[lines answer] data] eqn:El. apply chat_next_loop_lines in El as [Hle Hlt].
  destruct answer as [r|].
  - destruct r as [x|e]; [|done]. split_and!; try done. cbn. lia.
  - subst lines. destruct (dec_err _); [done|]. destruct (_ <? _); [|done]. split_and!; try done. cbn. lia.
Qed.

Lemma chat_live_open sent n s : sse_live sent n s → chat_open [] sent n s.
Proof.
  intros Hs. destruct (live_open sent n s Hs eq_refl) as (Hf & H2 & H3 & HI & H5 & H6). split_and!; try done.
  apply chat_shape_running; [|exact HI]. intros i e Hi. destruct (is_terminal e) eqn:Ht; [|done].
  by destruct (fl_terminal _ _ _ Hf _ _ Hi Ht).
Qed.

Lemma chat_open_after sent n s : chat_open [] sent n s → sse_after sent n s.
Proof. intros (? & ? & ? & HI & ? & ?). apply open_after. split_and!; try done. by apply chat_mid_running. Qed.

Lemma chat_fail {A} P text (Q : A → chatStream → Prop) : total P (lm_fail (chat_error text)) Q sse_failed.
Proof. by apply open_fail. Qed.

Lemma chat_send sent n e :
  streamed e → ModelEvent_Type e ≠ ModelEventStart → total (chat_open (option_list (ModelEvent_ToolCallDelta e)) sent n) (stream_enqueue e)
    (λ _, chat_open [] sent n) sse_failed.
Proof.
  intros He Hs. apply enqueue_open; [done | done | | intros k all s; by apply chat_mid_streamed].
  unfold is_terminal. by destruct He as [-> | [-> | ->]].
Qed.

Lemma chat_text_open sent n text :
  total (chat_open [] sent n) (chat_text text) (λ _, chat_open [] sent n) sse_failed.
Proof.
  unfold chat_text. destruct text as [t|]; [|by apply total_ret]. destruct (_ =s ""); [by apply total_ret|].
  apply (chat_send sent n (text_event t)); [by right; left | done].
Qed.

Lemma chat_get {A} P (f : chatStream → EM chatStream A) Q F :
  (∀ s, total P (f s) Q F) → total P (lm_get ≫= f) Q F.
Proof. intros Hf. apply total_get_bind. intros s Hs s' ->. by apply (Hf s s). Qed.

(** Changes of fields that say nothing about the events. *)
Lemma chat_modify more sent n f F :
  (∀ s, chat_base (f s) = chat_base s ∧ chat_decoder (f s) = chat_decoder s ∧ chat_calls (f s) = chat_calls s) →
  total (chat_open more sent n) (lm_modify f) (λ _, chat_open more sent n) F.
Proof.
  intros Hf. apply open_modify.
  - intros s. destruct (Hf s) as (Hb & Hd & Hc). cbn. by rewrite Hb, Hd.
  - intros all s [Ha Hg]. destruct (Hf s) as (_ & _ & Hc). unfold chat_mid. by rewrite Hc.
Qed.

Lemma chat_take_usage_open sent n u :
  total (chat_open [] sent n) (chat_take_usage u) (λ _, chat_open [] sent n) sse_failed.
Proof.
  unfold chat_take_usage. destruct u as [u|]; [|by apply total_ret]. apply chat_get. intros s.
  destruct (is_some _); [apply chat_fail|]. destruct (Usage_Validate _); [by apply chat_modify | apply chat_fail].
Qed.

(** Collecting a fragment. *)
Lemma chat_collect sent n d F :
  total (chat_open [] sent n)
    (lm_modify (fun s => {| s with chat_calls := <[Delta_Index d :=
        accumulate (default empty_accumulator (chat_calls s !! Delta_Index d)) d]> (chat_calls s) |}))
    (λ _, chat_open [d] sent n) F.
Proof.
  apply open_modify; [done|]. intros all s [Ha Hg]. split; [done|]. cbn [chat_calls]. apply gathers_snoc. by rewrite app_nil_r in Hg.
Qed.

Lemma chat_tool_calls_open sent n calls :
  total (chat_open [] sent n) (chat_tool_calls calls) (λ _, chat_open [] sent n) sse_failed.
Proof.
  induction calls as [|c calls IH]; cbn [chat_tool_calls]; [by apply total_ret|].
  destruct (_ || _); [apply chat_fail|]. destruct (ToolCallDelta_Validate _); [|apply chat_fail].
  eapply total_bind; [apply (chat_collect sent n (chat_delta c))|]. intros ?.
  eapply total_bind; [apply (chat_send sent n (delta_event (chat_delta c))); [by right; right | done]|]. intros ?. exact IH.
Qed.

Lemma chat_take_finish_open sent n reason :
  total (chat_open [] sent n) (chat_take_finish reason) (λ _, chat_open [] sent n) sse_failed.
Proof.
  unfold chat_take_finish. destruct reason as [r|]; [|by apply total_ret]. apply chat_get. intros s.
  destruct (_ && _); [apply chat_fail | by apply chat_modify].
Qed.

Lemma consumeChunk_total sent n data :
  total (chat_open [] sent n) (consumeChunk data) (λ _, sse_after sent n) sse_failed.
Proof.
  unfold consumeChunk. destruct (decode_chunk data) as [chunk|]; [|apply chat_fail].
  destruct (Chunk_Error chunk).
  { eapply total_bind; [apply enqueue_last; [done | done | intros k all s; apply chat_mid_error]|].
    intros ?. apply done_pending. }
  destruct (_ <? _); [apply chat_fail|].
  eapply total_bind; [apply chat_take_usage_open|]. intros ?.
  destruct (Chunk_Choices chunk) as [|choice ?]; [apply total_ret; apply chat_open_after|].
  destruct (negb _); [apply chat_fail|].
  eapply total_bind; [apply chat_text_open|]. intros ?. eapply total_bind; [apply chat_text_open|]. intros ?.
  eapply total_bind; [apply chat_tool_calls_open|]. intros ?.
  eapply total_conseq; [apply chat_take_finish_open | done | intros ? s; apply chat_open_after | done].
Qed.

(** The calls [calls] of the first indices are complete; their IDs are [seen]. *)
Lemma chat_complete_calls_open sent n ds indices calls seen :
  assembled ds = calls ++ ((λ i, completed_call (joined (fragments i ds))) <$> indices) →
  Forall (.∈ delta_indices ds) indices → NoDup (Call_ID <$> calls) → seen = list_to_set (Call_ID <$> calls) →
  total (sse_open (chat_final ds calls) sent n) (chat_complete_calls indices seen)
    (λ _ s, NoDup (Call_ID <$> assembled ds) ∧ sse_open (chat_final ds (assembled ds)) sent n s) sse_failed.
Proof.
  intros Hall Hi. revert calls seen Hall.
  induction Hi as [|i indices Hi Hind IH]; intros calls seen Hall Hids ->; cbn [chat_complete_calls].
  { apply total_ret. intros s Hs. cbn in Hall. rewrite app_nil_r in Hall. by rewrite Hall. }
  apply total_get_bind. intros s0 Hs0. destruct Hs0 as (H1 & H2 & H3 & HI & H4).
  pose proof HI as (pre & _ & _ & _ & Hg). rewrite (gathers_lookup _ _ _ Hg Hi). unfold deref.
  set (a := joined (fragments i ds)).
  eapply (total_pre _ (sse_open (chat_final ds calls) sent n)); [|by intros s ->]. clear s0 H1 H2 H3 HI H4 Hg pre.
  eapply total_bind; [by apply (total_ret a _ (λ x s, x = a ∧ sse_open (chat_final ds calls) sent n s))|].
  intros x. apply total_pure. intros ->. cbn zeta.
  destruct (ModelEvent_Validate _); [|apply chat_fail]. destruct (bool_decide _) eqn:Eb; [apply chat_fail|].
  eapply total_bind; [apply (enqueue_open _ (chat_final ds (calls ++ [completed_call a]))); try done; intros k all s; apply chat_final_call|].
  intros ?. apply bool_decide_eq_false in Eb. rewrite elem_of_list_to_set in Eb. apply IH.
  - by rewrite Hall, <-app_assoc.
  - rewrite fmap_app. apply NoDup_app. split_and!; [done | | apply NoDup_singleton].
    by intros x Hx ->%list_elem_of_singleton.
  - rewrite fmap_app, list_to_set_app_L, (comm_L (∪)). cbn. by rewrite (right_id_L ∅ (∪)).
Qed.

Lemma finalize_total sent n : total (chat_open [] sent n) finalize (λ _, sse_pending sent n) sse_failed.
Proof.
  unfold finalize. apply total_get_bind. intros s0 (H1 & H2 & H3 & [HI Hg] & H4 & H5).
  set (ds := deltas_of (payload <$> events_of sent s0)) in *. rewrite app_nil_r in Hg.
  assert (sse_open (chat_final ds []) sent n s0) as Hs0.
  { split_and!; try done. eexists. cbn [fmap list_fmap]. by rewrite app_nil_r. }
  eapply (total_pre _ (sse_open (chat_final ds []) sent n)); [|by intros s ->].
  rewrite (gathers_indices _ _ Hg). clear H1 H2 H3 HI H4 H5 Hs0.
  destruct (_ =s ""); [apply chat_fail|]. cbn zeta.
  set (stop := normalizeFinishReason (chat_finish s0)). clearbody stop.
  destruct ((stop =s StopToolUse) && _) eqn:E1; [apply chat_fail|].
  destruct ((stop ≠s StopToolUse) && _) eqn:E2; [apply chat_fail|].
  assert (stop = StopToolUse ↔ assembled ds ≠ []) as Hstop.
  { unfold assembled. destruct (String.eqb_spec stop StopToolUse), (delta_indices ds); cbn in *; naive_solver. }
  eapply total_bind.
  { apply (chat_complete_calls_open sent n ds _ [] ∅); [done | by apply Forall_forall | apply NoDup_nil_2 | done]. }
  intros ?. apply total_pure. intros Hids. eapply (total_bind _ _ (λ _, sse_open (chat_finished ds (chat_usage s0)) sent n)).
  { destruct (chat_usage s0) as [u|].
    - apply enqueue_open; try done. intros k all s. apply chat_final_usage.
    - apply total_ret. intros s (? & ? & ? & (pre & Ha & HI) & ? & ?). split_and!; try done. exists pre.
      cbn. by rewrite app_nil_r. }
  intros ?. apply enqueue_last; [done | done|]. intros k all s. by apply chat_finished_stop.
Qed.

Lemma chat_round_total sent n : total (sse_ready sent n) chat_round (λ _, sse_after sent n) sse_failed.
Proof.
  unfold chat_round. eapply total_bind.
  { eapply total_attempt, (stream_nextSSE_total _ _ (λ _, sse_live sent n));
      [intros ?; apply live_undisturbed | apply ready_undisturbed | apply chat_Next_total]. }
  intros [data|err]; cbn beta iota; [|by apply receive_error_total].
  destruct (_ =s ""); [apply total_ret; apply live_after|].
  eapply (total_pre _ (chat_open [] sent n)); [|apply chat_live_open].
  destruct (_ =s "[DONE]"); [|apply consumeChunk_total].
  eapply total_bind; [apply finalize_total|]. intros ?. apply done_pending.
Qed.

#[global] Instance chat_laws : SseLaws chatStream.
Proof. split; [apply chat_frame | apply chat_round_total]. Qed.

Lemma newChatStream_flowing body max : flowing [] (newChatStream body max).
Proof.
  split_and!; [| done |].
  - by apply (flow_enqueue [] new_base (empty_event ModelEventStart) 1 (chat_base (newChatStream body max))).
  - apply (chat_mid_running _ (newChatStream body max)). split; [|done]. apply Forall_singleton. by left.
Qed.

End laws.
