(* ===== verification/ChatStreamSpec.v ===== *)
(** * What streams of OpenAI-compatible providers guarantee

    The theorems about [ChatStream]: a stream ends, follows the protocol, sends
    the calls its fragments make up; a chunk turns into the events it carries;
    the decoder reads back what was framed; a closed stream stays closed. *)

From Stdlib Require Import ZArith Lia Ascii.
From stdpp Require Import sorting.
From S2P Require Import Prelude Effects GoNum GoText Domain Model Stream Sse SseFrames ChatStream.

(* ------------------------------------------------------------------ *)
(** ** The decoder *)

Lemma chat_next_loop_frame max ls rest data :
  Forall line_text ls → (ls ≠ [] ∨ data ≠ "") → Z.of_nat (String.length (foldl append_line data ls)) <= max →
  chat_next_loop max (data_frame ls ++ rest) data = (rest, Some (Ok (foldl append_line data ls)), foldl append_line data ls).
Proof.
  intros Hl. revert data. induction Hl as [|l ls (Hl & _) Hls IH]; intros data Hne Hlen.
  - destruct Hne as [|Hd]; [done|]. cbn -[Z.of_nat]. apply string_length_pos in Hd. apply Z.ltb_lt in Hd.
    destruct (Z.eqb_spec (Z.of_nat (String.length data)) 0); [lia | done].
  - unfold data_frame. rewrite fmap_cons, <-!app_comm_cons. cbn [chat_next_loop].
    assert ((field_line "data" l =s "") = false) as -> by done.
    assert (strings_HasPrefix (field_line "data" l) ":" = false) as -> by done.
    rewrite cut_field by done. cbn [negb orb]. rewrite String.eqb_refl. cbn [negb].
    rewrite trim_space, <-length_append_line. cbn [foldl] in Hlen |- *.
    pose proof (fold_append_line_length (append_line data l) ls) as Hmono.
    destruct (Z.ltb_spec max (Z.of_nat (String.length (append_line data l)))); [lia|].
    apply IH; [|done]. right. unfold append_line. by apply append_nonempty.
Qed.

Lemma chat_decoder_next_frame d ls rest :
  frame_ok (dec_maxEventBytes d) ls → dec_exhausted d = false → dec_lines d = data_frame ls ++ rest →
  chat_decoder_next d = (Ok (message ls), {| d with dec_lines := rest |}).
Proof.
  intros Hok Hex Hlines. destruct (frame_message _ _ Hok) as [Hm Hmne]. destruct Hok as (Hne & Hl & _ & Hlen).
  unfold chat_decoder_next. rewrite Hex, Hlines, chat_next_loop_frame; [by rewrite Hm | done | by left | by rewrite Hm].
Qed.

Lemma chat_decoder_reads frames d :
  Forall (frame_ok (dec_maxEventBytes d)) frames → dec_exhausted d = false → dec_lines d = frames ≫= data_frame →
  dec_err d = None → reads chat_decoder_next d (message <$> frames) io_EOF.
Proof.
  intros H. revert d H. induction frames as [|ls frames IH]; intros d H Hex Hlines Herr.
  - cbn in Hlines |- *. unfold chat_decoder_next. by rewrite Hex, Hlines, Herr.
  - inversion H as [|? ? Hls Hfs]; subst. rewrite fmap_cons. cbn [reads].
    rewrite (chat_decoder_next_frame d ls (frames ≫= data_frame)) by done. split; [done|]. by apply IH.
Qed.

(** What is framed as server-sent events is read back: the decoder of a body
    of frames within the limit hands on the message of each frame, data lines
    joined by newlines, and then fails with io.EOF. *)
Theorem chat_decoder_frames frames max :
  0 <= max < 9223372036854775807 → Forall (frame_ok max) frames →
  reads chat_decoder_next (newSSEDecoder (body_of (frames ≫= data_frame) None) max) (message <$> frames) io_EOF.
Proof.
  intros Hm H. rewrite newSSEDecoder_lines; [by apply chat_decoder_reads | done|].
  induction H as [|ls frames Hls _ IH]; [constructor|]. rewrite bind_cons. apply Forall_app.
  split; [apply data_frame_scanned; [lia | done] | exact IH].
Qed.

(** No message is larger than the limit. *)
Lemma chat_next_loop_bound max lines data :
  Z.of_nat (String.length data) <= max →
  let '(_, answer, data') := chat_next_loop max lines data in
  Z.of_nat (String.length data') <= max ∧ ∀ x, answer = Some (Ok x) → x = data'.
Proof.
  revert data. induction lines as [|line lines IH]; intros data Hd; cbn [chat_next_loop]; [done|].
  destruct (_ =s ""); [destruct (_ =? 0); [by apply IH | by split; [|intros x [= ->]]]|].
  destruct (strings_HasPrefix _ _); [by apply IH|]. destruct (strings_Cut _ _) as [[field value] found].
  destruct (_ || _); [by apply IH|]. destruct (_ <? _) eqn:E; [done|].
  apply IH. rewrite length_append_line. apply Z.ltb_ge in E. exact E.
Qed.

(** A message of a decoder with a limit has at most that many bytes. *)
Theorem chat_decoder_bound d data :
  0 <= dec_maxEventBytes d → fst (chat_decoder_next d) = Ok data → Z.of_nat (String.length data) <= dec_maxEventBytes d.
Proof.
  intros Hm. unfold chat_decoder_next. destruct (dec_exhausted d); [done|].
  pose proof (chat_next_loop_bound (dec_maxEventBytes d) (dec_lines d) "" ltac:(done)) as H.
  destruct (chat_next_loop _ _ _) as [[lines [r|]] x]; cbn [fst]; destruct H as [Hx Hr].
  - intros ->. by rewrite (Hr data eq_refl).
  - destruct (dec_err d); [done|]. destruct (_ <? _); [by intros [= <-] | done].
Qed.

(* ------------------------------------------------------------------ *)
(** ** The events of a chunk *)

Definition text_events (text : option string) : list ModelEvent :=
  match text with Some t => if t =s "" then [] else [text_event t] | None => [] end.

Definition chunk_events (chunk : completionChunk) : list ModelEvent :=
  match Chunk_Choices chunk with
  | [] => []
  | choice :: _ =>
      let delta := Choice_Delta choice in
      text_events (Chunk_Content delta) ++ text_events (Chunk_Refusal delta) ++
      ((λ c, delta_event (chat_delta c)) <$> Chunk_ToolCalls delta)
  end.

Section chunks.
Context `{Henv : StreamEnv, Hdecoder : ChunkDecoder}.

Definition queued (s : chatStream) : list ModelEvent := payload <$> sb_queue (chat_base s).

(** [m] queues the events [evs], if it succeeds. *)
Definition sends (evs : list ModelEvent) (m : EM chatStream unit) : Prop :=
  ∀ q, total (λ s, queued s = q) m (λ _ s, queued s = q ++ evs) (λ _ _, True).

Lemma sends_nil : sends [] (mret tt).
Proof. intros q. apply total_ret. intros s <-. by rewrite app_nil_r. Qed.

Lemma sends_fail evs e : sends evs (lm_fail e).
Proof. intros q. by apply total_fail. Qed.

Lemma sends_bind evs1 evs2 m (f : EM chatStream unit) : sends evs1 m → sends evs2 f → sends (evs1 ++ evs2) (m ;; f).
Proof. intros H1 H2 q. eapply total_bind; [apply H1|]. intros ?. rewrite app_assoc. apply H2. Qed.

Lemma sends_enqueue e : payload e = e → sends [e] (stream_enqueue e).
Proof.
  intros He q. apply total_modify. intros s <-. unfold queued. cbn [chat_base on_base chat_has_base sb_queue].
  rewrite fmap_app. f_equal. cbn [fmap list_fmap]. f_equal. exact He.
Qed.

Lemma sends_modify f : (∀ s, chat_base (f s) = chat_base s) → sends [] (lm_modify f).
Proof. intros Hf q. apply total_modify. intros s <-. unfold queued. by rewrite Hf, app_nil_r. Qed.

Lemma sends_get evs (f : chatStream → EM chatStream unit) : (∀ s, sends evs (f s)) → sends evs (lm_get ≫= f).
Proof. intros Hf q. apply total_get_bind. intros s Hs s' ->. by apply (Hf s q s). Qed.

Lemma sends_text text : sends (text_events text) (chat_text text).
Proof.
  unfold text_events, chat_text. destruct text as [t|]; [|apply sends_nil]. destruct (_ =s ""); [apply sends_nil|].
  by apply sends_enqueue.
Qed.

Lemma sends_usage u : sends [] (chat_take_usage u).
Proof.
  unfold chat_take_usage. destruct u as [u|]; [|apply sends_nil]. apply sends_get. intros s.
  destruct (is_some _); [apply sends_fail|]. destruct (Usage_Validate _); [by apply sends_modify | apply sends_fail].
Qed.

Lemma sends_finish reason : sends [] (chat_take_finish reason).
Proof.
  unfold chat_take_finish. destruct reason as [r|]; [|apply sends_nil]. apply sends_get. intros s.
  destruct (_ && _); [apply sends_fail | by apply sends_modify].
Qed.

Lemma sends_tool_calls calls : sends ((λ c, delta_event (chat_delta c)) <$> calls) (chat_tool_calls calls).
Proof.
  induction calls as [|c calls IH]; [apply sends_nil|]. cbn [chat_tool_calls]. rewrite fmap_cons.
  destruct (_ || _); [apply sends_fail|]. destruct (ToolCallDelta_Validate _); [|apply sends_fail].
  apply (sends_bind []); [by apply sends_modify|]. by apply (sends_bind [delta_event (chat_delta c)]); [apply sends_enqueue|].
Qed.

Lemma consumeChunk_sends data chunk :
  decode_chunk data = Ok chunk → Chunk_Error chunk = false → sends (chunk_events chunk) (consumeChunk data).
Proof.
  intros Hd He. unfold consumeChunk, chunk_events. rewrite Hd, He. destruct (_ <? _); [apply sends_fail|].
  apply (sends_bind []); [apply sends_usage|]. destruct (Chunk_Choices chunk) as [|choice ?]; [apply sends_nil|].
  destruct (negb _); [apply sends_fail|].
  apply sends_bind; [apply sends_text|]. apply sends_bind; [apply sends_text|].
  rewrite <-(app_nil_r (_ <$> _)). apply sends_bind; [apply sends_tool_calls | apply sends_finish].
Qed.

(** A chunk without an error that is accepted turns into exactly the events
    it carries, in order: its text, its refusal, then its tool-call fragments. *)
Theorem consumeChunk_events data chunk s s' :
  decode_chunk data = Ok chunk → Chunk_Error chunk = false → consumeChunk data s = (Done tt, s') →
  queued s' = queued s ++ chunk_events chunk.
Proof.
  intros Hd He Hs. pose proof (consumeChunk_sends data chunk Hd He (queued s) s eq_refl) as H. by rewrite Hs in H.
Qed.

End chunks.

(* ------------------------------------------------------------------ *)
(** ** The stream *)

Section stream.
Context `{Henv : StreamEnv, Henvlaws : !EnvLaws, Hdecoder : ChunkDecoder}.

(** Every stream ends: whatever the body holds and whenever its contexts end,
    [Recv] returns finitely many events and then an error; it never panics. *)
Theorem chatStream_ends body max :
  let s := newChatStream body max in
  ∃ es e, delivers (as_stream s) es e ∧ fst (chatStream_Recv (after_recvs (length es) s)) = Failed e.
Proof.
  destruct (stream_delivers _ [] (newChatStream_flowing body max)) as (es & e & Hd & He & _). by exists es, e.
Qed.

(** C22. The events of a stream follow the protocol of [StreamValidator], and if
    it ends with io.EOF they are complete; so [DrainStream] accepts a stream
    exactly when it ends with io.EOF and its body closes without an error. *)
Theorem chatStream_protocol body max es e fuel ctx :
  let s := as_stream (newChatStream body max) in
  delivers s es e → Z.of_nat (length es) < uint64_mod →
  (length es < fuel)%nat → (∀ n, is_some (ctx 0%nat) = true → is_some (ctx n) = true) →
  protocol_prefix es ∧ (errors_Is e "EOF" = true → protocol_complete es) ∧
  ∃ evs err, DrainStream fuel ctx (Some s) = Some (evs, err) ∧ evs `prefix_of` es ∧
    (err = None ↔ evs = es ∧ errors_Is e "EOF" = true ∧ body_close_err = None).
Proof.
  intros s Hd Hlen Hfuel Hctx. pose proof (newChatStream_flowing body max) as Hf.
  destruct (stream_follows_protocol _ _ _ Hf Hd Hlen) as (Hp & _ & Hc).
  split_and!; [done | by intros H; apply Hc | by apply drain_accepts].
Qed.

(** C23. A stream that ends with io.EOF sent an error the provider reported, or
    this: after the start, texts and fragments, the tool calls these fragments
    make up (by ascending index, each the concatenation of its fragments, with
    distinct IDs), the usage if there is one, and a stop, which is a tool-use
    stop exactly when there are calls. *)
Theorem chatStream_calls body max es e :
  delivers (as_stream (newChatStream body max)) es e → Z.of_nat (length es) < uint64_mod → errors_Is e "EOF" = true →
  ∃ pre post, payload <$> es = pre ++ post ∧ Forall streamed pre ∧
    let calls := assembled (deltas_of pre) in
    post = [provider_error_event] ∨
    ∃ usage stop, post = (call_event <$> calls) ++ option_list (usage_event <$> usage) ++ [stop_event stop] ∧
      NoDup (Call_ID <$> calls) ∧ (stop = StopToolUse ↔ calls ≠ []).
Proof.
  intros Hd Hlen Heof.
  destruct (stream_follows_protocol _ _ _ (newChatStream_flowing body max) Hd Hlen) as (_ & _ & Hc).
  destruct (Hc Heof) as [[_ (x & Hx & Ht)] (pre & post & Hall & Hpre & _ & Hend)].
  exists pre, post. split_and!; [done | done|]. destruct Hend as [| |usage stop Hids Hstop]; [|by left | by right; eexists _, _].
  exfalso. rewrite app_nil_r in Hall. assert (last pre = Some (payload x)) as Hl by (by rewrite <-Hall, fmap_last, Hx).
  rewrite last_lookup in Hl. apply (Forall_lookup_1 _ _ _ _ Hpre) in Hl. unfold is_terminal in Ht.
  destruct Hl as [H|[H|H]]; cbn in H; by rewrite H in Ht.
Qed.

(** The state of a closed stream. *)
Lemma closed_Recv s :
  sb_closed (chat_base s) = true → ∃ e s', chatStream_Recv s = (Failed e, s') ∧ chat_decoder s' = chat_decoder s ∧
    sb_body_closes (chat_base s') = sb_body_closes (chat_base s).
Proof.
  intros Hc. unfold chatStream_Recv, sse_Recv, stream_Recv, caller_Err, stream_Err, look, get_base, mbind, lm_bind, lm_get, mret, lm_ret, lm_modify.
  cbn [base on_base chat_has_base chat_base chat_decoder sb_tick]. destruct (caller_err _) as [e|]; [by eexists _, _|].
  cbn [chat_base sb_closed]. rewrite Hc. by eexists _, _.
Qed.

(** Closing a stream closes its body, at most once; afterwards [Close] returns
    the same and [Recv] fails without reading. *)
Theorem chatStream_closed s :
  let '(r, s') := chatStream_Close s in
  r = Done body_close_err ∧ sb_closed (chat_base s') = true ∧
  sb_body_closes (chat_base s') = (sb_body_closes (chat_base s) + if sb_closed (chat_base s) then 0 else 1)%nat ∧
  chatStream_Close s' = (Done body_close_err, s') ∧
  ∃ e s'', chatStream_Recv s' = (Failed e, s'') ∧ chat_decoder s'' = chat_decoder s' ∧
    sb_body_closes (chat_base s'') = sb_body_closes (chat_base s').
Proof.
  destruct (chatStream_Close s) as [r s'] eqn:E.
  assert (r = Done body_close_err ∧ sb_closed (chat_base s') = true ∧
    sb_body_closes (chat_base s') = (sb_body_closes (chat_base s) + if sb_closed (chat_base s) then 0 else 1)%nat) as (H1 & H2 & H3).
  { revert E. unfold chatStream_Close, stream_Close, get_base, mbind, lm_bind, lm_get, mret, lm_ret, lm_modify.
    change (base s) with (chat_base s). destruct (sb_closed (chat_base s)) eqn:Ec; intros [= <- <-]; cbn; rewrite ?Ec; split_and!; try done; by rewrite Nat.add_1_r. }
  split_and!; [done | done | done | | by apply closed_Recv].
  unfold chatStream_Close, stream_Close, get_base, mbind, lm_bind, lm_get, mret, lm_ret. change (base s') with (chat_base s'). by rewrite H2.
Qed.

End stream.

(* ------------------------------------------------------------------ *)
(** ** An example *)

#[local] Existing Instance live_env.

Definition example_call_chunk (id name arguments : string) : toolCallChunk :=
  {| Chunk_Call_Index := 0; Chunk_Call_ID := id; Chunk_Call_Type := "function"; Chunk_Call_Name := name;
     Chunk_Call_Arguments := arguments |}.

Definition example_chunk (text : option string) (calls : list toolCallChunk) (finish : option string) : completionChunk :=
  {| Chunk_Choices := [{| Choice_Index := 0;
       Choice_Delta := {| Chunk_Content := text; Chunk_Refusal := None; Chunk_ToolCalls := calls |};
       Choice_FinishReason := finish |}];
     Chunk_Usage := None; Chunk_Error := false |}.

(** Three chunks by name. *)
#[local] Instance example_chunks : ChunkDecoder :=
  {| decode_chunk := fun data =>
       if data =s "text" then Ok (example_chunk (Some "hello") [] None)
       else if data =s "begin" then Ok (example_chunk None [example_call_chunk "c1" "read" "{"] None)
       else if data =s "end" then Ok (example_chunk None [example_call_chunk "" "" "}"] (Some "tool_calls"))
       else Err (errors_New "unexpected chunk") |}.

Definition example_frames : list (list string) := [["text"]; ["begin"]; ["end"]; ["[DONE]"]].

Definition example_chat : chatStream := newChatStream (body_of (example_frames ≫= data_frame) None) 64.

Definition example_chat_events : list ModelEvent :=
  imap (fun i e => numbered e (Z.of_nat i + 1))
    [empty_event ModelEventStart; text_event "hello";
     delta_event {| Delta_Index := 0; Delta_ID := "c1"; Delta_Name := "read"; Delta_InputFragment := "{" |};
     delta_event {| Delta_Index := 0; Delta_ID := ""; Delta_Name := ""; Delta_InputFragment := "}" |};
     call_event {| Call_ID := "c1"; Call_Name := "read"; Call_Input := "{}" |};
     stop_event StopToolUse].

Lemma example_chat_delivers : delivers (as_stream example_chat) example_chat_events io_EOF.
Proof.
  split; [|by vm_compute]. intros i x Hi. pose proof (lookup_lt_Some _ _ _ Hi) as Hlt.
  do 6 (destruct i as [|i]; [vm_compute in Hi |- *; congruence|]). cbn in Hlt. lia.
Qed.

Lemma chat_decoder_frames_witness :
  reads chat_decoder_next (newSSEDecoder (body_of (example_frames ≫= data_frame) None) 64) (message <$> example_frames) io_EOF.
Proof. apply chat_decoder_frames; [lia | apply (bool_decide_unpack _); vm_compute; exact I]. Defined.

Lemma chat_decoder_bound_witness : Z.of_nat (String.length "text") <= 64.
Proof. apply (chat_decoder_bound (chat_decoder example_chat) "text"); [by vm_compute | by vm_compute]. Defined.

Lemma consumeChunk_events_witness :
  queued (snd (consumeChunk "text" example_chat)) = queued example_chat ++ [text_event "hello"].
Proof.
  exact (consumeChunk_events "text" (example_chunk (Some "hello") [] None) example_chat (snd (consumeChunk "text" example_chat))
    eq_refl eq_refl eq_refl).
Defined.

Lemma chatStream_ends_witness :
  ∃ es e, delivers (as_stream example_chat) es e ∧ fst (chatStream_Recv (after_recvs (length es) example_chat)) = Failed e.
Proof. exact (chatStream_ends (Henvlaws:=live_laws) (body_of (example_frames ≫= data_frame) None) 64). Defined.

Lemma chatStream_protocol_witness :
  protocol_prefix example_chat_events ∧ (errors_Is io_EOF "EOF" = true → protocol_complete example_chat_events) ∧
  ∃ evs err, DrainStream 7 background (Some (as_stream example_chat)) = Some (evs, err) ∧ evs `prefix_of` example_chat_events ∧
    (err = None ↔ evs = example_chat_events ∧ errors_Is io_EOF "EOF" = true ∧ body_close_err = None).
Proof.
  apply (chatStream_protocol (Henvlaws:=live_laws) (body_of (example_frames ≫= data_frame) None) 64 example_chat_events io_EOF);
    [apply example_chat_delivers | by vm_compute | vm_compute; lia | done].
Defined.

Lemma chatStream_calls_witness :
  ∃ pre post, payload <$> example_chat_events = pre ++ post ∧ Forall streamed pre ∧
    let calls := assembled (deltas_of pre) in
    post = [provider_error_event] ∨
    ∃ usage stop, post = (call_event <$> calls) ++ option_list (usage_event <$> usage) ++ [stop_event stop] ∧
      NoDup (Call_ID <$> calls) ∧ (stop = StopToolUse ↔ calls ≠ []).
Proof.
  apply (chatStream_calls (Henvlaws:=live_laws) (body_of (example_frames ≫= data_frame) None) 64 example_chat_events io_EOF);
    [apply example_chat_delivers | by vm_compute | done].
Defined.
