(* ===== verification/MessageStream.v ===== *)
(** * Streams of Anthropic models: src/provider/anthropic/stream.go

    The decoder of named server-sent events, the state machine of message and
    content-block events, and the deltas of the cumulative usage counts.
    Decoding an event with encoding/json is the interface [EnvelopeDecoder]. *)

From Stdlib Require Import ZArith Lia Ascii.
From S2P Require Import Prelude Effects GoNum GoText Domain Model Stream Sse.

(* ------------------------------------------------------------------ *)
(** ** Envelopes *)

Record wireUsage : Type := {
  Wire_InputTokens : option Z;
  Wire_OutputTokens : option Z;
  Wire_CacheReadTokens : option Z;
  Wire_CacheWriteTokens : option Z;
}.

Record startedBlock : Type := {
  Block_Type : string;
  Block_Text : string;
  Block_ID : string;
  Block_Name : string;
  Block_Input : bytes;
}.

Record envelopeDelta : Type := {
  Env_Delta_Type : string;
  Env_Delta_Text : string;
  Env_Delta_PartialJSON : string;
  Env_Delta_StopReason : option string;
}.

(** [message] only carries its usage. *)
Record streamEnvelope : Type := {
  Env_Type : string;
  Env_Index : Z;
  Env_Message : option wireUsage;
  Env_ContentBlock : option startedBlock;
  Env_Delta : option envelopeDelta;
  Env_Usage : option wireUsage;
}.

Class EnvelopeDecoder := { decode_envelope : bytes → result streamEnvelope }.

(* ------------------------------------------------------------------ *)
(** ** The stream *)

Record blockState : Type := {
  blk_kind : string;
  blk_id : string;
  blk_name : string;
  blk_input : string;
}.

Record usageTotals : Type := {
  tot_input : Z;
  tot_output : Z;
  tot_cacheRead : Z;
  tot_cacheWrite : Z;
}.

Record messageStream : Type := {
  ms_base : StreamBase;
  ms_decoder : sseDecoder;
  ms_started : bool;
  ms_messageDelta : bool;
  ms_stopReason : string;
  ms_blocks : gmap Z blockState;
  ms_seenCallIDs : gset string;
  ms_nextBlock : Z;
  ms_usage : usageTotals;
}.

#[global] Program Instance message_has_base : HasBase messageStream :=
  {| base := ms_base; on_base := fun f s => {| s with ms_base := f (ms_base s) |} |}.
Next Obligation. done. Qed.

Definition message_package : string := "anthropic".
Definition message_error (text : string) : error := Errorf text [ErrSSEProtocol message_package].

Definition normalizeStopReason (reason : string) : string :=
  if (reason =s "end_turn") || (reason =s "stop_sequence") || (reason =s "pause_turn") then StopEndTurn
  else if reason =s "tool_use" then StopToolUse
  else if (reason =s "max_tokens") || (reason =s "model_context_window_exceeded") then StopMaxTokens
  else if reason =s "refusal" then StopRefusal
  else StopUnknown.

Section messages.
Context `{Henv : StreamEnv, Hdecoder : EnvelopeDecoder}.
Abbreviation MS := (EM messageStream) (only parsing).

(* ------------------------------------------------------------------ *)
(** ** The decoder *)

(** The loop of [Next]: the lines it leaves, the named event, the error, or
    [None] when the scanner has no more, and the event and data until there. *)
Fixpoint message_next_loop (max : Z) (lines : list string) (event data : string) :
    list string * option (result (string * string)) * (string * string) :=
  match lines with
  | [] => ([], None, (event, data))
  | line :: lines' =>
      if line =s ""
      then if Z.of_nat (String.length data) =? 0 then message_next_loop max lines' "" data
           else (lines', Some (Ok (event, data)), (event, data))
      else if strings_HasPrefix line ":" then message_next_loop max lines' event data
      else
        let '(field, value, found) := strings_Cut line ":" in
        if negb found then message_next_loop max lines' event data
        else
          let value := strings_TrimPrefix value " " in
          if field =s "event"
          then
            if event ≠s "" then (lines', Some (Err (errors_New "repeated SSE event field")), (event, data))
            else message_next_loop max lines' value data
          else if field =s "data"
          then
            if max <? Z.of_nat (String.length data) + additional_bytes data value
            then (lines', Some (Err (errors_New "SSE event exceeds configured size limit")), (event, data))
            else message_next_loop max lines' event (append_line data value)
          else message_next_loop max lines' event data
  end.

Definition message_decoder_next (d : sseDecoder) : result (string * string) * sseDecoder :=
  if dec_exhausted d then (Err io_EOF, d)
  else
    let '(lines, answer, (event, data)) := message_next_loop (dec_maxEventBytes d) (dec_lines d) "" "" in
    match answer with
    | Some r => (r, {| d with dec_lines := lines |})
    | None =>
        (match dec_err d with
         | Some e => Err e
         | None => if 0 <? Z.of_nat (String.length data) then Ok (event, data) else Err io_EOF
         end, {| d with dec_lines := lines; dec_exhausted := true |})
    end.

Definition message_Next : MS (string * string) := fun s =>
  let '(r, d) := message_decoder_next (ms_decoder s) in
  (match r with Ok x => Done x | Err e => Failed e end, {| s with ms_decoder := d |}).

(* ------------------------------------------------------------------ *)
(** ** Usage *)

(** The totals after a report: the counts it has replace the former ones. *)
Definition reported (total : usageTotals) (next : wireUsage) : usageTotals :=
  {| tot_input := default (tot_input total) (Wire_InputTokens next);
     tot_output := default (tot_output total) (Wire_OutputTokens next);
     tot_cacheRead := default (tot_cacheRead total) (Wire_CacheReadTokens next);
     tot_cacheWrite := default (tot_cacheWrite total) (Wire_CacheWriteTokens next) |}.

Definition totals_negative (t : usageTotals) : bool :=
  (tot_input t <? 0) || (tot_output t <? 0) || (tot_cacheRead t <? 0) || (tot_cacheWrite t <? 0).

Definition totals_decreased (total usage : usageTotals) : bool :=
  (tot_input total <? tot_input usage) || (tot_output total <? tot_output usage) ||
  (tot_cacheRead total <? tot_cacheRead usage) || (tot_cacheWrite total <? tot_cacheWrite usage).

Definition totals_delta (total usage : usageTotals) : Usage :=
  {| Usage_InputTokens := sub64 (tot_input total) (tot_input usage);
     Usage_OutputTokens := sub64 (tot_output total) (tot_output usage);
     Usage_CacheReadTokens := sub64 (tot_cacheRead total) (tot_cacheRead usage);
     Usage_CacheWriteTokens := sub64 (tot_cacheWrite total) (tot_cacheWrite usage);
     Usage_Cost := 0 |}.

Definition delta_nonzero (u : Usage) : bool :=
  negb (Usage_InputTokens u =? 0) || negb (Usage_OutputTokens u =? 0) || negb (Usage_CacheReadTokens u =? 0) ||
  negb (Usage_CacheWriteTokens u =? 0).

Definition updateUsage (next : wireUsage) : MS unit :=
  s ← lm_get;
  let total := reported (ms_usage s) next in
  if totals_negative total then lm_fail (message_error "negative usage")
  else if totals_decreased total (ms_usage s) then lm_fail (message_error "cumulative usage decreased")
  else
    let delta := totals_delta total (ms_usage s) in
    lm_modify (fun s => {| s with ms_usage := total |}) ;;
    if delta_nonzero delta then stream_enqueue (usage_event delta) else mret tt.

(* ------------------------------------------------------------------ *)
(** ** Events into model events *)

Definition message_start_event : MS unit :=
  lm_modify (fun s => {| s with ms_started := true |}) ;;
  stream_enqueue (empty_event ModelEventStart).

(** The events of a started block and the input it starts with. *)
Definition open_block (index : Z) (b : startedBlock) : MS blockState :=
  let block := {| blk_kind := Block_Type b; blk_id := Block_ID b; blk_name := Block_Name b; blk_input := "" |} in
  if Block_Type b =s "text"
  then (if Block_Text b ≠s "" then stream_enqueue (text_event (Block_Text b)) else mret tt) ;; mret block
  else if Block_Type b =s "tool_use"
  then
    if (Block_ID b =s "") || (Block_Name b =s "") then lm_fail (message_error "tool block lacks ID or name")
    else
      let input := if (0 <? Z.of_nat (String.length (Block_Input b))) && (Block_Input b ≠s "{}") then Block_Input b else "" in
      stream_enqueue (delta_event {| Delta_Index := index; Delta_ID := Block_ID b; Delta_Name := Block_Name b; Delta_InputFragment := "" |}) ;;
      mret {| block with blk_input := input |}
  else lm_fail (message_error "unsupported content block").

Definition content_block_start (e : streamEnvelope) : MS unit :=
  s ← lm_get;
  match Env_ContentBlock e with
  | None => lm_fail (message_error "invalid content block start")
  | Some b =>
      if negb (Env_Index e =? ms_nextBlock s) || negb (bool_decide (ms_blocks s = ∅))
      then lm_fail (message_error "invalid content block start")
      else
        block ← open_block (Env_Index e) b;
        lm_modify (fun s => {| s with ms_blocks := <[Env_Index e := block]> (ms_blocks s);
                                      ms_nextBlock := add64 (ms_nextBlock s) 1 |})
  end.

Definition content_block_delta (e : streamEnvelope) : MS unit :=
  s ← lm_get;
  match ms_blocks s !! Env_Index e, Env_Delta e with
  | Some block, Some delta =>
      if Env_Delta_Type delta =s "text_delta"
      then
        if (blk_kind block ≠s "text") || (Env_Delta_Text delta =s "") then lm_fail (message_error "invalid text delta")
        else stream_enqueue (text_event (Env_Delta_Text delta))
      else if Env_Delta_Type delta =s "input_json_delta"
      then
        if (blk_kind block ≠s "tool_use") || (Env_Delta_PartialJSON delta =s "")
        then lm_fail (message_error "invalid tool-input delta")
        else
          let block := {| block with blk_input := blk_input block +:+ Env_Delta_PartialJSON delta |} in
          lm_modify (fun s => {| s with ms_blocks := <[Env_Index e := block]> (ms_blocks s) |}) ;;
          stream_enqueue (delta_event {| Delta_Index := Env_Index e; Delta_ID := ""; Delta_Name := "";
                                         Delta_InputFragment := Env_Delta_PartialJSON delta |})
      else lm_fail (message_error "unsupported delta")
  | _, _ => lm_fail (message_error "delta has no open content block")
  end.

(** The call of a tool block. *)
Definition block_call (block : blockState) : ToolCall :=
  {| Call_ID := blk_id block; Call_Name := blk_name block;
     Call_Input := if blk_input block =s "" then "{}" else blk_input block |}.

Definition content_block_stop (e : streamEnvelope) : MS unit :=
  s ← lm_get;
  match ms_blocks s !! Env_Index e with
  | None => lm_fail (message_error "stop has no open content block")
  | Some block =>
      lm_modify (fun s => {| s with ms_blocks := delete (Env_Index e) (ms_blocks s) |}) ;;
      if blk_kind block =s "tool_use"
      then
        let call := block_call block in
        match ModelEvent_Validate (numbered (call_event call) 1) with
        | Err _ => lm_fail (message_error "invalid completed tool input")
        | Ok _ =>
            s ← lm_get;
            if bool_decide (Call_ID call ∈ ms_seenCallIDs s) then lm_fail (message_error "duplicate completed tool-call ID")
            else
              lm_modify (fun s => {| s with ms_seenCallIDs := {[ Call_ID call ]} ∪ ms_seenCallIDs s |}) ;;
              stream_enqueue (call_event call)
        end
      else mret tt
  end.

Definition message_delta (e : streamEnvelope) : MS unit :=
  s ← lm_get;
  match Env_Delta e ≫= Env_Delta_StopReason with
  | Some reason =>
      if negb (bool_decide (ms_blocks s = ∅)) then lm_fail (message_error "incomplete message_delta")
      else if (ms_stopReason s ≠s "") && (ms_stopReason s ≠s reason) then lm_fail (message_error "conflicting stop reasons")
      else
        lm_modify (fun s => {| s with ms_stopReason := reason; ms_messageDelta := true |}) ;;
        match Env_Usage e with Some usage => updateUsage usage | None => mret tt end
  | None => lm_fail (message_error "incomplete message_delta")
  end.

Definition message_stop : MS unit :=
  s ← lm_get;
  if negb (bool_decide (ms_blocks s = ∅)) || (ms_stopReason s =s "")
  then lm_fail (message_error "message_stop before completed message")
  else
    stream_enqueue (stop_event (normalizeStopReason (ms_stopReason s))) ;;
    stream_done.

Definition message_start (e : streamEnvelope) : MS unit :=
  s ← lm_get;
  match Env_Message e with
  | Some usage =>
      if ms_started s then lm_fail (message_error "repeated or incomplete message_start")
      else message_start_event ;; updateUsage usage
  | None => lm_fail (message_error "repeated or incomplete message_start")
  end.

(** The error the provider reports. *)
Definition message_reported : MS unit :=
  s ← lm_get;
  if sb_done (ms_base s) then lm_fail (message_error "event followed terminal event")
  else
    (if ms_started s then mret tt else message_start_event) ;;
    stream_enqueue provider_error_event ;;
    stream_done.

Definition consume_envelope (e : streamEnvelope) : MS unit :=
  if Env_Type e =s "ping" then mret tt
  else if Env_Type e =s "error" then message_reported
  else
    s ← lm_get;
    if negb (ms_started s) && (Env_Type e ≠s "message_start") then lm_fail (message_error "first event is not message_start")
    else if ms_messageDelta s && (Env_Type e ≠s "message_delta") && (Env_Type e ≠s "message_stop")
    then lm_fail (message_error "content event followed message_delta")
    else if Env_Type e =s "message_start" then message_start e
    else if Env_Type e =s "content_block_start" then content_block_start e
    else if Env_Type e =s "content_block_delta" then content_block_delta e
    else if Env_Type e =s "content_block_stop" then content_block_stop e
    else if Env_Type e =s "message_delta" then message_delta e
    else if Env_Type e =s "message_stop" then message_stop
    else lm_fail (message_error "unsupported event type").

Definition consume (eventName : string) (data : bytes) : MS unit :=
  match decode_envelope data with
  | Err _ => lm_fail (message_error "malformed event JSON")
  | Ok e =>
      if Env_Type e =s "" then lm_fail (message_error "malformed event JSON")
      else if (eventName =s "") || (eventName ≠s Env_Type e)
      then lm_fail (message_error "SSE event name does not match payload type")
      else consume_envelope e
  end.

(* ------------------------------------------------------------------ *)
(** ** Recv *)

(** The body of the loop of [Recv]. *)
Definition message_round : MS unit :=
  answer ← attempt (stream_nextSSE message_Next);
  match answer with
  | Err err => stream_receive_error message_package "stream ended before message_stop" err
  | Ok (eventName, data) => if data =s "" then mret tt else consume eventName data
  end.

#[global] Instance message_sse : SseStream messageStream :=
  {| sse_package := message_package; sse_round := message_round;
     sse_weight := fun s => (length (dec_lines (ms_decoder s)) + if dec_exhausted (ms_decoder s) then 0 else 1)%nat;
     sse_started := ms_started |}.

Definition messageStream_Recv : MS ModelEvent := sse_Recv.
Definition messageStream_Close : MS (option error) := stream_Close.

Definition no_usage : usageTotals := {| tot_input := 0; tot_output := 0; tot_cacheRead := 0; tot_cacheWrite := 0 |}.

Definition newMessageStream (body : Body) (maxEventBytes : Z) : messageStream :=
  {| ms_base := new_base; ms_decoder := newSSEDecoder body maxEventBytes; ms_started := false; ms_messageDelta := false;
     ms_stopReason := ""; ms_blocks := ∅; ms_seenCallIDs := ∅; ms_nextBlock := 0; ms_usage := no_usage |}.

End messages.
