(* ===== verification/MessageStreamSpec.v ===== *)
(** * What streams of Anthropic models guarantee

    The theorems about [MessageStream]: a stream ends and follows the protocol;
    its usage events add up to the cumulative counts the provider reported; each
    tool call is what its fragments say; the decoder reads back what was framed. *)

From Stdlib Require Import ZArith Lia Ascii.
From S2P Require Import Prelude Effects GoNum GoText Domain Model Stream Sse SseFrames MessageStream.

(* ------------------------------------------------------------------ *)
(** ** Events, usage and calls *)

(** The usage events add up to. *)
Definition add_usage (t : usageTotals) (u : Usage) : usageTotals :=
  {| tot_input := tot_input t + Usage_InputTokens u; tot_output := tot_output t + Usage_OutputTokens u;
     tot_cacheRead := tot_cacheRead t + Usage_CacheReadTokens u; tot_cacheWrite := tot_cacheWrite t + Usage_CacheWriteTokens u |}.

Definition sum_usage (events : list ModelEvent) : usageTotals := foldl add_usage no_usage (omap ModelEvent_Usage events).

Definition count_ok (x : Z) : Prop := 0 <= x <= int64_max.
Definition totals_ok (t : usageTotals) : Prop :=
  count_ok (tot_input t) ∧ count_ok (tot_output t) ∧ count_ok (tot_cacheRead t) ∧ count_ok (tot_cacheWrite t).

(** The tool block that fragments describe: the first one names it. *)
Record blockText : Type := { text_id : string; text_name : string; text_input : string }.

Definition add_fragment (b : blockText) (d : ToolCallDelta) : blockText :=
  if Delta_ID d =s ""
  then {| b with text_input := text_input b +:+ Delta_InputFragment d |}
  else {| text_id := Delta_ID d; text_name := Delta_Name d; text_input := Delta_InputFragment d |}.

Definition last_block (ds : list ToolCallDelta) : blockText :=
  foldl add_fragment {| text_id := ""; text_name := ""; text_input := "" |} ds.

(** [c] is the call of the block [b], which began with the input [initial]. *)
Definition completes (b : blockText) (c : ToolCall) : Prop :=
  Call_ID c = text_id b ∧ Call_Name c = text_name b ∧
  ∃ initial, let input := initial +:+ text_input b in Call_Input c = if input =s "" then "{}" else input.

(** Every call completes the block of the fragments before it. *)
Definition calls_built (events : list ModelEvent) : Prop :=
  ∀ p c, (payload <$> events) !! p = Some (call_event c) → completes (last_block (deltas_of (take p events))) c.

Definition call_ids (events : list ModelEvent) : list string := Call_ID <$> omap ModelEvent_ToolCall events.

(** An open tool block agrees with the fragments so far. *)
Definition block_agrees (events : list ModelEvent) (b : blockState) : Prop :=
  blk_kind b = "tool_use" →
  ∃ initial, let t := last_block (deltas_of events) in
    text_id t = blk_id b ∧ text_name t = blk_name b ∧ blk_input b = initial +:+ text_input t.

Record message_rel (events : list ModelEvent) (usage : usageTotals) (seen : gset string) (blocks : gmap Z blockState) : Prop := {
  mr_usage : sum_usage events = usage;
  mr_counts : totals_ok usage;
  mr_calls : calls_built events;
  mr_ids : NoDup (call_ids events);
  mr_seen : seen = list_to_set (call_ids events);
  mr_blocks : blocks = ∅ ∨ ∃ i b, blocks = {[ i := b ]} ∧ block_agrees events b;
}.

#[global] Instance message_spec : SseSpec messageStream :=
  {| sse_inv := fun all s => message_rel all (ms_usage s) (ms_seenCallIDs s) (ms_blocks s) |}.

Lemma message_inv_framed : framed (sse_inv (S:=messageStream)).
Proof. by intros all f s. Qed.

(** Adding an event without a call, usage or fragment. *)
Definition silent (e : ModelEvent) : Prop :=
  ModelEvent_ToolCallDelta e = None ∧ ModelEvent_ToolCall e = None ∧ ModelEvent_Usage e = None.

Lemma omap_snoc {A B} (f : A → option B) l x : omap f (l ++ [x]) = omap f l ++ option_list (f x).
Proof. rewrite omap_app. cbn. by destruct (f x). Qed.

Lemma deltas_of_snoc l e : deltas_of (l ++ [e]) = deltas_of l ++ option_list (ModelEvent_ToolCallDelta e).
Proof. apply omap_snoc. Qed.

Lemma call_ids_snoc l e : call_ids (l ++ [e]) = call_ids l ++ option_list (Call_ID <$> ModelEvent_ToolCall e).
Proof. unfold call_ids. rewrite omap_snoc, fmap_app. by destruct (ModelEvent_ToolCall e). Qed.

Lemma sum_usage_snoc l e :
  sum_usage (l ++ [e]) = match ModelEvent_Usage e with Some u => add_usage (sum_usage l) u | None => sum_usage l end.
Proof. unfold sum_usage. rewrite omap_snoc. destruct (ModelEvent_Usage e); cbn; [by rewrite foldl_snoc | by rewrite app_nil_r]. Qed.

Lemma calls_built_snoc l e :
  calls_built l → (∀ c, payload e = call_event c → completes (last_block (deltas_of l)) c) → calls_built (l ++ [e]).
Proof.
  intros Hl He p c. rewrite fmap_app. cbn [fmap list_fmap]. intros [Hp|[-> Hc]]%lookup_snoc.
  - apply lookup_lt_Some in Hp as Hlt. rewrite length_fmap in Hlt. rewrite take_app_le by lia. by apply Hl.
  - rewrite length_fmap, take_app_length. by apply He.
Qed.

Lemma calls_built_other l e : ModelEvent_ToolCall e = None → calls_built l → calls_built (l ++ [e]).
Proof.
  intros He Hl. apply calls_built_snoc; [done|]. intros c Hc. apply (f_equal ModelEvent_ToolCall) in Hc. cbn in Hc. congruence.
Qed.

Lemma message_rel_silent all u seen blocks e :
  silent e → message_rel all u seen blocks → message_rel (all ++ [e]) u seen blocks.
Proof.
  intros (Hd & Hc & Hu) [H1 H2 H3 H4 H5 H6]. split; rewrite ?call_ids_snoc, ?sum_usage_snoc, ?Hc, ?Hu, ?app_nil_r; try done.
  - by apply calls_built_other.
  - unfold block_agrees in *. by rewrite deltas_of_snoc, Hd, app_nil_r.
Qed.

Lemma sub_totals total usage :
  totals_ok total → totals_ok usage → totals_decreased total usage = false →
  add_usage usage (totals_delta total usage) = total ∧
  (delta_nonzero (totals_delta total usage) = false → total = usage).
Proof.
  destruct total as [i o r w], usage as [i' o' r' w']. unfold totals_ok, count_ok, totals_decreased, add_usage, totals_delta, delta_nonzero.
  cbn [tot_input tot_output tot_cacheRead tot_cacheWrite Usage_InputTokens Usage_OutputTokens Usage_CacheReadTokens Usage_CacheWriteTokens].
  intros (Hi & Ho & Hr & Hw) (Hi' & Ho' & Hr' & Hw') Hd.
  rewrite !sub64_exact by (unfold_int64; lia). split; [f_equal; lia|].
  intros H. rewrite !orb_false_iff, !negb_false_iff, !Z.eqb_eq in H. destruct H as [[[H1 H2] H3] H4]. f_equal; lia.
Qed.

Lemma message_rel_usage all usage seen blocks total k :
  totals_ok total → totals_decreased total usage = false → message_rel all usage seen blocks →
  message_rel (all ++ [numbered (usage_event (totals_delta total usage)) k]) total seen blocks.
Proof.
  intros Ht Hd [H1 H2 H3 H4 H5 H6]. split; try done.
  - rewrite sum_usage_snoc, H1. exact (proj1 (sub_totals total usage Ht H2 Hd)).
  - by apply calls_built_other.
  - by rewrite call_ids_snoc, app_nil_r.
  - by rewrite call_ids_snoc, app_nil_r.
  - unfold block_agrees in *. by rewrite deltas_of_snoc, app_nil_r.
Qed.

Lemma message_rel_call all usage seen b k :
  message_rel all usage seen ∅ → block_agrees all b → blk_kind b = "tool_use" → blk_id b ∉ seen →
  message_rel (all ++ [numbered (call_event (block_call b)) k]) usage ({[ blk_id b ]} ∪ seen) ∅.
Proof.
  intros [H1 H2 H3 H4 H5 H6] Hb Hk Hn. destruct (Hb Hk) as (initial & Hid & Hname & Hin). split; [| done | | | | by left].
  - by rewrite sum_usage_snoc.
  - apply calls_built_snoc; [done|]. intros c Hc. injection Hc as <-. unfold block_call, completes. cbn.
    rewrite Hid, Hname, Hin. split_and!; [done | done | by exists initial].
  - rewrite call_ids_snoc. cbn. apply NoDup_app. split_and!; [done | | apply NoDup_singleton].
    intros x Hx ->%list_elem_of_singleton. destruct Hn. rewrite H5. by apply elem_of_list_to_set.
  - rewrite call_ids_snoc, list_to_set_app_L, (comm_L (∪)), H5. cbn. by rewrite (right_id_L ∅ (∪)).
Qed.

(** A tool block starts, and goes on. *)
Definition started_block (b : startedBlock) (input : string) : blockState :=
  {| blk_kind := Block_Type b; blk_id := Block_ID b; blk_name := Block_Name b; blk_input := input |}.

Lemma message_rel_delta all usage seen blocks blocks' d k :
  message_rel all usage seen blocks →
  (blocks' = ∅ ∨ ∃ i b, blocks' = {[ i := b ]} ∧ block_agrees (all ++ [numbered (delta_event d) k]) b) →
  message_rel (all ++ [numbered (delta_event d) k]) usage seen blocks'.
Proof.
  intros [H1 H2 H3 H4 H5 H6] Hb. split; try done.
  - by rewrite sum_usage_snoc.
  - by apply calls_built_other.
  - by rewrite call_ids_snoc, app_nil_r.
  - by rewrite call_ids_snoc, app_nil_r.
Qed.

Lemma last_block_delta all d k :
  last_block (deltas_of (all ++ [numbered (delta_event d) k])) = add_fragment (last_block (deltas_of all)) d.
Proof. rewrite deltas_of_snoc. apply (foldl_snoc add_fragment). Qed.

Lemma block_agrees_start all i b input k :
  Block_ID b ≠ "" →
  block_agrees (all ++ [numbered (delta_event {| Delta_Index := i; Delta_ID := Block_ID b; Delta_Name := Block_Name b;
    Delta_InputFragment := "" |}) k]) (started_block b input).
Proof.
  intros Hid _. exists input. rewrite last_block_delta. unfold add_fragment. cbn [Delta_ID]. apply seqb_false in Hid.
  rewrite Hid. cbn. by rewrite append_nil_r.
Qed.

Lemma block_agrees_more all b fragment i k :
  block_agrees all b →
  block_agrees (all ++ [numbered (delta_event {| Delta_Index := i; Delta_ID := ""; Delta_Name := "";
    Delta_InputFragment := fragment |}) k]) {| b with blk_input := blk_input b +:+ fragment |}.
Proof.
  intros Hb Hk. destruct (Hb Hk) as (initial & Hid & Hname & Hin). exists initial. rewrite last_block_delta.
  unfold add_fragment. cbn. split_and!; [done | done|]. by rewrite Hin, append_assoc.
Qed.

(* ------------------------------------------------------------------ *)
(** ** Rounds *)

(** Decoded counts fit int64, the type of the fields encoding/json decodes into. *)
Definition decoded_count (x : option Z) : Prop := ∀ v, x = Some v → is_int64 v.
Definition decoded_usage (u : wireUsage) : Prop :=
  decoded_count (Wire_InputTokens u) ∧ decoded_count (Wire_OutputTokens u) ∧
  decoded_count (Wire_CacheReadTokens u) ∧ decoded_count (Wire_CacheWriteTokens u).

Class EnvelopeLaws `{EnvelopeDecoder} : Prop := {
  message_decoded : ∀ data e u, decode_envelope data = Ok e → Env_Message e = Some u → decoded_usage u;
  usage_decoded : ∀ data e u, decode_envelope data = Ok e → Env_Usage e = Some u → decoded_usage u;
}.

Lemma default_count x d : decoded_count x → count_ok d → 0 <= default d x → count_ok (default d x).
Proof. intros Hx Hd. destruct x as [v|]; cbn; [|done]. specialize (Hx v eq_refl). unfold count_ok in *. unfold_int64. lia. Qed.

Lemma reported_ok t u : totals_ok t → decoded_usage u → totals_negative (reported t u) = false → totals_ok (reported t u).
Proof.
  intros (H1 & H2 & H3 & H4) (D1 & D2 & D3 & D4). unfold totals_negative, reported, totals_ok. cbn.
  rewrite !orb_false_iff, !Z.ltb_ge. intros [[[N1 N2] N3] N4]. split_and!; by apply default_count.
Qed.

Section laws.
Context `{Henv : StreamEnv, Henvlaws : !EnvLaws, Hdecoder : EnvelopeDecoder, Hdecoded : !EnvelopeLaws}.

#[global] Instance message_frame : SseFrame messageStream.
Proof. split; [done | done | apply message_inv_framed]. Qed.

Abbreviation m_inv := (sse_inv (S:=messageStream)).
Abbreviation m_open := (sse_open (S:=messageStream)).

Lemma message_fail {A} P text (Q : A → messageStream → Prop) : total P (lm_fail (message_error text)) Q sse_failed.
Proof. by apply open_fail. Qed.

(** A look at the state: what is seen is the state. *)
Lemma open_get {A} I sent n (f : messageStream → EM messageStream A) Q F :
  (∀ s0, total (m_open (λ all s, s = s0 ∧ I all s) sent n) (f s0) Q F) → total (m_open I sent n) (lm_get ≫= f) Q F.
Proof.
  intros Hf. apply total_get_bind. intros s (? & ? & ? & ? & ? & ?) s' ->. by apply Hf.
Qed.

Lemma open_weaken I J sent n s : (∀ all s, I all s → J all s) → m_open I sent n s → m_open J sent n s.
Proof. intros HIJ (? & ? & ? & ? & ? & ?). split_and!; try done. by apply HIJ. Qed.

(** Changing fields and then queueing an event. *)
Lemma modify_enqueue I J sent n f event F :
  (∀ s, base (f s) = base s ∧ sse_weight (f s) = sse_weight s ∧ sse_started (f s) = sse_started s) →
  framed J → ModelEvent_Type event ≠ ModelEventStart → is_terminal event = false →
  (∀ k all s, I all s → J (all ++ [numbered event k]) (f s)) →
  total (m_open I sent n) (lm_modify f ;; stream_enqueue event) (λ _, m_open J sent n) F.
Proof.
  intros Hf HJ Hty Ht HIJ.
  eapply (total_bind _ _ (λ _, m_open (λ all s, ∀ k, J (all ++ [numbered event k]) s) sent n)).
  - apply open_modify; [done|]. intros all s HI k. by apply HIJ.
  - intros ?. apply enqueue_open; [exact HJ | exact Hty | exact Ht|]. intros k all s HI. apply HI.
Qed.

Lemma silent_open sent n event :
  ModelEvent_Type event ≠ ModelEventStart → is_terminal event = false → silent event →
  total (m_open m_inv sent n) (stream_enqueue event) (λ _, m_open m_inv sent n) sse_failed.
Proof.
  intros Hty Ht Hs. apply enqueue_open; [apply message_inv_framed | done | done|]. intros k all s. by apply message_rel_silent.
Qed.

Lemma updateUsage_open sent n next :
  decoded_usage next → total (m_open m_inv sent n) (updateUsage next) (λ _, m_open m_inv sent n) sse_failed.
Proof.
  intros Hdec. unfold updateUsage. apply open_get. intros s0. cbn zeta.
  set (total := reported (ms_usage s0) next).
  destruct (totals_negative total) eqn:En; [apply message_fail|].
  destruct (totals_decreased total (ms_usage s0)) eqn:Ed; [apply message_fail|].
  assert (∀ all s, s = s0 ∧ m_inv all s → totals_ok total) as Hok.
  { intros all s [-> HI]. by apply reported_ok; [apply (mr_counts _ _ _ _ HI) | |]. }
  destruct (delta_nonzero _) eqn:Ez.
  - apply modify_enqueue; [done | apply message_inv_framed | done | done|].
    intros k all s H. pose proof (Hok all s H) as Ht. destruct H as [-> HI]. by apply message_rel_usage.
  - eapply (total_bind _ _ (λ _, m_open m_inv sent n)); [|intros ?; by apply total_ret].
    apply open_modify; [done|]. intros all s H. pose proof (Hok all s H) as Ht. destruct H as [-> HI].
    destruct (sub_totals total (ms_usage s0)) as [_ Heq]; [done | apply (mr_counts _ _ _ _ HI) | done|].
    cbn. by rewrite (Heq Ez).
Qed.

(** Nothing is open, but the block [block] was, or is about to be. *)
Definition beside (block : blockState) (all : list ModelEvent) (s : messageStream) : Prop :=
  ms_blocks s = ∅ ∧ m_inv all s ∧ block_agrees all block.

Lemma beside_framed block : framed (beside block).
Proof. by intros all f s. Qed.

Lemma no_blocks_framed : framed (λ all s, ms_blocks s = ∅ ∧ m_inv all s).
Proof. by intros all f s. Qed.

Lemma open_block_open sent n index b :
  total (m_open (λ all s, ms_blocks s = ∅ ∧ m_inv all s) sent n) (open_block index b)
    (λ block, m_open (beside block) sent n) sse_failed.
Proof.
  unfold open_block. cbn zeta. destruct (Block_Type b =s "text") eqn:Et.
  - apply seqb_true in Et. eapply (total_bind _ _ (λ _, m_open (λ all s, ms_blocks s = ∅ ∧ m_inv all s) sent n)).
    + destruct (_ ≠s ""); [|by apply total_ret].
      apply enqueue_open; [apply no_blocks_framed | done | done|]. intros k all s [Hb HI]. split; [done|].
      by apply message_rel_silent.
    + intros ?. apply total_ret. intros s. apply open_weaken. intros all s' [Hb HI]. split_and!; [done | done|].
      intros Hk. cbn in Hk. by rewrite Et in Hk.
  - destruct (Block_Type b =s "tool_use"); [|apply message_fail].
    destruct (_ || _) eqn:Eid; [apply message_fail|]. apply orb_false_iff in Eid as [Eid _]. apply seqb_false in Eid.
    set (input := if _ && _ then _ else _).
    eapply (total_bind _ _ (λ _, m_open (beside (started_block b input)) sent n)); [|intros ?; by apply total_ret].
    apply enqueue_open; [apply beside_framed | done | done|]. intros k all s [Hb HI]. split_and!; [done | | by apply block_agrees_start].
    eapply message_rel_delta; [exact HI | by left].
Qed.

Lemma content_block_start_open sent n e :
  total (m_open m_inv sent n) (content_block_start e) (λ _, m_open m_inv sent n) sse_failed.
Proof.
  unfold content_block_start. apply open_get. intros s0. destruct (Env_ContentBlock e) as [b|]; [|apply message_fail].
  destruct (_ || _) eqn:E; [apply message_fail|]. apply orb_false_iff in E as [_ E]. apply negb_false_iff, bool_decide_eq_true in E.
  eapply total_bind.
  { eapply total_pre; [apply (open_block_open sent n)|]. intros s. apply open_weaken. by intros all s' [-> HI]. }
  intros block. apply open_modify; [done|]. intros all s (Hb & HI & Ha). destruct HI as [H1 H2 H3 H4 H5 H6].
  split; try done. cbn. right. exists (Env_Index e), block. rewrite Hb. done.
Qed.

(** The one open block. *)
Lemma only_block all s i b :
  m_inv all s → ms_blocks s !! i = Some b → ms_blocks s = {[ i := b ]} ∧ block_agrees all b.
Proof.
  intros HI Hb. destruct (mr_blocks _ _ _ _ HI) as [H|(j & b' & H & Ha)]; rewrite H in Hb |- *; [done|].
  apply lookup_singleton_Some in Hb as [-> ->]. done.
Qed.

Lemma content_block_delta_open sent n e :
  total (m_open m_inv sent n) (content_block_delta e) (λ _, m_open m_inv sent n) sse_failed.
Proof.
  unfold content_block_delta. apply open_get. intros s0.
  destruct (ms_blocks s0 !! Env_Index e) as [block|] eqn:Eb; [|apply message_fail].
  destruct (Env_Delta e) as [delta|]; [|apply message_fail].
  destruct (Env_Delta_Type delta =s "text_delta").
  { destruct (_ || _); [apply message_fail|].
    eapply total_pre; [by apply (silent_open sent n) | intros s; apply open_weaken; by intros all s' [_ HI]]. }
  destruct (Env_Delta_Type delta =s "input_json_delta"); [|apply message_fail]. destruct (_ || _); [apply message_fail|].
  apply modify_enqueue; [done | apply message_inv_framed | done | done|].
  intros k all s [-> HI]. destruct (only_block all s0 _ _ HI Eb) as [Hone Ha].
  eapply message_rel_delta; [exact HI|]. right. eexists _, _. split; [|by apply block_agrees_more].
  cbn. by rewrite Hone, insert_singleton_eq.
Qed.

Lemma content_block_stop_open sent n e :
  total (m_open m_inv sent n) (content_block_stop e) (λ _, m_open m_inv sent n) sse_failed.
Proof.
  unfold content_block_stop. apply open_get. intros s0.
  destruct (ms_blocks s0 !! Env_Index e) as [block|] eqn:Eb; [|apply message_fail].
  eapply (total_bind _ _ (λ _, m_open (beside block) sent n)).
  { apply open_modify; [done|]. intros all s [-> HI]. destruct (only_block all s0 _ _ HI Eb) as [Hone Ha].
    assert (delete (Env_Index e) (ms_blocks s0) = ∅) as Hd by (by rewrite Hone, delete_singleton_eq).
    split_and!; [done | | done]. destruct HI as [H1 H2 H3 H4 H5 _]. split; try done. by left. }
  intros ?. destruct (blk_kind block =s "tool_use") eqn:Ek.
  - cbn zeta. destruct (ModelEvent_Validate _); [|apply message_fail]. apply open_get. intros s1.
    destruct (bool_decide _) eqn:Es; [apply message_fail|]. apply bool_decide_eq_false in Es.
    apply modify_enqueue; [done | apply message_inv_framed | done | done|].
    intros k all s [-> (Hb & HI & Ha)]. apply seqb_true in Ek. unfold sse_inv, message_spec in HI |- *. rewrite Hb in HI. cbn.
    rewrite Hb. by apply message_rel_call.
  - apply total_ret. intros s. apply open_weaken. by intros all s' (_ & HI & _).
Qed.

Lemma message_delta_open sent n data e :
  decode_envelope data = Ok e → total (m_open m_inv sent n) (message_delta e) (λ _, m_open m_inv sent n) sse_failed.
Proof.
  intros Hd. unfold message_delta. apply open_get. intros s0. destruct (Env_Delta e ≫= _) as [reason|]; [|apply message_fail].
  destruct (negb _); [apply message_fail|]. destruct (_ && _); [apply message_fail|].
  eapply (total_bind _ _ (λ _, m_open m_inv sent n)).
  - apply open_modify; [done|]. by intros all s [_ HI].
  - intros ?. destruct (Env_Usage e) as [u|] eqn:Eu; [|by apply total_ret]. apply updateUsage_open.
    by eapply usage_decoded.
Qed.

Lemma message_stop_total sent n :
  total (m_open m_inv sent n) message_stop (λ _, sse_after sent n) sse_failed.
Proof.
  unfold message_stop. apply open_get. intros s0. destruct (_ || _); [apply message_fail|].
  eapply total_bind; [|intros ?; apply done_pending].
  apply enqueue_last; [done | done|]. intros k all s [_ HI]. by apply message_rel_silent.
Qed.

(** The start of a stream. *)
Lemma message_start_event_total sent n F :
  total (λ s, sse_live sent n s ∧ ms_started s = false) message_start_event (λ _, m_open m_inv sent n) F.
Proof.
  intros s [((Hf & Hst & HI) & Hd & Hw) Hs]. unfold message_start_event.
  assert (events_of sent s = []) as Hnil.
  { destruct (decide (events_of sent s = [])) as [|Hne]; [done|]. apply Hst in Hne. cbn in Hne. congruence. }
  set (s1 := {| s with ms_started := true |}). rewrite Hd in Hf.
  destruct (flow_enqueue_event false sent s1 (empty_event ModelEventStart)) as (s2 & k & E & Hf' & [f ->] & Hd' & He);
    [done | by split | done |].
  unfold mbind, lm_bind, lm_modify. fold s1. rewrite E. unfold sse_open. rewrite He, Hd', started_on_base, weight_on_base.
  split_and!; try done; [by intros [_ ?]%app_eq_nil|]. apply message_inv_framed.
  change (events_of sent s1) with (events_of sent s). by apply message_rel_silent.
Qed.

Lemma message_start_total sent n data e :
  decode_envelope data = Ok e → total (sse_live sent n) (message_start e) (λ _, m_open m_inv sent n) sse_failed.
Proof.
  intros Hd. unfold message_start. apply total_get_bind. intros s Hs s' ->.
  destruct (Env_Message e) as [u|] eqn:Eu; [|done]. destruct (ms_started s) eqn:Es; [done|].
  revert s Hs Es. enough (total (λ s, sse_live sent n s ∧ ms_started s = false) (message_start_event ;; updateUsage u)
    (λ _, m_open m_inv sent n) sse_failed) as H by (intros s Hs Es; by apply (H s)).
  eapply total_bind; [apply message_start_event_total|]. intros ?. apply updateUsage_open. by eapply message_decoded.
Qed.

Lemma message_reported_total sent n :
  total (sse_live sent n) message_reported (λ _, sse_after sent n) sse_failed.
Proof.
  unfold message_reported. apply total_get_bind. intros s Hs.
  eapply (total_pre _ (λ x, x = s)); [|done]. destruct (sb_done _); [by intros s' ->|].
  eapply (total_bind _ _ (λ _, m_open m_inv sent n)).
  - destruct (ms_started s) eqn:Es.
    + apply total_ret. intros s' ->. by apply live_open.
    + eapply total_pre; [apply message_start_event_total | by intros s' ->].
  - intros ?. eapply total_bind; [|intros ?; apply done_pending].
    apply enqueue_last; [done | done|]. intros k all s' HI. by apply message_rel_silent.
Qed.

Lemma consume_envelope_total sent n data e :
  decode_envelope data = Ok e → total (sse_live sent n) (consume_envelope e) (λ _, sse_after sent n) sse_failed.
Proof.
  intros Hd. unfold consume_envelope. destruct (Env_Type e =s "ping"); [apply total_ret; apply live_after|].
  destruct (Env_Type e =s "error"); [apply message_reported_total|].
  apply total_get_bind. intros s0 Hs0. eapply (total_pre _ (λ s, s = s0)); [|done].
  destruct (_ && _) eqn:E1; [by intros s ->|]. destruct (_ && _ && _); [by intros s ->|].
  assert (∀ m : EM messageStream unit, total (m_open m_inv sent n) m (λ _, m_open m_inv sent n) sse_failed →
    total (m_open m_inv sent n) m (λ _, sse_after sent n) sse_failed) as Hafter.
  { intros m Hm. eapply total_conseq; [exact Hm | done | intros ? s; apply open_after | done]. }
  destruct (Env_Type e =s "message_start") eqn:Em.
  { eapply total_conseq; [by eapply message_start_total | by intros s -> | intros ? s; apply open_after | done]. }
  rewrite andb_true_r in E1. apply negb_false_iff in E1.
  eapply (total_pre _ (m_open m_inv sent n)); [|intros s ->; by apply live_open].
  destruct (Env_Type e =s "content_block_start"); [apply Hafter, content_block_start_open|].
  destruct (Env_Type e =s "content_block_delta"); [apply Hafter, content_block_delta_open|].
  destruct (Env_Type e =s "content_block_stop"); [apply Hafter, content_block_stop_open|].
  destruct (Env_Type e =s "message_delta"); [by eapply Hafter, message_delta_open|].
  destruct (Env_Type e =s "message_stop"); [apply message_stop_total | apply message_fail].
Qed.

Lemma message_next_loop_lines max lines event data lines' answer rest :
  message_next_loop max lines event data = (lines', answer, rest) →
  (length lines' <= length lines)%nat ∧
  match answer with Some _ => (length lines' < length lines)%nat | None => lines' = [] end.
Proof.
  revert event data. induction lines as [|line lines IH]; intros event data; cbn [message_next_loop]; [by intros [= <- <- _]|].
  cbn [length]. assert (∀ v d, message_next_loop max lines v d = (lines', answer, rest) →
    (length lines' <= S (length lines))%nat ∧
    match answer with Some _ => (length lines' < S (length lines))%nat | None => lines' = [] end) as Hrec.
  { intros v d Hd. destruct (IH v d Hd) as [H1 H2]. destruct answer; [lia | split; [lia | done]]. }
  destruct (_ =s ""); [destruct (_ =? 0); [apply Hrec | intros [= <- <- _]; lia]|].
  destruct (strings_HasPrefix _ _); [apply Hrec|]. destruct (strings_Cut _ _) as [[field value] found].
  destruct (negb found); [apply Hrec|]. destruct (field =s "event").
  - destruct (_ ≠s ""); [intros [= <- <- _]; lia | apply Hrec].
  - destruct (field =s "data"); [|apply Hrec]. destruct (_ <? _); [intros [= <- <- _]; lia | apply Hrec].
Qed.

Lemma message_Next_total sent n : total (sse_ready sent n) message_Next (λ _, sse_live sent n) (λ _ _, True).
Proof.
  intros s (Hf & Hd & Hw). unfold message_Next, message_decoder_next. cbn in Hw.
  destruct (dec_exhausted (ms_decoder s)) eqn:Ex; [done|].
  destruct (message_next_loop _ _ _ _) as [[lines answer] [event data]] eqn:El. apply message_next_loop_lines in El as [Hle Hlt].
  destruct answer as [r|].
  - destruct r as [x|e]; [|done]. split_and!; try done. cbn. lia.
  - subst lines. destruct (dec_err _); [done|]. destruct (_ <? _); [|done]. split_and!; try done. cbn. lia.
Qed.

Lemma consume_total sent n name data : total (sse_live sent n) (consume name data) (λ _, sse_after sent n) sse_failed.
Proof.
  unfold consume. destruct (decode_envelope data) as [e|] eqn:Ed; [|apply message_fail].
  destruct (_ =s ""); [apply message_fail|]. destruct (_ || _); [apply message_fail|]. by eapply consume_envelope_total.
Qed.

Lemma message_round_total sent n : total (sse_ready sent n) message_round (λ _, sse_after sent n) sse_failed.
Proof.
  unfold message_round. eapply total_bind.
  { eapply total_attempt, (stream_nextSSE_total _ _ (λ _, sse_live sent n));
      [intros ?; apply live_undisturbed | apply ready_undisturbed | apply message_Next_total]. }
  intros [[name data]|err]; cbn beta iota; [|by apply receive_error_total].
  destruct (_ =s ""); [apply total_ret; apply live_after | apply consume_total].
Qed.

#[global] Instance message_laws : SseLaws messageStream.
Proof. split; [apply message_frame | apply message_round_total]. Qed.

Lemma newMessageStream_flowing body max : flowing [] (newMessageStream body max).
Proof.
  split_and!; [split; done | done|]. split; [done | done | by intros p c ? | constructor | done | by left].
Qed.

End laws.

(* ------------------------------------------------------------------ *)
(** ** The stream *)

Section stream.
Context `{Henv : StreamEnv, Henvlaws : !EnvLaws, Hdecoder : EnvelopeDecoder, Hdecoded : !EnvelopeLaws}.

(** Every stream ends: whatever the body holds and whenever its contexts end,
    [Recv] returns finitely many events and then an error; it never panics. *)
Theorem messageStream_ends body max :
  let s := newMessageStream body max in
  ∃ es e, delivers (as_stream s) es e ∧ fst (messageStream_Recv (after_recvs (length es) s)) = Failed e.
Proof.
  destruct (stream_delivers _ [] (newMessageStream_flowing body max)) as (es & e & Hd & He & _). by exists es, e.
Qed.

(** The events of a stream follow the protocol of [StreamValidator], and if
    it ends with io.EOF they are complete; so [DrainStream] accepts a stream
    exactly when it ends with io.EOF and its body closes without an error. *)
Theorem messageStream_protocol body max es e fuel ctx :
  let s := as_stream (newMessageStream body max) in
  delivers s es e → Z.of_nat (length es) < uint64_mod →
  (length es < fuel)%nat → (∀ n, is_some (ctx 0%nat) = true → is_some (ctx n) = true) →
  protocol_prefix es ∧ (errors_Is e "EOF" = true → protocol_complete es) ∧
  ∃ evs err, DrainStream fuel ctx (Some s) = Some (evs, err) ∧ evs `prefix_of` es ∧
    (err = None ↔ evs = es ∧ errors_Is e "EOF" = true ∧ body_close_err = None).
Proof.
  intros s Hd Hlen Hfuel Hctx. pose proof (newMessageStream_flowing body max) as Hf.
  destruct (stream_follows_protocol _ _ _ Hf Hd Hlen) as (Hp & _ & Hc).
  split_and!; [done | by intros H; apply Hc | by apply drain_accepts].
Qed.

(** Usage is reported without loss: when a stream ends with io.EOF, the usage
    events it sent add up to the latest cumulative counts the provider reported,
    none of which is negative. *)
Theorem messageStream_usage body max es e :
  let s := newMessageStream body max in
  delivers (as_stream s) es e → Z.of_nat (length es) < uint64_mod → errors_Is e "EOF" = true →
  let final := snd (messageStream_Recv (after_recvs (length es) s)) in
  sum_usage es = ms_usage final ∧ totals_ok (ms_usage final).
Proof.
  intros s Hd Hlen Heof. destruct (stream_follows_protocol _ _ _ (newMessageStream_flowing body max) Hd Hlen) as (_ & _ & Hc).
  destruct (Hc Heof) as [_ HI]. split; [apply (mr_usage _ _ _ _ HI) | apply (mr_counts _ _ _ _ HI)].
Qed.

(** When a stream ends with io.EOF, each tool call it sent completes the block
    of the fragments before it: the ID and name of the fragment that began the
    block and the input of all its fragments, [{}] if there is none; no two
    calls have the same ID. *)
Theorem messageStream_calls body max es e :
  delivers (as_stream (newMessageStream body max)) es e → Z.of_nat (length es) < uint64_mod → errors_Is e "EOF" = true →
  calls_built es ∧ NoDup (call_ids es).
Proof.
  intros Hd Hlen Heof. destruct (stream_follows_protocol _ _ _ (newMessageStream_flowing body max) Hd Hlen) as (_ & _ & Hc).
  destruct (Hc Heof) as [_ HI]. split; [apply (mr_calls _ _ _ _ HI) | apply (mr_ids _ _ _ _ HI)].
Qed.

End stream.

(* ------------------------------------------------------------------ *)
(** ** The decoder *)

(** A frame with an event name. *)
Definition named_frame (frame : string * list string) : list string :=
  field_line "event" (fst frame) :: data_frame (snd frame).

Definition named_ok (max : Z) (frame : string * list string) : Prop :=
  line_text (fst frame) ∧ Z.of_nat (String.length (field_line "event" (fst frame))) <= max ∧ frame_ok max (snd frame).

#[global] Instance named_ok_dec max frame : Decision (named_ok max frame).
Proof. unfold named_ok. apply _. Defined.

Definition named_message (frame : string * list string) : string * string := (fst frame, message (snd frame)).

Lemma message_next_loop_frame max event ls rest data :
  Forall line_text ls → (ls ≠ [] ∨ data ≠ "") → Z.of_nat (String.length (foldl append_line data ls)) <= max →
  message_next_loop max (data_frame ls ++ rest) event data =
  (rest, Some (Ok (event, foldl append_line data ls)), (event, foldl append_line data ls)).
Proof.
  intros Hl. revert data. induction Hl as [|l ls (Hl & _) Hls IH]; intros data Hne Hlen.
  - destruct Hne as [|Hd]; [done|]. cbn -[Z.of_nat]. apply string_length_pos in Hd. apply Z.ltb_lt in Hd.
    destruct (Z.eqb_spec (Z.of_nat (String.length data)) 0); [lia | done].
  - unfold data_frame. rewrite fmap_cons, <-!app_comm_cons. cbn [message_next_loop].
    assert ((field_line "data" l =s "") = false) as -> by done.
    assert (strings_HasPrefix (field_line "data" l) ":" = false) as -> by done.
    rewrite cut_field by done. cbn [negb]. assert (("data" =s "event") = false) as -> by done. rewrite String.eqb_refl.
    rewrite trim_space, <-length_append_line. cbn [foldl] in Hlen |- *.
    pose proof (fold_append_line_length (append_line data l) ls) as Hmono.
    destruct (Z.ltb_spec max (Z.of_nat (String.length (append_line data l)))); [lia|].
    apply IH; [|done]. right. unfold append_line. by apply append_nonempty.
Qed.

Lemma message_decoder_next_frame d frame rest :
  named_ok (dec_maxEventBytes d) frame → dec_exhausted d = false → dec_lines d = named_frame frame ++ rest →
  message_decoder_next d = (Ok (named_message frame), {| d with dec_lines := rest |}).
Proof.
  destruct frame as [name ls]. intros ((Hname & _) & _ & Hok) Hex Hlines. cbn [fst snd] in *.
  destruct (frame_message _ _ Hok) as [Hm Hmne]. destruct Hok as (Hne & Hl & _ & Hlen).
  unfold message_decoder_next. rewrite Hex, Hlines. unfold named_frame. cbn [fst snd]. rewrite <-app_comm_cons. cbn [message_next_loop].
  assert ((field_line "event" name =s "") = false) as -> by done.
  assert (strings_HasPrefix (field_line "event" name) ":" = false) as -> by done.
  rewrite cut_field by done. cbn [negb]. rewrite String.eqb_refl, trim_space. cbn [String.eqb negb].
  rewrite message_next_loop_frame; [| done | by left | by rewrite Hm]. unfold named_message. cbn [fst snd]. by rewrite Hm.
Qed.

Lemma message_decoder_reads frames d :
  Forall (named_ok (dec_maxEventBytes d)) frames → dec_exhausted d = false → dec_lines d = frames ≫= named_frame →
  dec_err d = None → reads message_decoder_next d (named_message <$> frames) io_EOF.
Proof.
  intros H. revert d H. induction frames as [|frame frames IH]; intros d H Hex Hlines Herr.
  - cbn in Hlines |- *. unfold message_decoder_next. by rewrite Hex, Hlines, Herr.
  - inversion H as [|? ? Hls Hfs]; subst. rewrite fmap_cons. cbn [reads].
    rewrite (message_decoder_next_frame d frame (frames ≫= named_frame)) by done. split; [done|]. by apply IH.
Qed.

(** What is framed as named server-sent events is read back: the decoder of a
    body of frames within the limit hands on the name and the message of each
    frame, data lines joined by newlines, and then fails with io.EOF. *)
Theorem message_decoder_frames frames max :
  0 <= max < 9223372036854775807 → Forall (named_ok max) frames →
  reads message_decoder_next (newSSEDecoder (body_of (frames ≫= named_frame) None) max) (named_message <$> frames) io_EOF.
Proof.
  intros Hm H. rewrite newSSEDecoder_lines; [by apply message_decoder_reads | done|].
  induction H as [|frame frames (Hname & Hlen & Hls) _ IH]; [constructor|]. rewrite bind_cons. unfold named_frame at 1.
  rewrite <-app_comm_cons. constructor; [by apply scanned_field|]. apply Forall_app.
  split; [apply data_frame_scanned; [lia | done] | exact IH].
Qed.

(* ------------------------------------------------------------------ *)
(** ** An example *)

#[local] Existing Instance live_env.

Definition example_envelope (type : string) : streamEnvelope :=
  {| Env_Type := type; Env_Index := 0; Env_Message := None; Env_ContentBlock := None; Env_Delta := None; Env_Usage := None |}.

Definition example_counts (input output : Z) : wireUsage :=
  {| Wire_InputTokens := Some input; Wire_OutputTokens := Some output; Wire_CacheReadTokens := None; Wire_CacheWriteTokens := None |}.

Definition example_tool_block : startedBlock :=
  {| Block_Type := "tool_use"; Block_Text := ""; Block_ID := "c1"; Block_Name := "read"; Block_Input := "{}" |}.

Definition example_delta (type text json : string) (stop : option string) : envelopeDelta :=
  {| Env_Delta_Type := type; Env_Delta_Text := text; Env_Delta_PartialJSON := json; Env_Delta_StopReason := stop |}.

(** Envelopes by name. *)
#[local] Instance example_envelopes : EnvelopeDecoder :=
  {| decode_envelope := fun data =>
       if data =s "start" then
         let e := example_envelope "message_start" in Ok {| e with Env_Message := Some (example_counts 10 1) |}
       else if data =s "block" then
         let e := example_envelope "content_block_start" in Ok {| e with Env_ContentBlock := Some example_tool_block |}
       else if data =s "begin" then
         let e := example_envelope "content_block_delta" in
         Ok {| e with Env_Delta := Some (example_delta "input_json_delta" "" "{" None) |}
       else if data =s "end" then
         let e := example_envelope "content_block_delta" in
         Ok {| e with Env_Delta := Some (example_delta "input_json_delta" "" "}" None) |}
       else if data =s "closed" then Ok (example_envelope "content_block_stop")
       else if data =s "final" then
         let e := example_envelope "message_delta" in
         Ok {| e with Env_Delta := Some (example_delta "" "" "" (Some "tool_use")); Env_Usage := Some (example_counts 10 7) |}
       else if data =s "stop" then Ok (example_envelope "message_stop")
       else Err (errors_New "unexpected event") |}.

Lemma example_decoded data e u :
  decode_envelope data = Ok e → Env_Message e = Some u ∨ Env_Usage e = Some u → decoded_usage u.
Proof.
  unfold decode_envelope, example_envelopes.
  repeat (destruct (_ =s _); [intros [= <-]; cbn; intros [[= <-]|[= <-]] || intros [?|?]; try done; split_and!; intros v [= <-]; by vm_compute|]).
  done.
Qed.

#[local] Instance example_envelope_laws : EnvelopeLaws.
Proof. split; intros; eapply example_decoded; eauto. Qed.

Definition example_named : list (string * list string) :=
  [("message_start", ["start"]); ("content_block_start", ["block"]); ("content_block_delta", ["begin"]);
   ("content_block_delta", ["end"]); ("content_block_stop", ["closed"]); ("message_delta", ["final"]); ("message_stop", ["stop"])].

Definition example_body : Body := body_of (example_named ≫= named_frame) None.
Definition example_messages : messageStream := newMessageStream example_body 64.

Definition example_message_events : list ModelEvent :=
  let usage i o := usage_event {| Usage_InputTokens := i; Usage_OutputTokens := o; Usage_CacheReadTokens := 0;
                                  Usage_CacheWriteTokens := 0; Usage_Cost := 0 |} in
  let delta id name fragment :=
    delta_event {| Delta_Index := 0; Delta_ID := id; Delta_Name := name; Delta_InputFragment := fragment |} in
  imap (fun i e => numbered e (Z.of_nat i + 1))
    [empty_event ModelEventStart; usage 10 1; delta "c1" "read" ""; delta "" "" "{"; delta "" "" "}";
     call_event {| Call_ID := "c1"; Call_Name := "read"; Call_Input := "{}" |}; usage 0 6; stop_event StopToolUse].

Lemma example_message_delivers : delivers (as_stream example_messages) example_message_events io_EOF.
Proof.
  split; [|by vm_compute]. intros i x Hi. pose proof (lookup_lt_Some _ _ _ Hi) as Hlt.
  do 8 (destruct i as [|i]; [vm_compute in Hi |- *; congruence|]). cbn in Hlt. lia.
Qed.

Lemma messageStream_ends_witness :
  ∃ es e, delivers (as_stream example_messages) es e ∧
    fst (messageStream_Recv (after_recvs (length es) example_messages)) = Failed e.
Proof. exact (messageStream_ends (Henvlaws:=live_laws) (Hdecoded:=example_envelope_laws) example_body 64). Defined.

Lemma messageStream_protocol_witness :
  protocol_prefix example_message_events ∧ (errors_Is io_EOF "EOF" = true → protocol_complete example_message_events) ∧
  ∃ evs err, DrainStream 9 background (Some (as_stream example_messages)) = Some (evs, err) ∧
    evs `prefix_of` example_message_events ∧
    (err = None ↔ evs = example_message_events ∧ errors_Is io_EOF "EOF" = true ∧ body_close_err = None).
Proof.
  apply (messageStream_protocol (Henvlaws:=live_laws) (Hdecoded:=example_envelope_laws) example_body 64 example_message_events io_EOF);
    [apply example_message_delivers | by vm_compute | vm_compute; lia | done].
Defined.

Lemma messageStream_usage_witness :
  let final := snd (messageStream_Recv (after_recvs 8 example_messages)) in
  sum_usage example_message_events = ms_usage final ∧ totals_ok (ms_usage final).
Proof.
  apply (messageStream_usage (Henvlaws:=live_laws) (Hdecoded:=example_envelope_laws) example_body 64 example_message_events io_EOF);
    [apply example_message_delivers | by vm_compute | done].
Defined.

Lemma messageStream_calls_witness : calls_built example_message_events ∧ NoDup (call_ids example_message_events).
Proof.
  apply (messageStream_calls (Henvlaws:=live_laws) (Hdecoded:=example_envelope_laws) example_body 64 example_message_events io_EOF);
    [apply example_message_delivers | by vm_compute | done].
Defined.

Lemma message_decoder_frames_witness :
  reads message_decoder_next (newSSEDecoder example_body 64) (named_message <$> example_named) io_EOF.
Proof. apply message_decoder_frames; [lia | apply (bool_decide_unpack _); vm_compute; exact I]. Defined.
