(* ===== verification/ChatTranslate.v ===== *)
(** * Requests for OpenAI-compatible providers: src/provider/openaicompat/translate.go

    The wire form of a request and its messages, the translation of a
    [ModelRequest] into it, and what the translation keeps. *)

From Stdlib Require Import ZArith Lia.
From S2P Require Import Prelude GoText Domain Model LoopTypes.

(* ------------------------------------------------------------------ *)
(** ** The wire form *)

Record chatToolFunction : Type := {
  Function_Name : string;
  Function_Description : string;
  Function_Parameters : bytes;
  Function_Arguments : string;
  Function_Strict : bool;
}.

Record chatToolCall : Type := {
  Wire_Call_ID : string;
  Wire_Call_Type : string;
  Wire_Call_Function : chatToolFunction;
}.

Record chatMessage : Type := {
  Chat_Role : string;
  Chat_Content : option string;
  Chat_ToolCalls : list chatToolCall;
  Chat_ToolCallID : string;
}.

Record chatTool : Type := { Chat_Tool_Type : string; Chat_Tool_Function : chatToolFunction }.

(** The [any] of [ToolChoice]: a mode, or a [namedToolChoice]. *)
Inductive chatToolChoice : Type :=
| ChoiceMode (mode : string)
| ChoiceNamed (type name : string).

Record chatJSONSchema : Type := { Schema_Name : string; Schema_Schema : bytes; Schema_Strict : bool }.
Record chatResponseFormat : Type := { Format_Type : string; Format_JSONSchema : chatJSONSchema }.

Record chatRequest : Type := {
  Chat_Model : string;
  Chat_Messages : list chatMessage;
  Chat_Tools : list chatTool;
  Chat_ToolChoice : chatToolChoice;
  Chat_ResponseFormat : option chatResponseFormat;
  Chat_MaxTokens : option Z;
  Chat_MaxCompletionTokens : option Z;
  Chat_Stream : bool;
  Chat_IncludeUsage : bool;
}.

Definition TokenLimitMaxTokens : string := "max_tokens".
Definition TokenLimitMaxCompletionTokens : string := "max_completion_tokens".

Definition chat_ErrTranslation : error := Sentinel "OpenAI-compatible translation failed".

(** [fmt.Errorf("%w: ...", ErrTranslation, err)] *)
Definition chat_translation_error (text : string) : error := Errorf text [chat_ErrTranslation].

(* ------------------------------------------------------------------ *)
(** ** Messages *)

Fixpoint textOnlyContent (parts : list ContentPart) : result string :=
  match parts with
  | [] => Ok ""
  | part :: parts' =>
      if Part_Type part ≠s ContentText then Err (errors_New "content type is unsupported")
      else content ← textOnlyContent parts'; Ok (Part_Text part +:+ content)
  end.

Definition text_message (role content : string) : chatMessage :=
  {| Chat_Role := role; Chat_Content := Some content; Chat_ToolCalls := []; Chat_ToolCallID := "" |}.

Definition wire_call (part : ContentPart) : chatToolCall :=
  {| Wire_Call_ID := Part_ToolCallID part; Wire_Call_Type := "function";
     Wire_Call_Function := {| Function_Name := Part_ToolName part; Function_Description := ""; Function_Parameters := "";
                              Function_Arguments := Part_JSON part; Function_Strict := false |} |}.

(** The loop of [translateAssistant]: the text so far, if any, and the calls. *)
Fixpoint assistant_loop (parts : list ContentPart) (text : option string) (calls : list chatToolCall) :
    result (option string * list chatToolCall) :=
  match parts with
  | [] => Ok (text, calls)
  | part :: parts' =>
      if Part_Type part =s ContentText then assistant_loop parts' (Some (default "" text +:+ Part_Text part)) calls
      else if Part_Type part =s ContentToolCall then assistant_loop parts' text (calls ++ [wire_call part])
      else Err (errors_New "assistant content type is unsupported")
  end.

Definition translateAssistant (parts : list ContentPart) : result chatMessage :=
  '(text, calls) ← assistant_loop parts None [];
  if negb (is_some text) && (Z.of_nat (length calls) =? 0)
  then Err (errors_New "assistant message has no translatable content")
  else Ok {| Chat_Role := "assistant"; Chat_Content := text; Chat_ToolCalls := calls; Chat_ToolCallID := "" |}.

(** The groups of [translateToolResults], in the order of their first parts. *)
Record resultGroup : Type := { group_id : string; group_content : string; group_parts : nat }.

(** A part's content joins the group of its call, after a newline if it is not
    the first of it. *)
Fixpoint add_to_group (id piece : string) (groups : list resultGroup) : list resultGroup :=
  match groups with
  | [] => [{| group_id := id; group_content := piece; group_parts := 1 |}]
  | g :: groups' =>
      if group_id g =s id
      then {| group_id := id;
              group_content := (if (0 <? group_parts g)%nat then group_content g +:+ newline else group_content g) +:+ piece;
              group_parts := S (group_parts g) |} :: groups'
      else g :: add_to_group id piece groups'
  end.

Definition result_piece (part : ContentPart) : result string :=
  if Part_Type part =s ContentToolResult
  then if Z.of_nat (String.length (Part_JSON part)) =? 0 then Err (errors_New "tool result has no JSON content")
       else Ok (Part_JSON part)
  else if Part_Type part =s ContentText then Ok (Part_Text part)
  else Err (errors_New "tool result content type is unsupported").

Fixpoint result_groups (parts : list ContentPart) (groups : list resultGroup) : result (list resultGroup) :=
  match parts with
  | [] => Ok groups
  | part :: parts' =>
      require (Part_ToolCallID part ≠s "") "tool result content has no call ID" ;;
      piece ← result_piece part;
      result_groups parts' (add_to_group (Part_ToolCallID part) piece groups)
  end.

Definition tool_message (id content : string) : chatMessage :=
  {| Chat_Role := "tool"; Chat_Content := Some content; Chat_ToolCalls := []; Chat_ToolCallID := id |}.

Definition group_message (g : resultGroup) : chatMessage := tool_message (group_id g) (group_content g).

Definition translateToolResults (parts : list ContentPart) : result (list chatMessage) :=
  fmap (M:=list) group_message <$> result_groups parts [].

Definition translate_chat_message (m : Message) : result (list chatMessage) :=
  if (Message_Role m =s RoleSystem) || (Message_Role m =s RoleUser)
  then content ← textOnlyContent (Message_Content m); Ok [text_message (Message_Role m) content]
  else if Message_Role m =s RoleAssistant then translated ← translateAssistant (Message_Content m); Ok [translated]
  else if Message_Role m =s RoleTool then translateToolResults (Message_Content m)
  else Err (errors_New "message has unsupported role").

(** [translateMessages]: every error is an [ErrTranslation]. *)
Fixpoint translateMessages (messages : list Message) : result (list chatMessage) :=
  match messages with
  | [] => Ok []
  | m :: messages' =>
      match translate_chat_message m with
      | Err _ => Err (chat_translation_error "message")
      | Ok translated => rest ← translateMessages messages'; Ok (translated ++ rest)
      end
  end.

(* ------------------------------------------------------------------ *)
(** ** Requests *)

Definition wire_tool (definition : ToolDefinition) : chatTool :=
  {| Chat_Tool_Type := "function";
     Chat_Tool_Function := {| Function_Name := Tool_Name definition; Function_Description := Tool_Description definition;
                              Function_Parameters := Tool_InputSchema definition; Function_Arguments := "";
                              Function_Strict := Tool_Strict definition |} |}.

Definition chat_choice (choice : ToolChoice) : result chatToolChoice :=
  let mode := ToolChoice_Mode choice in
  if (mode =s ToolChoiceAuto) || (mode =s ToolChoiceNone) || (mode =s ToolChoiceRequired) then Ok (ChoiceMode mode)
  else if mode =s ToolChoiceNamed then Ok (ChoiceNamed "function" (ToolChoice_Name choice))
  else Err (chat_translation_error "unknown tool choice").

Definition chat_format (output : option OutputConstraint) : result (option chatResponseFormat) :=
  match output with
  | None => Ok None
  | Some output =>
      if bad_name (Output_Name output) then Err (chat_translation_error "output schema name is empty or has surrounding whitespace")
      else Ok (Some {| Format_Type := "json_schema";
                       Format_JSONSchema := {| Schema_Name := Output_Name output; Schema_Schema := Output_Schema output;
                                               Schema_Strict := Output_Strict output |} |})
  end.

(** [translateRequest] of the provider [name] with the limit field [field]. *)
Definition chat_translateRequest (name field : string) (request : ModelRequest) : result chatRequest :=
  let request := CloneModelRequest request in
  match ModelRequest_Validate request with
  | Err _ => Err (chat_translation_error "")
  | Ok _ =>
      if ModelRef_Provider (Request_Model request) ≠s name then Err (chat_translation_error "model provider does not match")
      else
        messages ← translateMessages (Request_Messages request);
        choice ← chat_choice (Request_ToolChoice request);
        format ← chat_format (Request_Output request);
        let limit := if 0 <? Request_MaxOutputTokens request then Some (Request_MaxOutputTokens request) else None in
        let completion := field =s TokenLimitMaxCompletionTokens in
        Ok {| Chat_Model := ModelRef_Model (Request_Model request); Chat_Messages := messages;
              Chat_Tools := wire_tool <$> Request_Tools request; Chat_ToolChoice := choice; Chat_ResponseFormat := format;
              Chat_MaxTokens := if completion then None else limit;
              Chat_MaxCompletionTokens := if completion then limit else None;
              Chat_Stream := true; Chat_IncludeUsage := true |}
  end.

(* ------------------------------------------------------------------ *)
(** ** Tool results by call *)

(** The distinct elements of a list, in the order of their first occurrences. *)
Definition first_seen (ids : list string) : list string := reverse (remove_dups (reverse ids)).

Lemma first_seen_snoc ids x : first_seen (ids ++ [x]) = if decide (x ∈ ids) then first_seen ids else first_seen ids ++ [x].
Proof.
  unfold first_seen. rewrite reverse_snoc. cbn [remove_dups]. unfold decide_rel.
  destruct (list_elem_of_dec x (reverse ids)) as [H|H]; rewrite elem_of_reverse in H.
  - destruct (decide _); [done | contradiction].
  - destruct (decide _); [contradiction | by rewrite reverse_cons].
Qed.

Lemma elem_of_first_seen ids x : x ∈ first_seen ids ↔ x ∈ ids.
Proof. unfold first_seen. by rewrite elem_of_reverse, elem_of_remove_dups, elem_of_reverse. Qed.

Lemma NoDup_first_seen ids : NoDup (first_seen ids).
Proof. unfold first_seen. rewrite reverse_Permutation. apply NoDup_remove_dups. Qed.

(** A part that can be part of a tool result, and what it contributes. *)
Definition result_part_ok (part : ContentPart) : Prop :=
  Part_ToolCallID part ≠ "" ∧
  ((Part_Type part = ContentToolResult ∧ Part_JSON part ≠ "") ∨ Part_Type part = ContentText).

Definition result_text (part : ContentPart) : string :=
  if Part_Type part =s ContentToolResult then Part_JSON part else Part_Text part.

(** What all parts of one call say. *)
Definition call_texts (id : string) (parts : list ContentPart) : list string :=
  result_text <$> filter (λ part, Part_ToolCallID part = id) parts.

Definition call_group (parts : list ContentPart) (id : string) : resultGroup :=
  {| group_id := id; group_content := String.concat newline (call_texts id parts);
     group_parts := length (call_texts id parts) |}.

Lemma result_piece_Ok part piece :
  Part_ToolCallID part ≠ "" → (result_piece part = Ok piece ↔ result_part_ok part ∧ piece = result_text part).
Proof.
  intros Hid. unfold result_piece, result_part_ok, result_text.
  destruct (String.eqb_spec (Part_Type part) ContentToolResult) as [Ht|Ht].
  - destruct (Part_JSON part) as [|c j] eqn:Ej; cbn -[Z.of_nat].
    + split; [done|]. intros [[_ [[_ H]|H]] _]; [done | by rewrite Ht in H].
    + destruct (Z.eqb_spec (Z.of_nat (S (String.length j))) 0); [lia|]. rewrite ret_Ok.
      split; [intros <-; split; [split; [done | by left] | done] | by intros [_ ->]].
  - destruct (String.eqb_spec (Part_Type part) ContentText) as [Hx|Hx]; rewrite ?ret_Ok.
    + split; [intros <-; split; [split; [done | by right] | done] | by intros [_ ->]].
    + split; [done|]. intros [[_ [[H _]|H]] _]; congruence.
Qed.

Lemma call_texts_snoc id parts part :
  call_texts id (parts ++ [part]) =
  if decide (Part_ToolCallID part = id) then call_texts id parts ++ [result_text part] else call_texts id parts.
Proof.
  unfold call_texts. rewrite filter_app, fmap_app, filter_cons, filter_nil. destruct (decide _); [done|].
  by rewrite app_nil_r.
Qed.

Lemma call_texts_nil id parts : call_texts id parts = [] ↔ id ∉ (Part_ToolCallID <$> parts).
Proof.
  induction parts as [|p parts IH]; [cbn; split; [intros _; apply not_elem_of_nil | done]|].
  rewrite fmap_cons, not_elem_of_cons. unfold call_texts in *. rewrite filter_cons. destruct (decide (Part_ToolCallID p = id)) as [E|E].
  - split; [done|]. intros [H _]. congruence.
  - rewrite IH. split; [intros H; split; [congruence | done] | by intros [_ H]].
Qed.

(** Groups for distinct calls: the part joins its own. *)
Lemma add_to_group_in id piece groups g :
  group_id g = id → NoDup (group_id <$> groups) → g ∈ groups → (group_parts g ≠ 0)%nat →
  add_to_group id piece groups =
  (λ x, if decide (group_id x = id)
        then {| group_id := id; group_content := group_content g +:+ newline +:+ piece; group_parts := S (group_parts g) |}
        else x) <$> groups.
Proof.
  intros <- Hnd Hin Hp. induction groups as [|x groups IH]; [by apply not_elem_of_nil in Hin|].
  rewrite fmap_cons in Hnd. apply NoDup_cons in Hnd as [Hx Hnd]. rewrite fmap_cons. cbn [add_to_group].
  apply elem_of_cons in Hin as [<-|Hin].
  - rewrite String.eqb_refl, decide_True by done. destruct (Nat.ltb_spec 0 (group_parts g)); [|lia]. rewrite append_assoc. f_equal.
    symmetry. rewrite <-(list_fmap_id groups) at 2. apply list_fmap_ext. intros i y Hy. rewrite decide_False; [done|].
    intros E. destruct Hx. rewrite <-E. eapply list_elem_of_fmap_2. by eapply list_elem_of_lookup_2.
  - rewrite decide_False by (intros E; destruct Hx; rewrite E; by apply list_elem_of_fmap_2).
    destruct (String.eqb_spec (group_id x) (group_id g)) as [E|]; [destruct Hx; rewrite E; by apply list_elem_of_fmap_2|].
    f_equal. by apply IH.
Qed.

Lemma add_to_group_new id piece groups :
  id ∉ (group_id <$> groups) →
  add_to_group id piece groups = groups ++ [{| group_id := id; group_content := piece; group_parts := 1 |}].
Proof.
  induction groups as [|x groups IH]; [done|]. rewrite fmap_cons, not_elem_of_cons. intros [Hx Hg]. cbn [add_to_group].
  destruct (String.eqb_spec (group_id x) id); [congruence|]. by rewrite IH.
Qed.

Definition groups_of (parts : list ContentPart) : list resultGroup := call_group parts <$> first_seen (Part_ToolCallID <$> parts).

Lemma groups_of_ids parts : group_id <$> groups_of parts = first_seen (Part_ToolCallID <$> parts).
Proof. unfold groups_of. rewrite <-list_fmap_compose. apply list_fmap_id. Qed.

Lemma groups_of_snoc parts part :
  add_to_group (Part_ToolCallID part) (result_text part) (groups_of parts) = groups_of (parts ++ [part]).
Proof.
  set (id := Part_ToolCallID part). unfold groups_of at 2. rewrite fmap_app. cbn [fmap list_fmap]. fold id. rewrite first_seen_snoc.
  destruct (decide (id ∈ Part_ToolCallID <$> parts)) as [Hin|Hin].
  - assert (call_texts id parts ≠ []) as Hne by (rewrite call_texts_nil; tauto).
    rewrite (add_to_group_in id _ _ (call_group parts id));
      [|done | rewrite groups_of_ids; apply NoDup_first_seen | apply list_elem_of_fmap_2; by apply elem_of_first_seen
      | by intros ?%length_zero_iff_nil].
    unfold groups_of. rewrite <-list_fmap_compose. apply list_fmap_ext. intros i x Hx. unfold compose, call_group.
    cbn [group_id group_content group_parts]. rewrite call_texts_snoc. fold id.
    destruct (decide (x = id)) as [->|Hne']; [|by rewrite decide_False by congruence].
    rewrite decide_True by done. rewrite concat_snoc, decide_False, length_app by done. by rewrite Nat.add_comm.
  - rewrite add_to_group_new by (by rewrite groups_of_ids, elem_of_first_seen). rewrite fmap_app. unfold groups_of. f_equal.
    + apply list_fmap_ext. intros i x Hx. unfold call_group. rewrite call_texts_snoc, decide_False; [done|].
      intros E. apply list_elem_of_lookup_2 in Hx. rewrite elem_of_first_seen in Hx. destruct Hin. unfold id. by rewrite E.
    + cbn [fmap list_fmap]. unfold call_group. rewrite call_texts_snoc, decide_True by done.
      apply call_texts_nil in Hin. by rewrite Hin.
Qed.

Lemma result_groups_Ok parts done groups :
  result_groups parts (groups_of done) = Ok groups ↔ Forall result_part_ok parts ∧ groups = groups_of (done ++ parts).
Proof.
  revert done. induction parts as [|part parts IH]; intros done; cbn [result_groups].
  - rewrite app_nil_r, ret_Ok. split; [by intros <- | by intros [_ ->]].
  - rewrite seq_Ok, require_Ok, negb_true_iff, seqb_false, bind_Ok, Forall_cons. split.
    + intros (Hid & piece & Hp & Hr). apply result_piece_Ok in Hp as [Hok ->]; [|done].
      rewrite groups_of_snoc, IH, <-app_assoc in Hr. by destruct Hr.
    + intros [[Hok Hoks] ->]. pose proof Hok as [Hid _]. split; [done|]. exists (result_text part).
      rewrite result_piece_Ok by done. split; [done|]. rewrite groups_of_snoc, IH, <-app_assoc. done.
Qed.

Lemma translateToolResults_Ok parts messages :
  translateToolResults parts = Ok messages ↔
  Forall result_part_ok parts ∧
  messages = (λ id, tool_message id (String.concat newline (call_texts id parts))) <$> first_seen (Part_ToolCallID <$> parts).
Proof.
  unfold translateToolResults. rewrite fmap_Ok. split.
  - intros (groups & Hg & <-). apply (result_groups_Ok parts [] groups) in Hg as [Hok ->]. split; [done|].
    unfold groups_of. by rewrite <-list_fmap_compose.
  - intros [Hok ->]. exists (groups_of parts). split; [by apply (result_groups_Ok parts [])|].
    unfold groups_of. by rewrite <-list_fmap_compose.
Qed.

(** Tool results are grouped by call: the translation succeeds exactly when every
    part names its call and is a tool result with content or a text, and then
    there is one message per call, in the order the calls first appear, with the
    content of all its parts in order, one per line. *)
Theorem translateToolResults_groups parts messages :
  translateToolResults parts = Ok messages ↔
  Forall result_part_ok parts ∧
  messages = (λ id, tool_message id (String.concat newline (call_texts id parts))) <$> first_seen (Part_ToolCallID <$> parts).
Proof. apply translateToolResults_Ok. Qed.

(* ------------------------------------------------------------------ *)
(** ** Messages and requests *)

Definition is_text (part : ContentPart) : Prop := Part_Type part = ContentText.
Definition is_call (part : ContentPart) : Prop := Part_Type part = ContentToolCall.

#[global] Instance is_text_dec part : Decision (is_text part).
Proof. unfold is_text. apply _. Defined.
#[global] Instance is_call_dec part : Decision (is_call part).
Proof. unfold is_call. apply _. Defined.

(** All texts among parts. *)
Definition texts_of (parts : list ContentPart) : string := String.concat "" (Part_Text <$> filter is_text parts).

Lemma texts_of_cons part parts :
  texts_of (part :: parts) = if decide (is_text part) then Part_Text part +:+ texts_of parts else texts_of parts.
Proof. unfold texts_of. rewrite filter_cons. destruct (decide _); [by rewrite fmap_cons, concat_nil_cons | done]. Qed.

Lemma textOnlyContent_Ok parts s : textOnlyContent parts = Ok s ↔ Forall is_text parts ∧ s = texts_of parts.
Proof.
  revert s. induction parts as [|part parts IH]; intros s; cbn [textOnlyContent].
  - rewrite ret_Ok. split; [by intros <- | by intros [_ ->]].
  - rewrite Forall_cons, texts_of_cons. unfold is_text at 1 2. destruct (String.eqb_spec (Part_Type part) ContentText) as [E|E]; cbn [negb].
    + rewrite decide_True by done. rewrite bind_Ok. setoid_rewrite IH. setoid_rewrite ret_Ok. split.
      * by intros (a & [Ha ->] & <-).
      * intros [[_ Ha] ->]. by eexists.
    + split; [done | by intros [[]]].
Qed.

Lemma assistant_loop_Ok parts text calls r :
  assistant_loop parts text calls = Ok r ↔
  Forall (λ part, is_text part ∨ is_call part) parts ∧
  r = (if decide (filter is_text parts = []) then text else Some (default "" text +:+ texts_of parts),
       calls ++ (wire_call <$> filter is_call parts)).
Proof.
  revert text calls. induction parts as [|part parts IH]; intros text calls; cbn [assistant_loop].
  - rewrite app_nil_r, ret_Ok. split; [by intros <- | by intros [_ ->]].
  - rewrite Forall_cons, texts_of_cons, !filter_cons.
    destruct (String.eqb_spec (Part_Type part) ContentText) as [E|E].
    + assert (is_text part) as Ht by done. assert (¬ is_call part) as Hc by (unfold is_call; rewrite E; done).
      rewrite !(decide_True (P:=is_text part)), !(decide_False (P:=is_call part)) by done. rewrite decide_False by done.
      rewrite IH. cbn [default]. split.
      * intros [Hall ->]. split; [by split; [left|]|]. f_equal. destruct (decide _) as [Hf|Hf].
        -- unfold texts_of. rewrite Hf. cbn. by rewrite append_nil_r.
        -- unfold id. by rewrite append_assoc.
      * intros [[_ Hall] ->]. split; [done|]. f_equal. destruct (decide _) as [Hf|Hf].
        -- unfold texts_of. rewrite Hf. cbn. by rewrite append_nil_r.
        -- unfold id. by rewrite append_assoc.
    + assert (¬ is_text part) as Ht by done. rewrite !(decide_False (P:=is_text part)) by done.
      destruct (String.eqb_spec (Part_Type part) ContentToolCall) as [E'|E'].
      * assert (is_call part) as Hc by done. rewrite (decide_True (P:=is_call part)) by done.
        rewrite IH, fmap_cons, <-app_assoc. split; [intros [Hall ->]; split; [by split; [right|] | done] | by intros [[_ Hall] ->]].
      * split; [done|]. by intros [[[H|H] _] _].
Qed.

(** An assistant message is translated exactly when it has parts, all of them
    texts or tool calls: its content is the concatenation of its texts, or
    missing when it has none, and its calls are its tool-call parts in order. *)
Theorem translateAssistant_spec parts m :
  translateAssistant parts = Ok m ↔
  parts ≠ [] ∧ Forall (λ part, is_text part ∨ is_call part) parts ∧
  m = {| Chat_Role := "assistant";
         Chat_Content := if decide (filter is_text parts = []) then None else Some (texts_of parts);
         Chat_ToolCalls := wire_call <$> filter is_call parts; Chat_ToolCallID := "" |}.
Proof.
  unfold translateAssistant. rewrite bind_Ok. setoid_rewrite assistant_loop_Ok. cbn [app default].
  assert (Forall (λ part, is_text part ∨ is_call part) parts → filter is_text parts = [] → filter is_call parts = [] → parts = []) as Hnone.
  { intros Hall Ht Hc. destruct parts as [|p parts]; [done|]. inversion Hall as [|? ? [H|H] _]; subst.
    - rewrite filter_cons, decide_True in Ht by done. done.
    - rewrite filter_cons, decide_True in Hc by done. done. }
  split.
  - intros ([text calls] & [Hall Hr] & H). injection Hr as -> ->. rewrite append_nil_l in H. destruct (decide (filter is_text parts = [])) as [Ht|Ht].
    + cbn in H. rewrite length_fmap in H. destruct (filter is_call parts) as [|c cs] eqn:Ec; [done|]. cbn in H. injection H as <-.
      split_and!; [by intros -> | done | done].
    + cbn in H. injection H as <-. split_and!; [by intros -> | done | done].
  - intros (Hne & Hall & ->). eexists. split; [done|]. cbn beta iota. rewrite append_nil_l.
    destruct (decide (filter is_text parts = [])) as [Ht|Ht]; [|done]. cbn. rewrite length_fmap.
    destruct (filter is_call parts) as [|c cs] eqn:Ec; [by destruct Hne; apply Hnone | done].
Qed.

Lemma translateMessages_Ok messages result :
  translateMessages messages = Ok result ↔
  ∃ groups, Forall2 (λ m g, translate_chat_message m = Ok g) messages groups ∧ result = concat groups.
Proof.
  revert result. induction messages as [|m messages IH]; intros result; cbn [translateMessages].
  - rewrite ret_Ok. split; [intros <-; exists []; split; [constructor | done] | intros (groups & H & ->); by inversion H].
  - destruct (translate_chat_message m) as [g|] eqn:Em.
    + rewrite bind_Ok. setoid_rewrite IH. setoid_rewrite ret_Ok. split.
      * intros (rest & (groups & H & ->) & <-). exists (g :: groups). split; [by constructor | done].
      * intros (groups & H & ->). inversion H as [|? g' ? groups' Hg Hr]; subst. assert (g' = g) as -> by congruence.
        exists (concat groups'). split; [by exists groups' | done].
    + split; [done|]. intros (groups & H & _). inversion H as [|? g' ? ? Hg _]; subst. congruence.
Qed.

Lemma chat_choice_validated r u :
  ModelRequest_Validate r = Ok u → ∃ choice, chat_choice (Request_ToolChoice r) = Ok choice.
Proof.
  intros H. unfold ModelRequest_Validate in H. do 7 apply seq_Ok in H as [_ H]. apply seq_Ok in H as [H _].
  unfold one_of, chat_choice in *. apply require_Ok in H. cbn [existsb] in H. rewrite !orb_true_iff in H.
  destruct (_ =s ToolChoiceAuto) eqn:E1, (_ =s ToolChoiceNone) eqn:E2, (_ =s ToolChoiceRequired) eqn:E3; cbn; try by eexists.
  destruct (_ =s ToolChoiceNamed) eqn:E4; [by eexists|].
  rewrite ?(String.eqb_sym ToolChoiceAuto), ?(String.eqb_sym ToolChoiceNone), ?(String.eqb_sym ToolChoiceRequired),
    ?(String.eqb_sym ToolChoiceNamed), ?E1, ?E2, ?E3, ?E4 in H. naive_solver.
Qed.

Definition output_format (o : OutputConstraint) : chatResponseFormat :=
  {| Format_Type := "json_schema";
     Format_JSONSchema := {| Schema_Name := Output_Name o; Schema_Schema := Output_Schema o; Schema_Strict := Output_Strict o |} |}.

Lemma chat_format_Ok o f :
  chat_format o = Ok f ↔ (∀ x, o = Some x → bad_name (Output_Name x) = false) ∧ f = output_format <$> o.
Proof.
  destruct o as [o|]; cbn; [|rewrite ret_Ok; split; [by intros <- | by intros [_ ->]]].
  destruct (bad_name (Output_Name o)) eqn:E.
  - split; [done|]. intros [H _]. specialize (H o eq_refl). congruence.
  - rewrite ret_Ok. split; [intros <-; split; [by intros x [= <-] | done] | by intros [_ ->]].
Qed.

(** A request is translated exactly when it validates, names this provider, each
    message translates and its output schema has a good name; nothing of it is
    lost: the messages in order, every tool, the choice, the output schema, and
    a positive token limit, in the one field the provider is configured for. *)
Theorem chat_translateRequest_spec name field r w :
  chat_translateRequest name field r = Ok w ↔
  ModelRequest_Validate r = Ok tt ∧ ModelRef_Provider (Request_Model r) = name ∧
  (∀ o, Request_Output r = Some o → bad_name (Output_Name o) = false) ∧
  ∃ groups choice, Forall2 (λ m g, translate_chat_message m = Ok g) (Request_Messages r) groups ∧
    chat_choice (Request_ToolChoice r) = Ok choice ∧
    let limit := if 0 <? Request_MaxOutputTokens r then Some (Request_MaxOutputTokens r) else None in
    w = {| Chat_Model := ModelRef_Model (Request_Model r); Chat_Messages := concat groups;
           Chat_Tools := wire_tool <$> Request_Tools r; Chat_ToolChoice := choice;
           Chat_ResponseFormat := output_format <$> Request_Output r;
           Chat_MaxTokens := if field =s TokenLimitMaxCompletionTokens then None else limit;
           Chat_MaxCompletionTokens := if field =s TokenLimitMaxCompletionTokens then limit else None;
           Chat_Stream := true; Chat_IncludeUsage := true |}.
Proof.
  unfold chat_translateRequest. rewrite Validate_Clone. cbn [CloneModelRequest Request_Model Request_Messages Request_Tools
    Request_ToolChoice Request_Output Request_MaxOutputTokens]. rewrite CloneMessages_id.
  destruct (ModelRequest_Validate r) as [[]|]; [|naive_solver].
  destruct (String.eqb_spec (ModelRef_Provider (Request_Model r)) name) as [Hn|Hn]; cbn [negb]; [|split; [done | by intros (_ & ? & _)]].
  rewrite bind_Ok. setoid_rewrite translateMessages_Ok. setoid_rewrite bind_Ok. setoid_rewrite bind_Ok.
  setoid_rewrite chat_format_Ok. setoid_rewrite ret_Ok. split.
  - intros (messages & (groups & Hg & ->) & choice & Hc & format & [Ho ->] & <-). split_and!; [done.. |]. by exists groups, choice.
  - intros (_ & _ & Ho & groups & choice & Hg & Hc & ->). eexists. split; [by exists groups|]. exists choice. split; [done|].
    by eexists.
Qed.

(* ------------------------------------------------------------------ *)
(** ** Examples *)

Definition example_part (type id text json : string) : ContentPart :=
  {| Part_Type := type; Part_Classification := ClassInternal; Part_Text := text; Part_MediaType := ""; Part_ArtifactID := "";
     Part_ToolCallID := id; Part_ToolName := "read"; Part_JSON := json; Part_IsError := false; Part_Extension := None |}.

Definition example_results : list ContentPart :=
  [example_part ContentToolResult "c1" "" "1"; example_part ContentToolResult "c2" "" "2"; example_part ContentText "c1" "more" ""].

Definition example_conversation : list Message :=
  [{| Message_Role := RoleUser; Message_Content := [example_part ContentText "" "hello" ""] |};
   {| Message_Role := RoleAssistant; Message_Content := [example_part ContentToolCall "c1" "" "{}"; example_part ContentToolCall "c2" "" "{}"] |};
   {| Message_Role := RoleTool; Message_Content := example_results |}].

Definition example_wire_request : ModelRequest :=
  {| Request_AutomaticCompaction := false; Request_Model := {| ModelRef_Provider := "p"; ModelRef_Model := "m" |};
     Request_Messages := example_conversation; Request_Tools := [];
     Request_ToolChoice := {| ToolChoice_Mode := ToolChoiceAuto; ToolChoice_Name := "" |};
     Request_Output := None; Request_MaxOutputTokens := 100; Request_Metadata := None; Request_Extension := None |}.

Example translated_results :
  translateToolResults example_results = Ok [tool_message "c1" ("1" +:+ newline +:+ "more"); tool_message "c2" "2"].
Proof. by vm_compute. Qed.

Example translated_request :
  Chat_MaxCompletionTokens <$> chat_translateRequest "p" TokenLimitMaxCompletionTokens example_wire_request = Ok (Some 100).
Proof. by vm_compute. Qed.
