(* ===== verification/MessageTranslate.v ===== *)
(** * Requests for Anthropic models: src/provider/anthropic/translate.go

    The wire form of a request, the translation of a [ModelRequest] into it, and
    what the translation keeps. *)

From Stdlib Require Import ZArith Lia.
From S2P Require Import Prelude GoText Domain Model LoopTypes.

(* ------------------------------------------------------------------ *)
(** ** The wire form *)

Record contentBlock : Type := {
  Content_Type : string;
  Content_Text : string;
  Content_ID : string;
  Content_Name : string;
  Content_Input : bytes;
  Content_ToolUseID : string;
  Content_Content : string;
  Content_IsError : bool;
}.

Record wireMessage : Type := { Wire_Role : string; Wire_Content : list contentBlock }.

Record wireTool : Type := {
  Wire_Tool_Name : string;
  Wire_Tool_Description : string;
  Wire_Tool_InputSchema : bytes;
  Wire_Tool_Strict : bool;
}.

Record wireToolChoice : Type := { Wire_Choice_Type : string; Wire_Choice_Name : string }.
Record outputFormat : Type := { Wire_Format_Type : string; Wire_Format_Schema : bytes }.

(** [OutputConfig] has only its format. *)
Record messageRequest : Type := {
  Msg_Model : string;
  Msg_MaxTokens : Z;
  Msg_System : list contentBlock;
  Msg_Messages : list wireMessage;
  Msg_Tools : list wireTool;
  Msg_ToolChoice : option wireToolChoice;
  Msg_OutputConfig : option outputFormat;
  Msg_Stream : bool;
}.

Definition message_ErrTranslation : error := Sentinel "anthropic translation failed".
Definition message_translation_error (text : string) : error := Errorf text [message_ErrTranslation].

(* ------------------------------------------------------------------ *)
(** ** Messages *)

Definition empty_block (type : string) : contentBlock :=
  {| Content_Type := type; Content_Text := ""; Content_ID := ""; Content_Name := ""; Content_Input := "";
     Content_ToolUseID := ""; Content_Content := ""; Content_IsError := false |}.

Definition text_block (part : ContentPart) : contentBlock :=
  let b := empty_block "text" in {| b with Content_Text := Part_Text part |}.

Definition tool_use_block (part : ContentPart) : contentBlock :=
  let b := empty_block "tool_use" in
  {| b with Content_ID := Part_ToolCallID part; Content_Name := Part_ToolName part; Content_Input := Part_JSON part |}.

Definition tool_result_block (part : ContentPart) : contentBlock :=
  let b := empty_block "tool_result" in
  {| b with Content_ToolUseID := Part_ToolCallID part;
            Content_Content := if Part_JSON part =s "" then Part_Text part else Part_JSON part;
            Content_IsError := Part_IsError part |}.

(** [for _, part := range parts] with one block, or an error, for each. *)
Fixpoint translate_blocks (f : ContentPart → result contentBlock) (parts : list ContentPart) : result (list contentBlock) :=
  match parts with
  | [] => Ok []
  | part :: parts' => block ← f part; blocks ← translate_blocks f parts'; Ok (block :: blocks)
  end.

Definition text_part_block (part : ContentPart) : result contentBlock :=
  if Part_Type part ≠s ContentText then Err (errors_New "content type is unsupported") else Ok (text_block part).

Definition assistant_part_block (part : ContentPart) : result contentBlock :=
  if Part_Type part =s ContentText then Ok (text_block part)
  else if Part_Type part =s ContentToolCall then Ok (tool_use_block part)
  else Err (errors_New "assistant content type is unsupported").

Definition tool_part_block (part : ContentPart) : result contentBlock :=
  if Part_Type part ≠s ContentToolResult then Err (errors_New "tool content type is unsupported")
  else Ok (tool_result_block part).

Definition translateTextBlocks (parts : list ContentPart) : result (list contentBlock) := translate_blocks text_part_block parts.

Definition translateMessage (m : Message) : result wireMessage :=
  if Message_Role m =s RoleUser then
    blocks ← translateTextBlocks (Message_Content m); Ok {| Wire_Role := "user"; Wire_Content := blocks |}
  else if Message_Role m =s RoleAssistant then
    blocks ← translate_blocks assistant_part_block (Message_Content m); Ok {| Wire_Role := "assistant"; Wire_Content := blocks |}
  else if Message_Role m =s RoleTool then
    blocks ← translate_blocks tool_part_block (Message_Content m); Ok {| Wire_Role := "user"; Wire_Content := blocks |}
  else Err (errors_New "message role is unsupported").

(* ------------------------------------------------------------------ *)
(** ** Requests *)

(** The loop over the messages: system text so far and the conversation so far. *)
Fixpoint message_loop (messages : list Message) (sawConversation : bool) (system : list contentBlock)
    (conversation : list wireMessage) : result (list contentBlock * list wireMessage) :=
  match messages with
  | [] => Ok (system, conversation)
  | m :: messages' =>
      if Message_Role m =s RoleSystem
      then
        if sawConversation then Err (message_translation_error "system content must precede conversation")
        else match translateTextBlocks (Message_Content m) with
             | Err _ => Err (message_translation_error "message")
             | Ok blocks => message_loop messages' sawConversation (system ++ blocks) conversation
             end
      else match translateMessage m with
           | Err _ => Err (message_translation_error "message")
           | Ok translated => message_loop messages' true system (conversation ++ [translated])
           end
  end.

Definition message_tool (tool : ToolDefinition) : wireTool :=
  {| Wire_Tool_Name := Tool_Name tool; Wire_Tool_Description := Tool_Description tool;
     Wire_Tool_InputSchema := Tool_InputSchema tool; Wire_Tool_Strict := Tool_Strict tool |}.

Definition message_choice (tools : list wireTool) (choice : ToolChoice) : result (option wireToolChoice) :=
  let mode := ToolChoice_Mode choice in
  if 0 <? Z.of_nat (length tools)
  then
    if mode =s ToolChoiceAuto then Ok (Some {| Wire_Choice_Type := "auto"; Wire_Choice_Name := "" |})
    else if mode =s ToolChoiceNone then Ok (Some {| Wire_Choice_Type := "none"; Wire_Choice_Name := "" |})
    else if mode =s ToolChoiceRequired then Ok (Some {| Wire_Choice_Type := "any"; Wire_Choice_Name := "" |})
    else if mode =s ToolChoiceNamed then Ok (Some {| Wire_Choice_Type := "tool"; Wire_Choice_Name := ToolChoice_Name choice |})
    else Err (message_translation_error "unknown tool choice")
  else if mode =s ToolChoiceRequired then Err (message_translation_error "required tool choice has no tools")
  else Ok None.

(** [translateRequest] of the provider [name] with the default token limit
    [defaultOutputTokens]. *)
Definition message_translateRequest (name : string) (defaultOutputTokens : Z) (request : ModelRequest) : result messageRequest :=
  let request := CloneModelRequest request in
  match ModelRequest_Validate request with
  | Err _ => Err (message_translation_error "")
  | Ok _ =>
      if ModelRef_Provider (Request_Model request) ≠s name then Err (message_translation_error "model provider mismatch")
      else
        '(system, conversation) ← message_loop (Request_Messages request) false [] [];
        if Z.of_nat (length conversation) =? 0
        then Err (message_translation_error "conversation has no user or assistant message")
        else
          let tools := message_tool <$> Request_Tools request in
          choice ← message_choice tools (Request_ToolChoice request);
          Ok {| Msg_Model := ModelRef_Model (Request_Model request);
                Msg_MaxTokens := if 0 <? Request_MaxOutputTokens request then Request_MaxOutputTokens request else defaultOutputTokens;
                Msg_System := system; Msg_Messages := conversation; Msg_Tools := tools; Msg_ToolChoice := choice;
                Msg_OutputConfig := (λ o, {| Wire_Format_Type := "json_schema"; Wire_Format_Schema := Output_Schema o |})
                                      <$> Request_Output request;
                Msg_Stream := true |}
  end.

(* ------------------------------------------------------------------ *)
(** ** What translation keeps *)

Lemma translate_blocks_Ok f parts blocks :
  translate_blocks f parts = Ok blocks ↔ Forall2 (λ part block, f part = Ok block) parts blocks.
Proof.
  revert blocks. induction parts as [|part parts IH]; intros blocks; cbn [translate_blocks].
  - rewrite ret_Ok. split; [by intros <- | by intros H; inversion H].
  - rewrite bind_Ok. setoid_rewrite bind_Ok. setoid_rewrite IH. setoid_rewrite ret_Ok. split.
    + intros (b & Hb & bs & Hbs & <-). by constructor.
    + intros H. inversion H as [|? b ? bs Hb Hbs]; subst. by eauto.
Qed.

(** A message that is not a system message. *)
Definition conversational (m : Message) : Prop := Message_Role m ≠ RoleSystem.

Lemma message_loop_conversation messages system conversation r :
  message_loop messages true system conversation = Ok r ↔
  Forall conversational messages ∧
  ∃ translated, Forall2 (λ m w, translateMessage m = Ok w) messages translated ∧ r = (system, conversation ++ translated).
Proof.
  revert conversation. induction messages as [|m messages IH]; intros conversation; cbn [message_loop].
  - rewrite ret_Ok. split.
    + intros <-. split; [constructor|]. exists []. split; [constructor | by rewrite app_nil_r].
    + intros [_ (ws & H & ->)]. inversion H; subst. by rewrite app_nil_r.
  - rewrite Forall_cons. unfold conversational at 1. destruct (String.eqb_spec (Message_Role m) RoleSystem) as [E|E]; [naive_solver|].
    destruct (translateMessage m) as [w|] eqn:Em.
    + rewrite IH. split.
      * intros [Hall (ws & Hws & ->)]. split; [done|]. exists (w :: ws). rewrite <-app_assoc. split; [by constructor | done].
      * intros [[_ Hall] (ws & Hws & ->)]. split; [done|]. inversion Hws as [|? w' ? ws' Hw Hr]; subst.
        assert (w' = w) as -> by congruence. exists ws'. by rewrite <-app_assoc.
    + split; [done|]. intros [_ (ws & H & _)]. inversion H as [|? w' ? ? Hw _]; subst. congruence.
Qed.

Lemma message_loop_Ok messages system r :
  message_loop messages false system [] = Ok r ↔
  ∃ leading rest blocks translated, messages = leading ++ rest ∧
    Forall (λ m, Message_Role m = RoleSystem) leading ∧ Forall conversational rest ∧
    Forall2 (λ m bs, translateTextBlocks (Message_Content m) = Ok bs) leading blocks ∧
    Forall2 (λ m w, translateMessage m = Ok w) rest translated ∧ r = (system ++ concat blocks, translated).
Proof.
  revert system. induction messages as [|m messages IH]; intros system.
  { cbn [message_loop]. rewrite ret_Ok. split.
    - intros <-. exists [], [], [], []. cbn. rewrite app_nil_r. by repeat split.
    - intros (l & rest & bs & ws & Heq & _ & _ & Hb & Hw & ->). symmetry in Heq. apply app_eq_nil in Heq as [-> ->].
      inversion Hb; inversion Hw; subst. cbn. by rewrite app_nil_r. }
  destruct (String.eqb_spec (Message_Role m) RoleSystem) as [E|E].
  - cbn [message_loop]. rewrite E, String.eqb_refl. destruct (translateTextBlocks (Message_Content m)) as [bs|] eqn:Eb.
    + rewrite IH. split.
      * intros (l & rest & bss & ws & -> & Hl & Hr & Hb & Hw & ->). exists (m :: l), rest, (bs :: bss), ws.
        cbn [concat]. rewrite app_assoc. split_and!; try done; by constructor.
      * intros (l & rest & bss & ws & Heq & Hl & Hr & Hb & Hw & ->). destruct l as [|m' l].
        -- cbn in Heq. subst rest. inversion Hr as [|? ? Hm _]; subst. by destruct Hm.
        -- injection Heq as <- ->. inversion Hl as [|? ? _ Hl']; subst. inversion Hb as [|? bs' ? bss' Hb1 Hb2]; subst.
           assert (bs' = bs) as -> by congruence. exists l, rest, bss', ws. cbn [concat]. by rewrite app_assoc.
    + split; [done|]. intros (l & rest & bss & ws & Heq & Hl & Hr & Hb & _). destruct l as [|m' l].
      * cbn in Heq. subst rest. inversion Hr as [|? ? Hm _]; subst. by destruct Hm.
      * injection Heq as <- ->. inversion Hb as [|? bs' ? ? Hb1 _]; subst. congruence.
  - assert (message_loop (m :: messages) false system [] = message_loop (m :: messages) true system []) as ->.
    { cbn [message_loop]. destruct (String.eqb_spec (Message_Role m) RoleSystem); [done | by destruct (translateMessage m)]. }
    rewrite message_loop_conversation. cbn [app]. split.
    + intros [Hall (ws & Hws & ->)]. exists [], (m :: messages), [], ws. cbn. rewrite app_nil_r. by repeat split.
    + intros (l & rest & bss & ws & Heq & Hl & Hr & Hb & Hw & ->). destruct l as [|m' l].
      * cbn in Heq. subst rest. inversion Hb; subst. cbn. rewrite app_nil_r. split; [done|]. by exists ws.
      * injection Heq as <- ->. inversion Hl as [|? ? Hm _]; subst. done.
Qed.

(** The wire form of a tool choice: only sent with tools. *)
Definition wire_choice (tools : list ToolDefinition) (choice : ToolChoice) : option wireToolChoice :=
  if decide (tools = []) then None
  else Some {| Wire_Choice_Type :=
                 if ToolChoice_Mode choice =s ToolChoiceRequired then "any"
                 else if ToolChoice_Mode choice =s ToolChoiceNamed then "tool" else ToolChoice_Mode choice;
               Wire_Choice_Name := if ToolChoice_Mode choice =s ToolChoiceNamed then ToolChoice_Name choice else "" |}.

Lemma message_choice_Ok tools choice c :
  ToolChoice_Mode choice ∈ [ToolChoiceAuto; ToolChoiceNone; ToolChoiceRequired; ToolChoiceNamed] →
  message_choice (message_tool <$> tools) choice = Ok c ↔
  (ToolChoice_Mode choice = ToolChoiceRequired → tools ≠ []) ∧ c = wire_choice tools choice.
Proof.
  intros Hmode. unfold message_choice, wire_choice. rewrite length_fmap. destruct tools as [|t tools].
  - change (0 <? Z.of_nat (length [])) with false. rewrite decide_True by done. destruct (String.eqb_spec (ToolChoice_Mode choice) ToolChoiceRequired) as [E|E]; cbn.
    + split; [done|]. intros [H _]. by destruct (H E).
    + rewrite ret_Ok. split; [by intros <- | by intros [_ ->]].
  - rewrite decide_False by done. assert ((0 <? Z.of_nat (length (t :: tools))) = true) as -> by (apply Z.ltb_lt; cbn [length]; lia).
    assert (∀ (m : string) (x : option wireToolChoice), Ok x = Ok c ↔ (m = ToolChoiceRequired → t :: tools ≠ []) ∧ c = x) as Hok.
    { intros m x. rewrite ret_Ok. split; [by intros <- | by intros [_ ->]]. }
    cbn [elem_of] in Hmode. rewrite !elem_of_cons in Hmode.
    destruct Hmode as [-> | [-> | [-> | [-> | []%not_elem_of_nil]]]]; cbn -[message_tool]; apply Hok.
Qed.

Lemma validated_mode r u :
  ModelRequest_Validate r = Ok u →
  ToolChoice_Mode (Request_ToolChoice r) ∈ [ToolChoiceAuto; ToolChoiceNone; ToolChoiceRequired; ToolChoiceNamed].
Proof.
  intros H. unfold ModelRequest_Validate in H. do 7 apply seq_Ok in H as [_ H]. apply seq_Ok in H as [H _].
  unfold one_of in H. apply require_Ok, existsb_exists in H as (x & Hin & Hx). apply String.eqb_eq in Hx as ->.
  by apply list_elem_of_In.
Qed.

(** C39. A request is translated exactly when it validates, names this provider, its
    system messages are texts and come before a nonempty conversation, each
    message of which translates, and a required tool choice has tools.  Then the
    system text is the system messages' parts in order, the conversation has
    one wire message per message, in order, and every tool, the choice, the
    output schema and the token limit, or the default, are kept. *)
Theorem message_translateRequest_spec name dflt r w :
  message_translateRequest name dflt r = Ok w ↔
  ModelRequest_Validate r = Ok tt ∧ ModelRef_Provider (Request_Model r) = name ∧
  (ToolChoice_Mode (Request_ToolChoice r) = ToolChoiceRequired → Request_Tools r ≠ []) ∧
  ∃ leading rest blocks translated, Request_Messages r = leading ++ rest ∧
    Forall (λ m, Message_Role m = RoleSystem) leading ∧ Forall conversational rest ∧ rest ≠ [] ∧
    Forall2 (λ m bs, translateTextBlocks (Message_Content m) = Ok bs) leading blocks ∧
    Forall2 (λ m x, translateMessage m = Ok x) rest translated ∧
    w = {| Msg_Model := ModelRef_Model (Request_Model r);
           Msg_MaxTokens := if 0 <? Request_MaxOutputTokens r then Request_MaxOutputTokens r else dflt;
           Msg_System := concat blocks; Msg_Messages := translated; Msg_Tools := message_tool <$> Request_Tools r;
           Msg_ToolChoice := wire_choice (Request_Tools r) (Request_ToolChoice r);
           Msg_OutputConfig := (λ o, {| Wire_Format_Type := "json_schema"; Wire_Format_Schema := Output_Schema o |}) <$> Request_Output r;
           Msg_Stream := true |}.
Proof.
  unfold message_translateRequest. rewrite Validate_Clone. cbn [CloneModelRequest Request_Model Request_Messages Request_Tools
    Request_ToolChoice Request_Output Request_MaxOutputTokens]. rewrite CloneMessages_id.
  destruct (ModelRequest_Validate r) as [[]|] eqn:Ev; [|naive_solver]. pose proof (validated_mode r tt Ev) as Hmode.
  destruct (String.eqb_spec (ModelRef_Provider (Request_Model r)) name) as [Hn|Hn]; cbn [negb]; [|split; [done | by intros (_ & ? & _)]].
  rewrite bind_Ok. setoid_rewrite message_loop_Ok. split.
  - intros ([system conversation] & (leading & rest & blocks & translated & Hm & Hl & Hr & Hb & Hw & Heq) & H).
    injection Heq as -> ->. destruct (Z.eqb_spec (Z.of_nat (length translated)) 0) as [E|E]; [done|].
    apply bind_Ok in H as (choice & Hc & Hx). apply message_choice_Ok in Hc as [Hreq ->]; [|done]. injection Hx as <-.
    split_and!; [done.. |]. exists leading, rest, blocks, translated. split_and!; try done.
    intros ->. inversion Hw; subst. done.
  - intros (_ & _ & Hreq & leading & rest & blocks & translated & Hm & Hl & Hr & Hne & Hb & Hw & ->).
    exists (concat blocks, translated). split; [by exists leading, rest, blocks, translated|].
    destruct (Z.eqb_spec (Z.of_nat (length translated)) 0) as [E|E].
    { apply Forall2_length in Hw. destruct rest; [done|]. cbn in Hw. lia. }
    rewrite bind_Ok. eexists. rewrite message_choice_Ok by done. done.
Qed.
