(* ===== verification/LoopTranslate.v ===== *)
(** * Tool messages of the turn loop on the wire

    [Loop.outputParts] turns the output of a tool into the parts of the next
    tool message; this file shows what the two providers make of it. *)

From Stdlib Require Import ZArith Lia.
From S2P Require Import Prelude GoText Domain Model LoopTypes Loop ChatTranslate MessageTranslate.

(** The parts of the tool message for the outputs of calls. *)
Definition tool_message_parts (results : list (ToolCall * ToolOutput)) : list ContentPart :=
  results ≫= (λ r, outputParts (fst r) (snd r)).

(** Outputs a tool may return, with nothing but text beside their JSON. *)
Definition textual (o : ToolOutput) : Prop :=
  ToolOutput_Validate o = Ok tt ∧ Forall (λ part, Part_Type part = ContentText) (ToolOutput_Content o).

Lemma outputParts_calls c o : Forall (λ part, Part_ToolCallID part = Call_ID c) (outputParts c o).
Proof.
  unfold outputParts. apply Forall_app. split; [destruct (0 <? _); repeat constructor|].
  apply Forall_fmap. by apply Forall_true.
Qed.

Lemma outputParts_ok c o : Call_ID c ≠ "" → textual o → Forall result_part_ok (outputParts c o).
Proof.
  intros Hc [_ Ht]. unfold outputParts, CloneContentParts. apply Forall_app. split.
  - destruct (0 <? _) eqn:E; [|constructor]. constructor; [|constructor]. split; [done|]. left. split; [done|].
    cbn. intros H. by rewrite H in E.
  - apply Forall_fmap, Forall_fmap. eapply Forall_impl; [exact Ht|]. intros part Hp. split; [done | by right].
Qed.

Lemma outputParts_nonempty c o : ToolOutput_Validate o = Ok tt → outputParts c o ≠ [].
Proof.
  intros Hv. unfold ToolOutput_Validate in Hv. apply seq_Ok in Hv as [_ Hv]. apply seq_Ok in Hv as [Hv _].
  apply require_Ok, negb_true_iff, andb_false_iff in Hv. unfold outputParts, CloneContentParts.
  destruct (Z.ltb_spec 0 (Z.of_nat (String.length (ToolOutput_JSON o)))); [done|].
  destruct Hv as [Hv|Hv]; apply Z.eqb_neq in Hv; [lia|]. by destruct (ToolOutput_Content o).
Qed.

Lemma outputParts_ids c o : Part_ToolCallID <$> outputParts c o = replicate (length (outputParts c o)) (Call_ID c).
Proof.
  pose proof (outputParts_calls c o) as H. induction H as [|part parts Hp _ IH]; [done|]. rewrite fmap_cons, IH, Hp. done.
Qed.

Lemma first_seen_block ids x n : x ∉ ids → (n ≠ 0)%nat → first_seen (ids ++ replicate n x) = first_seen ids ++ [x].
Proof.
  intros Hx. induction n as [|[|n] IH]; intros Hn; [done | |].
  - cbn [replicate]. by rewrite first_seen_snoc, decide_False.
  - rewrite (replicate_S_end (S n)), app_assoc, first_seen_snoc, decide_True; [by apply IH|].
    apply elem_of_app. right. apply elem_of_replicate. done.
Qed.

Definition result_ids (results : list (ToolCall * ToolOutput)) : list string := (λ r, Call_ID (fst r)) <$> results.

Lemma tool_message_ids results :
  NoDup (result_ids results) → Forall (λ r, ToolOutput_Validate (snd r) = Ok tt) results →
  first_seen (Part_ToolCallID <$> tool_message_parts results) = result_ids results ∧
  ∀ x, x ∈ (Part_ToolCallID <$> tool_message_parts results) → x ∈ result_ids results.
Proof.
  induction results as [|[c o] results IH] using rev_ind; intros Hnd Hv.
  { split; [done | by intros x ?%not_elem_of_nil]. }
  unfold result_ids in Hnd |- *. rewrite fmap_app in Hnd |- *. apply NoDup_app in Hnd as (Hnd & Hx & _). cbn [fmap list_fmap fst] in *.
  apply Forall_app in Hv as [Hvs Hv]. rewrite Forall_singleton in Hv. cbn [snd] in Hv. destruct (IH Hnd Hvs) as [IH1 IH2].
  assert (Call_ID c ∉ (Part_ToolCallID <$> tool_message_parts results)) as Hn.
  { intros H%IH2. apply (Hx _ H). by left. }
  unfold tool_message_parts in *. rewrite bind_app, fmap_app. cbn [mbind list_bind fst snd]. rewrite app_nil_r, outputParts_ids. split.
  - rewrite first_seen_block; [by rewrite IH1 | done|]. intros H%length_zero_iff_nil. by apply (outputParts_nonempty c o Hv).
  - intros x [H|H]%elem_of_app; apply elem_of_app; [left; by apply IH2 | right].
    apply elem_of_replicate in H as [-> _]. by left.
Qed.

(** OpenAI-compatible providers get an answer to every call: the tool message the
    loop makes of valid outputs, whose content is text, is translated into one
    message per call, in the order of the calls. *)
Theorem chat_tool_messages results :
  NoDup (result_ids results) → Forall (λ r, Call_ID (fst r) ≠ "" ∧ textual (snd r)) results →
  ∃ messages, translate_chat_message {| Message_Role := RoleTool; Message_Content := tool_message_parts results |} = Ok messages ∧
    Chat_ToolCallID <$> messages = result_ids results.
Proof.
  intros Hnd Hall.
  assert (translate_chat_message {| Message_Role := RoleTool; Message_Content := tool_message_parts results |} =
    translateToolResults (tool_message_parts results)) as -> by done.
  eexists. split.
  - apply translateToolResults_Ok. split; [|done]. apply Forall_bind. eapply Forall_impl; [exact Hall|].
    intros [c o] [Hc Ht]. by apply outputParts_ok.
  - rewrite <-list_fmap_compose. change (Chat_ToolCallID ∘ _) with (@id string). rewrite list_fmap_id.
    apply tool_message_ids; [done|]. eapply Forall_impl; [exact Hall|]. by intros r [_ [Hv _]].
Qed.

Lemma content_not_result o part :
  ToolOutput_Validate o = Ok tt → part ∈ ToolOutput_Content o → Part_Type part ≠ ContentToolResult.
Proof.
  intros Hv Hin Ht. unfold ToolOutput_Validate in Hv. do 3 apply seq_Ok in Hv as [_ Hv]. rewrite each_Ok, Forall_forall in Hv.
  specialize (Hv part Hin). apply seq_Ok in Hv as [_ Hv]. by rewrite Ht in Hv.
Qed.

Lemma tool_blocks_Ok parts :
  (∃ blocks, translate_blocks tool_part_block parts = Ok blocks) ↔ Forall (λ part, Part_Type part = ContentToolResult) parts.
Proof.
  setoid_rewrite translate_blocks_Ok. split.
  - intros [blocks H]. induction H as [|part b parts bs Hb _ IH]; constructor; [|done]. unfold tool_part_block in Hb.
    by destruct (String.eqb_spec (Part_Type part) ContentToolResult).
  - intros H. exists (tool_result_block <$> parts). induction H as [|part parts Hp _ IH]; [constructor|].
    rewrite fmap_cons. constructor; [|done]. unfold tool_part_block. by rewrite Hp.
Qed.

(** For Anthropic models the tool message of valid outputs is translated only if
    no output has content beside its JSON: an output with a text part, which the
    loop accepts and the other provider sends, ends the conversation with
    [ErrTranslation]. *)
Theorem message_tool_content results :
  Forall (λ r, ToolOutput_Validate (snd r) = Ok tt) results →
  (∃ w, translateMessage {| Message_Role := RoleTool; Message_Content := tool_message_parts results |} = Ok w) ↔
  Forall (λ r, ToolOutput_Content (snd r) = []) results.
Proof.
  intros Hv.
  assert ((∃ w, translateMessage {| Message_Role := RoleTool; Message_Content := tool_message_parts results |} = Ok w) ↔
    ∃ blocks, translate_blocks tool_part_block (tool_message_parts results) = Ok blocks) as ->.
  { unfold translateMessage. cbn [Message_Role Message_Content].
    change (RoleTool =s RoleUser) with false. change (RoleTool =s RoleAssistant) with false. change (RoleTool =s RoleTool) with true.
    setoid_rewrite bind_Ok. setoid_rewrite ret_Ok. naive_solver. }
  rewrite tool_blocks_Ok. unfold tool_message_parts. rewrite Forall_bind. split; intros H.
  - rewrite Forall_forall in H, Hv |- *. intros [c o] Hin. specialize (H _ Hin). specialize (Hv _ Hin). cbn [fst snd] in *.
    unfold outputParts, CloneContentParts in H. apply Forall_app in H as [_ H]. rewrite !Forall_fmap in H. cbn [fst snd] in H.
    destruct (ToolOutput_Content o) as [|part parts] eqn:Ec; [done|]. rewrite Forall_cons in H. destruct H as [Hp _].
    destruct (content_not_result o part Hv); [rewrite Ec; by left | exact Hp].
  - eapply Forall_impl; [exact H|]. intros [c o] Ho. cbn [snd] in Ho. unfold compose, outputParts. cbn [fst snd]. rewrite Ho. cbn. rewrite app_nil_r.
    destruct (0 <? _); by repeat constructor.
Qed.

(* ------------------------------------------------------------------ *)
(** ** Examples *)

Definition example_tool_output (json : bytes) (content : list ContentPart) : ToolOutput :=
  {| ToolOutput_JSON := json; ToolOutput_Content := content; ToolOutput_Classification := ClassInternal; ToolOutput_IsError := false |}.

Definition example_tool_call (id : string) : ToolCall := {| Call_ID := id; Call_Name := "read"; Call_Input := "{}" |}.

Definition example_outputs : list (ToolCall * ToolOutput) :=
  [(example_tool_call "c1", example_tool_output "1" [example_part ContentText "" "note" ""]);
   (example_tool_call "c2", example_tool_output "" [example_part ContentText "" "done" ""])].

Lemma chat_tool_messages_witness :
  ∃ messages, translate_chat_message {| Message_Role := RoleTool; Message_Content := tool_message_parts example_outputs |} = Ok messages ∧
    Chat_ToolCallID <$> messages = ["c1"; "c2"].
Proof.
  apply (chat_tool_messages example_outputs); [apply (bool_decide_unpack _); vm_compute; exact I|].
  repeat constructor; done.
Defined.

Lemma message_tool_content_witness :
  (∃ w, translateMessage {| Message_Role := RoleTool; Message_Content := tool_message_parts example_outputs |} = Ok w) ↔
  Forall (λ r, ToolOutput_Content (snd r) = []) example_outputs.
Proof. apply message_tool_content. repeat constructor; done. Defined.
