(* ===== verification/Http.v ===== *)
(** * HTTP for the providers

    What src/provider/openaicompat/provider.go and src/provider/anthropic/provider.go
    share: URLs, requests and responses, the client whose redirects are turned
    off, tokens and their checks, and the bounded reading of JSON responses.

    net/url, the transport below net/http and encoding/json are interfaces: a
    URL is parsed by [url_Parse], a request is answered by the round trip of
    its client, a response is decoded by [decode_value].  The state counts the
    looks at contexts and records what was sent, received and closed. *)

From Stdlib Require Import ZArith Lia Ascii.
From S2P Require Import Prelude Effects GoNum GoText Domain Model Stream Sse.

Record URL : Type := {
  URL_Scheme : string;
  URL_Opaque : string;
  URL_User : bool;
  URL_Host : string;
  URL_Path : string;
  URL_RawPath : string;
  URL_RawQuery : string;
  URL_Fragment : string;
}.

#[global] Instance URL_eq_dec : EqDecision URL.
Proof. solve_decision. Defined.

Record HttpRequest : Type := {
  Http_Method : string;
  Http_URL : URL;
  Http_Header : gmap string string;
  Http_Body : option bytes;
}.

Record HttpResponse : Type := { Response_StatusCode : Z; Response_Body : Body; Response_Close : option error }.

(** A client: one exchange with the server, and whether its [CheckRedirect]
    returns [http.ErrUseLastResponse]. *)
Record HttpClient : Type := {
  Client_UseLastResponse : bool;
  Client_RoundTrip : nat → HttpRequest → result HttpResponse;
}.

Abbreviation TokenSource := (nat → result string) (only parsing).

Definition CredentialError : error := Struct "CredentialError" [] [] None.
Definition HTTPError (status : Z) : error := Struct "HTTPError" [] [status] None.

Class HttpEnv := {
  ctx_error : nat → option error;
  url_Parse : string → result URL;
  (** [http.NewRequestWithContext] parses the URL it is given as a string. *)
  request_URL : URL → result URL;
  default_client : HttpClient;
  (** What a client sends and answers that follows redirects. *)
  follow_redirects : HttpClient → nat → HttpRequest → list HttpRequest * result HttpResponse;
}.

(** The host a request is sent to: net/http drops a port that is empty. *)
Definition removeEmptyPort (host : string) : string := strings_TrimSuffix host ":".

(** Printing and parsing keep where a request goes, the host up to an empty
    port. *)
Class HttpLaws `{HttpEnv} : Prop := {
  request_URL_kept : ∀ u u', request_URL u = Ok u' →
    URL_Scheme u' = URL_Scheme u ∧ URL_Host u' = removeEmptyPort (URL_Host u) ∧ URL_Path u' = URL_Path u;
}.

Record HttpState : Type := {
  http_tick : nat;
  http_sent : list HttpRequest;
  http_received : nat;
  http_closed : nat;
}.

Definition fresh_http : HttpState := {| http_tick := 0; http_sent := []; http_received := 0; http_closed := 0 |}.

Section http.
Context `{Henv : HttpEnv}.
Abbreviation HM := (EM HttpState) (only parsing).

(** An observation of the outside, which may change at any moment. *)
Definition observe {A} (f : nat → A) : HM A :=
  s ← lm_get;
  lm_modify (fun s => {| s with http_tick := S (http_tick s) |}) ;;
  mret (f (http_tick s)).

(** [if err := ctx.Err(); err != nil { return err }] *)
Definition check_context : HM unit :=
  err ← observe ctx_error;
  match err with Some e => lm_fail e | None => mret tt end.

(** [client.Do]: without redirects it is one exchange. *)
Definition client_Do (client : HttpClient) (request : HttpRequest) : HM HttpResponse :=
  exchange ← observe (fun n => if Client_UseLastResponse client then ([request], Client_RoundTrip client n request)
                               else follow_redirects client n request);
  lm_modify (fun s => {| s with http_sent := http_sent s ++ fst exchange |}) ;;
  match snd exchange with
  | Ok response => lm_modify (fun s => {| s with http_received := S (http_received s) |}) ;; mret response
  | Err e => lm_fail e
  end.

(** [client.Do] with the handling of its error: a cancelled context wins.  A
    context that has ended keeps its error, so one look tells it. *)
Definition send (client : HttpClient) (request : HttpRequest) : HM HttpResponse :=
  answer ← attempt (client_Do client request);
  match answer with
  | Ok response => mret response
  | Err e => check_context ;; lm_fail e
  end.

Definition close_body (response : HttpResponse) : HM (option error) :=
  lm_modify (fun s => {| s with http_closed := S (http_closed s) |}) ;;
  mret (Response_Close response).

Definition is_success (status : Z) : bool := negb ((status <? 200) || (300 <=? status)).

(** A token a request may carry. *)
Definition bad_token (token : string) : bool :=
  blank token || negb (trimmed token) || strings_ContainsAny token (carriage_return +:+ newline).

(** The token of [source]; its failure tells nothing about it. *)
Definition obtain_token (source : TokenSource) : HM string :=
  answer ← observe source;
  match answer with
  | Err _ => lm_fail CredentialError
  | Ok token => if bad_token token then lm_fail CredentialError else mret token
  end.

(** [io.ReadAll(io.LimitReader(reader, limit+1))] *)
Definition read_limited (body : Body) (limit : Z) : result bytes :=
  let n := add64 limit 1 in
  let len := Z.of_nat (String.length (body_bytes body)) in
  if n <=? 0 then Ok ""
  else if (n <? len) || ((n =? len) && negb (body_end_with_data body)) then Ok (take_bytes (Z.to_nat n) (body_bytes body))
  else match body_error body with Some e => Err e | None => Ok (body_bytes body) end.

(** [decodeBoundedJSON]: [decode_value] gives the first value and whether nothing
    but white space follows. *)
Definition decodeBoundedJSON {A} (decode_value : bytes → result (A * bool)) (body : Body) (limit : Z) : result A :=
  data ← read_limited body limit;
  if limit <? Z.of_nat (String.length data) then Err (errors_New "response exceeds configured size limit")
  else
    '(value, last) ← decode_value data;
    if last : bool then Ok value else Err (errors_New "response contains trailing JSON").

(** Where requests of a base URL go. *)
Definition endpoint (base : URL) (path query : string) : URL :=
  {| base with URL_Path := strings_TrimSuffix (URL_Path base) "/" +:+ "/" +:+ path; URL_RawQuery := query |}.

(** A URL that may be a base URL. *)
Definition base_shape_ok (u : URL) : bool :=
  (URL_Scheme u ≠s "") && (URL_Host u ≠s "") && (URL_Opaque u =s "") && negb (URL_User u) && (URL_RawQuery u =s "") &&
  (URL_Fragment u =s "") && (URL_RawPath u =s "").

Definition cloneLabels (labels : option (gmap string string)) : option (gmap string string) := cloneStringMap labels.
Definition cloneCapabilities (c : ModelCapabilities) : ModelCapabilities := c.

(** A client that does not follow redirects. *)
Definition without_redirects (client : option HttpClient) : HttpClient :=
  let clone := default default_client client in {| clone with Client_UseLastResponse := true |}.

End http.

(** The descriptor of a model with the provider's defaults. *)
Definition provider_descriptor (name model : string) (capabilities : ModelCapabilities) (labels : option (gmap string string)) : ModelDescriptor :=
  {| Descriptor_Ref := {| ModelRef_Provider := name; ModelRef_Model := model |};
     Descriptor_Capabilities := cloneCapabilities capabilities; Descriptor_Labels := cloneLabels labels |}.

(** Capabilities with a missing tool-use mode set to none. *)
Definition default_tool_use (c : ModelCapabilities) : ModelCapabilities :=
  if Cap_ToolUse c =s "" then {| c with Cap_ToolUse := ToolUseNone |} else c.

(* ------------------------------------------------------------------ *)
(** ** Bounded reading *)

(** What was read is at most one byte longer than the limit. *)
Lemma read_limited_length body limit data :
  is_int64 limit → 0 <= limit → read_limited body limit = Ok data → Z.of_nat (String.length data) <= limit + 1.
Proof.
  intros Hl H0. unfold read_limited. cbn zeta. destruct (Z.leb_spec (add64 limit 1) 0); [intros [= <-]; cbn; lia|].
  assert (add64 limit 1 = limit + 1) as E.
  { apply add64_exact. unfold add64, wrap64 in H. unfold_int64.
    destruct (decide (limit = 9223372036854775807)) as [->|]; [by vm_compute in H | lia]. }
  rewrite E in *. destruct (_ || _) eqn:Eb.
  - intros [= <-]. rewrite length_take_bytes. lia.
  - apply orb_false_iff in Eb as [Eb _]. apply Z.ltb_ge in Eb. destruct (body_error body); [done|]. intros [= <-]. lia.
Qed.

(** A response is only decoded if all of it fits the limit: decoding succeeds
    exactly when the body has at most that many bytes, was read without an error
    and is one JSON value. *)
Theorem decodeBoundedJSON_spec {A} (decode_value : bytes → result (A * bool)) body limit v :
  0 <= limit < int64_max →
  decodeBoundedJSON decode_value body limit = Ok v ↔
  Z.of_nat (String.length (body_bytes body)) <= limit ∧ body_error body = None ∧ decode_value (body_bytes body) = Ok (v, true).
Proof.
  intros Hl. unfold decodeBoundedJSON, read_limited. rewrite add64_exact by (unfold_int64; lia).
  destruct (Z.leb_spec (limit + 1) 0); [lia|]. rewrite bind_Ok.
  destruct (_ || _) eqn:Eb.
  - split.
    + intros (data & [= <-] & H'). rewrite length_take_bytes in H'.
      assert (limit + 1 <= Z.of_nat (String.length (body_bytes body))).
      { apply orb_true_iff in Eb as [Eb%Z.ltb_lt|Eb]; [lia|]. apply andb_true_iff in Eb as [Eb%Z.eqb_eq _]. lia. }
      destruct (Z.ltb_spec limit (Z.of_nat (min (Z.to_nat (limit + 1)) (String.length (body_bytes body))))); [done | lia].
    + intros [Hlen _]. apply orb_true_iff in Eb as [Eb%Z.ltb_lt|Eb]; [lia|]. apply andb_true_iff in Eb as [Eb%Z.eqb_eq _]. lia.
  - destruct (body_error body) as [e|]; [split; [by intros (? & ? & _) | by intros (_ & ? & _)]|].
    assert ((∃ a, Ok (body_bytes body) = Ok a ∧
      (if limit <? Z.of_nat (String.length a) then Err (errors_New "response exceeds configured size limit")
       else '(value, last) ← decode_value a; if last : bool then Ok value else Err (errors_New "response contains trailing JSON")) = Ok v) ↔
      (if limit <? Z.of_nat (String.length (body_bytes body)) then Err (errors_New "response exceeds configured size limit")
       else '(value, last) ← decode_value (body_bytes body); if last : bool then Ok value else Err (errors_New "response contains trailing JSON")) = Ok v) as ->.
    { split; [by intros (a & [= <-] & Ha) | intros Ha; by eexists]. }
    destruct (Z.ltb_spec limit (Z.of_nat (String.length (body_bytes body)))); [split; [done | lia]|].
    rewrite bind_Ok. split.
    + intros ([value last] & Hd & Hv). destruct last; [|done]. injection Hv as <-. done.
    + intros (_ & _ & Hd). eexists. split; [exact Hd | done].
Qed.

(** With the largest limit the bound overflows: [limit+1] is negative, nothing is
    read, and every response is decoded as if it were empty. *)
Theorem decodeBoundedJSON_overflow {A} (decode_value : bytes → result (A * bool)) body :
  decodeBoundedJSON decode_value body int64_max = ('(value, last) ← decode_value ""; if last : bool then Ok value else Err (errors_New "response contains trailing JSON")).
Proof. done. Qed.

(* ------------------------------------------------------------------ *)
(** ** What was sent, received and closed *)

Section traces.
Context `{Henv : HttpEnv}.

(** The requests sent are [l]; of the bodies received, [k] are still open. *)
Definition http_at (l : list HttpRequest) (k : nat) (s : HttpState) : Prop :=
  http_sent s = l ∧ http_received s = (http_closed s + k)%nat.

(** After some more requests, all good. *)
Definition http_after (good : HttpRequest → Prop) (most : nat) (l : list HttpRequest) (k : nat) (s : HttpState) : Prop :=
  ∃ sent, http_at (l ++ sent) k s ∧ Forall good sent ∧ (length sent <= most)%nat.

Lemma http_at_after good most l k s : http_at l k s → http_after good most l k s.
Proof. intros H. exists []. rewrite app_nil_r. split_and!; [done | constructor | cbn; lia]. Qed.

Lemma http_at_one good most l k s request :
  good request → (1 <= most)%nat → http_at (l ++ [request]) k s → http_after good most l k s.
Proof. intros Hg Hm H. exists [request]. split_and!; [done | by repeat constructor | done]. Qed.

Lemma http_after_more good most most' l k s request :
  good request → (S most <= most')%nat → http_after good most (l ++ [request]) k s → http_after good most' l k s.
Proof.
  intros Hg Hm (sent & Hs & Hall & Hlen). exists (request :: sent). rewrite <-app_assoc in Hs.
  split_and!; [done | by constructor | cbn; lia].
Qed.

Lemma observe_triple {A} (f : nat → A) l k (E : HttpState → Prop) :
  triple (http_at l k) (observe f) (λ a s, (∃ n, a = f n) ∧ http_at l k s) E.
Proof. intros s [Hs Hk]. unfold observe, mbind, lm_bind, lm_get, lm_modify, mret, lm_ret. split; [by eexists | done]. Qed.

Lemma check_context_triple l k E :
  (∀ s, http_at l k s → E s) → triple (http_at l k) check_context (λ _, http_at l k) E.
Proof.
  intros HE. unfold check_context. eapply triple_bind; [apply observe_triple|].
  intros [e|]; [|intros s [_ Hs]; exact Hs]. intros s [_ Hs]. by apply HE.
Qed.

Lemma obtain_token_triple source l k E :
  (∀ s, http_at l k s → E s) →
  triple (http_at l k) (obtain_token source) (λ token s, bad_token token = false ∧ http_at l k s) E.
Proof.
  intros HE. unfold obtain_token. eapply triple_bind; [apply observe_triple|].
  intros [token|e]; [|intros s [_ Hs]; by apply HE]. destruct (bad_token token) eqn:Eb; intros s [_ Hs]; [by apply HE | done].
Qed.

(** A client without redirects makes one exchange. *)
Lemma client_Do_triple client request l k :
  Client_UseLastResponse client = true →
  triple (http_at l k) (client_Do client request) (λ _, http_at (l ++ [request]) (S k)) (http_at (l ++ [request]) k).
Proof.
  intros Hc. unfold client_Do. rewrite Hc. eapply triple_bind; [apply observe_triple|]. intros exchange s [[n ->] [Hs Hk]].
  cbn [fst snd]. destruct (Client_RoundTrip _ _ _); (split; [by cbn; rewrite Hs | cbn; lia]).
Qed.

Lemma send_triple client request l k :
  Client_UseLastResponse client = true →
  triple (http_at l k) (send client request) (λ _, http_at (l ++ [request]) (S k)) (http_at (l ++ [request]) k).
Proof.
  intros Hc. unfold send. intros s Hs. pose proof (client_Do_triple client request l k Hc s Hs) as H.
  unfold mbind at 1, lm_bind at 1, attempt. destruct (client_Do client request s) as [[r|e|v|] s']; try done.
  revert s' H. change (triple (http_at (l ++ [request]) k) (check_context ;; lm_fail (A:=HttpResponse) e)
    (λ _, http_at (l ++ [request]) (S k)) (http_at (l ++ [request]) k)).
  eapply triple_bind; [by apply check_context_triple|]. intros _ s' Hs'. done.
Qed.

Lemma close_body_triple response l k E : triple (http_at l (S k)) (close_body response) (λ _, http_at l k) E.
Proof. intros s [Hs Hk]. split; [done|]. cbn. lia. Qed.

Lemma lift_triple {A} (r : result A) P (E : HttpState → Prop) :
  (∀ s, P s → E s) → triple P (lm_lift r) (λ a s, r = Ok a ∧ P s) E.
Proof. apply triple_lift. Qed.

End traces.

(* ------------------------------------------------------------------ *)
(** ** Safe requests *)

(** A URL is fetched over https, or over http where that was allowed. *)
Definition scheme_allowed (insecure : bool) (u : URL) : Prop := URL_Scheme u = "https" ∨ (URL_Scheme u = "http" ∧ insecure = true).

(** A request goes by an allowed scheme to the host of the base URL. *)
Definition goes_to (base : URL) (insecure : bool) (u : URL) : Prop :=
  scheme_allowed insecure u ∧ URL_Host u = removeEmptyPort (URL_Host base).

(** A credential is a token that cannot break out of its header. *)
Definition token_header (prefix value : string) : Prop := ∃ token, value = prefix +:+ token ∧ bad_token token = false.

Lemma token_header_clean prefix value c :
  token_header prefix value → c = "010"%char ∨ c = "013"%char → contains_byte c prefix = false → contains_byte c value = false.
Proof.
  intros (token & -> & Ht) Hc Hp. assert (∀ a (s t : string), contains_byte a (s +:+ t) = contains_byte a s || contains_byte a t) as Happ.
  { intros a s t. induction s as [|b s IH]; [done|]. rewrite append_cons. cbn [contains_byte]. by rewrite IH, orb_assoc. }
  rewrite Happ, Hp. cbn [orb]. unfold bad_token in Ht. apply orb_false_iff in Ht as [_ Ht].
  induction token as [|a token IH]; [done|]. cbn [strings_ContainsAny] in Ht. cbn [contains_byte].
  apply orb_false_iff in Ht as [Ha Ht]. rewrite (IH Ht), orb_false_r.
  change (contains_byte a (String "013" (String "010" "")) = false) in Ha. cbn [contains_byte] in Ha.
  rewrite !orb_false_iff in Ha. destruct Ha as (H1 & H2 & _). destruct Hc as [-> | ->]; rewrite Ascii.eqb_sym; done.
Qed.
