(* ===== verification/ChatProvider.v ===== *)
(** * The OpenAI-compatible provider: src/provider/openaicompat/provider.go

    Its configuration, requests, model discovery and streams. *)

From Stdlib Require Import ZArith Lia.
From S2P Require Import Prelude Effects GoNum GoText Domain Model Stream Sse ChatStream ChatTranslate Http.

Definition chat_ErrConfiguration : error := Sentinel "invalid OpenAI-compatible configuration".
Definition chat_config_error (text : string) : error := Errorf text [chat_ErrConfiguration].

Definition chat_defaultMaxBodyBytes : Z := 4194304.
Definition chat_defaultMaxEventBytes : Z := 1048576.

Record ChatConfig : Type := {
  ChatConfig_Name : string;
  ChatConfig_BaseURL : string;
  ChatConfig_AllowInsecureHTTP : bool;
  ChatConfig_TokenSource : option (nat → result string);
  ChatConfig_HTTPClient : option HttpClient;
  ChatConfig_DefaultCapabilities : ModelCapabilities;
  ChatConfig_Labels : option (gmap string string);
  ChatConfig_TokenLimitField : string;
  ChatConfig_MaxBodyBytes : Z;
  ChatConfig_MaxEventBytes : Z;
}.

Record ChatProvider : Type := {
  cp_name : string;
  cp_baseURL : URL;
  cp_tokenSource : option (nat → result string);
  cp_client : HttpClient;
  cp_defaultCapabilities : ModelCapabilities;
  cp_labels : option (gmap string string);
  cp_tokenLimitField : string;
  cp_maxBodyBytes : Z;
  cp_maxEventBytes : Z;
}.

(** encoding/json, for the model list and for requests. *)
Class ChatJson := {
  decode_model_ids : bytes → result (list string * bool);
  marshal_chat : chatRequest → result bytes;
}.

Section chat_provider.
Context `{Henv : HttpEnv, Hstream : StreamEnv, Hchunks : ChunkDecoder, Hjson : ChatJson}.
Abbreviation HM := (EM HttpState) (only parsing).

Definition chat_scheme_check (scheme : string) (insecure : bool) : result unit :=
  if scheme =s "https" then Ok tt
  else if scheme =s "http" then require_w insecure chat_ErrConfiguration "plain HTTP requires explicit opt-in"
  else Err (chat_config_error "base URL scheme must be HTTPS or HTTP").

(** [New] *)
Definition chat_New (config : ChatConfig) : result ChatProvider :=
  let name := strings_TrimSpace (ChatConfig_Name config) in
  require_w (negb ((name =s "") || (name ≠s ChatConfig_Name config))) chat_ErrConfiguration
    "provider name is empty or has surrounding whitespace" ;;
  require_w (negb (blank (ChatConfig_BaseURL config) || negb (trimmed (ChatConfig_BaseURL config)))) chat_ErrConfiguration
    "base URL is empty or has surrounding whitespace" ;;
  baseURL ← match url_Parse (ChatConfig_BaseURL config) with
            | Ok u => Ok u
            | Err _ => Err (chat_config_error "base URL")
            end;
  require_w (base_shape_ok baseURL) chat_ErrConfiguration
    "base URL must be absolute without user information, query, or fragment" ;;
  chat_scheme_check (URL_Scheme baseURL) (ChatConfig_AllowInsecureHTTP config) ;;
  let baseURL := {| baseURL with URL_Path := strings_TrimSuffix (URL_Path baseURL) "/" |} in
  let descriptor := provider_descriptor name "configured" (default_tool_use (ChatConfig_DefaultCapabilities config)) (ChatConfig_Labels config) in
  match ModelDescriptor_Validate descriptor with
  | Err err => Err (Errorf "defaults" [chat_ErrConfiguration; err])
  | Ok _ =>
      let field := if ChatConfig_TokenLimitField config =s "" then TokenLimitMaxTokens else ChatConfig_TokenLimitField config in
      require_w (negb ((field ≠s TokenLimitMaxTokens) && (field ≠s TokenLimitMaxCompletionTokens))) chat_ErrConfiguration
        "unknown token-limit field" ;;
      let maxBodyBytes := if ChatConfig_MaxBodyBytes config =? 0 then chat_defaultMaxBodyBytes else ChatConfig_MaxBodyBytes config in
      require_w (negb (maxBodyBytes <? 1)) chat_ErrConfiguration "maximum body bytes must be positive" ;;
      let maxEventBytes := if ChatConfig_MaxEventBytes config =? 0 then chat_defaultMaxEventBytes else ChatConfig_MaxEventBytes config in
      require_w (negb (maxEventBytes <? 1)) chat_ErrConfiguration "maximum event bytes must be positive" ;;
      Ok {| cp_name := name; cp_baseURL := baseURL; cp_tokenSource := ChatConfig_TokenSource config;
            cp_client := without_redirects (ChatConfig_HTTPClient config);
            cp_defaultCapabilities := Descriptor_Capabilities descriptor; cp_labels := Descriptor_Labels descriptor;
            cp_tokenLimitField := field; cp_maxBodyBytes := maxBodyBytes; cp_maxEventBytes := maxEventBytes |}
  end.

(** [newRequest] *)
Definition chat_newRequest (p : ChatProvider) (method path : string) (body : option bytes) : HM HttpRequest :=
  check_context ;;
  url ← lm_lift (request_URL (endpoint (cp_baseURL p) path (URL_RawQuery (cp_baseURL p))));
  let request := {| Http_Method := method; Http_URL := url; Http_Header := ∅; Http_Body := body |} in
  match cp_tokenSource p with
  | None => mret request
  | Some source =>
      token ← obtain_token source;
      mret {| request with Http_Header := <["Authorization" := "Bearer " +:+ token]> (Http_Header request) |}
  end.

(** The loop over the model IDs of [Models]. *)
Fixpoint chat_models (p : ChatProvider) (ids : list string) (seen : gset string) : result (list ModelDescriptor) :=
  match ids with
  | [] => Ok []
  | id :: ids' =>
      if bool_decide (id ∈ seen) then Err (errors_New "model discovery response: duplicate model")
      else
        let descriptor := provider_descriptor (cp_name p) id (cp_defaultCapabilities p) (cp_labels p) in
        wrapf "model discovery response: model" (ModelDescriptor_Validate descriptor) ;;
        rest ← chat_models p ids' ({[ id ]} ∪ seen);
        Ok (descriptor :: rest)
  end.

(** [Models]: the body is closed when it returns. *)
Definition chat_Models (p : ChatProvider) : HM (list ModelDescriptor) :=
  check_context ;;
  request ← chat_newRequest p "GET" "models" None;
  response ← send (cp_client p) request;
  answer ← attempt (
    if is_success (Response_StatusCode response)
    then
      ids ← lm_lift (wrapf "model discovery response" (decodeBoundedJSON decode_model_ids (Response_Body response) (cp_maxBodyBytes p)));
      lm_lift (chat_models p ids ∅)
    else lm_fail (HTTPError (Response_StatusCode response)));
  close_body response ;;
  lm_lift answer.

(** [Stream] *)
Definition chat_Stream (p : ChatProvider) (r : ModelRequest) : HM chatStream :=
  check_context ;;
  payload ← lm_lift (chat_translateRequest (cp_name p) (cp_tokenLimitField p) r);
  body ← lm_lift match marshal_chat payload with Ok b => Ok b | Err _ => Err (chat_translation_error "encode request") end;
  request ← chat_newRequest p "POST" "chat/completions" (Some body);
  let request := {| request with Http_Header := <["Accept" := "text/event-stream"]> (<["Content-Type" := "application/json"]> (Http_Header request)) |} in
  response ← send (cp_client p) request;
  if is_success (Response_StatusCode response)
  then mret (newChatStream (Response_Body response) (cp_maxEventBytes p))
  else close_body response ;; lm_fail (HTTPError (Response_StatusCode response)).

End chat_provider.

(* ------------------------------------------------------------------ *)
(** ** What a configured provider guarantees *)

Section guarantees.
Context `{Henv : HttpEnv, Hlaws : !HttpLaws, Hstream : StreamEnv, Hchunks : ChunkDecoder, Hjson : ChatJson}.

Lemma chat_New_Ok config p :
  chat_New config = Ok p →
  cp_name p = ChatConfig_Name config ∧ bad_name (cp_name p) = false ∧
  scheme_allowed (ChatConfig_AllowInsecureHTTP config) (cp_baseURL p) ∧ base_shape_ok (cp_baseURL p) = true ∧
  Client_UseLastResponse (cp_client p) = true ∧ cp_tokenSource p = ChatConfig_TokenSource config ∧
  ModelDescriptor_Validate (provider_descriptor (cp_name p) "configured" (cp_defaultCapabilities p) (cp_labels p)) = Ok tt ∧
  cp_tokenLimitField p ∈ [TokenLimitMaxTokens; TokenLimitMaxCompletionTokens] ∧ 1 <= cp_maxBodyBytes p ∧ 1 <= cp_maxEventBytes p.
Proof.
  unfold chat_New. cbn zeta. intros H. apply seq_Ok in H as [Hname H]. apply seq_Ok in H as [_ H].
  apply require_w_Ok, negb_true_iff, orb_false_iff in Hname as [Hne Hname]. apply negb_false_iff, seqb_true in Hname.
  apply bind_Ok in H as (u & _ & H). apply seq_Ok in H as [Hshape H]. apply require_w_Ok in Hshape.
  apply seq_Ok in H as [Hscheme H].
  destruct (ModelDescriptor_Validate _) as [[]|] eqn:Hv in H; [|done].
  apply seq_Ok in H as [Hfield H]. apply seq_Ok in H as [Hbody H]. apply seq_Ok in H as [Hevent H].
  apply require_w_Ok in Hfield, Hbody, Hevent. rewrite negb_true_iff in Hbody, Hevent. apply Z.ltb_ge in Hbody, Hevent.
  injection H as <-. cbn [cp_name cp_baseURL cp_client cp_tokenSource cp_defaultCapabilities cp_labels cp_tokenLimitField cp_maxBodyBytes cp_maxEventBytes].
  split_and!; try done.
  - rewrite Hname. unfold bad_name, trimmed, blank. rewrite Hname, String.eqb_refl, orb_false_r. by rewrite Hname in Hne.
  - unfold scheme_allowed. cbn [URL_Scheme]. unfold chat_scheme_check in Hscheme.
    destruct (String.eqb_spec (URL_Scheme u) "https"); [by left|]. destruct (String.eqb_spec (URL_Scheme u) "http"); [|done].
    apply require_w_Ok in Hscheme. by right.
  - unfold provider_descriptor, cloneLabels in *. rewrite !cloneStringMap_id in *. exact Hv.
  - rewrite negb_true_iff, andb_false_iff, !negb_false_iff, !seqb_true in Hfield. rewrite !elem_of_cons. naive_solver.
Qed.

(** [New] only accepts safe configurations: a clean name, an absolute base URL
    without user information, query or fragment, https unless plain http was
    allowed, valid defaults, positive limits; and the client of the provider
    does not follow redirects. *)
Theorem chat_New_safe config p :
  chat_New config = Ok p →
  cp_name p = ChatConfig_Name config ∧ bad_name (cp_name p) = false ∧
  scheme_allowed (ChatConfig_AllowInsecureHTTP config) (cp_baseURL p) ∧ base_shape_ok (cp_baseURL p) = true ∧
  Client_UseLastResponse (cp_client p) = true ∧ cp_tokenSource p = ChatConfig_TokenSource config ∧
  ModelDescriptor_Validate (provider_descriptor (cp_name p) "configured" (cp_defaultCapabilities p) (cp_labels p)) = Ok tt ∧
  cp_tokenLimitField p ∈ [TokenLimitMaxTokens; TokenLimitMaxCompletionTokens] ∧ 1 <= cp_maxBodyBytes p ∧ 1 <= cp_maxEventBytes p.
Proof. apply chat_New_Ok. Qed.

Lemma chat_models_Ok p ids seen ds :
  chat_models p ids seen = Ok ds →
  ds = (λ id, provider_descriptor (cp_name p) id (cp_defaultCapabilities p) (cp_labels p)) <$> ids ∧
  Forall (λ d, ModelDescriptor_Validate d = Ok tt) ds ∧ NoDup ids ∧ Forall (.∉ seen) ids.
Proof.
  revert seen ds. induction ids as [|id ids IH]; intros seen ds; cbn [chat_models].
  { intros [= <-]. split_and!; constructor. }
  destruct (bool_decide _) eqn:Eb; [done|]. apply bool_decide_eq_false in Eb. intros H.
  apply seq_Ok in H as [Hv H]. apply wrapf_Ok in Hv. apply bind_Ok in H as (rest & Hr & [= <-]).
  destruct (IH _ _ Hr) as (-> & Hvs & Hnd & Hfresh). rewrite Forall_forall in Hfresh. split_and!; [done | by constructor | |].
  - apply NoDup_cons. split; [|done]. intros Hin. apply (Hfresh _ Hin). set_solver.
  - constructor; [done|]. apply Forall_forall. intros x Hx Hs. apply (Hfresh _ Hx). set_solver.
Qed.

(** Whatever the state, what [Models] returns comes from the loop over the IDs. *)
Lemma chat_Models_result p :
  triple (λ _, True) (chat_Models p) (λ ds _, ∃ ids, chat_models p ids ∅ = Ok ds) (λ _, True).
Proof.
  unfold chat_Models. eapply triple_bind; [apply triple_any|]. intros ?. eapply triple_bind; [apply triple_any|]. intros request.
  eapply triple_bind; [apply triple_any|]. intros response.
  eapply (triple_bind _ _ (λ answer _, ∀ ds, answer = Ok ds → ∃ ids, chat_models p ids ∅ = Ok ds)).
  - intros s _. unfold attempt. destruct (is_success _); [|done]. unfold mbind, lm_bind.
    destruct (wrapf _ _) as [ids|e]; cbn [lm_lift]; unfold mret, lm_ret, lm_fail; [|done].
    destruct (chat_models p ids ∅) as [ds|e] eqn:Em; cbn [lm_lift]; unfold mret, lm_ret, lm_fail; [|done].
    intros ds' [= <-]. by exists ids.
  - intros answer. eapply (triple_bind _ _ (λ _ _, ∀ ds, answer = Ok ds → ∃ ids, chat_models p ids ∅ = Ok ds)).
    + intros s Hs. unfold close_body. done.
    + intros ? s Ha. destruct answer as [ds|e]; [|done]. by apply Ha.
Qed.

Section requests.
Variables (p : ChatProvider) (insecure : bool).
Hypothesis base_safe : scheme_allowed insecure (cp_baseURL p).
Hypothesis no_redirects : Client_UseLastResponse (cp_client p) = true.

(** A request of the provider: to its host, by its scheme, and with a clean token
    if it has a credential. *)
Definition chat_request_ok (request : HttpRequest) : Prop :=
  goes_to (cp_baseURL p) insecure (Http_URL request) ∧
  match Http_Header request !! "Authorization" with
  | Some v => cp_tokenSource p ≠ None ∧ token_header "Bearer " v
  | None => cp_tokenSource p = None
  end.

Lemma chat_newRequest_triple method path body l k E :
  (∀ s, http_at l k s → E s) →
  triple (http_at l k) (chat_newRequest p method path body)
    (λ request s, (chat_request_ok request ∧ Http_Method request = method ∧ Http_Body request = body ∧
                   URL_Path (Http_URL request) = strings_TrimSuffix (URL_Path (cp_baseURL p)) "/" +:+ "/" +:+ path) ∧ http_at l k s) E.
Proof.
  intros HE. unfold chat_newRequest. eapply triple_bind; [by apply check_context_triple|]. intros [].
  apply triple_lift_bind; [done|]. intros u Hu. apply request_URL_kept in Hu as (Hs & Hh & Hp).
  assert (goes_to (cp_baseURL p) insecure u) as Hgo.
  { split; [|exact Hh]. unfold scheme_allowed. rewrite Hs. exact base_safe. }
  cbn zeta. unfold chat_request_ok. destruct (cp_tokenSource p) as [source|] eqn:Et.
  - eapply triple_bind; [by apply obtain_token_triple|]. intros token s [Htok Hat].
    unfold mret, lm_ret. cbn [Http_URL Http_Header Http_Method Http_Body]. rewrite lookup_insert_eq.
    split; [|exact Hat]. split_and!; try done. by exists token.
  - intros s Hat. unfold mret, lm_ret. cbn [Http_URL Http_Header Http_Method Http_Body]. rewrite lookup_empty.
    split; [|exact Hat]. by split_and!.
Qed.

(** What one exchange leaves: a good request was sent, its body is closed. *)
Abbreviation exchanged := (http_after chat_request_ok 1).

Lemma chat_Models_triple l k : triple (http_at l k) (chat_Models p) (λ _, exchanged l k) (exchanged l k).
Proof.
  assert (∀ s, http_at l k s → exchanged l k s) as Hat by (intros s; apply http_at_after).
  unfold chat_Models. eapply triple_bind; [by apply check_context_triple|]. intros [].
  eapply triple_bind; [by apply chat_newRequest_triple|]. intros request. cbn beta.
  intros s [(Hok & _) Hs]. revert s Hs. apply (triple_bind (http_at l k) _ (λ _, http_at (l ++ [request]) (S k))).
  { eapply triple_conseq; [by apply send_triple | done | done|]. intros s. by apply http_at_one. }
  intros response. eapply (triple_bind _ _ (λ _, http_at (l ++ [request]) (S k))).
  - intros s Hs. unfold attempt. destruct (is_success _); [|done]. unfold mbind, lm_bind.
    destruct (wrapf _ _) as [ids|e]; [|done]. cbn [lm_lift]. unfold mret, lm_ret. by destruct (chat_models p ids ∅).
  - intros answer. eapply triple_bind; [apply close_body_triple|]. intros ? s Hs.
    assert (exchanged l k s) as He by (by apply (http_at_one _ _ _ _ _ request)). by destruct answer.
Qed.

(** A stream was opened for [r]: the translated request was posted, the response
    is being read. *)
Definition chat_opened (r : ModelRequest) (l : list HttpRequest) (k : nat) (st : chatStream) (s : HttpState) : Prop :=
  ∃ w body request received,
    chat_translateRequest (cp_name p) (cp_tokenLimitField p) r = Ok w ∧ marshal_chat w = Ok body ∧
    chat_request_ok request ∧ Http_Method request = "POST" ∧ Http_Body request = Some body ∧
    URL_Path (Http_URL request) = strings_TrimSuffix (URL_Path (cp_baseURL p)) "/" +:+ "/chat/completions" ∧
    http_at (l ++ [request]) (S k) s ∧ st = newChatStream received (cp_maxEventBytes p).

Lemma chat_Stream_triple r l k :
  triple (http_at l k) (chat_Stream p r) (chat_opened r l k) (exchanged l k).
Proof.
  assert (∀ s, http_at l k s → exchanged l k s) as Hat by (intros s; apply http_at_after).
  unfold chat_Stream. eapply triple_bind; [by apply check_context_triple|]. intros [].
  apply triple_lift_bind; [done|]. intros w Hw. apply triple_lift_bind; [done|]. intros body Hb.
  assert (marshal_chat w = Ok body) as Hbody by (by destruct (marshal_chat w)).
  eapply triple_bind; [by apply chat_newRequest_triple|]. intros request. cbn beta zeta.
  intros s [((Hgo & Hauth) & Hm & Hbd & Hp) Hs]. revert s Hs.
  set (request' := {| request with Http_Header := <["Accept" := "text/event-stream"]> (<["Content-Type" := "application/json"]> (Http_Header request)) |}).
  assert (chat_request_ok request') as Hok.
  { split; [done|]. cbn [request' Http_Header]. by rewrite !lookup_insert_ne. }
  apply (triple_bind (http_at l k) _ (λ _, http_at (l ++ [request']) (S k))).
  { eapply triple_conseq; [by apply send_triple | done | done|]. intros s. by apply http_at_one. }
  intros response. destruct (is_success _).
  - intros s Hs. exists w, body, request', (Response_Body response). by split_and!.
  - eapply triple_bind; [apply close_body_triple|]. intros ? s Hs. by apply (http_at_one _ _ _ _ _ request').
Qed.

End requests.

(** C34. A provider that [New] made only talks to its endpoint: listing models or
    opening a stream sends at most one request, to the configured host (less an
    empty port), over https unless plain http was allowed, without following redirects, and with
    a credential exactly when a token source is configured, which then is a
    clean token.  Every response body is closed, but that of an opened stream,
    which was posted the translation of the caller's request. *)
Theorem chat_provider_exchanges config p l k s :
  chat_New config = Ok p → http_at l k s →
  let insecure := ChatConfig_AllowInsecureHTTP config in
  http_after (chat_request_ok p insecure) 1 l k (snd (chat_Models p s)) ∧
  ∀ r, match chat_Stream p r s with
       | (Done st, s') => chat_opened p insecure r l k st s'
       | (_, s') => http_after (chat_request_ok p insecure) 1 l k s'
       end.
Proof.
  intros Hnew Hs. apply chat_New_Ok in Hnew as (_ & _ & Hgo & _ & Hc & _). split.
  - pose proof (chat_Models_triple p _ Hgo Hc l k s Hs) as H. by destruct (chat_Models p s) as [[ds|e|v|] s'].
  - intros r. exact (chat_Stream_triple p _ Hgo Hc r l k s Hs).
Qed.

(** What [Models] returns is a catalog [DiscoverModels] accepts unchanged: valid
    descriptors of this provider, no model twice. *)
Theorem chat_Models_catalog config p s ds s' :
  chat_New config = Ok p → chat_Models p s = (Done ds, s') →
  DiscoverModels background (Some {| Provider_Name := cp_name p; Provider_Models := Ok ds |}) = Ok ds.
Proof.
  intros Hnew Hm. apply chat_New_Ok in Hnew as (_ & Hname & Hgo & _ & Hc & _).
  assert (∃ ids, chat_models p ids ∅ = Ok ds) as [ids Hids].
  { pose proof (chat_Models_result p s I) as H. by rewrite Hm in H. }
  apply chat_models_Ok in Hids as (Hds & Hv & Hnd & _).
  unfold DiscoverModels. cbn [Provider_Name Provider_Models background check_ctx]. rewrite Hname. cbn [negb require_w].
  rewrite !seq_Ok. split_and!; [done | done | done|]. apply discover_loop_Ok. split_and!; [done | | |].
  - apply Forall_forall. intros d Hd. split; [by eapply Forall_forall in Hd; [|exact Hv]|].
    rewrite Hds in Hd. by apply list_elem_of_fmap in Hd as (id & -> & _).
  - rewrite Hds, <-list_fmap_compose. change (NoDup ((@id string) <$> ids)). by rewrite list_fmap_id.
  - intros d _. set_solver.
Qed.

End guarantees.
