(* ===== verification/MessageProvider.v ===== *)
(** * The Anthropic provider: src/provider/anthropic/provider.go

    Its configuration, requests, paginated model discovery and streams. *)

From Stdlib Require Import ZArith Lia Ascii.
From S2P Require Import Prelude Effects GoNum GoText Domain Model Stream Sse MessageStream MessageTranslate Http.

Definition message_ErrConfiguration : error := Sentinel "invalid anthropic configuration".
Definition message_config_error (text : string) : error := Errorf text [message_ErrConfiguration].

Definition message_defaultAPIVersion : string := "2023-06-01".
Definition message_defaultMaxBodyBytes : Z := 4194304.
Definition message_defaultMaxEventBytes : Z := 1048576.
Definition message_defaultMaxPages : Z := 100.
Definition message_defaultOutputTokens : Z := 4096.

Definition AuthBearer : string := "bearer".
Definition AuthAPIKey : string := "x-api-key".

Record MessageConfig : Type := {
  MessageConfig_Name : string;
  MessageConfig_BaseURL : string;
  MessageConfig_AllowInsecureHTTP : bool;
  MessageConfig_AuthMode : string;
  MessageConfig_TokenSource : option (nat → result string);
  MessageConfig_APIVersion : string;
  MessageConfig_HTTPClient : option HttpClient;
  MessageConfig_DefaultCapabilities : ModelCapabilities;
  MessageConfig_Labels : option (gmap string string);
  MessageConfig_DefaultOutputTokens : Z;
  MessageConfig_MaxBodyBytes : Z;
  MessageConfig_MaxEventBytes : Z;
  MessageConfig_MaxModelPages : Z;
}.

Record MessageProvider : Type := {
  mp_name : string;
  mp_baseURL : URL;
  mp_authMode : string;
  mp_tokenSource : option (nat → result string);
  mp_apiVersion : string;
  mp_client : HttpClient;
  mp_defaultCapabilities : ModelCapabilities;
  mp_labels : option (gmap string string);
  mp_defaultOutputTokens : Z;
  mp_maxBodyBytes : Z;
  mp_maxEventBytes : Z;
  mp_maxModelPages : Z;
}.

(** A page of the model list. *)
Record pageModel : Type := { Page_ID : string; Page_MaxInputTokens : option Z; Page_MaxTokens : option Z }.
Record modelPage : Type := { Page_Data : list pageModel; Page_HasMore : bool; Page_LastID : string }.

(** encoding/json, for the model list and for requests. *)
Class MessageJson := {
  decode_model_page : bytes → result (modelPage * bool);
  marshal_message : messageRequest → result bytes;
}.

(** [url.QueryEscape] *)
Definition unreserved (c : ascii) : bool :=
  let n := byte_of c in
  ((48 <=? n) && (n <=? 57)) || ((65 <=? n) && (n <=? 90)) || ((97 <=? n) && (n <=? 122)) ||
  (n =? 45) || (n =? 95) || (n =? 46) || (n =? 126).

Definition upper_hex (n : Z) : string :=
  String (Ascii.ascii_of_nat (Z.to_nat (if n <? 10 then 48 + n else 55 + n))) "".

Fixpoint url_QueryEscape (s : string) : string :=
  match s with
  | EmptyString => ""
  | String c s' =>
      (if unreserved c then String c ""
       else if byte_of c =? 32 then "+"
       else "%" +:+ upper_hex (byte_of c / 16) +:+ upper_hex (byte_of c mod 16)) +:+ url_QueryEscape s'
  end.

(** [url.Values.Encode] of the query of a page: keys in order. *)
Definition page_query (after : string) : string :=
  if after =s "" then "limit=1000" else "after_id=" +:+ url_QueryEscape after +:+ "&limit=1000".

Section message_provider.
Context `{Henv : HttpEnv, Hstream : StreamEnv, Hjson : MessageJson}.
Abbreviation HM := (EM HttpState) (only parsing).

(** [New] *)
Definition message_New (config : MessageConfig) : result MessageProvider :=
  let name := strings_TrimSpace (MessageConfig_Name config) in
  require_w (negb ((name =s "") || (name ≠s MessageConfig_Name config))) message_ErrConfiguration
    "provider name is empty or has surrounding whitespace" ;;
  require_w (negb (blank (MessageConfig_BaseURL config) || negb (trimmed (MessageConfig_BaseURL config)))) message_ErrConfiguration
    "base URL is empty or has surrounding whitespace" ;;
  let shape := "base URL must be absolute without user information, query, or fragment" in
  baseURL ← match url_Parse (MessageConfig_BaseURL config) with
            | Ok u => require_w (base_shape_ok u) message_ErrConfiguration shape ;; Ok u
            | Err _ => Err (message_config_error shape)
            end;
  require_w (negb ((URL_Scheme baseURL ≠s "https") && ((URL_Scheme baseURL ≠s "http") || negb (MessageConfig_AllowInsecureHTTP config))))
    message_ErrConfiguration "base URL must use HTTPS; plain HTTP requires explicit opt-in" ;;
  let baseURL := {| baseURL with URL_Path := strings_TrimSuffix (URL_Path baseURL) "/" |} in
  let authMode := if MessageConfig_AuthMode config =s "" then AuthBearer else MessageConfig_AuthMode config in
  require_w (negb ((authMode ≠s AuthBearer) && (authMode ≠s AuthAPIKey))) message_ErrConfiguration "unknown authentication mode" ;;
  let apiVersion := if MessageConfig_APIVersion config =s "" then message_defaultAPIVersion else MessageConfig_APIVersion config in
  require_w (negb (bad_token apiVersion)) message_ErrConfiguration "invalid API version" ;;
  let descriptor := provider_descriptor name "configured" (default_tool_use (cloneCapabilities (MessageConfig_DefaultCapabilities config)))
                      (MessageConfig_Labels config) in
  match ModelDescriptor_Validate descriptor with
  | Err _ => Err (message_config_error "defaults")
  | Ok _ =>
      let outputTokens := if MessageConfig_DefaultOutputTokens config =? 0 then message_defaultOutputTokens
                          else MessageConfig_DefaultOutputTokens config in
      require_w (negb (outputTokens <? 1)) message_ErrConfiguration "default output tokens must be positive" ;;
      let maxBody := if MessageConfig_MaxBodyBytes config =? 0 then message_defaultMaxBodyBytes else MessageConfig_MaxBodyBytes config in
      let maxEvent := if MessageConfig_MaxEventBytes config =? 0 then message_defaultMaxEventBytes else MessageConfig_MaxEventBytes config in
      let maxPages := if MessageConfig_MaxModelPages config =? 0 then message_defaultMaxPages else MessageConfig_MaxModelPages config in
      require_w (negb ((maxBody <? 1) || (maxEvent <? 1) || (maxPages <? 1))) message_ErrConfiguration
        "size and page limits must be positive" ;;
      Ok {| mp_name := name; mp_baseURL := baseURL; mp_authMode := authMode; mp_tokenSource := MessageConfig_TokenSource config;
            mp_apiVersion := apiVersion; mp_client := without_redirects (MessageConfig_HTTPClient config);
            mp_defaultCapabilities := Descriptor_Capabilities descriptor; mp_labels := Descriptor_Labels descriptor;
            mp_defaultOutputTokens := outputTokens; mp_maxBodyBytes := maxBody; mp_maxEventBytes := maxEvent;
            mp_maxModelPages := maxPages |}
  end.

(** [newRequest] *)
Definition message_newRequest (p : MessageProvider) (method path query : string) (body : option bytes) : HM HttpRequest :=
  check_context ;;
  url ← lm_lift (request_URL (endpoint (mp_baseURL p) path query));
  let request := {| Http_Method := method; Http_URL := url; Http_Header := <["Anthropic-Version" := mp_apiVersion p]> ∅; Http_Body := body |} in
  match mp_tokenSource p with
  | None => mret request
  | Some source =>
      token ← obtain_token source;
      if mp_authMode p =s AuthAPIKey
      then mret {| request with Http_Header := <["X-Api-Key" := token]> (Http_Header request) |}
      else mret {| request with Http_Header := <["Authorization" := "Bearer " +:+ token]> (Http_Header request) |}
  end.

(** The descriptor of a model of a page: its limits replace the defaults. *)
Definition page_descriptor (p : MessageProvider) (model : pageModel) : ModelDescriptor :=
  let capabilities := cloneCapabilities (mp_defaultCapabilities p) in
  let capabilities := match Page_MaxInputTokens model with
                      | Some n => {| capabilities with Cap_ContextTokens := n |}
                      | None => capabilities
                      end in
  let capabilities := match Page_MaxTokens model with
                      | Some n => {| capabilities with Cap_MaxOutputTokens := n |}
                      | None => capabilities
                      end in
  {| Descriptor_Ref := {| ModelRef_Provider := mp_name p; ModelRef_Model := Page_ID model |};
     Descriptor_Capabilities := capabilities; Descriptor_Labels := cloneLabels (mp_labels p) |}.

(** The loop over the models of a page: the names seen and the descriptors. *)
Fixpoint page_models (p : MessageProvider) (models : list pageModel) (seen : gset string) (found : list ModelDescriptor)
    : result (gset string * list ModelDescriptor) :=
  match models with
  | [] => Ok (seen, found)
  | model :: models' =>
      if bool_decide (Page_ID model ∈ seen) then Err (errors_New "model discovery response: duplicate model")
      else
        let descriptor := page_descriptor p model in
        wrapf "model discovery response: model" (ModelDescriptor_Validate descriptor) ;;
        page_models p models' ({[ Page_ID model ]} ∪ seen) (found ++ [descriptor])
  end.

(** One page: its body is closed before it is looked at. *)
Definition get_page (p : MessageProvider) (after : string) : HM modelPage :=
  request ← message_newRequest p "GET" "models" (page_query after) None;
  response ← send (mp_client p) request;
  if is_success (Response_StatusCode response)
  then
    let decoded := decodeBoundedJSON decode_model_page (Response_Body response) (mp_maxBodyBytes p) in
    closeErr ← close_body response;
    page ← lm_lift (wrapf "model discovery response" decoded);
    match closeErr with Some e => lm_fail e | None => mret page end
  else
    close_body response ;;
    lm_fail (HTTPError (Response_StatusCode response)).

(** The pages of [Models], at most [fuel] more. *)
Fixpoint model_pages (fuel : nat) (p : MessageProvider) (after : string) (seen cursors : gset string) (found : list ModelDescriptor)
    : HM (list ModelDescriptor) :=
  match fuel with
  | O => lm_fail (errors_New "model discovery response: pagination exceeds pages")
  | Datatypes.S fuel' =>
      page ← get_page p after;
      '(seen, found) ← lm_lift (page_models p (Page_Data page) seen found);
      if negb (Page_HasMore page) then mret found
      else if Page_LastID page =s "" then lm_fail (errors_New "model discovery response: paginated page has no last ID")
      else if bool_decide (Page_LastID page ∈ cursors) then lm_fail (errors_New "model discovery response: pagination cycle")
      else model_pages fuel' p (Page_LastID page) seen ({[ Page_LastID page ]} ∪ cursors) found
  end.

Definition message_Models (p : MessageProvider) : HM (list ModelDescriptor) :=
  check_context ;;
  model_pages (Z.to_nat (mp_maxModelPages p)) p "" ∅ ∅ [].

(** [Stream] *)
Definition message_Stream (p : MessageProvider) (r : ModelRequest) : HM messageStream :=
  payload ← lm_lift (message_translateRequest (mp_name p) (mp_defaultOutputTokens p) r);
  body ← lm_lift match marshal_message payload with Ok b => Ok b | Err _ => Err (message_translation_error "encode request") end;
  request ← message_newRequest p "POST" "messages" "" (Some body);
  let request := {| request with Http_Header := <["Accept" := "text/event-stream"]> (<["Content-Type" := "application/json"]> (Http_Header request)) |} in
  response ← send (mp_client p) request;
  if is_success (Response_StatusCode response)
  then mret (newMessageStream (Response_Body response) (mp_maxEventBytes p))
  else close_body response ;; lm_fail (HTTPError (Response_StatusCode response)).

End message_provider.

(* ------------------------------------------------------------------ *)
(** ** What a configured provider guarantees *)

Section message_guarantees.
Context `{Henv : HttpEnv, Hlaws : !HttpLaws, Hstream : StreamEnv, Hjson : MessageJson}.

(** What [New] checks of a configuration. *)
Definition message_safe (config : MessageConfig) (p : MessageProvider) : Prop :=
  mp_name p = MessageConfig_Name config ∧ bad_name (mp_name p) = false ∧
  scheme_allowed (MessageConfig_AllowInsecureHTTP config) (mp_baseURL p) ∧ base_shape_ok (mp_baseURL p) = true ∧
  mp_authMode p ∈ [AuthBearer; AuthAPIKey] ∧ bad_token (mp_apiVersion p) = false ∧
  Client_UseLastResponse (mp_client p) = true ∧ mp_tokenSource p = MessageConfig_TokenSource config ∧
  ModelDescriptor_Validate (provider_descriptor (mp_name p) "configured" (mp_defaultCapabilities p) (mp_labels p)) = Ok tt ∧
  1 <= mp_defaultOutputTokens p ∧ 1 <= mp_maxBodyBytes p ∧ 1 <= mp_maxEventBytes p ∧ 1 <= mp_maxModelPages p.

Lemma message_New_Ok config p : message_New config = Ok p → message_safe config p.
Proof.
  unfold message_New, message_safe. cbn zeta. intros H. apply seq_Ok in H as [Hname H]. apply seq_Ok in H as [_ H].
  apply require_w_Ok, negb_true_iff, orb_false_iff in Hname as [Hne Hname]. apply negb_false_iff, seqb_true in Hname.
  apply bind_Ok in H as (u & Hu & H). assert (base_shape_ok u = true) as Hshape.
  { destruct (url_Parse _) as [u'|]; [|done]. apply seq_Ok in Hu as [Hu [= <-]]. by apply require_w_Ok in Hu. }
  apply seq_Ok in H as [Hscheme H]. apply seq_Ok in H as [Hauth H]. apply seq_Ok in H as [Hversion H].
  destruct (ModelDescriptor_Validate _) as [[]|] eqn:Hv in H; [|done].
  apply seq_Ok in H as [Htokens H]. apply seq_Ok in H as [Hlimits H].
  apply require_w_Ok in Hscheme, Hauth, Hversion, Htokens, Hlimits. rewrite negb_true_iff in Hscheme, Hversion, Htokens, Hlimits.
  rewrite !orb_false_iff, !Z.ltb_ge in Hlimits. apply Z.ltb_ge in Htokens. destruct Hlimits as [[Hb He] Hp].
  injection H as <-. cbn [mp_name mp_baseURL mp_authMode mp_tokenSource mp_apiVersion mp_client mp_defaultCapabilities mp_labels
    mp_defaultOutputTokens mp_maxBodyBytes mp_maxEventBytes mp_maxModelPages].
  split_and!; try done.
  - rewrite Hname. unfold bad_name, trimmed, blank. rewrite Hname, String.eqb_refl, orb_false_r. by rewrite Hname in Hne.
  - unfold scheme_allowed. cbn [URL_Scheme]. apply andb_false_iff in Hscheme as [Hs|Hs].
    + apply negb_false_iff, seqb_true in Hs. by left.
    + apply orb_false_iff in Hs as [Hs Hi]. apply negb_false_iff in Hs, Hi. apply seqb_true in Hs. by right.
  - rewrite negb_true_iff, andb_false_iff, !negb_false_iff, !seqb_true in Hauth. rewrite !elem_of_cons. naive_solver.
  - unfold provider_descriptor, cloneLabels in *. rewrite !cloneStringMap_id in *. exact Hv.
Qed.

(** [New] only accepts safe configurations: a clean name, an absolute base URL
    without user information, query or fragment, https unless plain http was
    allowed, a known authentication mode, an API version that fits a header,
    valid defaults, positive limits; and the client of the provider does not
    follow redirects. *)
Theorem message_New_safe config p : message_New config = Ok p → message_safe config p.
Proof. apply message_New_Ok. Qed.

(** A request of the provider: to its host, by its scheme, with its API version,
    and with a clean token in the header of its authentication mode, and only
    there, if it has a credential. *)
Definition message_request_ok (p : MessageProvider) (insecure : bool) (request : HttpRequest) : Prop :=
  goes_to (mp_baseURL p) insecure (Http_URL request) ∧ Http_Header request !! "Anthropic-Version" = Some (mp_apiVersion p) ∧
  match Http_Header request !! "Authorization", Http_Header request !! "X-Api-Key" with
  | Some v, None => mp_tokenSource p ≠ None ∧ mp_authMode p ≠ AuthAPIKey ∧ token_header "Bearer " v
  | None, Some v => mp_tokenSource p ≠ None ∧ mp_authMode p = AuthAPIKey ∧ token_header "" v
  | None, None => mp_tokenSource p = None
  | Some _, Some _ => False
  end.

(** The models of the pages read so far, as they are found. *)
Definition found_ok (p : MessageProvider) (seen : gset string) (found : list ModelDescriptor) : Prop :=
  Forall (λ d, ModelDescriptor_Validate d = Ok tt ∧ ModelRef_Provider (Descriptor_Ref d) = mp_name p ∧
               ModelRef_Model (Descriptor_Ref d) ∈ seen) found ∧
  NoDup ((λ d, ModelRef_Model (Descriptor_Ref d)) <$> found).

Lemma page_models_Ok p models seen found seen' found' :
  page_models p models seen found = Ok (seen', found') → found_ok p seen found →
  found_ok p seen' found' ∧ found' = found ++ (page_descriptor p <$> models).
Proof.
  revert seen found. induction models as [|model models IH]; intros seen found; cbn [page_models].
  { intros [= <- <-] H. by rewrite app_nil_r. }
  destruct (bool_decide _) eqn:Eb; [done|]. apply bool_decide_eq_false in Eb. intros H [Hall Hnd].
  apply seq_Ok in H as [Hv H]. apply wrapf_Ok in Hv. destruct (IH _ _ H) as [Hok ->].
  - split.
    + apply Forall_app. split; [eapply Forall_impl; [exact Hall | set_solver]|]. repeat constructor; [done | set_solver].
    + rewrite fmap_app, NoDup_app. split_and!; [done | | apply NoDup_singleton].
      intros x (d & -> & Hd)%list_elem_of_fmap Hin. apply list_elem_of_singleton in Hin. cbn in Hin.
      eapply Forall_forall in Hd; [|exact Hall]. cbn beta in Hd. destruct Hd as (_ & _ & Hd). rewrite Hin in Hd. done.
  - split; [done|]. by rewrite <-app_assoc.
Qed.

Section requests.
Variables (p : MessageProvider) (insecure : bool).
Hypothesis base_safe : scheme_allowed insecure (mp_baseURL p).
Hypothesis no_redirects : Client_UseLastResponse (mp_client p) = true.

Lemma message_newRequest_triple method path query body l k E :
  (∀ s, http_at l k s → E s) →
  triple (http_at l k) (message_newRequest p method path query body)
    (λ request s, (message_request_ok p insecure request ∧ Http_Method request = method ∧ Http_Body request = body ∧
                   URL_Path (Http_URL request) = strings_TrimSuffix (URL_Path (mp_baseURL p)) "/" +:+ "/" +:+ path) ∧ http_at l k s) E.
Proof.
  intros HE. unfold message_newRequest. eapply triple_bind; [by apply check_context_triple|]. intros [].
  apply triple_lift_bind; [done|]. intros u Hu. apply request_URL_kept in Hu as (Hs & Hh & Hp).
  assert (goes_to (mp_baseURL p) insecure u) as Hgo by (split; [unfold scheme_allowed; rewrite Hs; exact base_safe | exact Hh]).
  cbn zeta. unfold message_request_ok. destruct (mp_tokenSource p) as [source|] eqn:Et.
  - eapply triple_bind; [by apply obtain_token_triple|]. intros token.
    destruct (String.eqb_spec (mp_authMode p) AuthAPIKey) as [Ea|Ea]; intros s [Htok Hat]; unfold mret, lm_ret; cbn [Http_URL Http_Header Http_Method Http_Body];
      (split; [|exact Hat]; split_and!; [done | by rewrite lookup_insert_ne, lookup_insert_eq by done | | done | done | done]).
    + rewrite lookup_insert_eq, !lookup_insert_ne by done. rewrite lookup_empty. split_and!; [done | done|]. by exists token.
    + rewrite lookup_insert_eq, !lookup_insert_ne by done. rewrite lookup_empty. split_and!; [done | done|]. by exists token.
  - intros s Hat. unfold mret, lm_ret. cbn [Http_URL Http_Header Http_Method Http_Body].
    split; [|exact Hat]. rewrite lookup_insert_eq, !lookup_insert_ne by done. by rewrite lookup_empty.
Qed.

(** What at most [n] exchanges leave: good requests were sent, their bodies are
    closed. *)
Abbreviation exchanged := (http_after (message_request_ok p insecure)).

(** A page is one exchange. *)
Lemma get_page_triple after l k :
  triple (http_at l k) (get_page p after)
    (λ _ s, ∃ request, message_request_ok p insecure request ∧ http_at (l ++ [request]) k s) (exchanged 1 l k).
Proof.
  assert (∀ s, http_at l k s → exchanged 1 l k s) as Hat by (intros s; apply http_at_after).
  unfold get_page. eapply triple_bind; [by apply message_newRequest_triple|]. intros request. cbn beta.
  intros s [(Hok & _) Hs]. revert s Hs.
  assert (∀ s, http_at (l ++ [request]) k s → exchanged 1 l k s) as Hone by (intros s; by apply http_at_one).
  apply (triple_bind (http_at l k) _ (λ _, http_at (l ++ [request]) (S k))).
  { eapply triple_conseq; [by apply send_triple | done | done | done]. }
  intros response. cbn zeta. destruct (is_success _); (eapply triple_bind; [apply close_body_triple|]); intros closeErr; [|done].
  apply triple_lift_bind; [done|]. intros page _. destruct closeErr; intros s Hs; [by apply Hone | by exists request].
Qed.

(** The pages are at most [fuel] exchanges. *)
Lemma model_pages_triple fuel after seen cursors found l k :
  found_ok p seen found →
  triple (http_at l k) (model_pages fuel p after seen cursors found)
    (λ ds s, (∃ seen', found_ok p seen' ds) ∧ exchanged fuel l k s) (exchanged fuel l k).
Proof.
  revert after seen cursors found l. induction fuel as [|fuel IH]; intros after seen cursors found l Hfound; cbn [model_pages].
  { intros s Hs. by apply http_at_after. }
  apply (triple_bind (http_at l k) _ (λ _ s, ∃ request, message_request_ok p insecure request ∧ http_at (l ++ [request]) k s)).
  { eapply triple_conseq; [apply get_page_triple | done | done|]. intros s (sent & Hs & Hall & Hlen). exists sent. split_and!; [done | done | lia]. }
  intros page s (request & Hok & Hs). revert s Hs.
  assert (∀ s, http_at (l ++ [request]) k s → exchanged (S fuel) l k s) as Hone by (intros s; apply http_at_one; [done | lia]).
  apply triple_lift_bind; [done|]. intros [seen' found'] Hp. apply page_models_Ok in Hp as [Hfound' _]; [|done].
  destruct (negb _); [intros s Hs; split; [by exists seen' | by apply Hone]|].
  destruct (String.eqb _ _); [done|]. destruct (bool_decide _); [done|].
  eapply triple_conseq; [by apply IH | done | |].
  - intros ds s [Hds Hs]. split; [done|]. by eapply http_after_more.
  - intros s Hs. by eapply http_after_more.
Qed.

Lemma message_Models_triple l k :
  triple (http_at l k) (message_Models p) (λ ds s, (∃ seen, found_ok p seen ds) ∧ exchanged (Z.to_nat (mp_maxModelPages p)) l k s)
    (exchanged (Z.to_nat (mp_maxModelPages p)) l k).
Proof.
  unfold message_Models. eapply triple_bind; [apply check_context_triple; intros s; apply http_at_after|]. intros [].
  apply model_pages_triple. split; constructor.
Qed.

(** A stream was opened for [r]: the translated request was posted, the response
    is being read. *)
Definition message_opened (r : ModelRequest) (l : list HttpRequest) (k : nat) (st : messageStream) (s : HttpState) : Prop :=
  ∃ w body request received,
    message_translateRequest (mp_name p) (mp_defaultOutputTokens p) r = Ok w ∧ marshal_message w = Ok body ∧
    message_request_ok p insecure request ∧ Http_Method request = "POST" ∧ Http_Body request = Some body ∧
    URL_Path (Http_URL request) = strings_TrimSuffix (URL_Path (mp_baseURL p)) "/" +:+ "/messages" ∧
    http_at (l ++ [request]) (S k) s ∧ st = newMessageStream received (mp_maxEventBytes p).

Lemma message_Stream_triple r l k :
  triple (http_at l k) (message_Stream p r) (message_opened r l k) (exchanged 1 l k).
Proof.
  assert (∀ s, http_at l k s → exchanged 1 l k s) as Hat by (intros s; apply http_at_after).
  unfold message_Stream. apply triple_lift_bind; [done|]. intros w Hw. apply triple_lift_bind; [done|]. intros body Hb.
  assert (marshal_message w = Ok body) as Hbody by (by destruct (marshal_message w)).
  eapply triple_bind; [by apply message_newRequest_triple|]. intros request. cbn beta zeta.
  intros s [((Hgo & Hver & Hauth) & Hm & Hbd & Hp) Hs]. revert s Hs.
  set (request' := {| request with Http_Header := <["Accept" := "text/event-stream"]> (<["Content-Type" := "application/json"]> (Http_Header request)) |}).
  assert (message_request_ok p insecure request') as Hok.
  { split_and!; [done | |]; cbn [request' Http_Header]; by rewrite !lookup_insert_ne. }
  apply (triple_bind (http_at l k) _ (λ _, http_at (l ++ [request']) (S k))).
  { eapply triple_conseq; [by apply send_triple | done | done|]. intros s. by apply http_at_one. }
  intros response. destruct (is_success _).
  - intros s Hs. exists w, body, request', (Response_Body response). by split_and!.
  - eapply triple_bind; [apply close_body_triple|]. intros ? s Hs. by apply (http_at_one _ _ _ _ _ request').
Qed.

End requests.

(** A provider that [New] made only talks to its endpoint: listing models sends
    at most the configured number of requests and opening a stream at most one,
    to the configured host, over https unless plain http was allowed, without
    following redirects, and with a credential exactly when a token source is
    configured, which then is a clean token in the header of the authentication
    mode.  Every response body is closed, but that of an opened stream, which
    was posted the translation of the caller's request. *)
Theorem message_provider_exchanges config p l k s :
  message_New config = Ok p → http_at l k s →
  let insecure := MessageConfig_AllowInsecureHTTP config in
  http_after (message_request_ok p insecure) (Z.to_nat (mp_maxModelPages p)) l k (snd (message_Models p s)) ∧
  ∀ r, match message_Stream p r s with
       | (Done st, s') => message_opened p insecure r l k st s'
       | (_, s') => http_after (message_request_ok p insecure) 1 l k s'
       end.
Proof.
  intros Hnew Hs. apply message_New_Ok in Hnew as (_ & _ & Hgo & _ & _ & _ & Hc & _). split.
  - pose proof (message_Models_triple p _ Hgo Hc l k s Hs) as H.
    destruct (message_Models p s) as [[ds|e|v|] s']; [by destruct H | done..].
  - intros r. exact (message_Stream_triple p _ Hgo Hc r l k s Hs).
Qed.

(** What [Models] returns, over all pages, is a catalog [DiscoverModels] accepts
    unchanged: valid descriptors of this provider, no model twice. *)
Theorem message_Models_catalog config p s ds s' :
  message_New config = Ok p → http_at [] 0 s → message_Models p s = (Done ds, s') →
  DiscoverModels background (Some {| Provider_Name := mp_name p; Provider_Models := Ok ds |}) = Ok ds.
Proof.
  intros Hnew Hs Hm. apply message_New_Ok in Hnew as (_ & Hname & Hgo & _ & _ & _ & Hc & _).
  pose proof (message_Models_triple p _ Hgo Hc [] 0 s Hs) as H. rewrite Hm in H. destruct H as [(seen & Hall & Hnd) _].
  unfold DiscoverModels. cbn [Provider_Name Provider_Models background check_ctx]. rewrite Hname. cbn [negb require_w].
  rewrite !seq_Ok. split_and!; [done | done | done|]. apply discover_loop_Ok. split_and!; [done | | done | set_solver].
  eapply Forall_impl; [exact Hall|]. naive_solver.
Qed.

(* ------------------------------------------------------------------ *)
(** ** A catalog of several pages *)

(** The cursor after some pages. *)
Definition cursor_after (pages : list modelPage) : string := default "" (Page_LastID <$> last pages).

(** A server that answers the request for what follows the first pages with the
    next one, a token source and a context that do not fail. *)
Record serves (p : MessageProvider) (pages : list modelPage) : Prop := {
  serves_context : ∀ n, ctx_error n = None;
  serves_token : ∀ source, mp_tokenSource p = Some source → ∀ n, ∃ token, source n = Ok token ∧ bad_token token = false;
  serves_url : ∀ query, ∃ u, request_URL (endpoint (mp_baseURL p) "models" query) = Ok u ∧ URL_RawQuery u = query;
  serves_page : ∀ before page after n request, pages = before ++ page :: after →
    URL_RawQuery (Http_URL request) = page_query (cursor_after before) →
    ∃ response, Client_RoundTrip (mp_client p) n request = Ok response ∧ is_success (Response_StatusCode response) = true ∧
      Response_Close response = None ∧ decodeBoundedJSON decode_model_page (Response_Body response) (mp_maxBodyBytes p) = Ok page;
}.

(** Pages linked by cursors: all but the last say that there is more, after a
    cursor of their own. *)
Definition linked (pages : list modelPage) : Prop :=
  ∃ front end_page, pages = front ++ [end_page] ∧ Page_HasMore end_page = false ∧
    Forall (λ page, Page_HasMore page = true ∧ Page_LastID page ≠ "") front ∧ NoDup (Page_LastID <$> front).

Lemma get_page_serves p before page after s :
  Client_UseLastResponse (mp_client p) = true → serves p (before ++ page :: after) →
  ∃ s', get_page p (cursor_after before) s = (Done page, s').
Proof.
  intros Hc [Hctx Htok Hurl Hpage]. unfold get_page, message_newRequest, check_context, observe, mbind, lm_bind, lm_get, lm_modify, mret, lm_ret.
  rewrite Hctx. destruct (Hurl (page_query (cursor_after before))) as (u & Hu & Hq). rewrite Hu. cbn [lm_lift]. unfold mret, lm_ret.
  assert (∀ request s1, Http_URL request = u → ∃ s', (response ← send (mp_client p) request;
     if is_success (Response_StatusCode response) then
       let decoded := decodeBoundedJSON decode_model_page (Response_Body response) (mp_maxBodyBytes p) in
       closeErr ← close_body response; page ← lm_lift (wrapf "model discovery response" decoded);
       match closeErr with Some e => lm_fail e | None => mret page end
     else close_body response ;; lm_fail (HTTPError (Response_StatusCode response))) s1 = (Done page, s')) as Hsend.
  { intros request s1 Hreq. unfold send, attempt, client_Do, observe, mbind, lm_bind, lm_get, lm_modify, mret, lm_ret. rewrite Hc. cbn [snd fst].
    destruct (Hpage before page after (http_tick s1) request eq_refl) as (response & -> & Hok & Hclose & Hdec); [by rewrite Hreq|].
    rewrite Hok, Hdec. unfold close_body, mbind, lm_bind, lm_modify, mret, lm_ret. rewrite Hclose. cbn. by eexists. }
  destruct (mp_tokenSource p) as [source|] eqn:Et; [|by apply Hsend].
  unfold obtain_token, observe, mbind, lm_bind, lm_get, lm_modify, mret, lm_ret. cbn [http_tick].
  destruct (Htok source eq_refl (S (http_tick s))) as (token & -> & Hb). rewrite Hb. unfold mret, lm_ret.
  destruct (String.eqb _ _); by apply Hsend.
Qed.

Lemma page_models_found p models seen found :
  Forall (λ m, ModelDescriptor_Validate (page_descriptor p m) = Ok tt) models → NoDup (Page_ID <$> models) →
  (∀ m, m ∈ models → Page_ID m ∉ seen) →
  page_models p models seen found = Ok (list_to_set (Page_ID <$> models) ∪ seen, found ++ (page_descriptor p <$> models)).
Proof.
  revert seen found. induction models as [|m models IH]; intros seen found Hv Hnd Hfresh; cbn [page_models fmap list_fmap list_to_set].
  { rewrite app_nil_r. f_equal. f_equal. set_solver. }
  inversion Hv as [|? ? Hm Hv']; subst. cbn in Hnd. apply NoDup_cons in Hnd as [Hnew Hnd].
  rewrite bool_decide_eq_false_2 by (apply Hfresh; set_solver). unfold wrapf. cbn zeta. rewrite Hm.
  change (Ok tt ≫= λ _ : unit, ?f) with f. rewrite IH; [|done | done|].
  - f_equal. f_equal; [set_solver | by rewrite <-app_assoc].
  - intros m' Hin. rewrite not_elem_of_union, not_elem_of_singleton. split; [|apply Hfresh; set_solver].
    intros E. apply Hnew. rewrite <-E. by apply list_elem_of_fmap_2.
Qed.

Lemma model_pages_serves p pages rest before seen cursors found fuel s :
  Client_UseLastResponse (mp_client p) = true → serves p pages → pages = before ++ rest → linked rest →
  Forall (λ m, ModelDescriptor_Validate (page_descriptor p m) = Ok tt) (rest ≫= Page_Data) →
  NoDup (Page_ID <$> (rest ≫= Page_Data)) → (∀ m, m ∈ rest ≫= Page_Data → Page_ID m ∉ seen) →
  (∀ page, page ∈ rest → Page_HasMore page = true → Page_LastID page ∉ cursors) → (length rest <= fuel)%nat →
  ∃ s', model_pages fuel p (cursor_after before) seen cursors found s = (Done (found ++ (page_descriptor p <$> (rest ≫= Page_Data))), s').
Proof.
  intros Hc Hserves. revert before seen cursors found fuel s.
  induction rest as [|page rest IH]; intros before seen cursors found fuel s -> (front & end_page & Hrest & Hend & Hall & Hcur) Hv Hnd Hfresh Hloop Hfuel.
  { by destruct front. }
  destruct fuel as [|fuel]; [cbn in Hfuel; lia|]. cbn [model_pages].
  destruct (get_page_serves p before page rest s Hc Hserves) as (s1 & Hget). unfold mbind at 1, lm_bind at 1. rewrite Hget.
  rewrite bind_cons, Forall_app in Hv. rewrite bind_cons, fmap_app, NoDup_app in Hnd. destruct Hv as [Hv1 Hv2], Hnd as (Hnd1 & Hnd2 & Hnd3).
  rewrite page_models_found; [|done | done | intros m Hm; apply Hfresh; set_solver]. cbn [lm_lift].
  unfold mbind at 1, lm_bind at 1, mret at 1, lm_ret at 1. rewrite bind_cons, fmap_app, app_assoc.
  destruct front as [|page' front]; injection Hrest as <- ->.
  { rewrite Hend. cbn [negb]. eexists. cbn [mbind list_bind fmap list_fmap]. rewrite app_nil_r. reflexivity. }
  inversion Hall as [|? ? [Hmore Hid] Hall']; subst. cbn in Hcur. apply NoDup_cons in Hcur as [Hnew Hcur].
  rewrite Hmore. cbn [negb]. rewrite (proj2 (String.eqb_neq _ _) Hid).
  rewrite bool_decide_eq_false_2 by (apply Hloop; [set_solver | done]).
  assert (cursor_after (before ++ [page]) = Page_LastID page) as Ecursor by (unfold cursor_after; by rewrite last_snoc).
  pose proof (IH (before ++ [page])) as IH'. rewrite Ecursor in IH'. apply IH'; [by rewrite <-app_assoc | by exists front, end_page | done | done | | | cbn in Hfuel; lia].
  - intros m Hm. rewrite not_elem_of_union. split; [|apply Hfresh; set_solver].
    rewrite elem_of_list_to_set. intros Hin. apply (Hnd2 _ Hin). by apply list_elem_of_fmap_2.
  - intros page' Hin Hm'. rewrite not_elem_of_union, not_elem_of_singleton. split; [|apply Hloop; [set_solver | done]].
    intros E. apply Hnew. rewrite <-E. apply elem_of_app in Hin as [Hin|Hin]; [by apply list_elem_of_fmap_2|].
    apply list_elem_of_singleton in Hin. congruence.
Qed.

(** Listing models of a server that answers reads all its pages: with the pages
    linked by distinct cursors, no model listed twice, valid descriptors and no
    more pages than the limit, [Models] returns the models of all pages, in
    order, each with its own token limits over the defaults. *)
Theorem message_Models_pages config p pages s :
  message_New config = Ok p → serves p pages → linked pages → Z.of_nat (length pages) <= mp_maxModelPages p →
  Forall (λ m, ModelDescriptor_Validate (page_descriptor p m) = Ok tt) (pages ≫= Page_Data) → NoDup (Page_ID <$> (pages ≫= Page_Data)) →
  fst (message_Models p s) = Done (page_descriptor p <$> (pages ≫= Page_Data)).
Proof.
  intros Hnew Hserves Hlinked Hlen Hv Hnd. apply message_New_Ok in Hnew as (_ & _ & _ & _ & _ & _ & Hc & _).
  unfold message_Models, check_context, observe, mbind, lm_bind, lm_get, lm_modify, mret, lm_ret. rewrite (serves_context _ _ Hserves).
  set (s0 := {| http_tick := _ |}).
  edestruct (model_pages_serves p pages pages [] ∅ ∅ [] (Z.to_nat (mp_maxModelPages p)) s0) as (s' & Hs'); try done; [lia|].
  change (cursor_after []) with "" in Hs'. unfold mret, lm_ret. by rewrite Hs'.
Qed.

End message_guarantees.
