(* ===== verification/ProviderExample.v ===== *)
(** * The providers on a small server

    Witnesses of the guarantees of the two providers: a configuration with a
    token, an endpoint that lists models, on two pages for the Anthropic API,
    and opens streams. *)

From Stdlib Require Import ZArith Lia.
From S2P Require Import Prelude Effects GoNum GoText Domain Model Stream Sse SseFrames ChatStream ChatStreamSpec MessageStream ChatTranslate MessageTranslate Http ChatProvider MessageProvider.

Definition example_URL (path query : string) : URL :=
  {| URL_Scheme := "https"; URL_Opaque := ""; URL_User := false; URL_Host := "api.example.com"; URL_Path := path;
     URL_RawPath := ""; URL_RawQuery := query; URL_Fragment := "" |}.

(** The answers, by query. *)
Definition example_answer (request : HttpRequest) : bytes :=
  if URL_RawQuery (Http_URL request) =s "after_id=b&limit=1000" then "second" else "first".

Definition example_body (data : bytes) : Body := {| body_bytes := data; body_error := None; body_end_with_data := true |}.

Definition example_client : HttpClient :=
  {| Client_UseLastResponse := false;
     Client_RoundTrip := fun _ request =>
       Ok {| Response_StatusCode := 200; Response_Body := example_body (example_answer request); Response_Close := None |} |}.

#[local] Instance example_http : HttpEnv :=
  {| ctx_error := fun _ => None;
     url_Parse := fun text => if text =s "https://api.example.com/v1/" then Ok (example_URL "/v1/" "") else Err (errors_New "parse");
     request_URL := fun u => Ok {| u with URL_Host := removeEmptyPort (URL_Host u) |};
     default_client := example_client;
     follow_redirects := fun client n request => ([request], Client_RoundTrip client n request) |}.

#[local] Instance example_http_laws : HttpLaws.
Proof. split. by intros u u' [= <-]. Defined.

Definition example_page (ids : list string) (more : bool) (last : string) : modelPage :=
  {| Page_Data := (λ id, {| Page_ID := id; Page_MaxInputTokens := Some 1000; Page_MaxTokens := None |}) <$> ids;
     Page_HasMore := more; Page_LastID := last |}.

Definition example_pages : list modelPage := [example_page ["a"; "b"] true "b"; example_page ["c"] false "c"].

#[local] Instance example_chat_json : ChatJson :=
  {| decode_model_ids := fun data => if data =s "first" then Ok (["a"; "b"], true) else Err (errors_New "decode");
     marshal_chat := fun _ => Ok "{}" |}.

#[local] Instance example_message_json : MessageJson :=
  {| decode_model_page := fun data =>
       if data =s "first" then Ok (example_page ["a"; "b"] true "b", true)
       else if data =s "second" then Ok (example_page ["c"] false "c", true)
       else Err (errors_New "decode");
     marshal_message := fun _ => Ok "{}" |}.

Definition example_source (n : nat) : result string := Ok "token".

Definition example_chat_config : ChatConfig :=
  {| ChatConfig_Name := "hosted"; ChatConfig_BaseURL := "https://api.example.com/v1/"; ChatConfig_AllowInsecureHTTP := false;
     ChatConfig_TokenSource := Some example_source; ChatConfig_HTTPClient := None; ChatConfig_DefaultCapabilities := example_capabilities;
     ChatConfig_Labels := None; ChatConfig_TokenLimitField := ""; ChatConfig_MaxBodyBytes := 64; ChatConfig_MaxEventBytes := 64 |}.

Definition example_message_config : MessageConfig :=
  {| MessageConfig_Name := "anthropic"; MessageConfig_BaseURL := "https://api.example.com/v1/"; MessageConfig_AllowInsecureHTTP := false;
     MessageConfig_AuthMode := AuthAPIKey; MessageConfig_TokenSource := Some example_source; MessageConfig_APIVersion := "";
     MessageConfig_HTTPClient := None; MessageConfig_DefaultCapabilities := example_capabilities; MessageConfig_Labels := None;
     MessageConfig_DefaultOutputTokens := 0; MessageConfig_MaxBodyBytes := 64; MessageConfig_MaxEventBytes := 64;
     MessageConfig_MaxModelPages := 4 |}.

Definition example_chat_provider : ChatProvider :=
  {| cp_name := "hosted"; cp_baseURL := example_URL "/v1" ""; cp_tokenSource := Some example_source;
     cp_client := without_redirects None; cp_defaultCapabilities := example_capabilities; cp_labels := None;
     cp_tokenLimitField := TokenLimitMaxTokens; cp_maxBodyBytes := 64; cp_maxEventBytes := 64 |}.

Definition example_message_provider : MessageProvider :=
  {| mp_name := "anthropic"; mp_baseURL := example_URL "/v1" ""; mp_authMode := AuthAPIKey; mp_tokenSource := Some example_source;
     mp_apiVersion := message_defaultAPIVersion; mp_client := without_redirects None; mp_defaultCapabilities := example_capabilities;
     mp_labels := None; mp_defaultOutputTokens := message_defaultOutputTokens; mp_maxBodyBytes := 64;
     mp_maxEventBytes := 64; mp_maxModelPages := 4 |}.

Lemma example_chat_New : chat_New example_chat_config = Ok example_chat_provider.
Proof. by vm_compute. Qed.

Lemma example_message_New : message_New example_message_config = Ok example_message_provider.
Proof. by vm_compute. Qed.

Example decodeBoundedJSON_spec_witness :
  decodeBoundedJSON decode_model_ids (example_body "first") 5 = Ok ["a"; "b"] ↔
  5 <= 5 ∧ None = @None error ∧ decode_model_ids "first" = Ok (["a"; "b"], true).
Proof. apply (decodeBoundedJSON_spec decode_model_ids (example_body "first") 5 ["a"; "b"]). by vm_compute. Defined.

Example chat_New_safe_witness : Client_UseLastResponse (cp_client example_chat_provider) = true ∧ 1 <= cp_maxBodyBytes example_chat_provider.
Proof. pose proof (chat_New_safe example_chat_config example_chat_provider example_chat_New) as H. split; apply H. Defined.

Example message_New_safe_witness : message_safe example_message_config example_message_provider.
Proof. exact (message_New_safe example_message_config example_message_provider example_message_New). Defined.

Example chat_provider_exchanges_witness :
  http_after (chat_request_ok example_chat_provider false) 1 [] 0 (snd (chat_Models example_chat_provider fresh_http)).
Proof. by apply (chat_provider_exchanges example_chat_config example_chat_provider [] 0 fresh_http example_chat_New). Defined.

Example message_provider_exchanges_witness :
  http_after (message_request_ok example_message_provider false) 4 [] 0 (snd (message_Models example_message_provider fresh_http)).
Proof. by apply (message_provider_exchanges example_message_config example_message_provider [] 0 fresh_http example_message_New). Defined.

Example chat_Models_catalog_witness :
  DiscoverModels background (Some {| Provider_Name := "hosted";
    Provider_Models := Ok ((λ id, provider_descriptor "hosted" id example_capabilities None) <$> ["a"; "b"]) |})
  = Ok ((λ id, provider_descriptor "hosted" id example_capabilities None) <$> ["a"; "b"]).
Proof.
  exact (chat_Models_catalog example_chat_config example_chat_provider fresh_http _ (snd (chat_Models example_chat_provider fresh_http))
           example_chat_New eq_refl).
Defined.

Definition example_catalog : list ModelDescriptor := page_descriptor example_message_provider <$> (example_pages ≫= Page_Data).

(** What listing the models leaves. *)
Definition example_listed : HttpState := Eval vm_compute in snd (message_Models example_message_provider fresh_http).

Lemma example_message_models : message_Models example_message_provider fresh_http = (Done example_catalog, example_listed).
Proof. by vm_compute. Qed.

Example message_Models_catalog_witness :
  DiscoverModels background (Some {| Provider_Name := "anthropic"; Provider_Models := Ok example_catalog |}) = Ok example_catalog.
Proof.
  exact (message_Models_catalog example_message_config example_message_provider fresh_http example_catalog example_listed
           example_message_New (conj eq_refl eq_refl) example_message_models).
Defined.

Lemma example_serves : serves example_message_provider example_pages.
Proof.
  split.
  - done.
  - intros source [= <-] n. by exists "token".
  - intros query. by eexists.
  - intros [|page1 [|page2 [|? ?]]] page after n request [=]; subst; intros Hq; eexists; (split_and!; [reflexivity | done | done|]).
    + unfold example_answer. rewrite Hq. by vm_compute.
    + unfold example_answer. rewrite Hq. by vm_compute.
Qed.

Lemma example_linked : linked example_pages.
Proof.
  exists [example_page ["a"; "b"] true "b"], (example_page ["c"] false "c"). split_and!; [done | done | by repeat constructor|].
  apply NoDup_singleton.
Qed.

Example message_Models_pages_witness : fst (message_Models example_message_provider fresh_http) = Done example_catalog.
Proof.
  apply (message_Models_pages example_message_config example_message_provider example_pages fresh_http example_message_New
           example_serves example_linked); [by vm_compute | by repeat constructor | apply (bool_decide_unpack _); by vm_compute].
Defined.
