(* ===== verification/Sqlite.v ===== *)
(** * The SQLite event store: src/store/sqlite/store.go

    The tables of the schema, the statements the store runs on them, and the
    operations of the store.

    SQLite itself is outside: [sql_fault] says which of the calls to the driver
    fails and how, at any time, so a theorem for every [SqlEnv] covers lock
    exhaustion, cancellation, full disks and lost connections at every point.  A
    statement that succeeds has its SQL meaning on the tables, constraints
    included.  A transaction is immediate (the DSN says _txlock=immediate): it
    holds the write lock from its begin to its end, so it is one step of the
    database, and one that fails, its commit included, is rolled back.

    [json.Marshal] and the strict decoding of a projection are the interface
    [ProjectionCodec]. *)

From Stdlib Require Import ZArith Lia.
From S2P Require Import Prelude GoNum GoText GoJson GoHash Ident Domain Event Store Model Policy Routing LoopTypes Execution Projection.

(* ------------------------------------------------------------------ *)
(** ** The schema *)

Abbreviation AggregateKey := (string * string)%type (only parsing).

Definition aggregate_key (ref : AggregateRef) : AggregateKey := (Ref_Type ref, ID_String (Ref_ID ref)).

Record EventRow : Type := {
  Row_event_id : string;
  Row_event_type : string;
  Row_schema_version : Z;
  Row_causation_id : string;
  Row_correlation_id : string;
  Row_attempt_id : string;
  Row_occurred_at_ns : Z;
  Row_payload : bytes;
  Row_payload_sha256 : string;
}.

Record ProjectionRow : Type := { Row_sequence : Z; Row_document : bytes; Row_document_sha256 : string }.

(** The three tables.  The rows of an aggregate's events are in the order of the
    primary key; [event_ids] is the index of the unique column. *)
Record Tables : Type := {
  aggregate_versions : gmap AggregateKey Z;
  events : gmap AggregateKey (list (Z * EventRow));
  event_ids : gset string;
  workload_projections : gmap AggregateKey ProjectionRow;
}.

Definition empty_tables : Tables := {| aggregate_versions := ∅; events := ∅; event_ids := ∅; workload_projections := ∅ |}.

(** A database file: its user_version and, once installed, its tables. *)
Record Database : Type := { user_version : Z; installed : option Tables }.

Definition currentSchemaVersion : Z := 1.

Definition ErrFutureSchema : error := Sentinel "sqlite store schema is newer than this build".
Definition ErrCorruptStore : error := Sentinel "sqlite store is corrupt".
Definition sql_ErrNoRows : error := Sentinel "sql: no rows in result set".
Definition context_DeadlineExceeded : error := Sentinel "context deadline exceeded".
Definition constraint_failed : error := errors_New "constraint failed".

(* ------------------------------------------------------------------ *)
(** ** Statements *)

(** [INSERT INTO aggregate_versions ... VALUES (?, ?, 0) ON CONFLICT DO NOTHING] *)
Definition insert_version (key : AggregateKey) (t : Tables) : Tables :=
  match aggregate_versions t !! key with
  | Some _ => t
  | None => {| t with aggregate_versions := <[key := 0]> (aggregate_versions t) |}
  end.

(** [UPDATE aggregate_versions SET version = version + ? WHERE ... AND version = ?]:
    the number of rows. *)
Definition claim_version (key : AggregateKey) (n expected : Z) (t : Tables) : result (Z * Tables) :=
  match aggregate_versions t !! key with
  | Some version =>
      if version =? expected
      then if version + n <? 0 then Err constraint_failed
           else Ok (1, {| t with aggregate_versions := <[key := version + n]> (aggregate_versions t) |})
      else Ok (0, t)
  | None => Ok (0, t)
  end.

Fixpoint insert_row (sequence : Z) (row : EventRow) (rows : list (Z * EventRow)) : list (Z * EventRow) :=
  match rows with
  | [] => [(sequence, row)]
  | r :: rows' => if sequence <? fst r then (sequence, row) :: rows else r :: insert_row sequence row rows'
  end.

Definition rows_of (t : Tables) (key : AggregateKey) : list (Z * EventRow) := default [] (events t !! key).

(** [INSERT INTO events ...] with the constraints of the table. *)
Definition insert_event (key : AggregateKey) (sequence : Z) (row : EventRow) (t : Tables) : result (unit * Tables) :=
  if negb (0 <? sequence) || negb (0 <? Row_schema_version row) then Err constraint_failed
  else if bool_decide (sequence ∈ (rows_of t key).*1) then Err constraint_failed
  else if bool_decide (Row_event_id row ∈ event_ids t) then Err constraint_failed
  else if negb (is_some (aggregate_versions t !! key)) then Err constraint_failed
  else Ok (tt, {| t with events := <[key := insert_row sequence row (rows_of t key)]> (events t);
                         event_ids := {[ Row_event_id row ]} ∪ event_ids t |}).

(** [INSERT INTO workload_projections ... ON CONFLICT DO UPDATE SET ...] *)
Definition upsert_projection (key : AggregateKey) (row : ProjectionRow) (t : Tables) : result (unit * Tables) :=
  if negb (0 <? Row_sequence row) || negb (is_some (aggregate_versions t !! key)) then Err constraint_failed
  else Ok (tt, {| t with workload_projections := <[key := row]> (workload_projections t) |}).

(** [SELECT ... FROM events WHERE ... AND sequence > ? ORDER BY sequence ASC] *)
Definition select_events (key : AggregateKey) (after : Z) (t : Tables) : list (Z * EventRow) :=
  filter (λ r, after < fst r) (rows_of t key).

(* ------------------------------------------------------------------ *)
(** ** The driver *)

Class SqlEnv := {
  (** What the n-th call to the driver or the file system returns instead of
      doing its work. *)
  sql_fault : nat → option error;
  (** The connection of the pool a call gets. *)
  sql_connection : nat → nat;
  filepath_Abs : string → result string;
  pragma_journal_mode : nat → string;
  pragma_foreign_keys : nat → Z;
}.

Inductive Trailing : Type :=
| TrailEOF
| TrailValue
| TrailError (e : error).

(** A projection as a JSON document: [json.Marshal], and what the two calls of
    [Decode] find. *)
Class ProjectionCodec := {
  marshal_projection : WorkloadProjection → result bytes;
  decode_projection : bytes → result (WorkloadProjection * Trailing);
}.

(** A context: the i-th look at its error in an operation, and its deadline. *)
Record Context : Type := { ctx_Err : nat → option error; ctx_Deadline : option Z }.

(** The file of the store's path, the opened store with its busy timeout, the
    busy timeouts of the connections, the process and the calls so far. *)
Record SqlState : Type := {
  sql_file : option Database;
  sql_store : option Z;
  sql_busy : gmap nat Z;
  sql_world : World;
  sql_calls : nat;
}.

Section driver.
Context `{Henv : SqlEnv}.
Abbreviation SM := (ST SqlState) (only parsing).

(** The number of this call and whether it fails. *)
Definition sql_call : SM nat :=
  s ← st_get;
  st_modify (fun s => {| s with sql_calls := S (sql_calls s) |}) ;;
  st_lift match sql_fault (sql_calls s) with Some e => Err e | None => Ok (sql_calls s) end.

(** A call that works on the database file. *)
Definition on_database {A} (f : Database → result (A * Database)) : SM A :=
  sql_call ;;
  s ← st_get;
  match sql_file s with
  | None => st_fail (errors_New "unable to open database file")
  | Some d =>
      match f d with
      | Err e => st_fail e
      | Ok (a, d') => st_modify (fun s => {| s with sql_file := Some d' |}) ;; mret a
      end
  end.

(** A statement on the tables. *)
Definition statement {A} (f : Tables → result (A * Tables)) : SM A :=
  on_database (fun d =>
    match installed d with
    | None => Err (errors_New "no such table")
    | Some t => '(a, t') ← f t; Ok (a, {| d with installed := Some t' |})
    end).

Definition query {A} (f : Tables → A) : SM A := statement (fun t => Ok (f t, t)).

(** [QueryRow(...).Scan(...)] *)
Definition query_row {A} (f : Tables → option A) : SM A :=
  statement (fun t => match f t with Some a => Ok (a, t) | None => Err sql_ErrNoRows end).

Definition sql_begin : SM unit := sql_call ;; mret tt.
Definition sql_commit : SM unit := sql_call ;; mret tt.

(** [defer tx.Rollback()]: of a transaction that fails nothing remains. *)
Definition transaction {A} (body : SM A) : SM A := fun s =>
  match body s with
  | (Ok a, s') => (Ok a, s')
  | (Err e, s') => (Err e, {| s' with sql_file := sql_file s |})
  end.

(** [defer f()] *)
Definition deferred {A} (f : SqlState → SqlState) (m : SM A) : SM A := fun s => let '(r, s') := m s in (r, f s').

(** [fmt.Errorf("...: %w", err)] around a call. *)
Definition wrap_st {A} (text : string) (m : SM A) : SM A := fun s => let '(r, s') := m s in (wrapf text r, s').

(** [err := m()], to look at the error. *)
Definition st_try {A} (m : SM A) : SM (result A) := fun s => let '(r, s') := m s in (Ok r, s').

(** An action of the process: its clock and entropy. *)
Definition on_world {A} (m : ST World A) : SM A := fun s =>
  let '(r, w) := m (sql_world s) in (r, {| s with sql_world := w |}).

Definition sql_now : SM Z := on_world time_Now.

(** [ready] and the store's busy timeout. *)
Definition ready : SM Z :=
  s ← st_get;
  match sql_store s with Some busyMillis => mret busyMillis | None => st_fail (errors_New "SQLite store is nil") end.

(** [mapContextError]: the second look at the context. *)
Definition mapContextError (ctx : Context) (err : error) : SM error :=
  match ctx_Err ctx 1%nat with
  | Some e => mret e
  | None =>
      match ctx_Deadline ctx with
      | None => mret err
      | Some deadline =>
          now ← sql_now;
          mret (if negb (now <? deadline) then context_DeadlineExceeded else err)
      end
  end.

Definition map_context {A} (ctx : Context) (m : SM A) : SM A :=
  r ← st_try m;
  match r with
  | Ok a => mret a
  | Err e => err ← mapContextError ctx e; st_fail err
  end.

(** [s.db.Conn(ctx)] *)
Definition sql_Conn : SM nat := n ← sql_call; mret (sql_connection n).

(** [PRAGMA busy_timeout = ?] on a connection. *)
Definition set_busy_timeout (connection : nat) (millis : Z) : SM unit :=
  sql_call ;;
  st_modify (fun s => {| s with sql_busy := <[connection := millis]> (sql_busy s) |}).

(** The time to wait for a lock: that of the store, or what is left until the
    deadline, rounded up. *)
Definition operation_millis (busyMillis remaining : Z) : Z :=
  let deadlineMillis := quot64 (sub64 (add64 remaining (10 ^ 6)) 1) (10 ^ 6) in
  if deadlineMillis <? busyMillis then deadlineMillis else busyMillis.

(** [boundBusyTimeout]: whether there is something to restore. *)
Definition boundBusyTimeout (ctx : Context) (busyMillis : Z) (connection : nat) : SM bool :=
  operationMillis ← match ctx_Deadline ctx with
                    | None => mret busyMillis
                    | Some deadline =>
                        now ← sql_now;
                        let remaining := Time_Sub deadline now in
                        if remaining <=? 0 then st_fail context_DeadlineExceeded
                        else mret (operation_millis busyMillis remaining)
                    end;
  if operationMillis =? busyMillis then mret false
  else
    map_context ctx (wrap_st "bound SQLite busy timeout" (set_busy_timeout connection operationMillis)) ;;
    mret true.

(** The function it returns, called at the end; its errors are dropped. *)
Definition restoreBusyTimeout (bounded : bool) (busyMillis : Z) (connection : nat) (s : SqlState) : SqlState :=
  if bounded then snd (set_busy_timeout connection busyMillis s) else s.

End driver.

(* ------------------------------------------------------------------ *)
(** ** Rows and events *)

Definition Time_UnixNano (t : Z) : Z := wrap64 (t - unix_epoch).
Definition time_Unix_ns (ns : Z) : Z := unix_epoch + ns.

Definition sha256Hex (value : bytes) : string := sha256_hex value.

Definition parseOptionalID (value : string) : result ID := if value =s "" then Ok "" else ParseID value.

(** The columns of an event, as [insertEvent] binds them. *)
Definition event_row (e : Event) : EventRow :=
  {| Row_event_id := ID_String (Event_ID e);
     Row_event_type := Event_Type e;
     Row_schema_version := Event_SchemaVersion e;
     Row_causation_id := ID_String (Event_CausationID e);
     Row_correlation_id := ID_String (Event_CorrelationID e);
     Row_attempt_id := ID_String (Event_AttemptID e);
     Row_occurred_at_ns := Time_UnixNano (Event_OccurredAt e);
     Row_payload := Event_Payload e;
     Row_payload_sha256 := Event_PayloadSHA256 e |}.

(** [scanEvent], after [Scan]. *)
Definition decode_row (aggregate : AggregateRef) (r : Z * EventRow) : result Event :=
  let '(sequence, row) := r in
  if (sequence <? 1) || (Row_schema_version row <? 1) || (max_uint32 <? Row_schema_version row)
  then Err (Errorf "invalid event sequence or schema version" [ErrCorruptStore])
  else
    let corrupt {A} (text : string) (r : result A) : result A :=
      match r with Ok a => Ok a | Err _ => Err (Errorf text [ErrCorruptStore]) end in
    parsedEventID ← corrupt "event ID" (ParseID (Row_event_id row));
    parsedCausationID ← corrupt "causation ID" (parseOptionalID (Row_causation_id row));
    parsedCorrelationID ← corrupt "correlation ID" (parseOptionalID (Row_correlation_id row));
    parsedAttemptID ← corrupt "attempt ID" (parseOptionalID (Row_attempt_id row));
    let event :=
      {| Event_ID := parsedEventID;
         Event_Aggregate := aggregate;
         Event_Sequence := wrapu64 sequence;
         Event_Type := Row_event_type row;
         Event_SchemaVersion := Row_schema_version row;
         Event_CausationID := parsedCausationID;
         Event_CorrelationID := parsedCorrelationID;
         Event_AttemptID := parsedAttemptID;
         Event_OccurredAt := Time_UTC (time_Unix_ns (Row_occurred_at_ns row));
         Event_Payload := Row_payload row;
         Event_PayloadSHA256 := Row_payload_sha256 row |} in
    corrupt "event validation" (Event_Validate event) ;;
    Ok event.

(** The copies [Append] and [Load] return; payloads are values here. *)
Definition sqlite_cloneEvents (events : list Event) : list Event := events.

Definition clone_step (step : Step) : Step := step.
Definition cloneProjection (source : WorkloadProjection) : WorkloadProjection :=
  {| source with Projection_Steps := clone_step <$> Projection_Steps source |}.

(* ------------------------------------------------------------------ *)
(** ** The operations *)

Section operations.
Context `{Henv : SqlEnv, Hcodec : ProjectionCodec, Hquote : Quoting, Hpayload : PayloadDecoder}.
Abbreviation SM := (ST SqlState) (only parsing).

Definition insertEvent (event : Event) : SM unit :=
  wrap_st "insert event" (statement (insert_event (aggregate_key (Event_Aggregate event)) (Event_Sequence event) (event_row event))).

Definition aggregateVersion (aggregate : AggregateRef) : SM Z :=
  version ← wrap_st "read aggregate version" (query_row (fun t => aggregate_versions t !! aggregate_key aggregate));
  if version <? 0 then st_fail (Errorf "negative aggregate version" [ErrCorruptStore]) else mret version.

Definition decodeStrict (document : bytes) : result WorkloadProjection :=
  '(projection, trailing) ← decode_projection document;
  match trailing with
  | TrailEOF => Ok projection
  | TrailValue => Err (errors_New "multiple JSON values")
  | TrailError e => Err e
  end.

(** The strict decoding of a stored projection: its errors are corruption. *)
Definition decode_stored (document : bytes) : result WorkloadProjection :=
  match decodeStrict document with
  | Ok p => Ok p
  | Err _ => Err (Errorf "workload projection" [ErrCorruptStore])
  end.

Definition select_projection (aggregate : AggregateRef) : SM (result ProjectionRow) :=
  st_try (query_row (fun t => workload_projections t !! aggregate_key aggregate)).

Definition loadWorkloadProjectionTx (aggregate : AggregateRef) (expectedSequence : Z) : SM WorkloadProjection :=
  found ← select_projection aggregate;
  match found with
  | Err err =>
      if errors_Is err "sql: no rows in result set"
      then
        st_lift (require_w (expectedSequence =? 0) ErrCorruptStore "workload projection missing") ;;
        st_lift (NewWorkloadProjection aggregate)
      else st_fail (Errorf "load workload projection for update" [err])
  | Ok row =>
      st_lift (require_w (negb ((Row_sequence row <? 1) || negb (wrapu64 (Row_sequence row) =? expectedSequence) ||
                                (sha256Hex (Row_document row) ≠s Row_document_sha256 row)))
                 ErrCorruptStore "workload projection version or digest mismatch") ;;
      projection ← st_lift (decode_stored (Row_document row));
      st_lift (require_w (bool_decide (Projection_Aggregate projection = aggregate) && (Projection_Version projection =? expectedSequence))
                 ErrCorruptStore "workload projection identity mismatch") ;;
      mret projection
  end.

(** The loop over the events of [updateWorkloadProjection]. *)
Fixpoint apply_created (events : list Event) (projection : WorkloadProjection) : result WorkloadProjection :=
  match events with
  | [] => Ok projection
  | event :: events' =>
      match Apply event projection with
      | (Ok _, projection') => apply_created events' projection'
      | (Err err, _) => Err (Errorf "update workload projection" [err])
      end
  end.

Definition updateWorkloadProjection (aggregate : AggregateRef) (expectedSequence : Z) (events : list Event) : SM unit :=
  projection ← loadWorkloadProjectionTx aggregate expectedSequence;
  projection ← st_lift (apply_created events projection);
  document ← st_lift (wrapf "encode workload projection" (marshal_projection projection));
  wrap_st "persist workload projection"
    (statement (upsert_projection (aggregate_key aggregate)
       {| Row_sequence := Projection_Version projection; Row_document := document; Row_document_sha256 := sha256Hex document |})).

(** The loop over the drafts, the i-th with sequence [expected + uint64(i) + 1]. *)
Fixpoint append_drafts (aggregate : AggregateRef) (expectedSequence : Z) (i : nat) (drafts : list EventDraft) : SM (list Event) :=
  match drafts with
  | [] => mret []
  | draft :: drafts' =>
      now ← sql_now;
      event ← wrap_st "materialize draft"
                (on_world (NewEvent aggregate (wrapu64 (expectedSequence + Z.of_nat i + 1)) draft (Time_UTC now)));
      insertEvent event ;;
      rest ← append_drafts aggregate expectedSequence (S i) drafts';
      mret (event :: rest)
  end.

(** The beginning of the transaction of [Append]: the compare-and-swap of the version. *)
Definition claim (aggregate : AggregateRef) (expectedSequence n : Z) : SM unit :=
  let key := aggregate_key aggregate in
  wrap_st "ensure aggregate version" (statement (fun t => Ok (tt, insert_version key t))) ;;
  rowsAffected ← wrap_st "claim aggregate version" (statement (claim_version key n expectedSequence));
  wrap_st "read version claim result" sql_call ;;
  if negb (rowsAffected =? 1)
  then
    actual ← aggregateVersion aggregate;
    st_fail (VersionConflictError aggregate expectedSequence actual)
  else mret tt.

(** The transaction of [Append]. *)
Definition append_transaction (aggregate : AggregateRef) (expectedSequence : Z) (drafts : list EventDraft) : SM (list Event) :=
  claim aggregate expectedSequence (Z.of_nat (length drafts)) ;;
  created ← append_drafts aggregate expectedSequence 0 drafts;
  (if Ref_Type aggregate =s WorkloadAggregateType then updateWorkloadProjection aggregate expectedSequence created else mret tt) ;;
  wrap_st "commit SQLite append" sql_commit ;;
  mret (sqlite_cloneEvents created).

Definition out_of_range (expectedSequence : Z) (drafts : list EventDraft) : bool :=
  (int64_max <? expectedSequence) || (int64_max - expectedSequence <? Z.of_nat (length drafts)).

(** [Append] *)
Definition Sqlite_Append (ctx : Context) (aggregate : AggregateRef) (expectedSequence : Z) (drafts : list EventDraft) : SM (list Event) :=
  st_lift (check_ctx (ctx_Err ctx 0%nat)) ;;
  busyMillis ← ready;
  st_lift (AggregateRef_Validate aggregate) ;;
  st_lift (each (fun draft => wrapf "draft" (EventDraft_Validate draft)) drafts) ;;
  match drafts with
  | [] => mret []
  | _ =>
      st_lift (require (negb (out_of_range expectedSequence drafts)) "event sequence exceeds SQLite integer range") ;;
      connection ← map_context ctx (wrap_st "acquire SQLite append connection" sql_Conn);
      bounded ← boundBusyTimeout ctx busyMillis connection;
      deferred (restoreBusyTimeout bounded busyMillis connection)
        (map_context ctx (wrap_st "begin SQLite append" sql_begin) ;;
         transaction (append_transaction aggregate expectedSequence drafts))
  end.

(** [scanEvent] *)
Definition scanEvent (aggregate : AggregateRef) (r : Z * EventRow) : SM Event :=
  wrap_st "scan SQLite event" sql_call ;;
  st_lift (decode_row aggregate r).

(** The loop of [Load]: each [rows.Next] may fail, which [rows.Err] tells after the
    loop. *)
Fixpoint load_rows (aggregate : AggregateRef) (expected : Z) (rows : list (Z * EventRow)) : SM (list Event) :=
  wrap_st "iterate SQLite events" sql_call ;;
  match rows with
  | [] => mret []
  | r :: rows' =>
      event ← scanEvent aggregate r;
      st_lift (require_w (Event_Sequence event =? expected) ErrCorruptStore "event sequence") ;;
      rest ← load_rows aggregate (wrapu64 (expected + 1)) rows';
      mret (event :: rest)
  end.

(** [Load] *)
Definition Sqlite_Load (ctx : Context) (aggregate : AggregateRef) (afterSequence : Z) : SM (list Event) :=
  st_lift (check_ctx (ctx_Err ctx 0%nat)) ;;
  ready ;;
  st_lift (AggregateRef_Validate aggregate) ;;
  if int64_max <? afterSequence then mret []
  else
    rows ← wrap_st "load SQLite events" (query (select_events (aggregate_key aggregate) afterSequence));
    events ← load_rows aggregate (wrapu64 (afterSequence + 1)) rows;
    mret (sqlite_cloneEvents events).

(** [LoadWorkloadProjection] of the store *)
Definition Sqlite_LoadWorkloadProjection (ctx : Context) (aggregate : AggregateRef) : SM WorkloadProjection :=
  st_lift (check_ctx (ctx_Err ctx 0%nat)) ;;
  ready ;;
  st_lift (AggregateRef_Validate aggregate) ;;
  st_lift (require (Ref_Type aggregate =s WorkloadAggregateType) "workload projection requires aggregate type") ;;
  found ← select_projection aggregate;
  match found with
  | Err err =>
      if errors_Is err "sql: no rows in result set" then st_fail (Errorf "aggregate" [ErrAggregateNotFound])
      else st_fail (Errorf "load SQLite workload projection" [err])
  | Ok row =>
      st_lift (require_w (negb ((Row_sequence row <? 1) || (sha256Hex (Row_document row) ≠s Row_document_sha256 row)))
                 ErrCorruptStore "workload projection integrity check failed") ;;
      projection ← st_lift (decode_stored (Row_document row));
      st_lift (require_w (bool_decide (Projection_Aggregate projection = aggregate) &&
                          (Projection_Version projection =? wrapu64 (Row_sequence row)) &&
                          (Workload_ID (Projection_Workload projection) =s Ref_ID aggregate))
                 ErrCorruptStore "workload projection identity mismatch") ;;
      mret (cloneProjection projection)
  end.

End operations.

(** The store as an [EventStore], for contexts without a deadline. *)
Definition live_context (ctx : nat → option error) : Context := {| ctx_Err := ctx; ctx_Deadline := None |}.

#[global] Instance Sqlite_EventStore `{SqlEnv, ProjectionCodec, Quoting, PayloadDecoder} : EventStore SqlState :=
  {| Append := fun ctx => Sqlite_Append (live_context ctx); Load := fun ctx => Sqlite_Load (live_context ctx) |}.
