(* ===== verification/SqliteSpec.v ===== *)
(** * The SQLite store keeps the contract of event stores

    Rows and events, the invariant of the tables, and what each operation of the
    store does to them, whatever the driver does. *)

From Stdlib Require Import ZArith Lia.
From S2P Require Import Prelude GoNum GoText GoJson GoHash Ident Domain Event Store MemoryStore Model Policy Routing LoopTypes Execution Projection Sqlite.

(* ------------------------------------------------------------------ *)
(** ** Rows and events *)

(** The event a row of an aggregate stands for. *)
Definition row_event (ref : AggregateRef) (r : Z * EventRow) : Event :=
  {| Event_ID := Row_event_id (snd r);
     Event_Aggregate := ref;
     Event_Sequence := wrapu64 (fst r);
     Event_Type := Row_event_type (snd r);
     Event_SchemaVersion := Row_schema_version (snd r);
     Event_CausationID := Row_causation_id (snd r);
     Event_CorrelationID := Row_correlation_id (snd r);
     Event_AttemptID := Row_attempt_id (snd r);
     Event_OccurredAt := time_Unix_ns (Row_occurred_at_ns (snd r));
     Event_Payload := Row_payload (snd r);
     Event_PayloadSHA256 := Row_payload_sha256 (snd r) |}.

(** An event that fits the columns: a uint32 schema version, a sequence and a time
    of 64 bits. *)
Definition storable (e : Event) : Prop :=
  1 <= Event_Sequence e <= int64_max ∧ 0 <= Event_SchemaVersion e <= max_uint32 ∧ is_int64 (Event_OccurredAt e - unix_epoch).

Lemma parseOptionalID_Ok value id : parseOptionalID value = Ok id ↔ id = value ∧ (value = "" ∨ ID_Validate value = Ok tt).
Proof.
  unfold parseOptionalID. destruct (String.eqb_spec value "") as [->|Hne].
  { split; [intros [= <-]; auto | by intros [-> _]]. }
  rewrite ID_Validate_Ok. split.
  - intros H. pose proof (ParseID_same _ _ H) as ->. auto.
  - intros (-> & [?|?]); done.
Qed.

Lemma EventDraft_Validate_parts d :
  EventDraft_Validate d = Ok tt →
  Draft_SchemaVersion d ≠ 0 ∧ (Draft_CausationID d = "" ∨ ID_Validate (Draft_CausationID d) = Ok tt) ∧
  (Draft_CorrelationID d = "" ∨ ID_Validate (Draft_CorrelationID d) = Ok tt) ∧
  (Draft_AttemptID d = "" ∨ ID_Validate (Draft_AttemptID d) = Ok tt).
Proof.
  unfold EventDraft_Validate, EventDraft_Validate_in. rewrite !seq_Ok, each_Ok, !require_Ok. unfold draft_ids.
  rewrite !Forall_cons, !draft_id_check_Ok, !negb_true_iff, Z.eqb_neq. naive_solver.
Qed.

Lemma Event_Validate_parts e :
  Event_Validate e = Ok tt →
  ID_Validate (Event_ID e) = Ok tt ∧ valid_ref (Event_Aggregate e) ∧ Event_Sequence e ≠ 0 ∧
  EventDraft_Validate (event_draft e) = Ok tt.
Proof. unfold Event_Validate. rewrite !seq_Ok, wrapf_Ok, !require_Ok, !negb_true_iff, Z.eqb_neq. naive_solver. Qed.

#[local] Opaque Event_Validate.

(** A row decodes exactly when its event is valid. *)
Lemma decode_row_Ok ref r e :
  fst r <= int64_max →
  decode_row ref r = Ok e ↔
  e = row_event ref r ∧ 1 <= fst r ∧ 1 <= Row_schema_version (snd r) <= max_uint32 ∧ Event_Validate e = Ok tt.
Proof.
  intros Hmax. destruct r as [sequence row]. cbn [fst snd] in *. unfold decode_row.
  destruct (Z.ltb_spec sequence 1); cbn [orb]; [split; [done | lia]|].
  destruct (Z.ltb_spec (Row_schema_version row) 1); cbn [orb]; [split; [done | lia]|].
  destruct (Z.ltb_spec max_uint32 (Row_schema_version row)); [split; [done | lia]|]. cbn zeta.
  rewrite bind_Ok. setoid_rewrite bind_Ok. setoid_rewrite bind_Ok. setoid_rewrite bind_Ok. setoid_rewrite seq_Ok. split.
  - intros (id & Hid & cause & Hc & corr & Hco & att & Ha & Hv & [= <-]).
    destruct (ParseID (Row_event_id row)) as [id'|] eqn:E1; [injection Hid as ->|done].
    destruct (parseOptionalID (Row_causation_id row)) as [?|] eqn:E2; [injection Hc as ->|done].
    destruct (parseOptionalID (Row_correlation_id row)) as [?|] eqn:E3; [injection Hco as ->|done].
    destruct (parseOptionalID (Row_attempt_id row)) as [?|] eqn:E4; [injection Ha as ->|done].
    apply ParseID_same in E1 as ->. apply parseOptionalID_Ok in E2 as [-> _], E3 as [-> _], E4 as [-> _].
    unfold row_event. cbn [fst snd]. split_and!; try done. destruct (Event_Validate _) as [[]|]; done.
  - intros (-> & _ & _ & Hv). pose proof (Event_Validate_parts _ Hv) as (Hid & _ & _ & Hd).
    apply EventDraft_Validate_parts in Hd as (_ & Hc & Hco & Ha). cbn in Hid, Hc, Hco, Ha. apply ID_Validate_Ok in Hid.
    exists (Row_event_id row). rewrite Hid. split; [done|].
    exists (Row_causation_id row). rewrite (proj2 (parseOptionalID_Ok _ _) (conj eq_refl Hc)). split; [done|].
    exists (Row_correlation_id row). rewrite (proj2 (parseOptionalID_Ok _ _) (conj eq_refl Hco)). split; [done|].
    exists (Row_attempt_id row). rewrite (proj2 (parseOptionalID_Ok _ _) (conj eq_refl Ha)). split; [done|].
    change (row_event ref (sequence, row)) with (row_event ref (sequence, row)) in Hv. unfold row_event, Time_UTC in *. cbn [fst snd] in *.
    by rewrite Hv.
Qed.

Lemma row_event_row e : storable e → row_event (Event_Aggregate e) (Event_Sequence e, event_row e) = e.
Proof.
  intros (Hs & _ & Ht). destruct e as [id ref n type schema cause corr att at' payload digest]. unfold row_event, event_row, time_Unix_ns, Time_UnixNano.
  cbn in *. rewrite wrapu64_id by (unfold_int64; lia). rewrite wrap64_id by done. f_equal. lia.
Qed.

(** A row is accepted exactly as the event whose row it is. *)
Lemma row_exact ref r :
  is_int64 (fst r) → is_int64 (Row_occurred_at_ns (snd r)) →
  match decode_row ref r with
  | Ok e => Event_Validate e = Ok tt ∧ storable e ∧ Event_Aggregate e = ref ∧ r = (Event_Sequence e, event_row e)
  | Err err => errors_Is err "sqlite store is corrupt" = true ∧
               ∀ e, r = (Event_Sequence e, event_row e) → Event_Aggregate e = ref → storable e → is_ok (Event_Validate e) = false
  end.
Proof.
  intros Hseq Htime. destruct (decode_row ref r) as [e|err] eqn:E.
  - apply decode_row_Ok in E as (-> & H1 & H2 & Hv); [|unfold_int64; lia]. split; [done|].
    destruct r as [n row]. cbn [fst snd] in *. assert (wrapu64 n = n) as Hn by (apply wrapu64_id; unfold_int64; lia).
    split_and!; [|done|].
    + unfold storable, row_event, time_Unix_ns. cbn. rewrite Hn. unfold_int64. lia.
    + unfold event_row, row_event, Time_UnixNano, time_Unix_ns, ID_String. cbn. rewrite Hn, wrap64_id by (unfold_int64; lia).
      destruct row. cbn. f_equal. f_equal. lia.
  - split.
    + revert E. unfold decode_row. destruct r as [n row]. destruct (_ || _); [by intros [= <-]|]. cbn zeta.
      repeat (match goal with |- context [match ?x with Ok _ => _ | Err _ => _ end ≫= _] => destruct x end; [cbn [mbind result_bind] | by intros [= <-]]).
      done.
    + intros e -> <- Hs. destruct (Event_Validate e) as [[]|] eqn:Hv; [|done]. exfalso.
      enough (decode_row (Event_Aggregate e) (Event_Sequence e, event_row e) = Ok e) by congruence.
      apply decode_row_Ok; [unfold storable in Hs; cbn; lia|]. rewrite row_event_row by done. split_and!; try done.
      * unfold storable in Hs. cbn. lia.
      * cbn. apply Event_Validate_parts in Hv as (_ & _ & _ & Hd). apply EventDraft_Validate_parts in Hd as [Hd _]. cbn in Hd.
        unfold storable in Hs. lia.
      * unfold storable in Hs. cbn. lia.
Qed.

(** C40. Storing an event keeps it: the row of a valid event that fits the columns is
    read back as this event, and a row is only accepted as the event whose row it
    is, if it is valid; whatever else a row holds is refused as corrupt. *)
Theorem row_roundtrip ref r :
  is_int64 (fst r) → is_int64 (Row_occurred_at_ns (snd r)) →
  match decode_row ref r with
  | Ok e => Event_Validate e = Ok tt ∧ storable e ∧ Event_Aggregate e = ref ∧ r = (Event_Sequence e, event_row e)
  | Err err => errors_Is err "sqlite store is corrupt" = true ∧
               ∀ e, r = (Event_Sequence e, event_row e) → Event_Aggregate e = ref → storable e → is_ok (Event_Validate e) = false
  end.
Proof. apply row_exact. Qed.

(* ------------------------------------------------------------------ *)
(** ** Triples of stateful operations

    From a state with [P], [m] ends with a value [a] and [Q a], or with an error
    and [E]. *)

Definition st_triple {S A} (P : S → Prop) (m : ST S A) (Q : A → S → Prop) (E : error → S → Prop) : Prop :=
  ∀ s, P s → match m s with (Ok a, s') => Q a s' | (Err e, s') => E e s' end.

Section st_triples.
Context {S A B : Type}.
Implicit Types (P : S → Prop) (E : error → S → Prop).

Lemma st_triple_bind P (m : ST S A) Q (f : A → ST S B) R E :
  st_triple P m Q E → (∀ a, st_triple (Q a) (f a) R E) → st_triple P (m ≫= f) R E.
Proof.
  intros Hm Hf s Hs. specialize (Hm s Hs). unfold mbind, st_bind. destruct (m s) as [[a|e] s']; [|done]. exact (Hf a s' Hm).
Qed.

Lemma st_triple_conseq P P' (m : ST S A) (Q Q' : A → S → Prop) E E' :
  st_triple P' m Q' E' → (∀ s, P s → P' s) → (∀ a s, Q' a s → Q a s) → (∀ e s, E' e s → E e s) → st_triple P m Q E.
Proof. intros Hm HP HQ HE s Hs. specialize (Hm s (HP s Hs)). destruct (m s) as [[a|e] s']; auto. Qed.

Lemma st_triple_lift P (r : result A) E : (∀ e s, P s → E e s) → st_triple P (st_lift r) (λ a s, r = Ok a ∧ P s) E.
Proof. intros HE s Hs. destruct r; cbn; [done | by apply HE]. Qed.

Lemma st_triple_lift_bind P (r : result A) (f : A → ST S B) R E :
  (∀ e s, P s → E e s) → (∀ a, r = Ok a → st_triple P (f a) R E) → st_triple P (st_lift r ≫= f) R E.
Proof. intros HE Hf s Hs. destruct r as [a|e]; [by apply (Hf a) | by apply HE]. Qed.

Lemma st_triple_lift_Ok P (r : result A) a (f : A → ST S B) R E :
  r = Ok a → st_triple P (f a) R E → st_triple P (st_lift r ≫= f) R E.
Proof. by intros ->. Qed.

Lemma st_triple_ret P (a : A) (Q : A → S → Prop) E : (∀ s, P s → Q a s) → st_triple P (mret a) Q E.
Proof. intros HP s Hs. by apply HP. Qed.

Lemma st_triple_fail P e (Q : A → S → Prop) E : (∀ s, P s → E e s) → st_triple P (st_fail e) Q E.
Proof. intros HP s Hs. by apply HP. Qed.
End st_triples.

(* ------------------------------------------------------------------ *)
(** ** The invariant of the tables *)

(** The events the tables hold of an aggregate. *)
Definition table_stream (t : Tables) (ref : AggregateRef) : list Event := row_event ref <$> rows_of t (aggregate_key ref).

Definition version_of (t : Tables) (ref : AggregateRef) : Z := default 0 (aggregate_versions t !! aggregate_key ref).

(** Rows decode, are numbered from 1, and no two events share an identifier. *)
Record rows_ok (t : Tables) : Prop := {
  ro_decode : ∀ ref i r, rows_of t (aggregate_key ref) !! i = Some r →
    fst r = Z.of_nat i + 1 ∧ decode_row ref r = Ok (row_event ref r);
  ro_range : ∀ ref, Z.of_nat (length (rows_of t (aggregate_key ref))) <= int64_max;
  ro_ids : ∀ ref i r, rows_of t (aggregate_key ref) !! i = Some r → Row_event_id (snd r) ∈ event_ids t;
  ro_unique : ∀ ref i r ref' i' r', rows_of t (aggregate_key ref) !! i = Some r → rows_of t (aggregate_key ref') !! i' = Some r' →
    Row_event_id (snd r) = Row_event_id (snd r') → ref = ref' ∧ i = i';
}.

(** The version of an aggregate is the number of its events. *)
Record tables_ok (t : Tables) : Prop := {
  tok_rows : rows_ok t;
  tok_version : ∀ ref, version_of t ref = Z.of_nat (length (rows_of t (aggregate_key ref)));
}.

Lemma aggregate_key_inj ref ref' : aggregate_key ref = aggregate_key ref' → ref = ref'.
Proof. destruct ref, ref'. unfold aggregate_key, ID_String. cbn. by intros [= -> ->]. Qed.

(** A clock within the range of the time column. *)
Definition clock_ok (w : World) : Prop := ∀ n, is_int64 (clock w n - unix_epoch).

(** An opened store in a process with a sound clock and entropy source. *)
Definition alive (s : SqlState) : Prop := world_ok (sql_world s) ∧ clock_ok (sql_world s) ∧ is_Some (sql_store s).

(** The database holds the tables [t]. *)
Definition holds (v : Z) (t : Tables) (s : SqlState) : Prop :=
  alive s ∧ sql_file s = Some {| user_version := v; installed := Some t |}.

Lemma insert_row_end sequence row rows :
  Forall (λ r, fst r < sequence) rows → insert_row sequence row rows = rows ++ [(sequence, row)].
Proof.
  induction rows as [|r rows IH]; cbn [insert_row]; [done|]. intros H. inversion H; subst.
  destruct (Z.ltb_spec sequence (fst r)); [lia|]. by rewrite IH.
Qed.

Lemma rows_of_insert t key rows ids key' :
  rows_of {| t with events := <[key := rows]> (events t); event_ids := ids |} key' = if decide (key = key') then rows else rows_of t key'.
Proof. unfold rows_of. cbn [events]. case_decide; subst; [by rewrite lookup_insert_eq | by rewrite lookup_insert_ne]. Qed.

(** What inserting a next event does. *)
Lemma insert_event_next t ref e t' :
  rows_ok t → Event_Aggregate e = ref → Event_Validate e = Ok tt → storable e →
  Event_Sequence e = Z.of_nat (length (rows_of t (aggregate_key ref))) + 1 →
  insert_event (aggregate_key ref) (Event_Sequence e) (event_row e) t = Ok (tt, t') →
  rows_ok t' ∧ aggregate_versions t' = aggregate_versions t ∧ workload_projections t' = workload_projections t ∧
  table_stream t' ref = table_stream t ref ++ [e] ∧ ∀ ref', ref' ≠ ref → table_stream t' ref' = table_stream t ref'.
Proof.
  intros Hok Hagg Hv Hst Hseq. unfold insert_event. destruct (_ || _) eqn:E1; [done|].
  destruct (bool_decide (Event_Sequence e ∈ _)) eqn:E2; [done|]. destruct (bool_decide (Row_event_id (event_row e) ∈ _)) eqn:E3; [done|].
  apply bool_decide_eq_false in E3. destruct (negb (is_some _)) eqn:E4; [done|].
  intros H. injection H as H. rewrite <-H. clear H.
  assert (insert_row (Event_Sequence e) (event_row e) (rows_of t (aggregate_key ref))
          = rows_of t (aggregate_key ref) ++ [(Event_Sequence e, event_row e)]) as Hins.
  { apply insert_row_end. apply Forall_lookup_2. intros i r Hi. destruct (ro_decode t Hok _ _ _ Hi) as [-> _].
    apply lookup_lt_Some in Hi. lia. }
  rewrite Hins. clear t'. set (t' := {| t with events := _; event_ids := _ |}).
  assert (∀ ref', rows_of t' (aggregate_key ref') =
    if decide (ref = ref') then rows_of t (aggregate_key ref) ++ [(Event_Sequence e, event_row e)] else rows_of t (aggregate_key ref')) as Hrows.
  { intros ref'. unfold t'. rewrite rows_of_insert. destruct (decide (ref = ref')) as [->|Hne]; [by rewrite decide_True|].
    rewrite decide_False; [done|]. by intros H%aggregate_key_inj. }
  assert (∀ ref' i r, rows_of t' (aggregate_key ref') !! i = Some r →
    rows_of t (aggregate_key ref') !! i = Some r ∨
    ref' = ref ∧ i = length (rows_of t (aggregate_key ref)) ∧ r = (Event_Sequence e, event_row e)) as Hcase.
  { intros ref' i r. rewrite Hrows. destruct (decide (ref = ref')) as [<-|Hne]; [|intros ?; by left]. rewrite lookup_app_Some, list_lookup_singleton_Some.
    intros [?|(? & ? & <-)]; [by left | right]. split_and!; [done | lia | done]. }
  split_and!; [|done|done| |].
  - split.
    + intros ref' i r [Hi|(-> & -> & ->)]%Hcase; [by apply (ro_decode t Hok)|]. split; [done|].
      rewrite <-Hagg. apply decode_row_Ok; [unfold storable in Hst; cbn; lia|]. rewrite row_event_row by done.
      pose proof (Event_Validate_parts _ Hv) as (_ & _ & _ & Hd). apply EventDraft_Validate_parts in Hd as [Hd _]. cbn in Hd.
      unfold storable in Hst. cbn [fst snd event_row Row_schema_version]. split_and!; [done | lia.. | done].
    + intros ref'. rewrite Hrows. destruct (decide (ref = ref')); [|by apply (ro_range t Hok)]. rewrite length_app. cbn [length]. unfold storable in Hst. lia.
    + intros ref' i r [Hi|(-> & -> & ->)]%Hcase; cbn [event_ids t'].
      * apply (ro_ids t Hok) in Hi. set_solver.
      * set_solver.
    + intros ref1 i1 r1 ref2 i2 r2 [H1|(-> & -> & ->)]%Hcase [H2|(-> & -> & ->)]%Hcase Hid.
      * by eapply (ro_unique t Hok).
      * exfalso. apply E3. cbn [snd] in Hid. rewrite <-Hid. by eapply (ro_ids t Hok).
      * exfalso. apply E3. cbn [snd] in Hid. rewrite Hid. by eapply (ro_ids t Hok).
      * done.
  - unfold table_stream. rewrite Hrows, decide_True by done. rewrite fmap_app. f_equal. cbn. rewrite <-Hagg, row_event_row by done. done.
  - intros ref' Hne. unfold table_stream. by rewrite Hrows, decide_False.
Qed.

(* ------------------------------------------------------------------ *)
(** ** The driver *)

Section driver_triples.
Context `{Henv : SqlEnv}.

(** What does not depend on the count of calls. *)
Definition callless (P : SqlState → Prop) : Prop := ∀ s n, P s → P {| s with sql_calls := n |}.

Lemma alive_callless : callless alive.
Proof. intros s n H. exact H. Qed.
Lemma holds_callless v t : callless (holds v t).
Proof. intros s n H. exact H. Qed.

Lemma holds_alive v t s : holds v t s → alive s.
Proof. by intros []. Qed.

Lemma sql_call_triple P (E : error → SqlState → Prop) :
  callless P → (∀ e s, P s → E e s) → st_triple P sql_call (λ _, P) E.
Proof.
  intros HP HE s Hs. unfold sql_call, mbind, st_bind, st_get, st_modify, st_lift.
  destruct (sql_fault _); [apply HE|]; by apply HP.
Qed.

Lemma wrap_st_triple {A} text P (m : ST SqlState A) Q (E : SqlState → Prop) :
  st_triple P m Q (λ _, E) → st_triple P (wrap_st text m) Q (λ _, E).
Proof. intros Hm s Hs. specialize (Hm s Hs). unfold wrap_st. by destruct (m s) as [[a|e] s']. Qed.

Lemma st_try_triple {A} P (m : ST SqlState A) Q (E : SqlState → Prop) (E' : error → SqlState → Prop) :
  st_triple P m Q (λ _, E) → st_triple P (st_try m) (λ r s, match r with Ok a => Q a s | Err _ => E s end) E'.
Proof. intros Hm s Hs. specialize (Hm s Hs). unfold st_try. by destruct (m s) as [[a|e] s']. Qed.

(** A statement either has its effect on the tables or none. *)
Lemma statement_triple {A} (f : Tables → result (A * Tables)) v t :
  st_triple (holds v t) (statement f) (λ a s, ∃ t', f t = Ok (a, t') ∧ holds v t' s) (λ _, holds v t).
Proof.
  unfold statement, on_database. eapply st_triple_bind; [by apply sql_call_triple; [apply holds_callless|]|]. intros _ s [Ha Hf].
  rewrite st_get_bind, Hf. cbn [installed]. destruct (f t) as [[a t']|e]; cbn; [|done]. by exists t'.
Qed.

Lemma sql_now_triple v t (E : error → SqlState → Prop) :
  st_triple (holds v t) sql_now (λ now s, is_int64 (now - unix_epoch) ∧ holds v t s) E.
Proof. intros s [(Hw & Hc & Hs) Hf]. split; [apply Hc | done]. Qed.

Lemma NewEvent_triple v t ref n d now :
  st_triple (holds v t) (on_world (NewEvent ref n d now))
    (λ e s, (Event_Validate e = Ok tt ∧ event_draft e = d ∧ Event_Aggregate e = ref ∧ Event_Sequence e = n ∧ Event_OccurredAt e = now) ∧ holds v t s)
    (λ _, holds v t).
Proof.
  intros s [(Hw & Hc & Hs) Hf]. unfold on_world. destruct (NewEvent ref n d now (sql_world s)) as [r w] eqn:E.
  destruct (NewEvent_world _ _ _ _ _ _ _ E) as [Hclock Hentropy].
  assert (holds v t {| s with sql_world := w |}) as Hw'.
  { split; [|done]. split_and!; cbn; [| |done].
    - intros k. rewrite Hentropy. apply Hw.
    - intros k. rewrite Hclock. apply Hc. }
  destruct r as [e|err]; [|done]. split; [|done]. split; [by eapply NewEvent_valid|].
  apply NewEvent_Ok in E as (_ & _ & _ & _ & id & _ & -> & _). split_and!; try done. apply event_draft_make.
Qed.

End driver_triples.

(* ------------------------------------------------------------------ *)
(** ** The transaction of an append *)

(** [created] was added to the stream of [ref]. *)
Record appended (ref : AggregateRef) (drafts : list EventDraft) (t t' : Tables) (created : list Event) : Prop := {
  app_rows : rows_ok t';
  app_versions : aggregate_versions t' = aggregate_versions t;
  app_projections : workload_projections t' = workload_projections t;
  app_stream : table_stream t' ref = table_stream t ref ++ created;
  app_others : ∀ ref', ref' ≠ ref → table_stream t' ref' = table_stream t ref';
  app_created : materialises ref (length (table_stream t ref)) drafts created;
}.

Lemma length_table_stream t ref : length (table_stream t ref) = length (rows_of t (aggregate_key ref)).
Proof. apply length_fmap. Qed.

Lemma appended_nil ref t : rows_ok t → appended ref [] t t [].
Proof. intros Ht. split; try done. by rewrite app_nil_r. Qed.

Lemma appended_cons ref d drafts t t1 t2 e created :
  appended ref [d] t t1 [e] → appended ref drafts t1 t2 created → appended ref (d :: drafts) t t2 (e :: created).
Proof.
  intros [H1 H2 H3 H4 H5 [H6 H7]] [J1 J2 J3 J4 J5 [J6 J7]]. split; try congruence.
  - rewrite J4, H4, <-app_assoc. done.
  - intros ref' Hne. by rewrite J5, H5.
  - split; [cbn in *; congruence|]. intros [|i] x Hx; [by apply (H7 0%nat)|]. destruct (J7 i x Hx) as (K1 & K2 & K3).
    split_and!; [done..|]. rewrite K3, H4, length_app. cbn [length]. f_equal. lia.
Qed.

Section appends.
Context `{Henv : SqlEnv, Hcodec : ProjectionCodec, Hquote : Quoting, Hpayload : PayloadDecoder}.

Lemma new_event_triple v t ref n d now :
  is_int64 (now - unix_epoch) → 1 <= n <= int64_max → draft_typed d →
  st_triple (holds v t) (wrap_st "materialize draft" (on_world (NewEvent ref (wrapu64 n) d now)))
    (λ e s, (storable e ∧ Event_Validate e = Ok tt ∧ event_draft e = d ∧ Event_Aggregate e = ref ∧ Event_Sequence e = n) ∧ holds v t s)
    (λ _, alive).
Proof.
  intros Hnow Hn Hd. apply wrap_st_triple.
  eapply st_triple_conseq; [apply NewEvent_triple | done | | intros ? s; apply holds_alive].
  cbn beta. intros e s ((Hv & He & Ha & Hq & Ho) & Hs). rewrite wrapu64_id in Hq by (unfold_int64; lia). split; [|done].
  split_and!; try done. unfold storable. rewrite Hq, Ho. unfold draft_typed in Hd. rewrite <-He in Hd. cbn in Hd. unfold_int64. lia.
Qed.

Lemma insertEvent_triple v t e :
  rows_ok t → Event_Validate e = Ok tt → storable e →
  Event_Sequence e = Z.of_nat (length (table_stream t (Event_Aggregate e))) + 1 →
  st_triple (holds v t) (insertEvent e) (λ _ s, ∃ t', appended (Event_Aggregate e) [event_draft e] t t' [e] ∧ holds v t' s) (λ _, alive).
Proof.
  intros Ht Hv Hst Hseq. unfold insertEvent. apply wrap_st_triple.
  eapply st_triple_conseq; [apply statement_triple | done | | intros ? s; apply holds_alive].
  intros [] s (t' & Hins & Hs). exists t'. split; [|done]. rewrite length_table_stream in Hseq.
  destruct (insert_event_next t _ e t' Ht eq_refl Hv Hst Hseq Hins) as (H1 & H2 & H3 & H4 & H5).
  split; try done. split; [done|]. intros [|i] x; [|done]. intros [= <-]. split_and!; try done. rewrite length_table_stream, Hseq, wrapu64_id.
  - lia.
  - unfold storable in Hst. unfold_int64. lia.
Qed.

Lemma append_drafts_triple v ref expected i drafts t :
  rows_ok t → Forall draft_typed drafts → Z.of_nat (length (table_stream t ref)) = expected + Z.of_nat i →
  expected + Z.of_nat i + Z.of_nat (length drafts) <= int64_max →
  st_triple (holds v t) (append_drafts ref expected i drafts)
    (λ created s, ∃ t', appended ref drafts t t' created ∧ holds v t' s) (λ _, alive).
Proof.
  revert i t. induction drafts as [|d drafts IH]; intros i t Ht Hty Hlen Hmax; cbn [append_drafts].
  { apply st_triple_ret. intros s Hs. exists t. split; [by apply appended_nil | done]. }
  inversion Hty as [|? ? Hd Hty']; subst. cbn [length] in Hmax.
  eapply st_triple_bind; [apply sql_now_triple|]. intros now s [Hnow Hs]. revert s Hs.
  eapply st_triple_bind; [apply new_event_triple; [done | lia | done]|]. cbn beta. intros e s [(Hst & Hv & He & Ha & Hq) Hs]. revert s Hs.
  assert (Event_Sequence e = Z.of_nat (length (table_stream t (Event_Aggregate e))) + 1) as Hseq by (rewrite Ha; lia).
  eapply st_triple_bind; [by apply insertEvent_triple|]. rewrite Ha, He.
  intros _ s (t1 & Happ & Hs). revert s Hs. eapply st_triple_bind.
  { apply (IH (S i)); [apply Happ | done | | lia]. rewrite (app_stream _ _ _ _ _ Happ), length_app. cbn [length]. lia. }
  intros rest. apply st_triple_ret. intros s (t2 & Hrest & Hs). exists t2. split; [by eapply appended_cons | done].
Qed.

(** The projection an append to a workload starts from. *)
Definition prior_projection (t : Tables) (ref : AggregateRef) (expected : Z) (p : WorkloadProjection) : Prop :=
  (expected = 0 ∧ NewWorkloadProjection ref = Ok p) ∨
  ∃ row, workload_projections t !! aggregate_key ref = Some row ∧ 1 <= Row_sequence row ∧ wrapu64 (Row_sequence row) = expected ∧
    sha256Hex (Row_document row) = Row_document_sha256 row ∧ decode_stored (Row_document row) = Ok p ∧
    Projection_Aggregate p = ref ∧ Projection_Version p = expected.

Definition projection_row (p : WorkloadProjection) (document : bytes) : ProjectionRow :=
  {| Row_sequence := Projection_Version p; Row_document := document; Row_document_sha256 := sha256Hex document |}.

(** What an append of [created] after [expected] does to the projections. *)
Definition projected (ref : AggregateRef) (expected : Z) (created : list Event) (t t' : Tables) : Prop :=
  if Ref_Type ref =s WorkloadAggregateType
  then ∃ p p' document, prior_projection t ref expected p ∧ apply_created created p = Ok p' ∧ marshal_projection p' = Ok document ∧
         workload_projections t' = <[aggregate_key ref := projection_row p' document]> (workload_projections t)
  else workload_projections t' = workload_projections t.

(** An append was committed. *)
Record committed (ref : AggregateRef) (expected : Z) (drafts : list EventDraft) (t t' : Tables) (created : list Event) : Prop := {
  com_tables : tables_ok t';
  com_expected : expected = Z.of_nat (length (table_stream t ref));
  com_stream : table_stream t' ref = table_stream t ref ++ created;
  com_others : ∀ ref', ref' ≠ ref → table_stream t' ref' = table_stream t ref';
  com_created : materialises ref (length (table_stream t ref)) drafts created;
  com_projected : projected ref expected created t t';
}.

Lemma loadWorkloadProjectionTx_triple v t ref expected :
  st_triple (holds v t) (loadWorkloadProjectionTx ref expected) (λ p s, prior_projection t ref expected p ∧ holds v t s) (λ _, holds v t).
Proof.
  unfold loadWorkloadProjectionTx, select_projection. eapply st_triple_bind.
  { apply (st_try_triple _ _ (λ row s, workload_projections t !! aggregate_key ref = Some row ∧ holds v t s) (holds v t)).
    eapply st_triple_conseq; [apply statement_triple | done | | done]. cbn beta. intros row s (t' & Hf & Hs).
    destruct (workload_projections t !! aggregate_key ref) as [row'|]; [|done]. injection Hf as -> ->. done. }
  intros [row|err].
  - intros s [Hrow Hs]. revert s Hs. apply st_triple_lift_bind; [done|]. intros [] H1. apply st_triple_lift_bind; [done|]. intros p Hp.
    apply st_triple_lift_bind; [done|]. intros [] H2. apply st_triple_ret. intros s Hs. split; [|done]. right. exists row.
    apply require_w_Ok in H1, H2. rewrite negb_true_iff, !orb_false_iff, Z.ltb_ge, !negb_false_iff, Z.eqb_eq, seqb_true in H1.
    rewrite andb_true_iff, bool_decide_eq_true, Z.eqb_eq in H2. naive_solver.
  - destruct (errors_Is _ _); [|by apply st_triple_fail].
    apply st_triple_lift_bind; [done|]. intros [] H1. apply require_w_Ok, Z.eqb_eq in H1.
    eapply st_triple_conseq; [by apply (st_triple_lift (holds v t) _ (λ _, holds v t)) | done | | done].
    intros p s [Hp Hs]. split; [by left | done].
Qed.

Lemma updateWorkloadProjection_triple v t ref expected created :
  Ref_Type ref = WorkloadAggregateType →
  st_triple (holds v t) (updateWorkloadProjection ref expected created)
    (λ _ s, ∃ t', aggregate_versions t' = aggregate_versions t ∧ events t' = events t ∧ event_ids t' = event_ids t ∧
                  projected ref expected created t t' ∧ holds v t' s) (λ _, alive).
Proof.
  intros Hty. unfold updateWorkloadProjection. pose proof (holds_alive v t) as Hal.
  eapply st_triple_bind; [eapply st_triple_conseq; [apply loadWorkloadProjectionTx_triple | done | done | intros ?; exact Hal]|].
  intros p s [Hp Hs]. revert s Hs. apply st_triple_lift_bind; [intros ?; exact Hal|]. intros p' Hp'.
  apply st_triple_lift_bind; [intros ?; exact Hal|]. intros document Hd. apply wrapf_Ok in Hd. apply wrap_st_triple.
  eapply st_triple_conseq; [apply statement_triple | done | | intros ?; exact Hal]. intros [] s (t' & Hf & Hs). exists t'.
  unfold upsert_projection in Hf. destruct (_ || _); [done|]. injection Hf as <-. split_and!; try done.
  unfold projected. rewrite Hty, seqb_refl. by exists p, p', document.
Qed.

Lemma insert_version_keeps key t :
  events (insert_version key t) = events t ∧ event_ids (insert_version key t) = event_ids t ∧
  workload_projections (insert_version key t) = workload_projections t ∧
  ∀ key', default 0 (aggregate_versions (insert_version key t) !! key') = default 0 (aggregate_versions t !! key').
Proof.
  unfold insert_version. destruct (aggregate_versions t !! key) eqn:E; [done|]. cbn. split_and!; try done.
  intros key'. destruct (decide (key = key')) as [<-|Hne]; [by rewrite lookup_insert_eq, E | by rewrite lookup_insert_ne].
Qed.

Lemma rows_ok_same t t' : events t' = events t → event_ids t' = event_ids t → rows_ok t → rows_ok t'.
Proof.
  intros He Hi [H1 H2 H3 H4]. assert (∀ key, rows_of t' key = rows_of t key) as Hr by (intros key; unfold rows_of; by rewrite He).
  split; setoid_rewrite Hr; rewrite ?Hi; done.
Qed.

Lemma table_stream_same t t' ref : events t' = events t → table_stream t' ref = table_stream t ref.
Proof. intros He. unfold table_stream, rows_of. by rewrite He. Qed.

(** The version was [expected] and is claimed for [n] more events. *)
Definition claimed (ref : AggregateRef) (expected n : Z) (t t' : Tables) : Prop :=
  version_of t ref = expected ∧ version_of t' ref = expected + n ∧ (∀ ref', ref' ≠ ref → version_of t' ref' = version_of t ref') ∧
  events t' = events t ∧ event_ids t' = event_ids t ∧ workload_projections t' = workload_projections t.

Lemma claim_version_claimed ref expected n t t' :
  claim_version (aggregate_key ref) n expected (insert_version (aggregate_key ref) t) = Ok (1, t') → claimed ref expected n t t'.
Proof.
  destruct (insert_version_keeps (aggregate_key ref) t) as (He & Hi & Hp & Hv). unfold claim_version, claimed, version_of.
  destruct (_ !! _) as [version|] eqn:Ev; [|done]. destruct (Z.eqb_spec version expected) as [->|]; [|done].
  destruct (_ <? 0); [done|]. intros H. injection H as <-. cbn. split_and!; try done.
  - by rewrite <-Hv, Ev.
  - by rewrite lookup_insert_eq.
  - intros ref' Hne. rewrite lookup_insert_ne by (intros H%aggregate_key_inj; congruence). apply Hv.
Qed.

Lemma claim_triple v t ref expected n :
  st_triple (holds v t) (claim ref expected n) (λ _ s, ∃ t', claimed ref expected n t t' ∧ holds v t' s) (λ _, alive).
Proof.
  unfold claim. eapply st_triple_bind.
  { apply wrap_st_triple. eapply st_triple_conseq; [apply statement_triple | done | done | intros ?; apply holds_alive]. }
  cbn beta. intros ? s (t1 & Ht1 & Hs). revert s Hs. injection Ht1 as _ <-.
  eapply st_triple_bind.
  { apply wrap_st_triple. eapply st_triple_conseq; [apply statement_triple | done | done | intros ?; apply holds_alive]. }
  cbn beta. intros rowsAffected s (t2 & Hclaim & Hs). revert s Hs.
  eapply st_triple_bind; [apply wrap_st_triple, sql_call_triple; [apply holds_callless | intros ?; apply holds_alive]|].
  intros ?. destruct (Z.eqb_spec rowsAffected 1) as [->|Hne]; cbn [negb].
  - apply st_triple_ret. intros s Hs. exists t2. split; [by apply claim_version_claimed | done].
  - unfold aggregateVersion. eapply (st_triple_bind _ _ (λ _, alive)); [|intros ?; by apply st_triple_fail].
    eapply (st_triple_bind _ _ (λ _, alive)).
    + apply wrap_st_triple. eapply st_triple_conseq; [apply statement_triple | done | | intros ?; apply holds_alive].
      intros ? s (? & _ & Hs). by eapply holds_alive.
    + intros version. destruct (version <? 0); [by apply st_triple_fail | by apply st_triple_ret].
Qed.

(** The steps of a transaction make a commit. *)
Lemma steps_committed ref expected drafts created t t2 t3 t4 :
  tables_ok t → claimed ref expected (Z.of_nat (length drafts)) t t2 → appended ref drafts t2 t3 created →
  aggregate_versions t4 = aggregate_versions t3 → events t4 = events t3 → event_ids t4 = event_ids t3 →
  projected ref expected created t3 t4 → committed ref expected drafts t t4 created.
Proof.
  intros Ht (C1 & C2 & C3 & C4 & C5 & C6) [A1 A2 A3 A4 A5 A6] Hv4 He4 Hi4 Hp4.
  assert (∀ ref', table_stream t4 ref' = table_stream t3 ref') as Hs4 by (intros ref'; by apply table_stream_same).
  assert (∀ ref', table_stream t2 ref' = table_stream t ref') as Hs2 by (intros ref'; by apply table_stream_same).
  assert (∀ ref', version_of t4 ref' = version_of t2 ref') as Hv by (intros ref'; unfold version_of; by rewrite Hv4, A2).
  assert (∀ ref', version_of t ref' = Z.of_nat (length (table_stream t ref'))) as Hv0.
  { intros ref'. rewrite length_table_stream. apply (tok_version t Ht). }
  rewrite Hs2 in A4, A6. pose proof (f_equal length (proj1 A6)) as Hlen. rewrite length_fmap in Hlen. split; [split|..]; try done.
  - by apply (rows_ok_same t3).
  - intros ref'. rewrite <-length_table_stream, Hs4, Hv. destruct (decide (ref' = ref)) as [->|Hne].
    + rewrite C2, <-C1, Hv0, A4, length_app. lia.
    + by rewrite C3, Hv0, A5, Hs2.
  - by rewrite <-C1.
  - by rewrite Hs4, A4.
  - intros ref' Hne. by rewrite Hs4, A5, Hs2.
  - unfold projected, prior_projection in *. by rewrite A3, C6 in Hp4.
Qed.

Lemma append_transaction_triple v t ref expected drafts :
  tables_ok t → Forall draft_typed drafts → out_of_range expected drafts = false →
  st_triple (holds v t) (append_transaction ref expected drafts)
    (λ created s, ∃ t', committed ref expected drafts t t' created ∧ holds v t' s) (λ _, alive).
Proof.
  intros Ht Hty Hrange. unfold append_transaction. apply orb_false_iff in Hrange as [Hmax Hrange]. apply Z.ltb_ge in Hmax, Hrange.
  eapply st_triple_bind; [apply claim_triple|]. intros _ s (t2 & Hclaim & Hs). revert s Hs.
  pose proof Hclaim as (C1 & C2 & C3 & C4 & C5 & C6).
  eapply st_triple_bind.
  { apply (append_drafts_triple v ref expected 0 drafts t2); [by apply (rows_ok_same t); [..|apply Ht] | done | | lia].
    rewrite (table_stream_same t), length_table_stream, <-(tok_version t Ht) by done. lia. }
  intros created s (t3 & Happ & Hs). revert s Hs.
  assert (∀ t4, aggregate_versions t4 = aggregate_versions t3 → events t4 = events t3 → event_ids t4 = event_ids t3 →
    projected ref expected created t3 t4 → committed ref expected drafts t t4 created) as Hcom.
  { intros t4. by apply (steps_committed ref expected drafts created t t2 t3). }
  eapply (st_triple_bind _ _ (λ _ s, ∃ t4, committed ref expected drafts t t4 created ∧ holds v t4 s)).
  { destruct (String.eqb_spec (Ref_Type ref) WorkloadAggregateType) as [Hw|Hw].
    - eapply st_triple_conseq; [by apply updateWorkloadProjection_triple | done | | done].
      cbn beta. intros _ s (t4 & H1 & H2 & H3 & H4 & Hs). exists t4. split; [by apply Hcom | done].
    - apply st_triple_ret. intros s Hs. exists t3. split; [|done]. apply Hcom; try done. unfold projected.
      by rewrite (proj2 (String.eqb_neq _ _) Hw). }
  intros _. eapply (st_triple_bind _ _ (λ _ s, ∃ t4, committed ref expected drafts t t4 created ∧ holds v t4 s)).
  { apply wrap_st_triple. unfold sql_commit. eapply st_triple_bind; [apply sql_call_triple|].
    - intros s n (t4 & H & Hs). by exists t4.
    - intros ? s (t4 & _ & Hs). by eapply holds_alive.
    - intros ?. by apply st_triple_ret. }
  intros _. by apply st_triple_ret.
Qed.

Lemma transaction_triple {A} v t (body : ST SqlState A) Q :
  st_triple (holds v t) body Q (λ _, alive) → st_triple (holds v t) (transaction body) Q (λ _, holds v t).
Proof.
  intros Hb s Hs. specialize (Hb s Hs). unfold transaction. destruct (body s) as [[a|e] s']; [done|].
  split; [exact Hb | by destruct Hs].
Qed.

Lemma deferred_triple {A} (f : SqlState → SqlState) P (m : ST SqlState A) Q E :
  (∀ a s, Q a s → Q a (f s)) → (∀ e s, E e s → E e (f s)) → st_triple P m Q E → st_triple P (deferred f m) Q E.
Proof. intros HQ HE Hm s Hs. specialize (Hm s Hs). unfold deferred. destruct (m s) as [[a|e] s']; auto. Qed.

Lemma map_context_triple {A} ctx P (m : ST SqlState A) Q v t :
  st_triple P m Q (λ _, holds v t) → st_triple P (map_context ctx m) Q (λ _, holds v t).
Proof.
  intros Hm. unfold map_context. eapply st_triple_bind; [by apply st_try_triple|]. intros [a|e]; [by apply st_triple_ret|].
  eapply (st_triple_bind _ _ (λ _, holds v t)); [|intros ?; by apply st_triple_fail].
  unfold mapContextError. destruct (ctx_Err ctx 1%nat); [by apply st_triple_ret|].
  destruct (ctx_Deadline ctx); [|by apply st_triple_ret]. eapply st_triple_bind; [apply sql_now_triple|].
  intros now. apply st_triple_ret. by intros s [].
Qed.

Lemma ready_triple v t : st_triple (holds v t) ready (λ _, holds v t) (λ _, holds v t).
Proof. intros s Hs. unfold ready. rewrite st_get_bind. by destruct (sql_store s). Qed.

Lemma set_busy_timeout_triple v t connection millis :
  st_triple (holds v t) (set_busy_timeout connection millis) (λ _, holds v t) (λ _, holds v t).
Proof.
  unfold set_busy_timeout. eapply st_triple_bind; [by apply sql_call_triple; [apply holds_callless|]|]. intros ? s Hs. exact Hs.
Qed.

Lemma restore_holds v t bounded busy connection s : holds v t s → holds v t (restoreBusyTimeout bounded busy connection s).
Proof.
  intros Hs. unfold restoreBusyTimeout. destruct bounded; [|done]. pose proof (set_busy_timeout_triple v t connection busy s Hs) as H.
  by destruct (set_busy_timeout connection busy s) as [[]].
Qed.

Lemma boundBusyTimeout_triple v t ctx busy connection :
  st_triple (holds v t) (boundBusyTimeout ctx busy connection) (λ _, holds v t) (λ _, holds v t).
Proof.
  unfold boundBusyTimeout. eapply (st_triple_bind _ _ (λ _, holds v t)).
  - destruct (ctx_Deadline ctx); [|by apply st_triple_ret]. eapply st_triple_bind; [apply sql_now_triple|]. intros now. cbn zeta.
    destruct (_ <=? 0); [by apply st_triple_fail; intros s [] | by apply st_triple_ret; intros s []].
  - intros millis. destruct (_ =? _); [by apply st_triple_ret|].
    eapply st_triple_bind; [apply map_context_triple, wrap_st_triple, set_busy_timeout_triple|]. intros ?. by apply st_triple_ret.
Qed.

(** Whatever the driver does, an append of typed drafts either commits or changes
    nothing. *)
Lemma Sqlite_Append_triple v t ctx ref expected drafts :
  tables_ok t → Forall draft_typed drafts →
  st_triple (holds v t) (Sqlite_Append ctx ref expected drafts)
    (λ created s, valid_ref ref ∧ Forall (λ d, EventDraft_Validate d = Ok tt) drafts ∧
       match drafts with
       | [] => created = [] ∧ holds v t s
       | _ => ∃ t', committed ref expected drafts t t' created ∧ holds v t' s
       end) (λ _, holds v t).
Proof.
  intros Ht Hty. unfold Sqlite_Append. apply st_triple_lift_bind; [done|]. intros [] _.
  eapply st_triple_bind; [apply ready_triple|]. intros busy.
  apply st_triple_lift_bind; [done|]. intros [] Href. apply st_triple_lift_bind; [done|]. intros [] Hd.
  apply each_Ok in Hd. assert (Forall (λ d, EventDraft_Validate d = Ok tt) drafts) as Hd'.
  { eapply Forall_impl; [exact Hd|]. intros d. apply wrapf_Ok. }
  destruct drafts as [|d ds] eqn:Edrafts; [by apply st_triple_ret|]. rewrite <-Edrafts in *.
  apply st_triple_lift_bind; [done|]. intros [] Hrange. apply require_Ok, negb_true_iff in Hrange.
  eapply (st_triple_bind _ _ (λ _, holds v t)).
  { apply map_context_triple, wrap_st_triple. unfold sql_Conn. eapply st_triple_bind; [by apply sql_call_triple; [apply holds_callless|]|].
    intros ?. by apply st_triple_ret. }
  intros connection. eapply st_triple_bind; [apply boundBusyTimeout_triple|]. intros bounded.
  apply deferred_triple.
  - intros created s (H1 & H2 & t' & H3 & H4). split_and!; [done..|]. exists t'. split; [done | by apply restore_holds].
  - intros ? s. apply restore_holds.
  - eapply (st_triple_bind _ _ (λ _, holds v t)).
    { apply map_context_triple, wrap_st_triple. unfold sql_begin. eapply st_triple_bind; [by apply sql_call_triple; [apply holds_callless|]|].
      intros ?. by apply st_triple_ret. }
    intros ?. apply transaction_triple. eapply st_triple_conseq; [by apply append_transaction_triple | done | | done].
    intros created s H. by split_and!.
Qed.

End appends.
