(* ===== verification/SqliteContract.v ===== *)
(** * The SQLite store as an event store

    Loading, the operations on a driver that does not fail, the instance of the
    contract of Store.v, and the theorems on the runs of the store. *)

From Stdlib Require Import ZArith Lia.
From S2P Require Import Prelude GoNum GoText GoJson GoHash Ident Domain Event Store MemoryStore Model Policy Routing LoopTypes Execution Projection Sqlite SqliteSpec.

(** A driver whose calls all succeed. *)
Class SqlHealthy `{SqlEnv} : Prop := { sql_healthy : ∀ n, sql_fault n = None }.

(* ------------------------------------------------------------------ *)
(** ** Loading *)

Section loading.
Context `{Henv : SqlEnv, Hcodec : ProjectionCodec, Hquote : Quoting, Hpayload : PayloadDecoder}.

(** Only the count of the calls changes. *)
Definition calls_only {A} (m : ST SqlState A) : Prop := ∀ s, ∃ n, snd (m s) = {| s with sql_calls := n |}.

Lemma same_calls (s : SqlState) : s = {| s with sql_calls := sql_calls s |}.
Proof. by destruct s. Qed.

Lemma calls_only_lift {A} (r : result A) : calls_only (st_lift r).
Proof. intros s. exists (sql_calls s). apply same_calls. Qed.
Lemma calls_only_ret {A} (a : A) : calls_only (mret a).
Proof. intros s. exists (sql_calls s). apply same_calls. Qed.
Lemma calls_only_bind {A B} (m : ST SqlState A) (f : A → ST SqlState B) :
  calls_only m → (∀ a, calls_only (f a)) → calls_only (m ≫= f).
Proof.
  intros Hm Hf s. specialize (Hm s) as [n Hn]. unfold mbind, st_bind. destruct (m s) as [[a|e] s1]; cbn in Hn; subst; [|by exists n].
  destruct (Hf a {| s with sql_calls := n |}) as [k ->]. by exists k.
Qed.
Lemma calls_only_wrap {A} text (m : ST SqlState A) : calls_only m → calls_only (wrap_st text m).
Proof. intros Hm s. destruct (Hm s) as [n Hn]. exists n. unfold wrap_st. by destruct (m s). Qed.
Lemma calls_only_call : calls_only sql_call.
Proof. intros s. exists (S (sql_calls s)). done. Qed.
Lemma calls_only_ready : calls_only ready.
Proof. intros s. exists (sql_calls s). rewrite <-same_calls. unfold ready. rewrite st_get_bind. by destruct (sql_store s). Qed.
Lemma calls_only_query {A} (f : Tables → A) : calls_only (query f).
Proof.
  unfold query, statement, on_database. apply calls_only_bind; [apply calls_only_call|]. intros _ s. exists (sql_calls s).
  rewrite st_get_bind. destruct s as [[[version [t|]]|] store busy w n]; done.
Qed.

Lemma calls_only_try {A} (m : ST SqlState A) : calls_only m → calls_only (st_try m).
Proof. intros Hm s. destruct (Hm s) as [n Hn]. exists n. unfold st_try. by destruct (m s). Qed.
Lemma calls_only_row {A} (f : Tables → option A) : calls_only (query_row f).
Proof.
  unfold query_row, statement, on_database. apply calls_only_bind; [apply calls_only_call|]. intros _ s. exists (sql_calls s).
  rewrite st_get_bind. destruct s as [[[version [t|]]|] store busy w n]; cbn; [|done..]. by destruct (f t).
Qed.

Lemma calls_only_LoadWorkloadProjection ctx ref : calls_only (Sqlite_LoadWorkloadProjection ctx ref).
Proof.
  unfold Sqlite_LoadWorkloadProjection. apply calls_only_bind; [apply calls_only_lift|]. intros _.
  apply calls_only_bind; [apply calls_only_ready|]. intros _. apply calls_only_bind; [apply calls_only_lift|]. intros _.
  apply calls_only_bind; [apply calls_only_lift|]. intros _. apply calls_only_bind; [apply calls_only_try, calls_only_row|].
  intros [row|err]; [|destruct (errors_Is _ _); apply (calls_only_lift (Err _))].
  repeat (apply calls_only_bind; [apply calls_only_lift|]; intros ?). apply calls_only_ret.
Qed.

Lemma calls_only_load_rows ref expected rows : calls_only (load_rows ref expected rows).
Proof.
  revert expected. induction rows as [|r rows IH]; intros expected; cbn [load_rows];
    (apply calls_only_bind; [apply calls_only_wrap, calls_only_call|]; intros _); [apply calls_only_ret|].
  apply calls_only_bind; [|intros ?; apply calls_only_bind; [apply calls_only_lift|]; intros ?; apply calls_only_bind; [apply IH|]; intros ?; apply calls_only_ret].
  apply calls_only_bind; [apply calls_only_wrap, calls_only_call|]. intros _. apply calls_only_lift.
Qed.

Lemma calls_only_Load ctx ref after : calls_only (Sqlite_Load ctx ref after).
Proof.
  unfold Sqlite_Load. apply calls_only_bind; [apply calls_only_lift|]. intros _. apply calls_only_bind; [apply calls_only_ready|].
  intros _. apply calls_only_bind; [apply calls_only_lift|]. intros _. destruct (_ <? _); [apply calls_only_ret|].
  apply calls_only_bind; [apply calls_only_wrap, calls_only_query|]. intros rows.
  apply calls_only_bind; [apply calls_only_load_rows|]. intros evs. apply calls_only_ret.
Qed.

(** The rows of a successful load all decode, to consecutive events. *)
Definition loaded (ref : AggregateRef) (expected : Z) (rows : list (Z * EventRow)) (evs : list Event) : Prop :=
  Forall2 (λ r e, decode_row ref r = Ok e) rows evs ∧
  ∀ i e, evs !! i = Some e → Event_Sequence e = wrapu64 (expected + Z.of_nat i).

Lemma loaded_nil ref expected : loaded ref expected [] [].
Proof. split; [constructor|]. intros i e. by rewrite lookup_nil. Qed.

Lemma loaded_cons ref expected r rows e evs :
  wrapu64 expected = expected → decode_row ref r = Ok e → Event_Sequence e = expected → loaded ref (wrapu64 (expected + 1)) rows evs →
  loaded ref expected (r :: rows) (e :: evs).
Proof.
  intros Hw Hr He [Hrows Hnum]. split; [by constructor|]. intros [|i] x; cbn [lookup list_lookup].
  - intros [= <-]. by rewrite Z.add_0_r, Hw.
  - intros Hx%Hnum. rewrite Hx. unfold wrapu64. rewrite Zplus_mod_idemp_l. f_equal. lia.
Qed.

Lemma load_rows_triple P ref expected rows :
  callless P → wrapu64 expected = expected →
  st_triple P (load_rows ref expected rows) (λ evs s, loaded ref expected rows evs ∧ P s) (λ _, P).
Proof.
  intros HP. revert expected. induction rows as [|r rows IH]; intros expected Hw; cbn [load_rows];
    (eapply st_triple_bind; [by apply wrap_st_triple, sql_call_triple|]; intros ?).
  { apply st_triple_ret. intros s Hs. split; [apply loaded_nil | done]. }
  unfold scanEvent. eapply (st_triple_bind _ _ (λ event s, decode_row ref r = Ok event ∧ P s)).
  - eapply st_triple_bind; [by apply wrap_st_triple, sql_call_triple|]. intros ?. by apply st_triple_lift.
  - intros event s [Hev Hs]. revert s Hs. apply st_triple_lift_bind; [done|]. intros [] Hseq. apply require_w_Ok, Z.eqb_eq in Hseq.
    eapply st_triple_bind; [apply IH; unfold wrapu64; apply Z.mod_mod; done|]. intros rest. apply st_triple_ret.
    intros s [Hrest Hs]. split; [by apply loaded_cons | done].
Qed.

Lemma Sqlite_Load_triple v t ctx ref after :
  0 <= after →
  st_triple (holds v t) (Sqlite_Load ctx ref after)
    (λ evs s, (valid_ref ref ∧ if int64_max <? after then evs = []
               else loaded ref (after + 1) (select_events (aggregate_key ref) after t) evs) ∧ holds v t s) (λ _, holds v t).
Proof.
  intros Ha. unfold Sqlite_Load. apply st_triple_lift_bind; [done|]. intros [] _.
  eapply st_triple_bind; [apply ready_triple|]. intros ?. apply st_triple_lift_bind; [done|]. intros [] Href.
  destruct (Z.ltb_spec int64_max after); [by apply st_triple_ret|].
  eapply (st_triple_bind _ _ (λ rows s, rows = select_events (aggregate_key ref) after t ∧ holds v t s)).
  { apply wrap_st_triple. eapply st_triple_conseq; [apply statement_triple | done | | done].
    cbn beta. intros rows s (t' & Ht & Hs). by simplify_eq. }
  intros rows s [-> Hs]. revert s Hs. rewrite wrapu64_id by (unfold_int64; lia).
  eapply st_triple_bind; [apply load_rows_triple; [apply holds_callless | apply wrapu64_id; unfold_int64; lia]|].
  intros evs. apply st_triple_ret. intros s [Hl Hs]. by split_and!.
Qed.

(** In sound tables the rows after a sequence are a suffix of the stream. *)
Lemma select_events_drop t ref after :
  tables_ok t → 0 <= after →
  select_events (aggregate_key ref) after t = drop (Z.to_nat after) (rows_of t (aggregate_key ref)).
Proof.
  intros Ht Ha. unfold select_events.
  assert (∀ rows k, (∀ i r, rows !! i = Some r → fst r = Z.of_nat (k + i) + 1) →
    filter (λ r : Z * EventRow, after < fst r) rows = drop (Z.to_nat after - k) rows) as Hgen.
  { induction rows as [|r rows IH]; intros k Hr; [by rewrite drop_nil|]. pose proof (Hr 0%nat r eq_refl) as H0.
    assert (filter (λ r : Z * EventRow, after < fst r) rows = drop (Z.to_nat after - S k) rows) as IH'.
    { apply IH. intros i x Hx. rewrite (Hr (S i) x Hx). f_equal. lia. }
    destruct (decide (after < fst r)) as [Hlt|Hge].
    - rewrite filter_cons_True, IH' by done. replace (Z.to_nat after - k)%nat with 0%nat by lia.
      replace (Z.to_nat after - S k)%nat with 0%nat by lia. by rewrite !drop_0.
    - rewrite filter_cons_False, IH' by done. replace (Z.to_nat after - k)%nat with (S (Z.to_nat after - S k)) by lia. done. }
  rewrite (Hgen _ 0%nat); [by rewrite Nat.sub_0_r|]. intros i r Hi. by apply (ro_decode t (tok_rows t Ht)) in Hi as [-> _].
Qed.

Lemma loaded_stream t ref after evs :
  tables_ok t → 0 <= after → loaded ref (after + 1) (select_events (aggregate_key ref) after t) evs →
  evs = drop (Z.to_nat after) (table_stream t ref).
Proof.
  intros Ht Ha [Hrows _]. rewrite select_events_drop in Hrows by done. unfold table_stream. rewrite <-fmap_drop.
  apply list_eq. intros i. rewrite list_lookup_fmap, lookup_drop.
  destruct (rows_of t (aggregate_key ref) !! (Z.to_nat after + i)%nat) as [r|] eqn:Er; cbn.
  - destruct (Forall2_lookup_l _ _ _ i r Hrows) as (e & -> & He); [by rewrite lookup_drop|].
    destruct (ro_decode t (tok_rows t Ht) _ _ _ Er) as [_ Hd]. congruence.
  - apply lookup_ge_None. rewrite <-(Forall2_length _ _ _ Hrows). apply lookup_ge_None. by rewrite lookup_drop.
Qed.

End loading.

(* ------------------------------------------------------------------ *)
(** ** A driver that does not fail *)

Section healthy.
Context `{Henv : SqlEnv, Hhealthy : !SqlHealthy, Hcodec : ProjectionCodec, Hquote : Quoting, Hpayload : PayloadDecoder}.

(** No error. *)
Abbreviation never := (λ (_ : error) (_ : SqlState), False).

Lemma never_fails {A} P (m : ST SqlState A) Q E : st_triple P m Q never → st_triple P m Q E.
Proof. intros Hm s Hs. specialize (Hm s Hs). by destruct (m s) as [[]]. Qed.

Lemma sql_call_live P : callless P → st_triple P sql_call (λ _, P) never.
Proof.
  intros HP s Hs. unfold sql_call, mbind, st_bind, st_get, st_modify, st_lift. rewrite sql_healthy. by apply HP.
Qed.

Lemma wrap_st_live {A} text P (m : ST SqlState A) Q : st_triple P m Q never → st_triple P (wrap_st text m) Q never.
Proof. apply (wrap_st_triple text P m Q (λ _, False)). Qed.

Lemma statement_live {A} (f : Tables → result (A * Tables)) v t a t' :
  f t = Ok (a, t') → st_triple (holds v t) (statement f) (λ b s, b = a ∧ holds v t' s) never.
Proof.
  intros Hf. unfold statement, on_database. eapply st_triple_bind; [apply sql_call_live, holds_callless|]. intros ? s [Ha Hfile].
  rewrite st_get_bind, Hfile. cbn [installed]. by rewrite Hf.
Qed.

Lemma map_context_live {A} ctx P (m : ST SqlState A) Q : st_triple P m Q never → st_triple P (map_context ctx m) Q never.
Proof.
  intros Hm s Hs. specialize (Hm s Hs). unfold map_context, mbind, st_bind, st_try. by destruct (m s) as [[a|e] s'].
Qed.

Lemma query_row_live {A} (f : Tables → option A) v t :
  st_triple (holds v t) (st_try (query_row f))
    (λ r s, r = match f t with Some a => Ok a | None => Err sql_ErrNoRows end ∧ holds v t s) never.
Proof.
  intros s Hs. pose proof (sql_call_live (holds v t) (holds_callless v t) s Hs) as Hcall.
  unfold st_try, query_row, statement, on_database. unfold mbind at 1, st_bind at 1.
  destruct (sql_call s) as [[n|e] s1]; [|done]. rewrite st_get_bind, (proj2 Hcall). cbn [installed].
  destruct (f t); (split; [done|]); [|exact Hcall]. split; [apply Hcall | done].
Qed.

Lemma ready_live v t : st_triple (holds v t) ready (λ _, holds v t) never.
Proof. intros s Hs. pose proof Hs as [(_ & _ & [busy Hbusy]) _]. unfold ready. by rewrite st_get_bind, Hbusy. Qed.

Lemma drafts_check_Ok drafts :
  Forall (λ d, EventDraft_Validate d = Ok tt) drafts → each (fun draft => wrapf "draft" (EventDraft_Validate draft)) drafts = Ok tt.
Proof. intros Hd. apply each_Ok. eapply Forall_impl; [exact Hd|]. intros d. by rewrite wrapf_Ok. Qed.

(** A stale version is a conflict with the version of the aggregate. *)
Lemma claim_stale v t ref expected n :
  0 <= version_of t ref → version_of t ref ≠ expected →
  st_triple (holds v t) (claim ref expected n) (λ _ _, False)
    (λ e s, e = VersionConflictError ref expected (version_of t ref) ∧ alive s).
Proof.
  intros H0 Hne. destruct (insert_version_keeps (aggregate_key ref) t) as (_ & _ & _ & Hv). specialize (Hv (aggregate_key ref)).
  set (t1 := insert_version (aggregate_key ref) t) in *.
  assert (aggregate_versions t1 !! aggregate_key ref = Some (version_of t ref)) as Hlookup.
  { unfold version_of, t1, insert_version in *. destruct (aggregate_versions t !! aggregate_key ref) eqn:E; [by rewrite E | by apply lookup_insert_eq]. }
  assert (claim_version (aggregate_key ref) n expected t1 = Ok (0, t1)) as Hclaim.
  { unfold claim_version. rewrite Hlookup. by rewrite (proj2 (Z.eqb_neq _ _) Hne). }
  unfold claim. eapply st_triple_bind.
  { by apply never_fails, wrap_st_live, (statement_live _ v t tt t1). }
  intros ? s [_ Hs]. revert s Hs. eapply st_triple_bind.
  { by apply never_fails, wrap_st_live, (statement_live _ v t1 0 t1). }
  intros rows s [-> Hs]. revert s Hs. cbn [negb Z.eqb]. eapply st_triple_bind.
  { apply never_fails, wrap_st_live, sql_call_live, (holds_callless v t1). }
  intros ?. unfold aggregateVersion.
  eapply (st_triple_bind _ _ (λ version s, version = version_of t ref ∧ holds v t1 s)).
  { eapply (st_triple_bind _ _ (λ version s, version = version_of t ref ∧ holds v t1 s)).
    - apply never_fails, wrap_st_live, (statement_live _ v t1 (version_of t ref) t1). by rewrite Hlookup.
    - intros version s [-> Hs]. destruct (Z.ltb_spec (version_of t ref) 0); [lia | done]. }
  intros version s [-> Hs]. split; [done | by eapply holds_alive].
Qed.

Lemma append_stale_triple v t ctx ref expected drafts :
  tables_ok t → (∀ n, ctx n = None) → valid_ref ref → Forall (λ d, EventDraft_Validate d = Ok tt) drafts → drafts ≠ [] →
  expected + Z.of_nat (length drafts) <= int64_max → expected ≠ version_of t ref →
  st_triple (holds v t) (Sqlite_Append (live_context ctx) ref expected drafts) (λ _ _, False)
    (λ e _, e = VersionConflictError ref expected (version_of t ref)).
Proof.
  intros Ht Hctx Href Hd Hne Hmax Hstale. unfold Sqlite_Append. cbn [live_context ctx_Err].
  eapply st_triple_lift_Ok; [by rewrite Hctx|]. eapply st_triple_bind; [apply never_fails, ready_live|]. intros busy.
  eapply st_triple_lift_Ok; [exact Href|]. eapply st_triple_lift_Ok; [by apply drafts_check_Ok|].
  destruct drafts as [|d ds] eqn:E; [done|]. rewrite <-E in *.
  assert (out_of_range expected drafts = false) as ->.
  { unfold out_of_range. apply orb_false_iff. split; apply Z.ltb_ge; lia. }
  eapply st_triple_lift_Ok; [done|].
  apply (st_triple_bind (holds v t) _ (λ _, holds v t)).
  { apply never_fails, map_context_live, wrap_st_live. unfold sql_Conn.
    eapply st_triple_bind; [apply sql_call_live, holds_callless|]. intros ?. by apply st_triple_ret. }
  intros connection. apply (st_triple_bind _ _ (λ _, holds v t)).
  { unfold boundBusyTimeout. cbn [live_context ctx_Deadline]. intros s Hs. unfold mbind, st_bind, mret, st_ret. rewrite Z.eqb_refl. done. }
  intros bounded. apply deferred_triple; [done | done|].
  apply (st_triple_bind _ _ (λ _, holds v t)).
  { apply never_fails, map_context_live, wrap_st_live. unfold sql_begin.
    eapply st_triple_bind; [apply sql_call_live, holds_callless|]. intros ?. by apply st_triple_ret. }
  intros ? s Hs. unfold transaction, append_transaction.
  assert (0 <= version_of t ref) as Hge by (rewrite (tok_version t Ht); lia).
  pose proof (claim_stale v t ref expected (Z.of_nat (length drafts)) Hge (not_eq_sym Hstale) s Hs) as Hclaim.
  unfold mbind at 1, st_bind at 1. destruct (claim _ _ _ s) as [[?|e] s']; [done|]. by destruct Hclaim.
Qed.

(** Rows that decode to consecutive events are loaded. *)
Lemma load_rows_live P ref expected rows evs :
  callless P → wrapu64 expected = expected → loaded ref expected rows evs →
  st_triple P (load_rows ref expected rows) (λ _, P) never.
Proof.
  intros HP. revert expected evs. induction rows as [|r rows IH]; intros expected evs Hw [Hrows Hnum]; cbn [load_rows];
    (eapply st_triple_bind; [by apply wrap_st_live, sql_call_live|]; intros ?); [by apply st_triple_ret|].
  inversion Hrows as [|? e ? evs' Hr Hrows']; subst. unfold scanEvent.
  eapply (st_triple_bind _ _ (λ event s, event = e ∧ P s)).
  - eapply st_triple_bind; [by apply wrap_st_live, sql_call_live|]. intros ? s Hs. by rewrite Hr.
  - intros event s [-> Hs]. revert s Hs. pose proof (Hnum 0%nat e eq_refl) as He. rewrite Z.add_0_r, Hw in He.
    rewrite He, Z.eqb_refl. intros s Hs. unfold mbind at 1, st_bind at 1, st_lift at 1. cbn [require_w]. revert s Hs.
    apply (st_triple_bind _ _ (λ _, P)); [|intros ?; by apply st_triple_ret]. apply (IH _ evs'); [unfold wrapu64; by apply Z.mod_mod|]. split; [done|].
    intros i x Hx. rewrite (Hnum (S i) x Hx). unfold wrapu64. rewrite Zplus_mod_idemp_l. f_equal. lia.
Qed.

Lemma load_live_triple v t ctx ref after :
  tables_ok t → (∀ n, ctx n = None) → valid_ref ref → 0 <= after →
  st_triple (holds v t) (Sqlite_Load (live_context ctx) ref after) (λ _, holds v t) never.
Proof.
  intros Ht Hctx Href Ha. unfold Sqlite_Load. cbn [live_context ctx_Err].
  eapply st_triple_lift_Ok; [by rewrite Hctx|]. eapply st_triple_bind; [apply ready_live|]. intros busy.
  eapply st_triple_lift_Ok; [exact Href|]. destruct (Z.ltb_spec int64_max after); [by apply st_triple_ret|].
  eapply (st_triple_bind _ _ (λ rows s, rows = select_events (aggregate_key ref) after t ∧ holds v t s)).
  { by eapply wrap_st_live, (statement_live _ v t _ t). }
  intros rows s [-> Hs]. revert s Hs. rewrite wrapu64_id by (unfold_int64; lia). rewrite select_events_drop by done.
  apply (st_triple_bind _ _ (λ _, holds v t)); [|intros ?; by apply st_triple_ret].
  apply (load_rows_live _ _ _ _ (drop (Z.to_nat after) (table_stream t ref))); [apply holds_callless | apply wrapu64_id; unfold_int64; lia|].
  unfold table_stream. rewrite <-fmap_drop. split.
  - apply Forall2_fmap_r, Forall2_same_length_lookup_2; [done|]. intros i r r' H1 H2. assert (r' = r) as -> by congruence. rewrite lookup_drop in H1.
    by apply (ro_decode t (tok_rows t Ht)) in H1 as [_ ?].
  - intros i e. rewrite list_lookup_fmap, lookup_drop. intros (r & Hr & ->)%fmap_Some.
    apply (ro_decode t (tok_rows t Ht)) in Hr as [Hr _]. cbn. rewrite Hr. f_equal. lia.
Qed.

End healthy.

(* ------------------------------------------------------------------ *)
(** ** The contract *)

(** A store whose database holds sound tables. *)
Definition sqlite_inv (s : SqlState) : Prop := ∃ v t, holds v t s ∧ tables_ok t.

Definition tables_of (s : SqlState) : Tables := default empty_tables (d ← sql_file s; installed d).

Definition sqlite_stream (s : SqlState) (ref : AggregateRef) : list Event := table_stream (tables_of s) ref.

Lemma holds_stream v t s : holds v t s → ∀ ref, sqlite_stream s ref = table_stream t ref.
Proof. intros [_ Hf] ref. unfold sqlite_stream, tables_of. by rewrite Hf. Qed.

Lemma table_stream_ok t ref : tables_ok t → stream_ok ref (table_stream t ref).
Proof.
  intros Ht i e. unfold table_stream. rewrite list_lookup_fmap. intros (r & Hr & ->)%fmap_Some.
  pose proof (lookup_lt_Some _ _ _ Hr) as Hlt. pose proof (ro_range t (tok_rows t Ht) ref) as Hrange.
  destruct (ro_decode t (tok_rows t Ht) _ _ _ Hr) as [Hn Hd]. apply decode_row_Ok in Hd as (_ & _ & _ & Hv); [|unfold_int64; lia].
  split_and!; [done | done|]. cbn. by rewrite Hn.
Qed.

Section contract.
Context `{Henv : SqlEnv, Hcodec : ProjectionCodec, Hquote : Quoting, Hpayload : PayloadDecoder}.

(** What an append does to a sound store. *)
Lemma Sqlite_Append_outcome ctx ref expected drafts s r s' :
  sqlite_inv s → Forall draft_typed drafts → Sqlite_Append ctx ref expected drafts s = (r, s') →
  sqlite_inv s' ∧
  match r with
  | Ok created =>
      valid_ref ref ∧ Forall (λ d, EventDraft_Validate d = Ok tt) drafts ∧
      (drafts ≠ [] → expected = Z.of_nat (length (sqlite_stream s ref))) ∧
      materialises ref (length (sqlite_stream s ref)) drafts created ∧
      sqlite_stream s' ref = sqlite_stream s ref ++ created ∧
      ∀ ref', ref' ≠ ref → sqlite_stream s' ref' = sqlite_stream s ref'
  | Err _ => ∀ ref', sqlite_stream s' ref' = sqlite_stream s ref'
  end.
Proof.
  intros (v & t & Hs & Ht) Hty H. pose proof (Sqlite_Append_triple v t ctx ref expected drafts Ht Hty s Hs) as Htriple.
  pose proof (holds_stream v t s Hs) as Hst. rewrite H in Htriple. destruct r as [created|e].
  - destruct Htriple as (Hr & Hd & Hcase). destruct drafts as [|d ds] eqn:E.
    + destruct Hcase as [-> Hs']. split; [by exists v, t|]. pose proof (holds_stream v t s' Hs') as Hst'.
      split_and!; try done; [by rewrite Hst', Hst, app_nil_r | intros ref' _; by rewrite Hst', Hst].
    + rewrite <-E in *. destruct Hcase as (t' & Hcom & Hs'). split; [exists v, t'; split; [done | apply Hcom]|].
      pose proof (holds_stream v t' s' Hs') as Hst'. destruct Hcom as [_ H1 H2 H3 H4 _]. rewrite !Hst, Hst'. split_and!; try done.
      intros ref' Hne. by rewrite Hst', Hst, H3.
  - split; [by exists v, t|]. intros ref'. by rewrite (holds_stream v t s'), Hst.
Qed.

Lemma Sqlite_Load_outcome ctx ref after s r s' :
  sqlite_inv s → 0 <= after → Sqlite_Load ctx ref after s = (r, s') →
  sqlite_inv s' ∧ (∀ ref', sqlite_stream s' ref' = sqlite_stream s ref') ∧
  match r with
  | Ok evs => valid_ref ref ∧ evs = drop (Z.to_nat after) (sqlite_stream s ref)
  | Err _ => True
  end.
Proof.
  intros (v & t & Hs & Ht) Ha H. pose proof (Sqlite_Load_triple v t ctx ref after Ha s Hs) as Htriple.
  rewrite H in Htriple. destruct r as [evs|e].
  - destruct Htriple as [[Hr Hevs] Hs']. split; [by exists v, t|]. split; [intros ref'; by rewrite (holds_stream v t s'), (holds_stream v t s)|].
    split; [done|]. rewrite (holds_stream v t s) by done. destruct (Z.ltb_spec int64_max after); [|by apply loaded_stream].
    subst. symmetry. apply drop_ge. rewrite length_table_stream. pose proof (ro_range t (tok_rows t Ht) ref). lia.
  - split; [by exists v, t|]. split; [|done]. intros ref'. by rewrite (holds_stream v t s'), (holds_stream v t s).
Qed.

Context `{Hhealthy : !SqlHealthy}.

#[global] Program Instance Sqlite_EventStoreSpec : EventStoreSpec SqlState :=
  {| stream := sqlite_stream; store_inv := sqlite_inv |}.
Next Obligation. intros s ref (v & t & Hs & Ht) _. rewrite (holds_stream v t) by done. by apply table_stream_ok. Qed.
Next Obligation.
  intros ctx ref expected drafts s created s' Hs Hty H. apply Sqlite_Append_outcome in H as (H1 & H2 & H3 & H4 & H5 & H6 & H7); [|done..].
  split_and!; try done. intros r _. apply H7.
Qed.
Next Obligation.
  intros ctx ref expected drafts s e s' Hs Hty H. apply Sqlite_Append_outcome in H as (H1 & H2); [|done..]. split; [done|]. intros r _. apply H2.
Qed.
Next Obligation.
  intros ctx ref expected drafts s (v & t & Hs & Ht) Hctx Hr Hd Hne Hmax Hstale.
  rewrite (holds_stream v t s Hs), length_table_stream, <-(tok_version t Ht) in *.
  pose proof (append_stale_triple v t ctx ref expected drafts Ht Hctx Hr Hd Hne Hmax Hstale s Hs) as H. cbn.
  destruct (Sqlite_Append _ _ _ _ _) as [[created|e] s']; [done|]. subst. by eexists.
Qed.
Next Obligation.
  intros ctx ref after s evs s' Hs Ha H. apply Sqlite_Load_outcome in H as (H1 & H2 & H3 & H4); [|done..]. split_and!; by try apply H2.
Qed.
Next Obligation.
  intros ctx ref after s e s' (v & t & Hs & Ht) H. destruct (calls_only_Load (live_context ctx) ref after s) as [n Hn].
  cbn in H. rewrite H in Hn. cbn in Hn. subst s'. split; [by exists v, t | done].
Qed.
Next Obligation.
  intros ctx ref after s (v & t & Hs & Ht) Hctx Hr Ha. pose proof (load_live_triple v t ctx ref after Ht Hctx Hr Ha s Hs) as H. cbn.
  by destruct (Sqlite_Load _ _ _ _) as [[evs|e] s'].
Qed.

End contract.

(* ------------------------------------------------------------------ *)
(** ** Failing changes nothing *)

Section atomicity.
Context `{Henv : SqlEnv, Hcodec : ProjectionCodec, Hquote : Quoting, Hpayload : PayloadDecoder}.

Definition file_is (d : option Database) (s : SqlState) : Prop := sql_file s = d.

(** [m] leaves the file alone. *)
Definition keeps_file {A} (m : ST SqlState A) : Prop := ∀ d, st_triple (file_is d) m (λ _, file_is d) (λ _, file_is d).

Lemma keeps_file_bind {A B} (m : ST SqlState A) (f : A → ST SqlState B) : keeps_file m → (∀ a, keeps_file (f a)) → keeps_file (m ≫= f).
Proof. intros Hm Hf d. eapply st_triple_bind; [apply Hm|]. intros a. apply Hf. Qed.
Lemma keeps_file_ret {A} (a : A) : keeps_file (mret a).
Proof. intros d. by apply st_triple_ret. Qed.
Lemma keeps_file_fail {A} e : keeps_file (A:=A) (st_fail e).
Proof. intros d. by apply st_triple_fail. Qed.
Lemma keeps_file_lift {A} (r : result A) : keeps_file (st_lift r).
Proof. intros d s Hs. by destruct r. Qed.
Lemma keeps_file_call : keeps_file sql_call.
Proof. intros d. apply sql_call_triple; [by intros ???|done]. Qed.
Lemma keeps_file_wrap {A} text (m : ST SqlState A) : keeps_file m → keeps_file (wrap_st text m).
Proof. intros Hm d. by apply wrap_st_triple. Qed.
Lemma keeps_file_world {A} (m : ST World A) : keeps_file (on_world m).
Proof. intros d s Hs. unfold on_world. by destruct (m _) as [[a|e] w]. Qed.
Lemma keeps_file_ready : keeps_file ready.
Proof. intros d s Hs. unfold ready. rewrite st_get_bind. by destruct (sql_store s). Qed.
Lemma keeps_file_busy connection millis : keeps_file (set_busy_timeout connection millis).
Proof. apply keeps_file_bind; [apply keeps_file_call|]. by intros ? d s Hs. Qed.

Lemma keeps_file_map_context {A} ctx (m : ST SqlState A) : keeps_file m → keeps_file (map_context ctx m).
Proof.
  intros Hm. apply keeps_file_bind.
  { intros d s Hs. specialize (Hm d s Hs). unfold st_try. by destruct (m s) as [[a|e] s']. }
  intros [a|e]; [apply keeps_file_ret|]. apply keeps_file_bind; [|intros ?; apply keeps_file_fail].
  unfold mapContextError. destruct (ctx_Err ctx 1%nat); [apply keeps_file_ret|]. destruct (ctx_Deadline ctx); [|apply keeps_file_ret].
  apply keeps_file_bind; [apply keeps_file_world|]. intros ?. apply keeps_file_ret.
Qed.

Lemma keeps_file_bound ctx busy connection : keeps_file (boundBusyTimeout ctx busy connection).
Proof.
  apply keeps_file_bind.
  - destruct (ctx_Deadline ctx); [|apply keeps_file_ret]. apply keeps_file_bind; [apply keeps_file_world|]. intros ?. cbn zeta.
    destruct (_ <=? 0); [apply keeps_file_fail | apply keeps_file_ret].
  - intros millis. destruct (_ =? _); [apply keeps_file_ret|]. apply keeps_file_bind; [|intros ?; apply keeps_file_ret].
    apply keeps_file_map_context, keeps_file_wrap, keeps_file_busy.
Qed.

Lemma restore_keeps_file bounded busy connection s : sql_file (restoreBusyTimeout bounded busy connection s) = sql_file s.
Proof.
  unfold restoreBusyTimeout. destruct bounded; [|done]. pose proof (keeps_file_busy connection busy (sql_file s) s eq_refl) as H.
  by destruct (set_busy_timeout connection busy s) as [[]].
Qed.

(** C13. An append that fails, for whatever reason and at whatever point, leaves the
    database file as it was: a version conflict, a projection that does not
    apply, a full disk, a cancelled context or a failed commit undo the claim of
    the version, the inserted events and the projection together. *)
Theorem Sqlite_Append_atomic ctx ref expected drafts s e s' :
  Sqlite_Append ctx ref expected drafts s = (Err e, s') → sql_file s' = sql_file s.
Proof.
  enough (st_triple (file_is (sql_file s)) (Sqlite_Append ctx ref expected drafts) (λ _ _, True) (λ _, file_is (sql_file s))) as Ht.
  { intros H. specialize (Ht s eq_refl). by rewrite H in Ht. }
  unfold Sqlite_Append. eapply st_triple_bind; [apply keeps_file_lift|]. intros ?.
  eapply st_triple_bind; [apply keeps_file_ready|]. intros busy. eapply st_triple_bind; [apply keeps_file_lift|]. intros ?.
  eapply st_triple_bind; [apply keeps_file_lift|]. intros ?. destruct drafts; [by apply st_triple_ret|].
  eapply st_triple_bind; [apply keeps_file_lift|]. intros ?. eapply st_triple_bind.
  { apply keeps_file_map_context, keeps_file_wrap. apply keeps_file_bind; [apply keeps_file_call|]. intros ?. apply keeps_file_ret. }
  intros connection. eapply st_triple_bind; [apply keeps_file_bound|]. intros bounded.
  apply deferred_triple; [done | intros ? s0 Hs0; unfold file_is; by rewrite restore_keeps_file|].
  eapply st_triple_bind.
  { apply keeps_file_map_context, keeps_file_wrap. apply keeps_file_bind; [apply keeps_file_call|]. intros ?. apply keeps_file_ret. }
  intros ? s0 Hs0. unfold transaction. by destruct (append_transaction _ _ _ s0) as [[]].
Qed.

(* ------------------------------------------------------------------ *)
(** ** Runs of the store *)

(** One call of a store method, successful or not. *)
Inductive sqlite_step : SqlState → SqlState → Prop :=
| sqlite_append ctx ref expected drafts r s s' :
    Forall draft_typed drafts → Sqlite_Append ctx ref expected drafts s = (r, s') → sqlite_step s s'
| sqlite_load ctx ref after r s s' :
    Sqlite_Load ctx ref after s = (r, s') → sqlite_step s s'
| sqlite_load_projection ctx ref r s s' :
    Sqlite_LoadWorkloadProjection ctx ref s = (r, s') → sqlite_step s s'.

Lemma calls_only_same s n : sqlite_inv s → sqlite_inv {| s with sql_calls := n |} ∧ ∀ ref, sqlite_stream {| s with sql_calls := n |} ref = sqlite_stream s ref.
Proof. intros (v & t & Hs & Ht). split; [by exists v, t | done]. Qed.

Lemma sqlite_step_inv s s' :
  sqlite_inv s → sqlite_step s s' → sqlite_inv s' ∧ ∀ ref, sqlite_stream s ref `prefix_of` sqlite_stream s' ref.
Proof.
  intros Hs Hstep. revert Hs. destruct Hstep as [ctx ref expected drafts r s0 s1 Hty H | ctx ref after r s0 s1 H | ctx ref r s0 s1 H]; intros Hs.
  - apply Sqlite_Append_outcome in H as [Hs' H]; [|done..]. split; [done|]. intros ref'. destruct r as [created|e]; [|by rewrite H].
    destruct H as (_ & _ & _ & _ & Happ & Hother). destruct (decide (ref' = ref)) as [->|Hne].
    + rewrite Happ. by apply prefix_app_r.
    + by rewrite Hother.
  - destruct (calls_only_Load ctx ref after s0) as [n Hn]. rewrite H in Hn. cbn in Hn. subst s1.
    destruct (calls_only_same s0 n Hs) as [Hs' Hst]. split; [done|]. intros ref'. by rewrite Hst.
  - destruct (calls_only_LoadWorkloadProjection ctx ref s0) as [n Hn]. rewrite H in Hn. cbn in Hn. subst s1.
    destruct (calls_only_same s0 n Hs) as [Hs' Hst]. split; [done|]. intros ref'. by rewrite Hst.
Qed.

Lemma sqlite_run_inv s s' :
  sqlite_inv s → rtc sqlite_step s s' → sqlite_inv s' ∧ ∀ ref, sqlite_stream s ref `prefix_of` sqlite_stream s' ref.
Proof.
  intros Hs H. induction H as [|a b c Hab _ IH]; [done|]. destruct (sqlite_step_inv _ _ Hs Hab) as [Hb Hp].
  destruct (IH Hb) as [Hc Hq]. split; [done|]. intros ref. etransitivity; [apply Hp | apply Hq].
Qed.

(** C16. In every run of the store, with whatever failures of the database, each
    stream only grows at its end, and at any moment its events are valid, belong
    to their aggregate, are numbered 1, 2, 3, ..., carry identifiers no other
    event of the store has, and are as many as the version of the aggregate. *)
Theorem sqlite_store_append_only s s' :
  sqlite_inv s → rtc sqlite_step s s' →
  (∀ ref, sqlite_stream s ref `prefix_of` sqlite_stream s' ref) ∧ (∀ ref, stream_ok ref (sqlite_stream s' ref)) ∧
  (∀ ref i e ref' i' e', sqlite_stream s' ref !! i = Some e → sqlite_stream s' ref' !! i' = Some e' →
     Event_ID e = Event_ID e' → ref = ref' ∧ i = i') ∧
  ∀ ref, version_of (tables_of s') ref = Z.of_nat (length (sqlite_stream s' ref)).
Proof.
  intros Hs H. apply sqlite_run_inv in H as [(v & t & Hs' & Ht) Hp]; [|done]. pose proof (holds_stream v t s' Hs') as Hst. split_and!.
  - done.
  - intros ref. rewrite Hst. by apply table_stream_ok.
  - intros ref i e ref' i' e'. rewrite !Hst. unfold table_stream. rewrite !list_lookup_fmap.
    intros (r & Hr & ->)%fmap_Some (r' & Hr' & ->)%fmap_Some Hid. by eapply (ro_unique t (tok_rows t Ht)).
  - intros ref. rewrite Hst, length_table_stream, <-(tok_version t Ht). destruct Hs' as [_ Hf]. unfold tables_of. by rewrite Hf.
Qed.

Lemma query_tables {A} (f : Tables → A) :
  ∀ d, st_triple (file_is d) (query f) (λ a _, a = f (default empty_tables (d ≫= installed))) (λ _ _, True).
Proof.
  intros d. unfold query, statement, on_database. eapply st_triple_bind.
  { apply (sql_call_triple (file_is d)); [by intros ???|done]. }
  intros ? s Hs. rewrite st_get_bind, Hs. destruct d as [[version [t|]]|]; done.
Qed.

(** A load verifies what it reads, whatever the database holds: the rows of the
    aggregate after the requested sequence are exactly the rows of the events it
    returns, which are valid, belong to the aggregate and follow each other from
    that sequence on without a gap.  A row that is anything else is an error. *)
Theorem Sqlite_Load_verified ctx ref after s evs s' :
  0 <= after <= int64_max →
  (∀ r, r ∈ rows_of (tables_of s) (aggregate_key ref) → is_int64 (fst r) ∧ is_int64 (Row_occurred_at_ns (snd r))) →
  Sqlite_Load ctx ref after s = (Ok evs, s') →
  select_events (aggregate_key ref) after (tables_of s) = (λ e, (Event_Sequence e, event_row e)) <$> evs ∧
  ∀ i e, evs !! i = Some e → Event_Validate e = Ok tt ∧ Event_Aggregate e = ref ∧ Event_Sequence e = wrapu64 (after + 1 + Z.of_nat i).
Proof.
  intros Ha Hwidth H.
  assert (loaded ref (after + 1) (select_events (aggregate_key ref) after (tables_of s)) evs) as [Hrows Hnum].
  { enough (st_triple (file_is (sql_file s)) (Sqlite_Load ctx ref after)
      (λ evs _, loaded ref (after + 1) (select_events (aggregate_key ref) after (tables_of s)) evs) (λ _ _, True)) as Ht.
    { specialize (Ht s eq_refl). by rewrite H in Ht. }
    unfold Sqlite_Load. apply st_triple_lift_bind; [done|]. intros ? _.
    eapply st_triple_bind; [eapply st_triple_conseq; [apply keeps_file_ready | done | done | done]|]. intros ?.
    apply st_triple_lift_bind; [done|]. intros ? _. destruct (Z.ltb_spec int64_max after); [lia|].
    eapply st_triple_bind; [apply wrap_st_triple, query_tables|]. intros rows s0 ->. generalize s0 (I : True).
    change (st_triple (λ _, True) (events ← load_rows ref (wrapu64 (after + 1)) (select_events (aggregate_key ref) after (tables_of s));
      mret (sqlite_cloneEvents events)) (λ evs _, loaded ref (after + 1) (select_events (aggregate_key ref) after (tables_of s)) evs) (λ _ _, True)).
    rewrite wrapu64_id by (unfold_int64; lia).
    eapply st_triple_bind; [by apply (load_rows_triple (λ _, True)); [|apply wrapu64_id; unfold_int64; lia]|].
    intros found. apply st_triple_ret. by intros ? []. }
  assert (∀ r e, r ∈ select_events (aggregate_key ref) after (tables_of s) → decode_row ref r = Ok e →
    Event_Validate e = Ok tt ∧ Event_Aggregate e = ref ∧ r = (Event_Sequence e, event_row e)) as Hrow.
  { intros r e [_ Hin]%list_elem_of_filter Hd. destruct (Hwidth r Hin) as [W1 W2]. pose proof (row_exact ref r W1 W2) as Hexact.
    rewrite Hd in Hexact. naive_solver. }
  split.
  - clear Hnum H. induction Hrows as [|r e rows evs Hd Hrows IH]; [done|]. cbn [fmap list_fmap].
    destruct (Hrow r e) as (_ & _ & ->); [by left | done|]. f_equal. apply IH. intros r' e' Hin. apply Hrow. by right.
  - intros i e He. destruct (Forall2_lookup_r _ _ _ _ _ Hrows He) as (r & Hr & Hd).
    destruct (Hrow r e) as (Hv & Hagg & _); [by eapply list_elem_of_lookup_2 | done|]. split_and!; [done..|]. by apply Hnum.
Qed.

End atomicity.
