(* ===== verification/SqliteProjection.v ===== *)
(** * The persisted workload projection is the replayed one

    The store keeps, next to the events of a workload, a JSON document of its
    projection, updated in the transaction of every append.  Here it is shown
    to be what replaying the events gives, for projections JSON encodes
    faithfully. *)

From Stdlib Require Import ZArith Lia.
From S2P Require Import Prelude GoNum GoText GoJson GoHash Ident Domain Event Store MemoryStore Model Policy Routing LoopTypes Execution Projection Sqlite SqliteSpec SqliteContract.

(** Projections that encoding/json encodes faithfully: it replaces invalid UTF-8
    and compacts raw JSON, so not every value comes back as it was. *)
Class ProjectionLaws `{ProjectionCodec} := {
  faithful : WorkloadProjection → Prop;
  faithful_roundtrip p document : faithful p → marshal_projection p = Ok document → decode_projection document = Ok (p, TrailEOF);
}.

Section projections.
Context `{Henv : SqlEnv, Hcodec : ProjectionCodec, Hlaws : !ProjectionLaws, Hquote : Quoting, Hpayload : PayloadDecoder}.

(** Every projection on the way of a stream is encoded faithfully. *)
Definition faithful_stream (ref : AggregateRef) (l : list Event) : Prop :=
  ∀ n p, (0 < n <= length l)%nat → apply_all Apply (take n l) (empty_projection ref) = (None, p) → faithful p.

(** The row holds the replay of the stream, or there is neither. *)
Definition projection_replayed (t : Tables) (ref : AggregateRef) : Prop :=
  match workload_projections t !! aggregate_key ref with
  | None => table_stream t ref = []
  | Some row => table_stream t ref ≠ [] ∧ ∃ p,
      apply_all Apply (table_stream t ref) (empty_projection ref) = (None, p) ∧
      Row_sequence row = Z.of_nat (length (table_stream t ref)) ∧ sha256Hex (Row_document row) = Row_document_sha256 row ∧
      decode_stored (Row_document row) = Ok p
  end.

Definition projections_ok (t : Tables) : Prop :=
  ∀ ref, Ref_Type ref = WorkloadAggregateType → faithful_stream ref (table_stream t ref) → projection_replayed t ref.

Lemma apply_created_all created p p' : apply_created created p = Ok p' ↔ apply_all Apply created p = (None, p').
Proof.
  revert p. induction created as [|e created IH]; intros p; cbn [apply_created apply_all]; [naive_solver|].
  destruct (Apply e p) as [[u|er] p1]; [apply IH | done].
Qed.

Lemma decode_stored_Ok document p : decode_projection document = Ok (p, TrailEOF) → decode_stored document = Ok p.
Proof. intros H. unfold decode_stored, decodeStrict. by rewrite H. Qed.

Lemma faithful_stream_prefix ref l l' : faithful_stream ref (l ++ l') → faithful_stream ref l.
Proof. intros H n p Hn Hp. apply (H n p); [rewrite length_app; lia|]. by rewrite take_app_le by lia. Qed.

(** The projection an append starts from is the replay of the stream. *)
Lemma prior_projection_replay t ref p :
  tables_ok t → projection_replayed t ref → prior_projection t ref (Z.of_nat (length (table_stream t ref))) p →
  apply_all Apply (table_stream t ref) (empty_projection ref) = (None, p).
Proof.
  intros Ht Hrow [[Hzero Hnew]|(row & Hlookup & _ & _ & _ & Hd & _ & _)].
  - assert (table_stream t ref = []) as -> by (apply length_zero_iff_nil; lia). unfold NewWorkloadProjection in Hnew.
    rewrite !seq_Ok in Hnew. destruct Hnew as (_ & _ & [= <-]). done.
  - unfold projection_replayed in Hrow. rewrite Hlookup in Hrow. destruct Hrow as (_ & q & Hq & _ & _ & Hd'). congruence.
Qed.

(** A committed append keeps the projections. *)
Lemma committed_projections ref expected drafts t t' created :
  tables_ok t → projections_ok t → drafts ≠ [] → committed ref expected drafts t t' created → projections_ok t'.
Proof.
  intros Ht Hp Hne [Ht' Hexp Hstream Hothers [Hd _] Hproj] ref' Hty Hfaith.
  unfold projected in Hproj. destruct (decide (ref' = ref)) as [->|Hother].
  - rewrite Hty, seqb_refl in Hproj. destruct Hproj as (p & p' & document & Hprior & Happ & Hm & Hrows).
    rewrite Hstream in Hfaith. pose proof (Hp ref Hty (faithful_stream_prefix _ _ _ Hfaith)) as Hrow.
    rewrite Hexp in Hprior. apply (prior_projection_replay t ref p Ht Hrow) in Hprior.
    apply apply_created_all in Happ. unfold projection_replayed. rewrite Hrows, lookup_insert_eq, Hstream.
    assert (apply_all Apply (table_stream t ref ++ created) (empty_projection ref) = (None, p')) as Hall.
    { by rewrite (apply_all_readonly_prefix _ _ _ _ _ Hprior). }
    assert (created ≠ []) as Hcreated by (intros ->; by destruct drafts).
    assert (length created ≠ 0%nat) as Hlen by (by rewrite length_zero_iff_nil).
    split; [intros [_ ?]%app_eq_nil; done|]. exists p'. split_and!; [done | | done|].
    + cbn. pose proof (ro_range t' (tok_rows t' Ht') ref) as Hrange. rewrite <-length_table_stream, Hstream in Hrange.
      pose proof (apply_all_version _ _ _ Hall) as Hver. cbn [empty_projection Projection_Version] in Hver. rewrite Hver by (unfold_int64; lia). lia.
    + cbn. apply decode_stored_Ok, faithful_roundtrip; [|done].
      apply (Hfaith (length (table_stream t ref ++ created)) p'); [rewrite length_app; lia|]. by rewrite take_ge.
  - rewrite Hothers in Hfaith by done. pose proof (Hp ref' Hty Hfaith) as Hrow. unfold projection_replayed in *.
    rewrite Hothers by done. destruct (Ref_Type ref =s WorkloadAggregateType).
    + destruct Hproj as (p & p' & document & _ & _ & _ & ->). rewrite lookup_insert_ne; [done|].
      intros E%aggregate_key_inj. congruence.
    + by rewrite Hproj.
Qed.

Lemma sqlite_run_projections s s' :
  sqlite_inv s → projections_ok (tables_of s) → rtc sqlite_step s s' → sqlite_inv s' ∧ projections_ok (tables_of s').
Proof.
  intros Hs Hp H. induction H as [|a b c Hab _ IH]; [done|].
  assert (projections_ok (tables_of b)) as Hb.
  { clear IH. revert Hs Hp. destruct Hab as [ctx ref expected drafts r s0 s1 Hty H | ctx ref after r s0 s1 H | ctx ref r s0 s1 H]; intros (v & t & Hs & Ht) Hp.
    - assert (tables_of s0 = t) as Et by (unfold tables_of; by rewrite (proj2 Hs)). rewrite Et in Hp.
      pose proof (Sqlite_Append_triple v t ctx ref expected drafts Ht Hty s0 Hs) as Htriple. rewrite H in Htriple.
      assert (∀ t', holds v t' s1 → tables_of s1 = t') as Et' by (intros t' [_ Hf]; unfold tables_of; by rewrite Hf).
      destruct r as [created|e]; [|by rewrite (Et' t)]. destruct Htriple as (_ & _ & Hcase).
      destruct drafts as [|d ds] eqn:E; [destruct Hcase as [_ Hs1]; by rewrite (Et' t)|].
      destruct Hcase as (t' & Hcom & Hs1). rewrite (Et' t') by done. by eapply committed_projections; [| | |exact Hcom].
    - destruct (calls_only_Load ctx ref after s0) as [n Hn]. rewrite H in Hn. cbn in Hn. by subst s1.
    - destruct (calls_only_LoadWorkloadProjection ctx ref s0) as [n Hn]. rewrite H in Hn. cbn in Hn. by subst s1. }
  apply IH; [by eapply sqlite_step_inv | done].
Qed.

(** What a nonempty replay that succeeds gives: the projection of the aggregate, at
    the length of the stream, of a workload that was created. *)
Lemma replay_identity ref l p :
  apply_all Apply l (empty_projection ref) = (None, p) → l ≠ [] → Z.of_nat (length l) <= int64_max →
  Projection_Aggregate p = ref ∧ Projection_Version p = Z.of_nat (length l) ∧ Workload_ID (Projection_Workload p) = Ref_ID ref.
Proof.
  intros Ha Hne Hlen. destruct (apply_all_projection _ _ _ _ (empty_projection_ok ref) Ha) as [Hp Hagg]. split; [exact Hagg|].
  pose proof (apply_all_version _ _ _ Ha) as Hver. cbn [empty_projection Projection_Version] in Hver.
  rewrite Hver by (unfold_int64; lia). split; [lia|].
  destruct (decide (Workload_ID (Projection_Workload p) = "")) as [E|E]; [|by destruct (po_workload _ Hp E) as (-> & _); rewrite Hagg].
  exfalso. destruct l as [|e l _] using rev_ind; [done|]. rewrite apply_all_app in Ha.
  destruct (apply_all Apply l (empty_projection ref)) as [[err|] p0] eqn:E0; [done|]. cbn [apply_all] in Ha.
  destruct (apply_all_projection _ _ _ _ (empty_projection_ok ref) E0) as [Hp0 Hagg0].
  destruct (Apply e p0) as [[u|err] p1] eqn:Ea; [|done]. injection Ha as <-.
  apply Apply_Ok in Ea as (Hr & _ & _ & _ & _ & p1' & Hc & ->). cbn in E.
  destruct Hc as [p0 w H1 H2 H3|p0 w H1 H2|p0 s H1|p0 s s' key H1|p0 r event step H1]; cbn in E.
  - rewrite H3 in E. apply AggregateRef_Validate_Ok in Hr as [_ Hr]. by apply ID_Validate_nonempty in Hr.
  - by rewrite (proj1 (workload_step_kept _ _ H2)) in E.
  - done.
  - done.
  - destruct (po_fresh _ Hp0 E) as (E1 & _). by rewrite E1 in H1.
Qed.

(* ------------------------------------------------------------------ *)
(** ** The two ways to a projection *)

Context `{Hhealthy : !SqlHealthy}.

(** Reading the row of a store that holds the replay. *)
Lemma Sqlite_LoadWorkloadProjection_live v t ctx ref :
  tables_ok t → projection_replayed t ref → (∀ n, ctx n = None) → valid_ref ref → Ref_Type ref = WorkloadAggregateType →
  st_triple (holds v t) (Sqlite_LoadWorkloadProjection (live_context ctx) ref)
    (λ q _, apply_all Apply (table_stream t ref) (empty_projection ref) = (None, q) ∧ table_stream t ref ≠ [])
    (λ e _, table_stream t ref = [] ∧ errors_Is e "aggregate not found" = true).
Proof.
  intros Ht Hrow Hctx Href Hty. unfold Sqlite_LoadWorkloadProjection. cbn [live_context ctx_Err].
  eapply st_triple_lift_Ok; [by rewrite Hctx|]. eapply st_triple_bind; [apply never_fails, ready_live|]. intros busy.
  eapply st_triple_lift_Ok; [exact Href|]. eapply st_triple_lift_Ok; [by rewrite Hty, seqb_refl|].
  eapply st_triple_bind; [apply never_fails, query_row_live|]. intros found s [-> Hs]. revert s Hs. unfold projection_replayed in Hrow.
  destruct (workload_projections t !! aggregate_key ref) as [row|]; [|by apply st_triple_fail].
  destruct Hrow as (Hne & p & Hp & Hseq & Hsha & Hd). pose proof (ro_range t (tok_rows t Ht) ref) as Hrange.
  rewrite <-length_table_stream in Hrange. destruct (replay_identity ref _ p Hp Hne Hrange) as (Hagg & Hver & Hid).
  assert (length (table_stream t ref) ≠ 0%nat) as Hlen by (by rewrite length_zero_iff_nil).
  eapply st_triple_lift_Ok.
  { rewrite Hseq, Hsha, seqb_refl. destruct (Z.ltb_spec (Z.of_nat (length (table_stream t ref))) 1); [lia | done]. }
  eapply st_triple_lift_Ok; [exact Hd|]. eapply st_triple_lift_Ok.
  { rewrite Hagg, bool_decide_eq_true_2 by done. rewrite Hver, Hseq, Hid, seqb_refl, wrapu64_id by (unfold_int64; lia). by rewrite Z.eqb_refl. }
  apply st_triple_ret. intros s Hs. split; [|done]. unfold cloneProjection, clone_step. rewrite Hp. f_equal.
  destruct p as [agg version w steps execution]. cbn. f_equal. by rewrite map_fmap_id.
Qed.

(** C21. The persisted projection is the replayed one: in every run of a store that
    starts with sound tables, whatever was refused on the way, loading the projection
    of a workload gives what [LoadWorkloadProjection] makes of its events, or
    both find that there is no such workload; in particular every stored
    workload stream applies without an error. *)
Theorem sqlite_projection_replayed s s' ref ctx load_ctx replay_ctx :
  sqlite_inv s → projections_ok (tables_of s) → rtc sqlite_step s s' →
  valid_ref ref → Ref_Type ref = WorkloadAggregateType → faithful_stream ref (sqlite_stream s' ref) →
  (∀ n, ctx n = None) → (∀ n, load_ctx n = None) → (∀ n, replay_ctx n = None) →
  match fst (Sqlite_LoadWorkloadProjection (live_context ctx) ref s'), fst (LoadWorkloadProjection load_ctx replay_ctx ref s') with
  | Ok q, Ok q' => q = q' ∧ apply_all Apply (sqlite_stream s' ref) (empty_projection ref) = (None, q) ∧
                   Projection_Version q = Z.of_nat (length (sqlite_stream s' ref))
  | Err e, Err e' => sqlite_stream s' ref = [] ∧ errors_Is e "aggregate not found" = true ∧ errors_Is e' "aggregate not found" = true
  | _, _ => False
  end.
Proof.
  intros Hs Hp Hrun Href Hty Hfaith Hc Hl Hr. destruct (sqlite_run_projections s s' Hs Hp Hrun) as [Hs' Hp'].
  pose proof Hs' as (v & t & Hh & Ht). assert (tables_of s' = t) as Et by (unfold tables_of; by rewrite (proj2 Hh)).
  pose proof (holds_stream v t s' Hh ref) as Hst. rewrite Et in Hp'. rewrite Hst in *. pose proof (Hp' ref Hty Hfaith) as Hrow.
  pose proof (Sqlite_LoadWorkloadProjection_live v t ctx ref Ht Hrow Hc Href Hty s' Hh) as Hlive.
  pose proof (ro_range t (tok_rows t Ht) ref) as Hrange. rewrite <-length_table_stream in Hrange.
  pose proof (LoadWorkloadProjection_outcome (S:=SqlState)) as Hout.
  destruct (Hout load_ctx replay_ctx ref s' Hs' Hl Hr Href Hty) as (s2 & r & E & _ & _ & Hr').
  { cbn. rewrite Hst. unfold_int64. lia. }
  cbn in Hr'. rewrite Hst in Hr'. rewrite E. cbn [fst].
  destruct (Sqlite_LoadWorkloadProjection (live_context ctx) ref s') as [[q|e] s3]; cbn [fst].
  - destruct Hlive as [Hq Hne]. rewrite Hq in Hr'. destruct r as [q'|e']; [|by destruct Hr' as [?|[? _]]].
    destruct Hr' as (_ & -> & _ & _ & Hver). done.
  - destruct Hlive as [Hnil He]. rewrite Hnil in Hr'. cbn in Hr'. destruct r as [q'|e']; [by destruct Hr' as (_ & _ & ? & _)|].
    destruct Hr' as [?|[_ ?]]; [done|]. by rewrite Hnil.
Qed.

End projections.
