(* ===== verification/SqliteOpen.v ===== *)
(** * Opening a SQLite store: src/store/sqlite/store.go

    [OpenWithOptions], the schema versions, the settings and the creation and
    removal of the database file. *)

From Stdlib Require Import ZArith Lia Ascii.
From S2P Require Import Prelude GoNum GoText GoJson GoHash Ident Domain Event Store MemoryStore Model Policy Routing LoopTypes Execution Projection Sqlite SqliteSpec SqliteContract.

Record Options : Type := { Options_BusyTimeout : Z; Options_MaxOpenConnections : Z }.

Record Diagnostics : Type := {
  Diagnostics_JournalMode : string;
  Diagnostics_ForeignKeys : bool;
  Diagnostics_BusyTimeout : Z;
  Diagnostics_SchemaVersion : Z;
}.

(** A file just created. *)
Definition new_database : Database := {| user_version := 0; installed := None |}.

(** The path of [databaseURL]: a drive letter is not the host of the URL. *)
Definition databaseURL_path (uriPath : string) : string :=
  match uriPath with
  | String _ (String ":"%char (String "/"%char _)) => "/" +:+ uriPath
  | _ => uriPath
  end.

(** [CREATE TABLE ...] three times: it fails if they exist. *)
Definition schemaV1 (d : Database) : result (unit * Database) :=
  match installed d with
  | Some _ => Err (errors_New "table already exists")
  | None => Ok (tt, {| d with installed := Some empty_tables |})
  end.

Definition set_user_version (v : Z) (d : Database) : result (unit * Database) := Ok (tt, {| d with user_version := v |}).
Definition get_user_version (d : Database) : result (Z * Database) := Ok (user_version d, d).

Section opening.
Context `{Henv : SqlEnv}.
Abbreviation SM := (ST SqlState) (only parsing).

(** [os.OpenFile] with O_CREATE and O_EXCL, and the closing of the new file:
    whether it was created. *)
Definition ensureDatabaseFile : SM bool :=
  opened ← st_try sql_call;
  match opened with
  | Err err => if errors_Is err "file already exists" then mret false else st_fail (Errorf "create SQLite database" [err])
  | Ok _ =>
      s ← st_get;
      match sql_file s with
      | Some _ => mret false
      | None =>
          st_modify (fun s => {| s with sql_file := Some new_database |}) ;;
          wrap_st "close new SQLite database" sql_call ;;
          mret true
      end
  end.

(** [cleanupNewDatabase]: the removal of the file and of its two companions, whose
    errors are dropped. *)
Definition cleanupNewDatabase (created : bool) : SM unit :=
  if created
  then
    removed ← st_try sql_call;
    match removed with
    | Ok _ => st_modify (fun s => {| s with sql_file := None |})
    | Err _ => mret tt
    end ;;
    st_try sql_call ;;
    st_try sql_call ;;
    mret tt
  else mret tt.

Definition inspectSchemaVersion : SM Z :=
  wrap_st "open SQLite schema probe" sql_call ;;
  wrap_st "read SQLite schema version" (on_database get_user_version).

(** [Diagnostics], on one connection. *)
Definition Store_Diagnostics (ctx : Context) : SM Diagnostics :=
  st_lift (check_ctx (ctx_Err ctx 0%nat)) ;;
  busyMillis ← ready;
  connection ← sql_Conn;
  n ← sql_call;
  let journalMode := pragma_journal_mode n in
  n ← sql_call;
  let foreignKeys := pragma_foreign_keys n in
  sql_call ;;
  s ← st_get;
  let connectionMillis := default busyMillis (sql_busy s !! connection) in
  version ← on_database get_user_version;
  mret {| Diagnostics_JournalMode := strings_ToLower journalMode;
          Diagnostics_ForeignKeys := foreignKeys =? 1;
          Diagnostics_BusyTimeout := mul64 connectionMillis (10 ^ 6);
          Diagnostics_SchemaVersion := version |}.

(** The transaction of [initialize]: migrations only go forward. *)
Definition migrate : SM unit :=
  version ← wrap_st "read SQLite schema version" (on_database get_user_version);
  st_lift (require_w (negb (currentSchemaVersion <? version)) ErrFutureSchema "database version") ;;
  version ← (if version =? 0
             then wrap_st "install SQLite schema version 1" (on_database schemaV1) ;;
                  wrap_st "record SQLite schema version 1" (on_database (set_user_version 1)) ;;
                  mret 1
             else mret version);
  st_lift (require (version =? currentSchemaVersion) "unsupported SQLite schema version") ;;
  wrap_st "commit SQLite schema initialization" sql_commit.

Definition initialize (ctx : Context) : SM unit :=
  wrap_st "begin SQLite schema initialization" sql_begin ;;
  transaction migrate ;;
  diagnostics ← wrap_st "verify SQLite settings" (Store_Diagnostics ctx);
  st_lift (require ((Diagnostics_JournalMode diagnostics =s "wal") && Diagnostics_ForeignKeys diagnostics &&
                    (Diagnostics_SchemaVersion diagnostics =? currentSchemaVersion)) "SQLite settings invalid").

(** The checks of the options: the busy timeout in milliseconds. *)
Definition check_options (options : Options) : result Z :=
  require (negb (Options_BusyTimeout options <? 0)) "busy timeout cannot be negative" ;;
  require (negb (Options_MaxOpenConnections options <? 0)) "maximum open connections cannot be negative" ;;
  let busyTimeout := if Options_BusyTimeout options =? 0 then 5 * 10 ^ 9 else Options_BusyTimeout options in
  let busyMillis := quot64 busyTimeout (10 ^ 6) in
  require (negb ((busyMillis <? 1) || (2 ^ 31 - 1 <? busyMillis))) "busy timeout must be between 1ms and 2147483647ms" ;;
  Ok busyMillis.

(** [cleanupNewDatabase] on the way out with an error. *)
Definition or_cleanup {A} (created : bool) (m : SM A) : SM A :=
  r ← st_try m;
  match r with
  | Ok a => mret a
  | Err e => cleanupNewDatabase created ;; st_fail e
  end.

(** The opened store, if it is returned. *)
Definition with_store (busyMillis : Z) (m : SM unit) : SM unit := fun s =>
  match m {| s with sql_store := Some busyMillis; sql_busy := ∅ |} with
  | (Ok u, s') => (Ok u, s')
  | (Err e, s') => (Err e, {| s' with sql_store := sql_store s; sql_busy := sql_busy s |})
  end.

(** [OpenWithOptions]; closing the database on a failure is the driver's. *)
Definition OpenWithOptions (ctx : Context) (path : string) (options : Options) : SM unit :=
  st_lift (check_ctx (ctx_Err ctx 0%nat)) ;;
  st_lift (require (negb (blank path)) "SQLite path is required") ;;
  busyMillis ← st_lift (check_options options);
  st_lift (wrapf "resolve SQLite path" (filepath_Abs path)) ;;
  created ← ensureDatabaseFile;
  existingVersion ← or_cleanup created inspectSchemaVersion;
  st_lift (require_w (negb (currentSchemaVersion <? existingVersion)) ErrFutureSchema "database version") ;;
  or_cleanup created (wrap_st "open SQLite database" sql_call) ;;
  or_cleanup created
    (with_store busyMillis (wrap_st "connect to SQLite database" sql_call ;; initialize ctx)).

(** [Open] *)
Definition Open (ctx : Context) (path : string) : SM unit :=
  OpenWithOptions ctx path {| Options_BusyTimeout := 0; Options_MaxOpenConnections := 0 |}.

(** [Close] *)
Definition Store_Close : SM unit :=
  s ← st_get;
  match sql_store s with
  | None => mret tt
  | Some _ => st_modify (fun s => {| s with sql_busy := ∅ |}) ;; sql_call ;; mret tt
  end.

End opening.

(* ------------------------------------------------------------------ *)
(** ** What opening does to the file *)

Section open_lemmas.
Context `{Henv : SqlEnv}.

Lemma on_database_triple {A} (f : Database → result (A * Database)) d :
  st_triple (file_is (Some d)) (on_database f) (λ a s, ∃ d', f d = Ok (a, d') ∧ file_is (Some d') s) (λ _, file_is (Some d)).
Proof.
  unfold on_database. eapply st_triple_bind; [apply sql_call_triple; [by intros ??? | done]|]. intros ? s Hs.
  rewrite st_get_bind, Hs. destruct (f d) as [[x d1]|e]; cbn; [by exists d1 | done].
Qed.

Lemma get_user_version_triple d :
  st_triple (file_is (Some d)) (on_database get_user_version) (λ v s, v = user_version d ∧ file_is (Some d) s) (λ _, file_is (Some d)).
Proof.
  eapply st_triple_conseq; [apply on_database_triple | done | | done]. intros v s (d' & [= <- <-] & Hs). done.
Qed.

Lemma keeps_file_diagnostics ctx d : st_triple (file_is (Some d)) (Store_Diagnostics ctx)
  (λ diag s, Diagnostics_SchemaVersion diag = user_version d ∧ file_is (Some d) s) (λ _, file_is (Some d)).
Proof.
  unfold Store_Diagnostics. eapply st_triple_bind; [apply keeps_file_lift|]. intros ?.
  eapply st_triple_bind; [apply keeps_file_ready|]. intros busy.
  eapply st_triple_bind; [unfold sql_Conn; apply (keeps_file_bind _ _ keeps_file_call); intros ?; apply keeps_file_ret|]. intros connection.
  eapply st_triple_bind; [apply keeps_file_call|]. intros n1. eapply st_triple_bind; [apply keeps_file_call|]. intros n2.
  eapply st_triple_bind; [apply keeps_file_call|]. intros ? s Hs. rewrite st_get_bind. revert s Hs.
  intros s. generalize (default busy (sql_busy s !! connection)). intros millis. revert s.
  change (st_triple (file_is (Some d)) (version ← on_database get_user_version;
    mret {| Diagnostics_JournalMode := strings_ToLower (pragma_journal_mode n1); Diagnostics_ForeignKeys := pragma_foreign_keys n2 =? 1;
            Diagnostics_BusyTimeout := mul64 millis (10 ^ 6); Diagnostics_SchemaVersion := version |})
    (λ diag s, Diagnostics_SchemaVersion diag = user_version d ∧ file_is (Some d) s) (λ _, file_is (Some d))).
  eapply st_triple_bind; [apply get_user_version_triple|]. intros version. by apply st_triple_ret.
Qed.

(** The schema a migration ends with. *)
Definition migrated (d d' : Database) : Prop :=
  user_version d' = 1 ∧
  if user_version d =? 0 then installed d = None ∧ installed d' = Some empty_tables else user_version d = 1 ∧ d' = d.

Lemma migrate_triple d :
  st_triple (file_is (Some d)) (transaction migrate) (λ _ s, ∃ d', migrated d d' ∧ file_is (Some d') s) (λ _, file_is (Some d)).
Proof.
  enough (st_triple (file_is (Some d)) migrate (λ _ s, ∃ d', migrated d d' ∧ file_is (Some d') s) (λ _ _, True)) as Hm.
  { intros s Hs. specialize (Hm s Hs). unfold transaction. by destruct (migrate s) as [[[]|e] s']. }
  unfold migrate. eapply st_triple_bind.
  { apply wrap_st_triple. eapply st_triple_conseq; [apply get_user_version_triple | done | done | done]. }
  intros version s [-> Hs]. revert s Hs. apply st_triple_lift_bind; [done|]. intros [] _.
  eapply (st_triple_bind _ _ (λ version s, ∃ d', version = user_version d' ∧ (version = 1 → migrated d d') ∧ file_is (Some d') s)).
  { destruct (Z.eqb_spec (user_version d) 0) as [E|E].
    - eapply st_triple_bind.
      { apply wrap_st_triple. eapply st_triple_conseq; [apply on_database_triple | done | done | done]. }
      cbn beta. intros ? s (d1 & H1 & Hs). revert s Hs. unfold schemaV1 in H1. destruct (installed d) eqn:Ei; [done|]. injection H1 as _ <-.
      eapply st_triple_bind.
      { apply wrap_st_triple. eapply st_triple_conseq; [apply on_database_triple | done | done | done]. }
      cbn beta. intros ? s (d2 & H2 & Hs). injection H2 as _ <-. eexists. split; [|split; [|exact Hs]]; [done|].
      intros _. unfold migrated. by rewrite E.
    - apply st_triple_ret. intros s Hs. exists d. split_and!; [done | | done]. intros E1. unfold migrated.
      by rewrite (proj2 (Z.eqb_neq _ _) E). }
  intros version s (d' & Hv & Hd' & Hs). revert s Hs. apply st_triple_lift_bind; [done|]. intros [] H1. apply require_Ok, Z.eqb_eq in H1.
  apply wrap_st_triple. unfold sql_commit. eapply st_triple_bind.
  { apply (sql_call_triple (file_is (Some d'))); [by intros ??? | done]. }
  intros ?. apply st_triple_ret. intros s Hs. exists d'. split; [by apply Hd' | done].
Qed.

(** Whatever happens, [initialize] leaves the file as it was or migrated. *)
Lemma initialize_triple ctx d :
  st_triple (file_is (Some d)) (initialize ctx) (λ _ s, ∃ d', migrated d d' ∧ file_is (Some d') s)
    (λ _ s, file_is (Some d) s ∨ ∃ d', migrated d d' ∧ file_is (Some d') s).
Proof.
  unfold initialize. eapply st_triple_bind.
  { eapply st_triple_conseq; [apply wrap_st_triple, (keeps_file_bind _ _ keeps_file_call); intros ?; apply keeps_file_ret | done | done|].
    intros ? s Hs. left. exact Hs. }
  intros ?. eapply st_triple_bind.
  { eapply st_triple_conseq; [apply migrate_triple | done | done|]. intros ? s Hs. by left. }
  intros ? s (d' & Hm & Hs). revert s Hs. eapply st_triple_bind.
  { eapply st_triple_conseq; [apply wrap_st_triple, keeps_file_diagnostics | done | done|]. intros ? s Hs. right. by exists d'. }
  intros diag s [_ Hs]. revert s Hs. eapply st_triple_conseq; [apply st_triple_lift | done | |].
  - instantiate (1 := λ _, file_is (Some d')). done.
  - intros ? s [_ Hs]. by exists d'.
  - intros ? s Hs. right. by exists d'.
Qed.

End open_lemmas.

Section open_theorems.
Context `{Henv : SqlEnv}.

(** Only the file and the count of the calls change. *)
Definition quiet {A} (m : ST SqlState A) : Prop := ∀ s, ∃ f n, snd (m s) = {| s with sql_file := f; sql_calls := n |}.

Lemma sql_quiet_calls {A} (m : ST SqlState A) : calls_only m → quiet m.
Proof. intros Hm s. destruct (Hm s) as [n ->]. by exists (sql_file s), n. Qed.
Lemma quiet_bind {A B} (m : ST SqlState A) (f : A → ST SqlState B) : quiet m → (∀ a, quiet (f a)) → quiet (m ≫= f).
Proof.
  intros Hm Hf s. destruct (Hm s) as (d & n & Hn). unfold mbind, st_bind. destruct (m s) as [[a|e] s1]; cbn in Hn; subst; [|by exists d, n].
  destruct (Hf a {| s with sql_file := d; sql_calls := n |}) as (d' & n' & ->). by exists d', n'.
Qed.
Lemma quiet_wrap {A} text (m : ST SqlState A) : quiet m → quiet (wrap_st text m).
Proof. intros Hm s. destruct (Hm s) as (d & n & Hn). exists d, n. unfold wrap_st. by destruct (m s). Qed.
Lemma quiet_try {A} (m : ST SqlState A) : quiet m → quiet (st_try m).
Proof. intros Hm s. destruct (Hm s) as (d & n & Hn). exists d, n. unfold st_try. by destruct (m s). Qed.
Lemma quiet_file f : quiet (st_modify (fun s => {| s with sql_file := f |})).
Proof. intros s. by exists f, (sql_calls s). Qed.
Lemma quiet_get : quiet st_get.
Proof. intros s. exists (sql_file s), (sql_calls s). by destruct s. Qed.
Lemma quiet_call : quiet sql_call.
Proof. apply sql_quiet_calls, calls_only_call. Qed.
Lemma quiet_lift {A} (r : result A) : quiet (st_lift r).
Proof. apply sql_quiet_calls, calls_only_lift. Qed.
Lemma quiet_ret {A} (a : A) : quiet (mret a).
Proof. apply sql_quiet_calls, calls_only_ret. Qed.
Lemma quiet_ready : quiet ready.
Proof. apply sql_quiet_calls, calls_only_ready. Qed.
Lemma quiet_fail {A} e : quiet (A:=A) (st_fail e).
Proof. apply (quiet_lift (Err e)). Qed.
Lemma quiet_on_database {A} (f : Database → result (A * Database)) : quiet (on_database f).
Proof.
  unfold on_database. apply quiet_bind; [apply quiet_call|]. intros ?. apply quiet_bind; [apply quiet_get|]. intros s.
  destruct (sql_file s) as [d|]; [|apply quiet_fail]. destruct (f d) as [[x d1]|e]; [|apply quiet_fail].
  apply quiet_bind; [apply quiet_file|]. intros ?. apply quiet_ret.
Qed.
Lemma quiet_transaction {A} (m : ST SqlState A) : quiet m → quiet (transaction m).
Proof.
  intros Hm s. destruct (Hm s) as (d & n & Hn). unfold transaction. destruct (m s) as [[a|e] s1]; cbn in Hn; subst; [by exists d, n|].
  by exists (sql_file s), n.
Qed.
End open_theorems.

Create HintDb sql_quiet discriminated.
#[export] Hint Resolve quiet_bind quiet_wrap quiet_try quiet_file quiet_get quiet_call quiet_lift quiet_ret quiet_ready quiet_fail
  quiet_on_database quiet_transaction : sql_quiet.

(** Takes a computation apart into quiet steps. *)
Ltac quiet_steps :=
  repeat first
    [ match goal with |- quiet (_ ≫= _) => apply quiet_bind; [|intros ?] end
    | progress auto with sql_quiet
    | apply quiet_wrap | apply quiet_transaction | apply quiet_try
    | match goal with |- context [match ?x with _ => _ end] => destruct x end ].

Section opened.
Context `{Henv : SqlEnv, Hcodec : ProjectionCodec, Hquote : Quoting, Hpayload : PayloadDecoder}.

Lemma quiet_initialize ctx : quiet (initialize ctx).
Proof. unfold initialize, migrate, Store_Diagnostics, sql_begin, sql_commit, sql_Conn. quiet_steps. Qed.

Lemma quiet_cleanup created : quiet (cleanupNewDatabase created).
Proof. unfold cleanupNewDatabase. quiet_steps. Qed.

Lemma quiet_ensure : quiet ensureDatabaseFile.
Proof. unfold ensureDatabaseFile. quiet_steps. Qed.

Lemma quiet_or_cleanup {A} created (m : ST SqlState A) : quiet m → quiet (or_cleanup created m).
Proof.
  intros Hm. unfold or_cleanup. apply quiet_bind; [by apply quiet_try|]. intros [a|e]; [apply quiet_ret|].
  apply quiet_bind; [apply quiet_cleanup|]. intros ?. apply quiet_fail.
Qed.

(** The state is [s0], but for the file and the count of the calls; and the same
    with the store opened. *)
Definition framed_by (s0 s : SqlState) : Prop := ∃ f n, s = {| s0 with sql_file := f; sql_calls := n |}.
Definition opened_by (busy : Z) (s0 s : SqlState) : Prop :=
  ∃ f n, s = {| s0 with sql_store := Some busy; sql_busy := ∅; sql_file := f; sql_calls := n |}.

Lemma quiet_triple {A} (m : ST SqlState A) s0 : quiet m → st_triple (framed_by s0) m (λ _, framed_by s0) (λ _, framed_by s0).
Proof.
  intros Hm s (f & n & ->). destruct (Hm {| s0 with sql_file := f; sql_calls := n |}) as (f' & n' & H).
  destruct (m _) as [[a|e] s1]; cbn in H; subst; by exists f', n'.
Qed.

Lemma with_store_frame busy m s0 :
  quiet m → st_triple (framed_by s0) (with_store busy m) (λ _, opened_by busy s0) (λ _, framed_by s0).
Proof.
  intros Hm s (f & n & ->). unfold with_store. cbn [sql_store sql_busy].
  match goal with |- context [m ?x] => destruct (Hm x) as (f' & n' & H) end.
  destruct (m _) as [[u|e] s1]; cbn in H; subst; by exists f', n'.
Qed.

Lemma or_cleanup_triple {A} created (m : ST SqlState A) P Q (E E' : SqlState → Prop) :
  st_triple P m Q (λ _, E) → st_triple E (cleanupNewDatabase created) (λ _, E') (λ _, E') →
  st_triple P (or_cleanup created m) Q (λ _, E').
Proof.
  intros Hm Hc. unfold or_cleanup. eapply st_triple_bind; [by apply st_try_triple|]. intros [a|e]; [by apply st_triple_ret|].
  eapply st_triple_bind; [exact Hc|]. intros ?. by apply st_triple_fail.
Qed.

(** An open that succeeds returns a store with a busy timeout from the options; one
    that fails changes the file at most. *)
Lemma Open_frame ctx path options s0 :
  st_triple (framed_by s0) (OpenWithOptions ctx path options)
    (λ _ s, ∃ busy, check_options options = Ok busy ∧ opened_by busy s0 s) (λ _, framed_by s0).
Proof.
  unfold OpenWithOptions. apply st_triple_lift_bind; [done|]. intros ? _. apply st_triple_lift_bind; [done|]. intros ? _.
  apply st_triple_lift_bind; [done|]. intros busy Hb. apply st_triple_lift_bind; [done|]. intros ? _.
  eapply st_triple_bind; [apply quiet_triple, quiet_ensure|]. intros created.
  eapply st_triple_bind; [apply quiet_triple, quiet_or_cleanup; unfold inspectSchemaVersion; quiet_steps|]. intros version.
  apply st_triple_lift_bind; [done|]. intros ? _.
  eapply st_triple_bind; [apply quiet_triple, quiet_or_cleanup; quiet_steps|]. intros ?.
  eapply or_cleanup_triple; [|apply quiet_triple, quiet_cleanup].
  eapply st_triple_conseq; [apply with_store_frame | done | | done].
  - apply quiet_bind; [quiet_steps | intros ?; apply quiet_initialize].
  - intros ? s Hs. by exists busy.
Qed.

(** The file of a path where nothing was: nothing, a new file, or one with the
    installed schema. *)
Definition fresh_file (f : option Database) : Prop :=
  f = None ∨ f = Some new_database ∨ f = Some {| user_version := 1; installed := Some empty_tables |}.

Lemma migrated_new d : migrated new_database d → d = {| user_version := 1; installed := Some empty_tables |}.
Proof. intros (H1 & _ & H2). destruct d. cbn in *. by subst. Qed.

Definition fresh (s : SqlState) : Prop := fresh_file (sql_file s).

Lemma fresh_call : st_triple fresh (st_try sql_call) (λ _, fresh) (λ _, fresh).
Proof.
  eapply st_triple_conseq; [apply (st_try_triple fresh sql_call (λ _, fresh) fresh (λ _, fresh)) | done | by intros [] | done].
  apply sql_call_triple; [by intros s n H | by intros e s H].
Qed.

(** Removing what was created. *)
Lemma cleanup_fresh : st_triple fresh (cleanupNewDatabase true) (λ _, fresh) (λ _, fresh).
Proof.
  unfold cleanupNewDatabase. eapply st_triple_bind; [apply fresh_call|]. intros r.
  apply (st_triple_bind _ _ (λ _, fresh)).
  { destruct r; [intros s Hs; by left | by apply st_triple_ret]. }
  intros ?. eapply st_triple_bind; [apply fresh_call|]. intros ?. eapply st_triple_bind; [apply fresh_call|]. intros ?.
  by apply st_triple_ret.
Qed.

Lemma cleanup_healthy `{!SqlHealthy} :
  st_triple (λ _, True) (cleanupNewDatabase true) (λ _ s, sql_file s = None) (λ _ _, False).
Proof.
  unfold cleanupNewDatabase. intros s _.
  unfold mbind, st_bind, st_try, sql_call, mbind, st_bind, st_get, st_modify, st_lift, mret, st_ret. by rewrite !sql_healthy.
Qed.

Lemma cleanup_any created : st_triple fresh (cleanupNewDatabase created) (λ _, fresh) (λ _, fresh).
Proof. destruct created; [apply cleanup_fresh | by apply st_triple_ret]. Qed.

Lemma with_store_file busy m (f : option Database) (Q E : option Database → Prop) :
  st_triple (file_is f) m (λ _ s, Q (sql_file s)) (λ _ s, E (sql_file s)) →
  st_triple (file_is f) (with_store busy m) (λ _ s, Q (sql_file s)) (λ _ s, E (sql_file s)).
Proof.
  intros Hm s Hs. unfold with_store. specialize (Hm {| s with sql_store := Some busy; sql_busy := ∅ |} Hs).
  by destruct (m _) as [[u|e] s1].
Qed.

(** Connecting and initialising. *)
Lemma connect_triple ctx busy d :
  st_triple (file_is (Some d)) (with_store busy (wrap_st "connect to SQLite database" sql_call ;; initialize ctx))
    (λ _ s, ∃ d', sql_file s = Some d' ∧ migrated d d') (λ _ s, sql_file s = Some d ∨ ∃ d', sql_file s = Some d' ∧ migrated d d').
Proof.
  apply (with_store_file busy _ _ (λ f, ∃ d', f = Some d' ∧ migrated d d') (λ f, f = Some d ∨ ∃ d', f = Some d' ∧ migrated d d')).
  eapply st_triple_bind.
  { eapply st_triple_conseq; [apply wrap_st_triple, keeps_file_call | done | done | by intros ???; left]. }
  intros ?. eapply st_triple_conseq; [apply initialize_triple | done | |].
  - intros ? s (d' & H1 & H2). by exists d'.
  - intros ? s [H|(d' & H1 & H2)]; [by left | right; by exists d'].
Qed.

(** The file after [ensureDatabaseFile] on a path where nothing was. *)
Definition ensured (created : bool) (s : SqlState) : Prop := sql_file s = if created then Some new_database else None.

Lemma ensure_new_triple : st_triple (λ s, sql_file s = None) ensureDatabaseFile ensured (λ _, fresh).
Proof.
  unfold ensureDatabaseFile. eapply st_triple_bind.
  { apply (st_try_triple (file_is None) sql_call (λ _, file_is None) (file_is None) (λ _, fresh)), keeps_file_call. }
  intros r. apply (st_triple_conseq _ (file_is None) _ ensured ensured (λ _, fresh) (λ _, fresh)); [|by destruct r | done | done].
  destruct r as [n|e].
  - intros s Hs. rewrite st_get_bind, Hs. revert s Hs.
    apply (st_triple_bind _ _ (λ _, file_is (Some new_database))); [by intros s Hs|]. intros ?.
    eapply st_triple_bind.
    { eapply st_triple_conseq; [apply wrap_st_triple, keeps_file_call | done | done | intros ???; by right; left]. }
    intros ?. by apply st_triple_ret.
  - destruct (errors_Is _ _); [by apply st_triple_ret | apply st_triple_fail; by left].
Qed.

Lemma inspect_new_triple created :
  st_triple (ensured created) inspectSchemaVersion (λ _, file_is (Some new_database)) (λ _, fresh).
Proof.
  unfold inspectSchemaVersion. apply (st_triple_bind _ _ (λ _, ensured created)).
  { eapply st_triple_conseq; [apply wrap_st_triple, keeps_file_call | done | done|].
    intros ? s Hs. unfold file_is in Hs. destruct created; [by right; left | by left]. }
  intros ?. apply wrap_st_triple. destruct created.
  - eapply st_triple_conseq; [apply get_user_version_triple | intros s H; exact H | by intros ?? [] | intros ???; by right; left].
  - unfold on_database. eapply st_triple_bind; [apply (sql_call_triple (ensured false)); [by intros s n H | intros ???; by left]|].
    intros ? s Hs. rewrite st_get_bind, Hs. by left.
Qed.

(** Opening a path where nothing was. *)
Lemma Open_new_triple ctx path options :
  st_triple (λ s, sql_file s = None) (OpenWithOptions ctx path options)
    (λ _ s, sql_file s = Some {| user_version := 1; installed := Some empty_tables |}) (λ _, fresh).
Proof.
  assert (∀ e : error, ∀ s, sql_file s = None → fresh s) as Hnone by (intros _ s Hs; by left).
  unfold OpenWithOptions. apply st_triple_lift_bind; [exact Hnone|]. intros ? _. apply st_triple_lift_bind; [exact Hnone|]. intros ? _.
  apply st_triple_lift_bind; [exact Hnone|]. intros busy _. apply st_triple_lift_bind; [exact Hnone|]. intros ? _.
  eapply st_triple_bind; [apply ensure_new_triple|]. intros created.
  eapply st_triple_bind; [eapply or_cleanup_triple; [apply inspect_new_triple | apply cleanup_any]|]. intros version.
  apply st_triple_lift_bind; [intros ???; by right; left|]. intros ? _.
  eapply st_triple_bind.
  { eapply or_cleanup_triple; [|apply cleanup_any].
    eapply st_triple_conseq; [apply wrap_st_triple, keeps_file_call | done | done | intros ???; by right; left]. }
  intros ?. eapply or_cleanup_triple; [|apply cleanup_any]. eapply st_triple_conseq; [apply connect_triple | done | |].
  - intros ? s (d' & -> & Hm). by rewrite (migrated_new d' Hm).
  - intros ? s [Hs|(d' & Hs & Hm)]; [by right; left|]. rewrite (migrated_new d' Hm) in Hs. by right; right.
Qed.

(** Opening an existing database. *)
Lemma Open_existing_triple ctx path options d :
  st_triple (file_is (Some d)) (OpenWithOptions ctx path options)
    (λ _ s, ∃ d', sql_file s = Some d' ∧ migrated d d') (λ _ s, sql_file s = Some d ∨ ∃ d', sql_file s = Some d' ∧ migrated d d').
Proof.
  unfold OpenWithOptions. set (E := λ (_ : error) s, sql_file s = Some d ∨ ∃ d', sql_file s = Some d' ∧ migrated d d').
  assert (∀ e : error, ∀ s, file_is (Some d) s → E e s) as Hsame by (intros e s Hs; by left).
  apply st_triple_lift_bind; [exact Hsame|]. intros ? _. apply st_triple_lift_bind; [exact Hsame|]. intros ? _.
  apply st_triple_lift_bind; [exact Hsame|]. intros busy _. apply st_triple_lift_bind; [exact Hsame|]. intros ? _.
  apply (st_triple_bind _ _ (λ created s, created = false ∧ file_is (Some d) s)).
  { unfold ensureDatabaseFile. eapply st_triple_bind.
    { apply (st_try_triple (file_is (Some d)) sql_call (λ _, file_is (Some d)) (file_is (Some d))), keeps_file_call. }
    intros [n|e]; [intros s Hs; rewrite st_get_bind, Hs; done|].
    destruct (errors_Is _ _); [by apply st_triple_ret | by apply st_triple_fail, Hsame]. }
  intros created s [-> Hs]. revert s Hs.
  assert (∀ P, st_triple P (cleanupNewDatabase false) (λ _, P) (λ _, P)) as Hclean by (intros P; by apply st_triple_ret).
  eapply st_triple_bind.
  { eapply st_triple_conseq; [eapply or_cleanup_triple; [|apply Hclean] | done | done | exact Hsame]. unfold inspectSchemaVersion.
    eapply st_triple_bind; [apply wrap_st_triple, keeps_file_call|]. intros ?. apply wrap_st_triple, get_user_version_triple. }
  intros version s [_ Hs]. revert s Hs. apply st_triple_lift_bind; [exact Hsame|]. intros ? _.
  eapply st_triple_bind.
  { eapply st_triple_conseq; [eapply or_cleanup_triple; [apply wrap_st_triple, keeps_file_call|apply Hclean] | done | done | exact Hsame]. }
  intros ?. eapply or_cleanup_triple; [apply connect_triple | apply Hclean].
Qed.

End opened.

(* ------------------------------------------------------------------ *)
(** ** Properties *)

Lemma rows_of_empty key : rows_of empty_tables key = [].
Proof. done. Qed.

Lemma empty_tables_ok : tables_ok empty_tables.
Proof.
  split; [split|done].
  - intros ref i r. by rewrite rows_of_empty, lookup_nil.
  - intros ref. rewrite rows_of_empty. by unfold_int64.
  - intros ref i r. by rewrite rows_of_empty, lookup_nil.
  - intros ref i r ref' i' r'. by rewrite rows_of_empty, lookup_nil.
Qed.

Lemma check_options_range options busy : check_options options = Ok busy → 1 <= busy <= 2 ^ 31 - 1.
Proof.
  unfold check_options. cbn zeta. rewrite !seq_Ok, !require_Ok, !negb_true_iff, orb_false_iff, !Z.ltb_ge. intros (_ & _ & H & [= <-]). lia.
Qed.

Section open_properties.
Context `{Henv : SqlEnv, Hcodec : ProjectionCodec, Hquote : Quoting, Hpayload : PayloadDecoder}.

(** Opening a path where nothing was, whatever fails on the way, either gives an
    opened store with the installed schema, no events and a bounded busy
    timeout, from which every run keeps the contract; or an error, and then
    nothing is left but at most a database without any row. *)
Theorem Open_new ctx path options s r s' :
  sql_file s = None → world_ok (sql_world s) → clock_ok (sql_world s) → OpenWithOptions ctx path options s = (r, s') →
  match r with
  | Ok _ => sqlite_inv s' ∧ (∀ ref, sqlite_stream s' ref = []) ∧ user_version <$> sql_file s' = Some 1 ∧
            ∃ busy, sql_store s' = Some busy ∧ 1 <= busy <= 2 ^ 31 - 1
  | Err _ => fresh_file (sql_file s') ∧ sql_store s' = sql_store s
  end.
Proof.
  intros Hnone Hw Hc H. pose proof (Open_new_triple ctx path options s Hnone) as Hfile.
  assert (framed_by s s) as Hself by (exists (sql_file s), (sql_calls s); by destruct s).
  pose proof (Open_frame ctx path options s s Hself) as Hframe. rewrite H in Hfile, Hframe. destruct r as [u|e].
  - destruct Hframe as (busy & Hbusy & f & n & ->). cbn [sql_file] in Hfile. subst f. apply check_options_range in Hbusy.
    assert (holds 1 empty_tables {| s with sql_store := Some busy; sql_busy := ∅;
      sql_file := Some {| user_version := 1; installed := Some empty_tables |}; sql_calls := n |}) as Hh.
    { split; [|done]. by split_and!; [..|exists busy]. }
    split_and!; [exists 1, empty_tables; split; [done | apply empty_tables_ok] | | done | by exists busy].
    intros ref. by rewrite (holds_stream _ _ _ Hh).
  - destruct Hframe as (f & n & ->). done.
Qed.

(** Opening an existing database never removes or rewrites it: a store of this
    schema version is opened with all its events or the file stays as it is;
    any other version, newer ones above all, is refused and stays as it is. *)
Theorem Open_existing ctx path options s d r s' :
  sql_file s = Some d → user_version d ≠ 0 → OpenWithOptions ctx path options s = (r, s') →
  sql_file s' = Some d ∧ (user_version d ≠ 1 → is_ok r = false) ∧ (is_ok r = true → is_Some (sql_store s')) ∧
  (sqlite_inv s → is_ok r = true → sqlite_inv s' ∧ ∀ ref, sqlite_stream s' ref = sqlite_stream s ref).
Proof.
  intros Hd Hv H. pose proof (Open_existing_triple ctx path options d s Hd) as Hfile.
  assert (framed_by s s) as Hself by (exists (sql_file s), (sql_calls s); by destruct s).
  pose proof (Open_frame ctx path options s s Hself) as Hframe. rewrite H in Hfile, Hframe.
  assert (∀ d', migrated d d' → d' = d ∧ user_version d = 1) as Hsame.
  { intros d' [_ Hm]. rewrite (proj2 (Z.eqb_neq _ _) Hv) in Hm. naive_solver. }
  destruct r as [u|e].
  - destruct Hfile as (d' & Hf & Hm). destruct (Hsame d' Hm) as [-> H1]. destruct Hframe as (busy & _ & f & n & ->). cbn in Hf. subst f.
    split_and!; [done | done | by exists busy|]. intros (v & t & [(Hw & Hc & _) Hfile] & Ht) _. rewrite Hd in Hfile. injection Hfile as ->.
    split; [exists v, t; split; [|done]; split; [by split_and!; [..|exists busy] | done]|].
    intros ref. unfold sqlite_stream, tables_of. by rewrite Hd.
  - destruct Hfile as [Hf|(d' & Hf & Hm)]; [|destruct (Hsame d' Hm) as [-> _]]; by split_and!.
Qed.

End open_properties.

(** Within the range of durations the wait for a lock is the busy timeout of the
    store or the time left until the deadline, in milliseconds rounded up,
    whichever is less, and always at least one. *)
Theorem operation_millis_exact busy remaining :
  1 <= busy → 0 < remaining <= int64_max - 10 ^ 6 + 1 →
  operation_millis busy remaining = Z.min busy ((remaining + 10 ^ 6 - 1) / 10 ^ 6) ∧ 1 <= operation_millis busy remaining.
Proof.
  intros Hb Hr. unfold operation_millis, sub64, add64, quot64. cbn zeta.
  assert (wrap64 (wrap64 (remaining + 10 ^ 6) - 1) = remaining + 10 ^ 6 - 1) as ->.
  { destruct (decide (remaining = int64_max - 10 ^ 6 + 1)) as [->|Hne]; [by vm_compute|].
    rewrite (wrap64_id (remaining + 10 ^ 6)) by (unfold_int64; lia). apply wrap64_id. unfold_int64. lia. }
  rewrite Z.quot_div_nonneg by (unfold_int64; lia).
  assert (1 <= (remaining + 10 ^ 6 - 1) / 10 ^ 6 <= int64_max) as Hq.
  { split; [apply Z.div_le_lower_bound; lia|]. apply Z.div_le_upper_bound; unfold_int64; lia. }
  rewrite wrap64_id by (unfold_int64; lia). destruct (Z.ltb_spec ((remaining + 10 ^ 6 - 1) / 10 ^ 6) busy); lia.
Qed.

(** A deadline more than 292 years ahead makes the rounding overflow: the wait
    becomes negative, which disables it, although there is all the time. *)
Theorem operation_millis_overflow busy deadline now :
  1 <= busy → int64_max - 10 ^ 6 + 1 < deadline - now → operation_millis busy (Time_Sub deadline now) < 0.
Proof.
  intros Hb Hd. unfold operation_millis, Time_Sub, sub64, add64, quot64. cbn zeta.
  set (x := Z.max int64_min (Z.min int64_max (deadline - now))).
  assert (int64_max - 10 ^ 6 + 1 < x <= int64_max) as Hx by (unfold x; unfold_int64; lia).
  assert (wrap64 (wrap64 (x + 10 ^ 6) - 1) = x + 10 ^ 6 - 1 - 2 ^ 64) as ->.
  { replace (wrap64 (x + 10 ^ 6)) with (x + 10 ^ 6 - 2 ^ 64) by (unfold wrap64; unfold_int64; rewrite <-(Z.mod_unique _ (2 ^ 64) 1 (x + 10 ^ 6 + 2 ^ 63 - 2 ^ 64)) by lia; lia).
    rewrite wrap64_id by (unfold_int64; lia). lia. }
  assert (int64_min <= Z.quot (x + 10 ^ 6 - 1 - 2 ^ 64) (10 ^ 6) < 0) as Hq.
  { replace (x + 10 ^ 6 - 1 - 2 ^ 64) with (- (2 ^ 64 + 1 - x - 10 ^ 6)) by lia. rewrite Z.quot_opp_l, Z.quot_div_nonneg by (unfold_int64; lia).
    assert (1 <= (2 ^ 64 + 1 - x - 10 ^ 6) / 10 ^ 6 <= 2 ^ 63); [|unfold_int64; lia].
    split; [apply Z.div_le_lower_bound | apply Z.div_le_upper_bound]; unfold_int64; lia. }
  assert (wrap64 (Z.quot (x + 10 ^ 6 - 1 - 2 ^ 64) (10 ^ 6)) = Z.quot (x + 10 ^ 6 - 1 - 2 ^ 64) (10 ^ 6)) as ->.
  { apply wrap64_id. unfold_int64. lia. }
  destruct (Z.ltb_spec (Z.quot (x + 10 ^ 6 - 1 - 2 ^ 64) (10 ^ 6)) busy); lia.
Qed.
