(* ===== verification/SqliteMemory.v ===== *)
(** * The SQLite store and the in-memory store

    FR-SQL-002 asks of the SQLite store the behaviour of the in-memory one.  Here
    the two are compared call by call: conflicts, appends of the same process,
    workloads, where the SQLite store refuses what their projection does not
    accept, and the range of versions where they differ. *)

From Stdlib Require Import ZArith Lia.
From S2P Require Import Prelude GoNum GoText GoJson GoHash Ident Domain Event Store MemoryStore Model Policy Routing LoopTypes Execution Projection Sqlite SqliteSpec SqliteContract SqliteProjection.

Section live_append.
Context `{Henv : SqlEnv, Hhealthy : !SqlHealthy, Hcodec : ProjectionCodec, Hquote : Quoting, Hpayload : PayloadDecoder}.

Abbreviation never := (λ (_ : error) (_ : SqlState), False).

(** The database holds [t] and the process is in the state [w]. *)
Definition holds_in (w : World) (v : Z) (t : Tables) (s : SqlState) : Prop := holds v t s ∧ sql_world s = w.

Lemma holds_in_callless w v t : callless (holds_in w v t).
Proof. intros s n H. exact H. Qed.

Lemma statement_in {A} (f : Tables → result (A * Tables)) w v t a t' :
  f t = Ok (a, t') → st_triple (holds_in w v t) (statement f) (λ b s, b = a ∧ holds_in w v t' s) never.
Proof.
  intros Hf. unfold statement, on_database. eapply st_triple_bind; [apply sql_call_live, holds_in_callless|]. intros ? s [[Ha Hfile] Hw].
  rewrite st_get_bind, Hfile. cbn [installed]. by rewrite Hf.
Qed.

Lemma insert_event_Ok key sequence row t :
  0 < sequence → 0 < Row_schema_version row → sequence ∉ (rows_of t key).*1 → Row_event_id row ∉ event_ids t →
  is_Some (aggregate_versions t !! key) → ∃ t', insert_event key sequence row t = Ok (tt, t') ∧ event_ids t' = {[ Row_event_id row ]} ∪ event_ids t.
Proof.
  intros H1 H2 H3 H4 [x H5]. unfold insert_event. rewrite (proj2 (Z.ltb_lt _ _) H1), (proj2 (Z.ltb_lt _ _) H2).
  rewrite !bool_decide_eq_false_2 by done. rewrite H5. cbn. by eexists.
Qed.

(** The identifiers of new events are new. *)
Definition fresh_ids (created : list Event) (t : Tables) : Prop :=
  NoDup (Event_ID <$> created) ∧ ∀ e, e ∈ created → Event_ID e ∉ event_ids t.

Lemma insertEvent_in w v t e :
  rows_ok t → Event_Validate e = Ok tt → storable e →
  Event_Sequence e = Z.of_nat (length (table_stream t (Event_Aggregate e))) + 1 →
  Event_ID e ∉ event_ids t → is_Some (aggregate_versions t !! aggregate_key (Event_Aggregate e)) →
  st_triple (holds_in w v t) (insertEvent e)
    (λ _ s, ∃ t', appended (Event_Aggregate e) [event_draft e] t t' [e] ∧ event_ids t' = {[ Event_ID e ]} ∪ event_ids t ∧ holds_in w v t' s) never.
Proof.
  intros Ht Hv Hst Hseq Hid Hver. pose proof Hv as Hd. apply Event_Validate_parts in Hd as (_ & _ & _ & Hd).
  apply EventDraft_Validate_parts in Hd as [Hd _]. cbn in Hd. rewrite length_table_stream in Hseq.
  destruct (insert_event_Ok (aggregate_key (Event_Aggregate e)) (Event_Sequence e) (event_row e) t) as (t' & Hins & Hids); [| | | done | done|].
  - unfold storable in Hst. lia.
  - unfold storable in Hst. cbn. lia.
  - intros (r & Hr & Hin)%list_elem_of_fmap. apply list_elem_of_lookup in Hin as [i Hi]. destruct (ro_decode t Ht _ _ _ Hi) as [Hn _].
    apply lookup_lt_Some in Hi. lia.
  - unfold insertEvent. apply wrap_st_live.
    eapply st_triple_conseq; [by apply statement_in | done | | done]. intros ? s [_ Hs]. exists t'. split; [|done].
    destruct (insert_event_next t _ e t' Ht eq_refl Hv Hst Hseq Hins) as (H1 & H2 & H3 & H4 & H5). split; try done. split; [done|].
    intros [|i] x; [|done]. intros [= <-]. split_and!; try done. rewrite length_table_stream, Hseq, wrapu64_id; [lia|].
    unfold storable in Hst. unfold_int64. lia.
Qed.

(** The drafts become the events the in-memory store would make of them. *)
Lemma append_drafts_in w w' v ref expected i drafts created t :
  rows_ok t → Forall draft_typed drafts → Z.of_nat (length (table_stream t ref)) = expected + Z.of_nat i →
  expected + Z.of_nat i + Z.of_nat (length drafts) <= int64_max → is_Some (aggregate_versions t !! aggregate_key ref) →
  materialize ref expected i drafts w = (Ok created, w') → world_ok w → clock_ok w → fresh_ids created t →
  st_triple (holds_in w v t) (append_drafts ref expected i drafts)
    (λ c s, c = created ∧ ∃ t', appended ref drafts t t' created ∧ holds_in w' v t' s) never.
Proof.
  revert i t w created. induction drafts as [|d drafts IH]; intros i t w created Ht Hty Hlen Hmax Hver; cbn [append_drafts materialize].
  { intros [= <- <-] _ _ _. apply st_triple_ret. intros s Hs. split; [done|]. exists t. split; [by apply appended_nil | done]. }
  inversion Hty as [|? ? Hd Hty']; subst. cbn [length] in Hmax. unfold mbind at 1, st_bind at 1. cbn [time_Now].
  set (now := clock w (tick w)). set (w1 := {| w with tick := S (tick w) |}).
  destruct (NewEvent ref (wrapu64 (expected + Z.of_nat i + 1)) d now w1) as [[e|err] w2] eqn:Enew;
    unfold mbind at 1, st_bind at 1; rewrite Enew; [|done].
  unfold mbind at 1, st_bind at 1. destruct (materialize ref expected (S i) drafts w2) as [[rest|err] w3] eqn:Erest; [|done].
  intros [= <- <-] Hw Hc [Hnd Hfresh]. destruct (NewEvent_world _ _ _ _ _ _ _ Enew) as [Hclock Hentropy].
  assert (world_ok w2) as Hw2 by (intros k; rewrite Hentropy; apply Hw).
  assert (clock_ok w2) as Hc2 by (intros k; rewrite Hclock; apply Hc).
  assert (Event_Validate e = Ok tt) as Hv by (by eapply (NewEvent_valid _ _ _ _ w1)).
  assert (event_draft e = d ∧ Event_Aggregate e = ref ∧ Event_Sequence e = expected + Z.of_nat i + 1 ∧ storable e) as (He & Ha & Hq & Hst).
  { apply NewEvent_Ok in Enew as (_ & _ & _ & _ & id & _ & -> & _). rewrite event_draft_make. unfold storable, make_event. cbn.
    rewrite wrapu64_id by (unfold_int64; lia). split_and!; try done; try lia; apply Hd || apply Hc. }
  eapply (st_triple_bind _ _ (λ n s, n = now ∧ holds_in w1 v t s)).
  { intros s [[[Hw' [Hc' Hs]] Hf] <-]. split; [done|]. split; [|done]. split; [|done]. by split_and!. }
  intros n s [-> Hs]. revert s Hs. apply (st_triple_bind _ _ (λ x s, x = e ∧ holds_in w2 v t s)).
  { apply wrap_st_live. intros s [[(_ & _ & Hs) Hf] Hsw]. unfold on_world. rewrite Hsw. unfold Time_UTC. rewrite Enew.
    split; [done|]. split; [|done]. split; [|done]. by split_and!. }
  intros x s [-> Hs]. revert s Hs. eapply st_triple_bind.
  { apply (insertEvent_in w2 v t e); [done..| | |]; rewrite ?Ha; [lia | apply Hfresh; by left | done]. }
  rewrite Ha, He. intros ? s (t1 & Happ & Hids & Hs). revert s Hs. eapply st_triple_bind.
  { apply (IH (S i) t1 w2 rest); try done.
    - apply Happ.
    - rewrite (app_stream _ _ _ _ _ Happ), length_app. cbn [length]. lia.
    - lia.
    - by rewrite (app_versions _ _ _ _ _ Happ).
    - split; [by apply NoDup_cons in Hnd as [_ ?]|]. intros x Hx. rewrite Hids, not_elem_of_union, not_elem_of_singleton. split.
      + intros E. cbn in Hnd. apply NoDup_cons in Hnd as [Hnd _]. apply Hnd. rewrite <-E. by apply list_elem_of_fmap_2.
      + apply Hfresh. by right. }
  intros x s [-> (t2 & Happ2 & Hs)]. split; [done|]. exists t2. split; [by eapply appended_cons | done].
Qed.

(** The current version can be claimed. *)
Lemma claim_in w v t ref n :
  0 <= version_of t ref → 0 <= n →
  st_triple (holds_in w v t) (claim ref (version_of t ref) n)
    (λ _ s, ∃ t', claimed ref (version_of t ref) n t t' ∧ is_Some (aggregate_versions t' !! aggregate_key ref) ∧ holds_in w v t' s) never.
Proof.
  intros H0 Hn. destruct (insert_version_keeps (aggregate_key ref) t) as (_ & _ & _ & Hv). specialize (Hv (aggregate_key ref)).
  set (t1 := insert_version (aggregate_key ref) t) in *.
  assert (aggregate_versions t1 !! aggregate_key ref = Some (version_of t ref)) as Hlookup.
  { unfold version_of, t1, insert_version in *. destruct (aggregate_versions t !! aggregate_key ref) eqn:E; [by rewrite E | by apply lookup_insert_eq]. }
  assert (∃ t2, claim_version (aggregate_key ref) n (version_of t ref) t1 = Ok (1, t2) ∧ is_Some (aggregate_versions t2 !! aggregate_key ref)) as (t2 & Hclaim & Hsome).
  { unfold claim_version. rewrite Hlookup, Z.eqb_refl. destruct (Z.ltb_spec (version_of t ref + n) 0); [lia|].
    eexists. split; [reflexivity|]. cbn. rewrite lookup_insert_eq. by eexists. }
  unfold claim. eapply st_triple_bind; [by apply wrap_st_live, (statement_in _ w v t tt t1)|]. intros ? s [_ Hs]. revert s Hs.
  eapply st_triple_bind; [by apply wrap_st_live, (statement_in _ w v t1 1 t2)|]. intros rows s [-> Hs]. revert s Hs. cbn [negb Z.eqb].
  eapply st_triple_bind; [apply wrap_st_live, sql_call_live, (holds_in_callless w v t2)|]. intros ?. apply st_triple_ret.
  intros s Hs. exists t2. split_and!; [by apply claim_version_claimed | done | done].
Qed.

(** Where the in-memory store cannot make the events of its drafts, the SQLite store
    cannot either. *)
Lemma world_of_insert w e : st_triple (λ s, sql_world s = w) (insertEvent e) (λ _ s, sql_world s = w) (λ _ _, True).
Proof.
  intros s <-. unfold insertEvent, wrap_st, statement, on_database, sql_call, mbind, st_bind, st_get, st_modify, st_lift.
  destruct (sql_fault _); [done|]. destruct (sql_file s) as [[version [t|]]|] eqn:E; cbn; rewrite ?E; cbn; [|done..]. by destruct (insert_event _ _ _ t) as [[[] t']|].
Qed.

Lemma append_drafts_fails w w' ref expected i drafts e :
  materialize ref expected i drafts w = (Err e, w') →
  st_triple (λ s, sql_world s = w) (append_drafts ref expected i drafts) (λ _ _, False) (λ _ _, True).
Proof.
  revert i w. induction drafts as [|d drafts IH]; intros i w; cbn [append_drafts materialize]; [done|].
  unfold mbind at 1, st_bind at 1. cbn [time_Now]. set (now := clock w (tick w)). set (w1 := {| w with tick := S (tick w) |}).
  intros Hmat. eapply (st_triple_bind _ _ (λ n s, n = now ∧ sql_world s = w1)); [by intros s <-|].
  intros n s [-> Hs]. revert s Hs. unfold mbind at 1, st_bind at 1 in Hmat.
  destruct (NewEvent ref (wrapu64 (expected + Z.of_nat i + 1)) d now w1) as [[x|err] w2] eqn:Enew.
  - apply (st_triple_bind _ _ (λ y s, sql_world s = w2)).
    { intros s Hs. unfold wrap_st, on_world. rewrite Hs. unfold Time_UTC. by rewrite Enew. }
    intros y. eapply st_triple_bind; [apply world_of_insert|]. intros ?.
    unfold mbind, st_bind in Hmat. destruct (materialize ref expected (S i) drafts w2) as [[rest|err] w3] eqn:Erest; [done|].
    apply (st_triple_bind _ _ (λ _ _, False)); [|by intros ? s []]. apply (IH (S i) w2). congruence.
  - apply (st_triple_bind _ _ (λ _ _, False)); [|by intros ? s []].
    intros s Hs. unfold wrap_st, on_world. rewrite Hs. unfold Time_UTC. by rewrite Enew.
Qed.

(** What a workload makes of new events: applied to the projection of its stream,
    the projection then encoded.  Other aggregates have no projection. *)
Definition projection_verdict (ref : AggregateRef) (l created : list Event) : result unit :=
  if Ref_Type ref =s WorkloadAggregateType
  then
    p ← apply_created created (snd (apply_all Apply l (empty_projection ref)));
    wrapf "encode workload projection" (marshal_projection p) ;; Ok tt
  else Ok tt.

(** The projection is loaded from a row that holds the replay of the stream [l], as
    it was before the transaction. *)
Lemma load_projection_in w v t t0 l ref :
  projection_replayed t0 ref → l = table_stream t0 ref → workload_projections t = workload_projections t0 → Z.of_nat (length l) <= int64_max → valid_ref ref → Ref_Type ref = WorkloadAggregateType →
  st_triple (holds_in w v t) (loadWorkloadProjectionTx ref (Z.of_nat (length l)))
    (λ p s, apply_all Apply l (empty_projection ref) = (None, p) ∧ holds_in w v t s) never.
Proof.
  intros Hrow -> Hsame Hmax Href Hty s [Hs Hw]. unfold loadWorkloadProjectionTx, select_projection.
  pose proof (query_row_live (λ t, workload_projections t !! aggregate_key ref) v t s Hs) as Hq. unfold projection_replayed in Hrow. rewrite <-Hsame in Hrow.
  assert (sql_world (snd (st_try (query_row (λ t, workload_projections t !! aggregate_key ref)) s)) = sql_world s) as Hworld.
  { destruct (calls_only_try _ (calls_only_row (λ t, workload_projections t !! aggregate_key ref)) s) as [n ->]. done. }
  unfold mbind at 1, st_bind at 1. destruct (st_try _ s) as [[found|e] s1]; [|done]. destruct Hq as [-> Hs1]. cbn in Hworld.
  assert (holds_in w v t s1) as Hin by (split; congruence).
  destruct (workload_projections t !! aggregate_key ref) as [row|].
  - destruct Hrow as (Hne & p & Hp & Hseq & Hsha & Hd). destruct (replay_identity ref _ p Hp Hne Hmax) as (Hagg & Hver & _).
    assert (length (table_stream t0 ref) ≠ 0%nat) as Hlen by (by rewrite length_zero_iff_nil).
    revert s1 Hs1 Hworld Hin. intros s1 _ _ Hin. revert s1 Hin. eapply st_triple_lift_Ok.
    { rewrite Hseq, Hsha, seqb_refl, wrapu64_id, Z.eqb_refl by (unfold_int64; lia).
      destruct (Z.ltb_spec (Z.of_nat (length (table_stream t0 ref))) 1); [lia | done]. }
    eapply st_triple_lift_Ok; [exact Hd|]. eapply st_triple_lift_Ok; [by rewrite bool_decide_true, Hver, Z.eqb_refl|]. by apply st_triple_ret.
  - rewrite Hrow in *. revert s1 Hs1 Hworld Hin. intros s1 _ _ Hin. revert s1 Hin. eapply st_triple_lift_Ok; [done|].
    unfold NewWorkloadProjection. rewrite Href, Hty, seqb_refl. by intros s1 Hin.
Qed.

(** The projection of a workload is updated exactly when the verdict is. *)
Lemma update_in w v t t0 ref l created :
  projection_replayed t0 ref → l = table_stream t0 ref → workload_projections t = workload_projections t0 → Z.of_nat (length l) + Z.of_nat (length created) <= int64_max → created ≠ [] →
  valid_ref ref → Ref_Type ref = WorkloadAggregateType → is_Some (aggregate_versions t !! aggregate_key ref) →
  st_triple (holds_in w v t) (updateWorkloadProjection ref (Z.of_nat (length l)) created)
    (λ _ s, projection_verdict ref l created = Ok tt ∧ ∃ t', events t' = events t ∧ holds_in w v t' s)
    (λ e s, projection_verdict ref l created = Err e ∧ alive s ∧ sql_world s = w).
Proof.
  intros Hrow Hl Hsame Hmax Hne Href Hty Hver. assert (length created ≠ 0%nat) as Hlen by (by rewrite length_zero_iff_nil).
  unfold updateWorkloadProjection, projection_verdict. rewrite Hty, seqb_refl.
  eapply st_triple_bind; [eapply never_fails, (load_projection_in _ _ _ t0 l); done || lia|]. intros p s [Hp Hs]. revert s Hs. rewrite Hp. cbn [snd].
  destruct (apply_created created p) as [p'|e] eqn:Hc; [|by intros s [[Ha _] Hw]].
  apply apply_created_all in Hc. pose proof (apply_all_version _ _ _ Hp) as Hv0. pose proof (apply_all_version _ _ _ Hc) as Hv1.
  cbn [empty_projection Projection_Version] in Hv0. rewrite Hv0 in Hv1 by (unfold_int64; lia).
  eapply st_triple_lift_Ok; [done|]. cbn [mbind result_bind].
  destruct (wrapf "encode workload projection" (marshal_projection p')) as [document|e] eqn:Hm; [|by intros s [[Ha _] Hw]].
  eapply st_triple_lift_Ok; [done|]. apply never_fails, wrap_st_live.
  eapply st_triple_conseq; [eapply statement_in; unfold upsert_projection | done | | done].
  - cbn [Row_sequence]. destruct Hver as [x Hx]. rewrite Hx, (proj2 (Z.ltb_lt _ _)) by (rewrite Hv1; unfold_int64; lia). reflexivity.
  - intros ? s [_ Hs]. split; [done|]. eexists. split; [|exact Hs]. done.
Qed.

(** The current version and the events of an append are in the transaction. *)
Lemma transaction_in w w' v t ref drafts created :
  tables_ok t → Forall draft_typed drafts → drafts ≠ [] → valid_ref ref → version_of t ref + Z.of_nat (length drafts) <= int64_max →
  (Ref_Type ref = WorkloadAggregateType → projection_replayed t ref) →
  materialize ref (version_of t ref) 0 drafts w = (Ok created, w') → fresh_ids created t → world_ok w → clock_ok w →
  let verdict := projection_verdict ref (table_stream t ref) created in
  st_triple (holds_in w v t) (append_transaction ref (version_of t ref) drafts)
    (λ c s, verdict = Ok tt ∧ c = created ∧ ∃ t', table_stream t' ref = table_stream t ref ++ created ∧ holds_in w' v t' s)
    (λ e s, verdict = Err e ∧ alive s ∧ sql_world s = w').
Proof.
  intros Ht Hty Hne Href Hmax Hrow Hmat Hfresh Hw Hc verdict. assert (version_of t ref = Z.of_nat (length (table_stream t ref))) as Hver.
  { by rewrite (tok_version t Ht), length_table_stream. }
  unfold append_transaction. eapply st_triple_bind; [apply never_fails, claim_in; lia|].
  intros ? s (t2 & (C1 & C2 & C3 & C4 & C5 & C6) & Hsome & Hs). revert s Hs.
  assert (table_stream t2 ref = table_stream t ref) as Hst2 by (by apply table_stream_same).
  eapply st_triple_bind.
  { apply never_fails, (append_drafts_in w w' v ref _ 0 drafts created t2); try done.
    - apply (rows_ok_same t); [done | done | apply Ht].
    - rewrite Hst2. lia.
    - lia.
    - destruct Hfresh as [Hnd Hf]. split; [done|]. intros e He. rewrite C5. by apply Hf. }
  intros c s [-> (t3 & Happ & Hs)]. revert s Hs.
  pose proof (app_stream _ _ _ _ _ Happ) as Hst3. rewrite Hst2 in Hst3.
  apply (st_triple_bind _ _ (λ _ s, verdict = Ok tt ∧ ∃ t', table_stream t' ref = table_stream t ref ++ created ∧ holds_in w' v t' s)).
  { subst verdict. destruct (String.eqb_spec (Ref_Type ref) WorkloadAggregateType) as [Hwl|Hwl].
    - rewrite Hver. pose proof (f_equal length (proj1 (app_created _ _ _ _ _ Happ))) as Hlen. rewrite length_fmap in Hlen.
      eapply st_triple_conseq; [apply (update_in w' v t3 t ref (table_stream t ref)) | done | | done]; try done.
      + by apply Hrow.
      + by rewrite (app_projections _ _ _ _ _ Happ).
      + rewrite Hlen. lia.
      + intros ->. by destruct drafts.
      + by rewrite (app_versions _ _ _ _ _ Happ).
      + intros ? s (Hv & t4 & He & Hs). split; [done|]. exists t4. split; [|done]. by rewrite (table_stream_same t3).
    - unfold projection_verdict. rewrite (proj2 (String.eqb_neq _ _) Hwl). apply st_triple_ret. intros s Hs. split; [done | by exists t3]. }
  intros ? s (Hv & t4 & Hst4 & Hs). revert s Hs.
  eapply (st_triple_bind _ _ (λ _, holds_in w' v t4)); [|intros ?; apply st_triple_ret; intros s Hs; split_and!; [done | done | by exists t4]].
  apply never_fails, wrap_st_live. unfold sql_commit. eapply st_triple_bind; [apply sql_call_live, (holds_in_callless w' v t4)|]. intros ?. by apply st_triple_ret.
Qed.

(** Around the transaction nothing is refused, and a transaction that fails leaves
    the file as it was. *)
Lemma append_around w v t ctx ref expected drafts Q (E : error → SqlState → Prop) :
  (∀ n, ctx n = None) → valid_ref ref → Forall (λ d, EventDraft_Validate d = Ok tt) drafts → drafts ≠ [] →
  expected <= int64_max → expected + Z.of_nat (length drafts) <= int64_max →
  st_triple (holds_in w v t) (append_transaction ref expected drafts) Q (λ e s, E e {| s with sql_file := Some {| user_version := v; installed := Some t |} |}) →
  st_triple (holds_in w v t) (Sqlite_Append (live_context ctx) ref expected drafts) Q E.
Proof.
  intros Hctx Href Hd Hne Hexp Hmax Htx. unfold Sqlite_Append. cbn [live_context ctx_Err]. eapply st_triple_lift_Ok; [by rewrite Hctx|].
  apply (st_triple_bind _ _ (λ _, holds_in w v t)).
  { intros s Hs. pose proof (ready_live v t s (proj1 Hs)) as Hr. unfold ready in *. rewrite st_get_bind in *. by destruct (sql_store s). }
  intros busy. eapply st_triple_lift_Ok; [exact Href|]. eapply st_triple_lift_Ok; [by apply drafts_check_Ok|].
  destruct drafts as [|d ds] eqn:Eq; [done|]. rewrite <-Eq in *.
  assert (out_of_range expected drafts = false) as ->.
  { unfold out_of_range. apply orb_false_iff. split; apply Z.ltb_ge; lia. }
  eapply st_triple_lift_Ok; [done|]. apply (st_triple_bind _ _ (λ _, holds_in w v t)).
  { apply never_fails, map_context_live, wrap_st_live. unfold sql_Conn. eapply st_triple_bind; [apply sql_call_live, (holds_in_callless w v t)|].
    intros ?. by apply st_triple_ret. }
  intros connection. apply (st_triple_bind _ _ (λ b s, b = false ∧ holds_in w v t s)).
  { unfold boundBusyTimeout. cbn [live_context ctx_Deadline]. intros s Hs. unfold mbind, st_bind, mret, st_ret. rewrite Z.eqb_refl. done. }
  intros bounded s [-> Hs]. revert s Hs. apply deferred_triple; [done | done|].
  apply (st_triple_bind _ _ (λ _, holds_in w v t)).
  { apply never_fails, map_context_live, wrap_st_live. unfold sql_begin. eapply st_triple_bind; [apply sql_call_live, (holds_in_callless w v t)|].
    intros ?. by apply st_triple_ret. }
  intros ? s Hs. unfold transaction. specialize (Htx s Hs). rewrite (proj2 (proj1 Hs)). by destruct (append_transaction _ _ _ s) as [[c|e] s'].
Qed.

Lemma append_in w w' v t ctx ref drafts created :
  tables_ok t → Forall draft_typed drafts → (∀ n, ctx n = None) → valid_ref ref → Forall (λ d, EventDraft_Validate d = Ok tt) drafts →
  drafts ≠ [] → version_of t ref + Z.of_nat (length drafts) <= int64_max →
  (Ref_Type ref = WorkloadAggregateType → projection_replayed t ref) →
  materialize ref (version_of t ref) 0 drafts w = (Ok created, w') → fresh_ids created t → world_ok w → clock_ok w →
  let verdict := projection_verdict ref (table_stream t ref) created in
  st_triple (holds_in w v t) (Sqlite_Append (live_context ctx) ref (version_of t ref) drafts)
    (λ c s, verdict = Ok tt ∧ c = created ∧ ∃ t', table_stream t' ref = table_stream t ref ++ created ∧ holds_in w' v t' s)
    (λ e s, verdict = Err e ∧ holds_in w' v t s).
Proof.
  intros Ht Hty Hctx Href Hd Hne Hmax Hrow Hmat Hfresh Hw Hc verdict. apply append_around; try done; [lia|].
  eapply st_triple_conseq; [by apply (transaction_in w w') | done | done |]. intros e s (Hv & Ha & Hs'). split; [done|]. by split.
Qed.

Lemma append_fails_in w w' v t ctx ref drafts e :
  tables_ok t → (∀ n, ctx n = None) → valid_ref ref → Forall (λ d, EventDraft_Validate d = Ok tt) drafts →
  drafts ≠ [] → version_of t ref + Z.of_nat (length drafts) <= int64_max → materialize ref (version_of t ref) 0 drafts w = (Err e, w') →
  st_triple (holds_in w v t) (Sqlite_Append (live_context ctx) ref (version_of t ref) drafts) (λ _ _, False)
    (λ _ s, sql_file s = Some {| user_version := v; installed := Some t |}).
Proof.
  intros Ht Hctx Href Hd Hne Hmax Hmat. assert (0 <= version_of t ref) as H0 by (rewrite (tok_version t Ht); lia).
  apply append_around; try done; [lia|]. unfold append_transaction.
  eapply st_triple_bind; [apply never_fails, claim_in; lia|]. intros ? s (t2 & _ & _ & Hs). revert s Hs.
  apply (st_triple_bind _ _ (λ _ _, False)); [|by intros ? s []].
  eapply st_triple_conseq; [by eapply append_drafts_fails | by intros s [_ Hw] | done | done].
Qed.

End live_append.

(** C37. On a database that does not fail the two stores answer alike.  From the same
    stream and the same state of the process, for any aggregate and any version in
    the range of SQLite's integers: an append with a stale version is the same
    version conflict in both; where the in-memory store cannot make the events, the
    SQLite store fails too; and an append the in-memory store makes is made by the
    SQLite store with the same events, unless one of their identifiers is already
    taken or the aggregate is a workload whose projection does not accept them (or
    cannot be encoded), which the in-memory store does not check: then the SQLite
    store returns exactly this error and every stream is as it was.  Of a workload
    the projection must be the replay of its stream, as it is in every run
    ([sqlite_run_projections]). *)
Theorem stores_agree `{SqlHealthy, ProjectionCodec, Quoting, PayloadDecoder} ctx ref expected drafts s m :
  sqlite_inv s → memory_inv m → stream_at m (streamKey ref) = sqlite_stream s ref → world m = sql_world s →
  (∀ n, ctx n = None) → valid_ref ref → drafts ≠ [] → Forall draft_typed drafts → Forall (λ d, EventDraft_Validate d = Ok tt) drafts →
  expected + Z.of_nat (length drafts) <= int64_max →
  (Ref_Type ref = WorkloadAggregateType → projection_replayed (tables_of s) ref) →
  match Memory_Append ctx ref expected drafts m with
  | (Ok created, m') => fresh_ids created (tables_of s) →
      ∃ s', sql_world s' = world m' ∧
      match projection_verdict ref (sqlite_stream s ref) created with
      | Ok _ => Sqlite_Append (live_context ctx) ref expected drafts s = (Ok created, s') ∧
                sqlite_stream s' ref = stream_at m' (streamKey ref)
      | Err e => Sqlite_Append (live_context ctx) ref expected drafts s = (Err e, s') ∧
                 ∀ ref', sqlite_stream s' ref' = sqlite_stream s ref'
      end
  | (Err e, _) =>
      ∃ e' s', Sqlite_Append (live_context ctx) ref expected drafts s = (Err e', s') ∧
               (∀ ref', sqlite_stream s' ref' = sqlite_stream s ref') ∧
               (expected ≠ Z.of_nat (length (sqlite_stream s ref)) → e' = e)
  end.
Proof.
  intros Hinv [Hw _] Hstream Hworld Hctx Href Hne Hty Hd Hmax Hrow. pose proof Hinv as (v & t & Hs & Ht).
  assert (tables_of s = t) as Et by (unfold tables_of; by rewrite (proj2 Hs)). rewrite Et in *.
  pose proof (holds_stream v t s Hs) as Hst. rewrite Hst in *.
  assert (version_of t ref = Z.of_nat (length (table_stream t ref))) as Hver by (rewrite (tok_version t Ht), length_table_stream; done).
  destruct (decide (expected = Z.of_nat (length (table_stream t ref)))) as [->|Hstale].
  - unfold Memory_Append. rewrite Hctx. unfold valid_ref in Href. rewrite Href. cbn [check_ctx mbind result_bind].
    rewrite (drafts_check_Ok drafts Hd). destruct drafts as [|d ds] eqn:E; [done|]. rewrite <-E in *. cbn [mbind result_bind].
    rewrite Hstream, Z.eqb_refl. cbn [negb]. rewrite Hworld, <-Hver in *.
    destruct (materialize _ _ _ _ _) as [[created|e] w'] eqn:Emat.
    + unfold cloneEvents. intros Hfresh.
      pose proof (append_in (sql_world s) w' v t ctx ref drafts created Ht Hty Hctx Href Hd Hne Hmax Hrow Emat Hfresh) as Happ.
      specialize (Happ (proj1 (proj1 Hs)) (proj1 (proj2 (proj1 Hs))) s (conj Hs eq_refl)). cbn zeta in Happ.
      destruct (Sqlite_Append (live_context ctx) ref (version_of t ref) drafts s) as [[c|e] s'] eqn:Eapp.
      * destruct Happ as (-> & -> & t' & Hst' & Hs' & Hw'). exists s'. split; [done|]. split; [done|].
        rewrite (holds_stream v t' s' Hs'), Hst', stream_at_insert, decide_True by done. done.
      * destruct Happ as (-> & Hs' & Hw'). exists s'. split; [done|]. split; [done|]. intros ref'. by rewrite (holds_stream v t s' Hs'), Hst.
    + pose proof (append_fails_in (sql_world s) w' v t ctx ref drafts e Ht Hctx Href Hd Hne Hmax Emat s (conj Hs eq_refl)) as Happ.
      destruct (Sqlite_Append (live_context ctx) ref (version_of t ref) drafts s) as [[c|e'] s'] eqn:Eapp; [done|].
      exists e', s'. split_and!; [done| |done]. intros ref'. unfold sqlite_stream, tables_of. by rewrite Happ, (proj2 Hs).
  - rewrite Memory_append_stale by (done || by rewrite Hstream). rewrite Hstream, <-Hver.
    pose proof (append_stale_triple v t ctx ref expected drafts Ht Hctx Href Hd Hne Hmax ltac:(by rewrite Hver) s Hs) as Happ.
    destruct (Sqlite_Append _ _ _ _ _) as [[c|e] s'] eqn:Eapp; [done|]. exists e, s'. split_and!; [done| |done].
    apply Sqlite_Append_outcome in Eapp as [_ Hout]; [|done..]. intros ref'. by rewrite Hout, Hst.
Qed.

(** Where they differ: a version so large that the drafts would leave the range of
    SQLite's integers is an error without a class in the SQLite store, although
    it is as stale as any other; the in-memory store reports the version
    conflict. *)
Theorem out_of_range_version `{SqlEnv, ProjectionCodec, Quoting, PayloadDecoder} ctx ref expected drafts s m :
  is_Some (sql_store s) → (∀ n, ctx n = None) → valid_ref ref → drafts ≠ [] → Forall (λ d, EventDraft_Validate d = Ok tt) drafts →
  int64_max < expected + Z.of_nat (length drafts) → Z.of_nat (length (stream_at m (streamKey ref)) + length drafts) <= int64_max →
  (∃ e, Sqlite_Append (live_context ctx) ref expected drafts s = (Err e, s) ∧ errors_Is e "event stream version conflict" = false) ∧
  ∃ e, Memory_Append ctx ref expected drafts m = (Err e, m) ∧ errors_Is e "event stream version conflict" = true.
Proof.
  intros [busy Hbusy] Hctx Href Hne Hd Hbig Hsmall. split.
  - exists (errors_New "event sequence exceeds SQLite integer range"). split; [|done]. unfold Sqlite_Append. cbn [live_context ctx_Err].
    unfold mbind, st_bind, st_lift. rewrite Hctx. cbn [check_ctx]. unfold ready. rewrite st_get_bind, Hbusy. unfold mret, st_ret.
    unfold valid_ref in Href. rewrite Href, (drafts_check_Ok drafts Hd). destruct drafts as [|d ds] eqn:E; [done|]. rewrite <-E in *.
    assert (out_of_range expected drafts = true) as ->; [|done]. unfold out_of_range. apply orb_true_iff. right. apply Z.ltb_lt. lia.
  - eexists. split; [apply Memory_append_stale; [done..|lia] | done].
Qed.

(** The append is optimistic, on a database that does not fail: with any version
    but the current one it is the version conflict that tells the current one,
    which is [ErrVersionConflict], and the database stays as it is; when it
    succeeds the version was the current one and the stream of this aggregate,
    and no other, is extended by the materialised drafts, which it returns. *)
Theorem Sqlite_Append_optimistic `{SqlHealthy, ProjectionCodec, Quoting, PayloadDecoder} ctx ref expected drafts s r s' :
  sqlite_inv s → (∀ n, ctx n = None) → valid_ref ref → drafts ≠ [] → Forall draft_typed drafts →
  Forall (λ d, EventDraft_Validate d = Ok tt) drafts → expected + Z.of_nat (length drafts) <= int64_max →
  Sqlite_Append (live_context ctx) ref expected drafts s = (r, s') →
  let n := length (sqlite_stream s ref) in
  (expected ≠ Z.of_nat n → r = Err (VersionConflictError ref expected (Z.of_nat n)) ∧ (∀ ref', sqlite_stream s' ref' = sqlite_stream s ref') ∧
     ∀ e, r = Err e → errors_Is e "event stream version conflict" = true) ∧
  ∀ created, r = Ok created →
    expected = Z.of_nat n ∧ materialises ref n drafts created ∧ sqlite_stream s' ref = sqlite_stream s ref ++ created ∧
    ∀ ref', ref' ≠ ref → sqlite_stream s' ref' = sqlite_stream s ref'.
Proof.
  intros Hs Hctx Href Hne Hty Hd Hmax Happend n. pose proof Happend as Hout. apply Sqlite_Append_outcome in Hout as [_ Hout]; [|done..]. split.
  - intros Hstale. pose proof Hs as (v & t & Hh & Ht). pose proof (holds_stream v t s Hh ref) as Hst. unfold n in *. rewrite Hst in *.
    assert (version_of t ref = Z.of_nat (length (table_stream t ref))) as Hver by (rewrite (tok_version t Ht), length_table_stream; done).
    pose proof (append_stale_triple v t ctx ref expected drafts Ht Hctx Href Hd Hne Hmax ltac:(by rewrite Hver) s Hh) as Happ.
    rewrite Happend in Happ. destruct r as [created|e]; [done|]. subst e. rewrite Hver. split_and!; [done | exact Hout | by intros e [= <-]].
  - intros created ->. destruct Hout as (_ & _ & He & Hm & Hst & Hother). split_and!; try done. by apply He.
Qed.
