(* ===== verification/SqliteExample.v ===== *)
(** * The SQLite store on a small run

    Witnesses of the theorems on the store: a database that is created, a
    workload appended to it, loaded and opened again. *)

From Stdlib Require Import ZArith Lia.
From S2P Require Import Prelude GoNum GoText GoJson GoHash Ident Domain Event Store MemoryStore Model Policy Routing LoopTypes Execution Projection WorkloadReplay Sqlite SqliteSpec SqliteContract SqliteProjection SqliteOpen SqliteMemory.

#[local] Instance example_sql : SqlEnv :=
  {| sql_fault := fun _ => None; sql_connection := fun _ => 0%nat; filepath_Abs := fun path => Ok path;
     pragma_journal_mode := fun _ => "WAL"; pragma_foreign_keys := fun _ => 1 |}.

#[local] Instance example_sql_healthy : SqlHealthy.
Proof. by split. Defined.

#[local] Existing Instance no_quoting.
#[local] Existing Instance table_decoder.

(** A process whose entropy differs from call to call. *)
Definition example_process : World :=
  {| clock := fun _ => unix_epoch + 1700000000123 * 10 ^ 6; entropy := fun n => repeat (Z.of_nat n mod 256) 16; tick := 0 |}.

Lemma example_process_ok : world_ok example_process.
Proof.
  intros n. cbn. pose proof (Z.mod_pos_bound (Z.of_nat n) 256 ltac:(lia)).
  repeat (constructor; [unfold is_byte; lia|]). constructor.
Qed.

Lemma example_clock_ok : clock_ok example_process.
Proof. intros n. by vm_compute. Qed.

(** The events of the example drafts and the two projections on their way. *)
Definition example_created : list Event :=
  match fst (materialize example_ref 0 0 example_drafts example_process) with Ok l => l | Err _ => [] end.

Definition example_projection_of (n : nat) : WorkloadProjection :=
  snd (apply_all Apply (take n example_created) (empty_projection example_ref)).

#[local] Instance example_codec : ProjectionCodec :=
  {| marshal_projection := fun p => Ok (if Projection_Version p =? 1 then "first" else "second");
     decode_projection := fun document =>
       if document =s "first" then Ok (example_projection_of 1, TrailEOF)
       else if document =s "second" then Ok (example_projection_of 2, TrailEOF)
       else Err (errors_New "unexpected document") |}.

#[local] Program Instance example_codec_laws : ProjectionLaws :=
  {| faithful := fun p => p = example_projection_of 1 ∨ p = example_projection_of 2 |}.
Next Obligation. intros p document [-> | ->]; vm_compute; by intros [= <-]. Qed.

Definition example_nothing : SqlState :=
  {| sql_file := None; sql_store := None; sql_busy := ∅; sql_world := example_process; sql_calls := 0 |}.

Definition no_options : Options := {| Options_BusyTimeout := 0; Options_MaxOpenConnections := 0 |}.

Definition example_opened : SqlState := snd (OpenWithOptions (live_context background) "workloads.db" no_options example_nothing).
Definition example_appended : SqlState := snd (Sqlite_Append (live_context background) example_ref 0 example_drafts example_opened).
Definition example_reopened : SqlState := snd (OpenWithOptions (live_context background) "workloads.db" no_options example_appended).

Lemma run_result {S A} (m : ST S A) s r : fst (m s) = r → m s = (r, snd (m s)).
Proof. intros <-. apply surjective_pairing. Qed.

Lemma example_open_Ok : fst (OpenWithOptions (live_context background) "workloads.db" no_options example_nothing) = Ok tt.
Proof. by vm_compute. Qed.
Lemma example_opened_run : OpenWithOptions (live_context background) "workloads.db" no_options example_nothing = (Ok tt, example_opened).
Proof. unfold example_opened. exact (run_result _ _ _ example_open_Ok). Qed.

Lemma example_append_Ok : fst (Sqlite_Append (live_context background) example_ref 0 example_drafts example_opened) = Ok example_created.
Proof. by vm_compute. Qed.
Lemma example_appended_run :
  Sqlite_Append (live_context background) example_ref 0 example_drafts example_opened = (Ok example_created, example_appended).
Proof. unfold example_appended. exact (run_result _ _ _ example_append_Ok). Qed.

Lemma example_drafts_typed : Forall draft_typed example_drafts.
Proof. repeat (constructor; [by vm_compute|]). constructor. Qed.

Lemma example_opened_inv : sqlite_inv example_opened.
Proof.
  exists 1, empty_tables. split; [|apply empty_tables_ok].
  split; [|by vm_compute]. split; [exact example_process_ok|]. split; [exact example_clock_ok|]. by eexists.
Qed.

Lemma example_step : sqlite_step example_opened example_appended.
Proof. by eapply sqlite_append; [apply example_drafts_typed | apply example_appended_run]. Qed.

Example Open_new_witness : sqlite_inv example_opened ∧ ∀ ref, sqlite_stream example_opened ref = [].
Proof.
  exact (match Open_new (live_context background) "workloads.db" no_options example_nothing (Ok tt) example_opened
    eq_refl example_process_ok example_clock_ok example_opened_run with conj H (conj Hst _) => conj H Hst end).
Defined.

Example row_roundtrip_witness :
  match decode_row example_ref (1, event_row (make_event example_id example_ref 1 example_draft (unix_epoch + 5))) with
  | Ok e => storable e
  | Err _ => False
  end.
Proof.
  pose proof (row_roundtrip example_ref (1, event_row (make_event example_id example_ref 1 example_draft (unix_epoch + 5)))) as H.
  assert (decode_row example_ref (1, event_row (make_event example_id example_ref 1 example_draft (unix_epoch + 5)))
          = Ok (make_event example_id example_ref 1 example_draft (unix_epoch + 5))) as E by (by vm_compute).
  rewrite E in *. destruct (H ltac:(vm_compute; split; congruence) ltac:(vm_compute; split; congruence)) as (_ & Hst & _). exact Hst.
Defined.

Lemma example_refused :
  fst (Sqlite_Append (live_context background) example_ref 0 example_drafts example_appended) = Err (VersionConflictError example_ref 0 2).
Proof. by vm_compute. Qed.

(** A second append at the same version is refused and changes nothing. *)
Example Sqlite_Append_atomic_witness :
  sql_file (snd (Sqlite_Append (live_context background) example_ref 0 example_drafts example_appended)) = sql_file example_appended.
Proof.
  exact (Sqlite_Append_atomic (live_context background) example_ref 0 example_drafts example_appended (VersionConflictError example_ref 0 2) _
           (run_result _ _ _ example_refused)).
Defined.

Example sqlite_store_append_only_witness :
  sqlite_stream example_opened example_ref `prefix_of` sqlite_stream example_appended example_ref.
Proof.
  apply (sqlite_store_append_only example_opened example_appended example_opened_inv (rtc_once _ _ example_step)).
Defined.

Lemma example_loaded :
  fst (Sqlite_Load (live_context background) example_ref 0 example_appended) = Ok example_created.
Proof. by vm_compute. Qed.

Lemma example_rows_width r :
  r ∈ rows_of (tables_of example_appended) (aggregate_key example_ref) → is_int64 (fst r) ∧ is_int64 (Row_occurred_at_ns (snd r)).
Proof.
  assert (Forall (λ r, (int64_min <=? fst r) && (fst r <=? int64_max) && (int64_min <=? Row_occurred_at_ns (snd r)) &&
    (Row_occurred_at_ns (snd r) <=? int64_max) = true) (rows_of (tables_of example_appended) (aggregate_key example_ref))) as H.
  { apply (bool_decide_unpack _). vm_compute. exact I. }
  rewrite Forall_forall in H. intros Hin%H. rewrite !andb_true_iff, !Z.leb_le in Hin. unfold is_int64. by destruct Hin as [[[? ?] ?] ?].
Qed.

Example Sqlite_Load_verified_witness :
  select_events (aggregate_key example_ref) 0 (tables_of example_appended) = (λ e, (Event_Sequence e, event_row e)) <$> example_created.
Proof.
  assert (0 <= 0 <= int64_max) as Hrange by (unfold int64_max; lia).
  exact (proj1 (Sqlite_Load_verified (live_context background) example_ref 0 example_appended example_created _
    Hrange example_rows_width (run_result _ _ _ example_loaded))).
Defined.

Lemma example_opened_projections : projections_ok (tables_of example_opened).
Proof.
  intros ref _ _. unfold projection_replayed. assert (tables_of example_opened = empty_tables) as -> by (by vm_compute). done.
Qed.

Lemma example_stream : sqlite_stream example_appended example_ref = example_created.
Proof. by vm_compute. Qed.

Lemma example_faithful : faithful_stream example_ref (sqlite_stream example_appended example_ref).
Proof.
  rewrite example_stream. intros n p Hn Hp.
  assert (p = example_projection_of n) as -> by (unfold example_projection_of; by rewrite Hp).
  assert (length example_created = 2%nat) as Hl by (by vm_compute). rewrite Hl in Hn.
  destruct n as [|[|[|n]]]; [lia | left; reflexivity | right; reflexivity | lia].
Qed.

Example sqlite_projection_replayed_witness :
  match fst (Sqlite_LoadWorkloadProjection (live_context background) example_ref example_appended),
        fst (LoadWorkloadProjection background background example_ref example_appended) with
  | Ok q, Ok q' => q = q'
  | _, _ => False
  end.
Proof.
  pose proof (sqlite_projection_replayed example_opened example_appended example_ref background background background
    example_opened_inv example_opened_projections (rtc_once _ _ example_step) eq_refl eq_refl example_faithful
    (λ _, eq_refl) (λ _, eq_refl) (λ _, eq_refl)) as H.
  rewrite example_stream in H.
  destruct (fst (Sqlite_LoadWorkloadProjection _ _ _)) as [q|e], (fst (LoadWorkloadProjection _ _ _ _)) as [q'|e']; try done.
  - by destruct H.
  - destruct H as [H _]. by vm_compute in H.
Defined.

Lemma example_reopen_Ok : fst (OpenWithOptions (live_context background) "workloads.db" no_options example_appended) = Ok tt.
Proof. by vm_compute. Qed.

Example Open_existing_witness : sqlite_stream example_reopened example_ref = sqlite_stream example_appended example_ref.
Proof.
  assert (∃ d, sql_file example_appended = Some d ∧ user_version d ≠ 0) as (d & Hd & Hv).
  { destruct (sql_file example_appended) as [d|] eqn:E; [|by vm_compute in E]. exists d. split; [done|].
    assert (option_map user_version (sql_file example_appended) = Some 1) as H by (by vm_compute). rewrite E in H. by injection H as ->. }
  pose proof (Open_existing (live_context background) "workloads.db" no_options example_appended d (Ok tt) example_reopened Hd Hv
    (run_result _ _ _ example_reopen_Ok)) as (_ & _ & _ & H).
  exact (proj2 (H (proj1 (sqlite_step_inv _ _ example_opened_inv example_step)) eq_refl) example_ref).
Defined.

Example operation_millis_exact_witness : 1 <= operation_millis 5000 1500000.
Proof. apply (operation_millis_exact 5000 1500000); [lia | unfold int64_max; lia]. Defined.

Example operation_millis_overflow_witness : operation_millis 5000 (Time_Sub (2 ^ 63) 0) < 0.
Proof. apply (operation_millis_overflow 5000 (2 ^ 63) 0); [lia | unfold int64_max; lia]. Defined.

(* ------------------------------------------------------------------ *)
(** ** The two stores side by side *)

Definition example_note : AggregateRef := {| Ref_Type := "note"; Ref_ID := example_id |}.

Lemma example_drafts_valid : Forall (λ d, EventDraft_Validate d = Ok tt) example_drafts.
Proof. repeat (constructor; [by vm_compute|]). constructor. Qed.

Definition example_noted : MemoryStore := snd (Memory_Append background example_note 0 example_drafts (New example_process)).

Lemma example_note_Ok : fst (Memory_Append background example_note 0 example_drafts (New example_process)) = Ok (stream_at example_noted (streamKey example_note)).
Proof. by vm_compute. Qed.

Lemma example_note_fresh : fresh_ids (stream_at example_noted (streamKey example_note)) (tables_of example_opened).
Proof.
  split; [apply (bool_decide_unpack _); vm_compute; exact I|].
  assert (event_ids (tables_of example_opened) = ∅) as -> by (by vm_compute). intros e _. apply not_elem_of_empty.
Qed.

(** The events of a workload in an order its projection does not accept: the
    in-memory store makes them, the SQLite store answers the projection's error. *)
Definition example_swapped : MemoryStore := snd (Memory_Append background example_ref 0 (rev example_drafts) (New example_process)).

Definition example_refusal : error :=
  match projection_verdict example_ref [] (stream_at example_swapped (streamKey example_ref)) with Ok _ => errors_New "accepted" | Err e => e end.

Lemma example_swapped_Ok :
  fst (Memory_Append background example_ref 0 (rev example_drafts) (New example_process)) = Ok (stream_at example_swapped (streamKey example_ref)).
Proof. by vm_compute. Qed.

Lemma example_swapped_fresh : fresh_ids (stream_at example_swapped (streamKey example_ref)) (tables_of example_opened).
Proof.
  split; [apply (bool_decide_unpack _); vm_compute; exact I|].
  assert (event_ids (tables_of example_opened) = ∅) as -> by (by vm_compute). intros e _. apply not_elem_of_empty.
Qed.

Lemma example_opened_replayed ref : projection_replayed (tables_of example_opened) ref.
Proof. unfold projection_replayed. assert (tables_of example_opened = empty_tables) as -> by (by vm_compute). done. Qed.

Example stores_agree_witness :
  (∃ s', Sqlite_Append (live_context background) example_note 0 example_drafts example_opened
         = (Ok (stream_at example_noted (streamKey example_note)), s')) ∧
  ∃ s', Sqlite_Append (live_context background) example_ref 0 (rev example_drafts) example_opened = (Err example_refusal, s').
Proof.
  split.
  - pose proof (stores_agree background example_note 0 example_drafts example_opened (New example_process) example_opened_inv
      (memory_inv_New _ example_process_ok) eq_refl eq_refl (λ _, eq_refl) eq_refl ltac:(discriminate) example_drafts_typed
      example_drafts_valid ltac:(cbn; unfold int64_max; lia) (λ _, example_opened_replayed example_note)) as H.
    rewrite (run_result _ _ _ example_note_Ok) in H. destruct (H example_note_fresh) as (s' & _ & Hs' & _). by exists s'.
  - pose proof (stores_agree background example_ref 0 (rev example_drafts) example_opened (New example_process) example_opened_inv
      (memory_inv_New _ example_process_ok) eq_refl eq_refl (λ _, eq_refl) eq_refl ltac:(discriminate)
      (Forall_rev example_drafts_typed) (Forall_rev example_drafts_valid) ltac:(cbn; unfold int64_max; lia)
      (λ _, example_opened_replayed example_ref)) as H.
    rewrite (run_result _ _ _ example_swapped_Ok) in H. destruct (H example_swapped_fresh) as (s' & _ & Hs').
    assert (projection_verdict example_ref (sqlite_stream example_opened example_ref) (stream_at example_swapped (streamKey example_ref))
            = Err example_refusal) as E by (by vm_compute).
    rewrite E in Hs'. exists s'. exact (proj1 Hs').
Defined.

Example out_of_range_version_witness :
  ∃ e, Sqlite_Append (live_context background) example_note int64_max example_drafts example_opened = (Err e, example_opened) ∧
       errors_Is e "event stream version conflict" = false.
Proof.
  refine (proj1 (out_of_range_version background example_note int64_max example_drafts example_opened (New example_process)
    _ (λ _, eq_refl) eq_refl _ example_drafts_valid _ _)); [by eexists | discriminate | cbn; unfold int64_max; lia |].
  assert (length (stream_at (New example_process) (streamKey example_note)) = 0%nat) as -> by (by vm_compute). cbn. unfold int64_max. lia.
Defined.

Example Sqlite_Append_optimistic_witness :
  materialises example_ref 0 example_drafts example_created ∧ sqlite_stream example_appended example_ref = sqlite_stream example_opened example_ref ++ example_created.
Proof.
  pose proof (Sqlite_Append_optimistic background example_ref 0 example_drafts example_opened (Ok example_created) example_appended
    example_opened_inv (λ _, eq_refl) eq_refl ltac:(discriminate) example_drafts_typed example_drafts_valid
    ltac:(cbn; unfold int64_max; lia) example_appended_run) as [_ H].
  destruct (H example_created eq_refl) as (_ & Hm & Hs & _).
  assert (length (sqlite_stream example_opened example_ref) = 0%nat) as E by (by vm_compute). rewrite E in Hm. by split.
Defined.
