(* ===== verification/FileTree.v ===== *)
(** * A directory tree behind an os.Root

    What internal/toolop uses of the operating system: the entries below the
    root, the contents of files by inode (so that hard links share them), the
    resolution of paths by [os.Root], which follows symbolic links but never
    leaves the root, and the calls on it.  Every call may fail instead of doing
    its work; a write that fails may have written a part. *)

From Stdlib Require Import ZArith Lia.
From S2P Require Import Prelude Effects GoText GoPath.

(* ------------------------------------------------------------------ *)
(** ** Entries *)

Inductive Entry : Type :=
| EntryDir
| EntryFile (inode : nat)
| EntryLink (target : string)
| EntrySpecial.

#[global] Instance Entry_eq_dec : EqDecision Entry.
Proof. solve_decision. Defined.

(** Entries are found by the names that lead to them from the root. *)
Record Files : Type := {
  entries : gmap (list string) Entry;
  contents : gmap nat bytes;
}.

Definition entry_at (f : Files) (p : list string) : option Entry :=
  match p with [] => Some EntryDir | _ => entries f !! p end.

Definition content (f : Files) (inode : nat) : bytes := default "" (contents f !! inode).

Definition is_regular (e : Entry) : bool := match e with EntryFile _ => true | _ => false end.
Definition is_symlink (e : Entry) : bool := match e with EntryLink _ => true | _ => false end.
Definition is_directory (e : Entry) : bool := match e with EntryDir => true | _ => false end.

(* ------------------------------------------------------------------ *)
(** ** Resolution *)

Definition ErrNotExist : error := Sentinel "file does not exist".
Definition ErrExist : error := Sentinel "file already exists".
Definition ErrPathEscapes : error := Sentinel "path escapes from parent".
Definition ErrLoop : error := Sentinel "too many levels of symbolic links".
Definition ErrNotDir : error := Sentinel "not a directory".
Definition ErrIsDir : error := Sentinel "file is a directory".

(** os: at most so many links are followed. *)
Definition rootMaxSymlinks : nat := 8.

(** The walk along names from a directory, where [link] goes on after a link. *)
Fixpoint walk (link : list string → list string → result (list string)) (f : Files) (follow : bool)
    (dir names : list string) : result (list string) :=
  match names with
  | [] => Ok dir
  | name :: names' =>
      if name =s ".."
      then match dir with [] => Err ErrPathEscapes | _ => walk link f follow (removelast dir) names' end
      else
        let here := dir ++ [name] in
        let final := match names' with [] => true | _ => false end in
        match entry_at f here with
        | Some (EntryLink target) =>
            if final && negb follow then Ok here
            else if is_abs target then Err ErrPathEscapes
            else link dir (path_names target ++ names')
        | Some EntryDir => walk link f follow here names'
        | Some _ => if final then Ok here else Err ErrNotDir
        | None => if final then Ok here else Err ErrNotExist
        end
  end.

Fixpoint resolve (fuel : nat) (f : Files) (follow : bool) : list string → list string → result (list string) :=
  walk (match fuel with O => fun _ _ => Err ErrLoop | S fuel' => resolve fuel' f follow end) f follow.

(** A path that ends with a separator or a dot names a directory. *)
Definition names_directory (path : string) : bool :=
  match last (split_slash path) with Some name => negb (bool_decide (name_kept name)) | None => false end.

Definition locate (f : Files) (follow : bool) (path : string) : result (list string) :=
  if path =s "" then Err ErrNotExist
  else if is_abs path then Err ErrPathEscapes
  else if names_directory path
  then
    p ← resolve rootMaxSymlinks f true [] (path_names path);
    match entry_at f p with Some EntryDir => Ok p | Some _ => Err ErrNotDir | None => Err ErrNotExist end
  else resolve rootMaxSymlinks f follow [] (path_names path).

(* ------------------------------------------------------------------ *)
(** ** Calls *)

Class FileEnv := {
  (** What the n-th call returns instead of doing its work. *)
  file_fault : nat → option error;
  (** How much a write that fails has written. *)
  file_partial : nat → nat;
  (** The n-th look at a context. *)
  file_context : nat → option error;
  (** [rand.Text] *)
  random_text : nat → string;
}.

Record FileState : Type := { fs_files : Files; fs_calls : nat }.

Section calls.
Context `{FileEnv}.
Notation FM := (EM FileState).

(** The number of a call. *)
Definition file_tick : FM nat :=
  s ← lm_get;
  lm_modify (fun s => {| s with fs_calls := S (fs_calls s) |}) ;;
  mret (fs_calls s).

Definition file_call : FM unit :=
  n ← file_tick;
  match file_fault n with Some e => lm_fail e | None => mret tt end.

Definition context_Err : FM (option error) := n ← file_tick; mret (file_context n).
Definition randomName : FM string := n ← file_tick; mret (random_text n).

Definition get_files : FM Files := s ← lm_get; mret (fs_files s).
Definition set_files (g : Files → Files) : FM unit := lm_modify (fun s => {| s with fs_files := g (fs_files s) |}).

(** The entry at a path. *)
Definition find_entry (follow : bool) (path : string) : FM Entry :=
  file_call ;;
  f ← get_files;
  p ← lm_lift (locate f follow path);
  match entry_at f p with Some e => mret e | None => lm_fail ErrNotExist end.

Definition root_Lstat (path : string) : FM Entry := find_entry false path.
Definition root_Stat (path : string) : FM Entry := find_entry true path.
(** Opening for reading, without blocking: the entry stands for the open file. *)
Definition open_read (path : string) : FM Entry := find_entry true path.
Definition file_Stat (file : Entry) : FM Entry := file_call ;; mret file.

(** [io.ReadAll(io.LimitReader(file, n))] *)
Definition read_all (file : Entry) (n : Z) : FM bytes :=
  file_call ;;
  f ← get_files;
  match file with
  | EntryFile inode => mret (take_bytes (Z.to_nat n) (content f inode))
  | EntryDir => lm_fail ErrIsDir
  | _ => mret ""
  end.

(** Opening with O_CREATE and O_EXCL: a new empty file. *)
Definition create_exclusive (path : string) : FM nat :=
  file_call ;;
  f ← get_files;
  p ← lm_lift (locate f false path);
  match entry_at f p with
  | Some _ => lm_fail ErrExist
  | None =>
      let inode := fresh (dom (contents f)) in
      set_files (fun f => {| entries := <[p := EntryFile inode]> (entries f); contents := <[inode := ""]> (contents f) |}) ;;
      mret inode
  end.

Definition append_content (inode : nat) (text : bytes) : FM unit :=
  set_files (fun f => {| f with contents := <[inode := content f inode +:+ text]> (contents f) |}).

Definition write_string (inode : nat) (text : bytes) : FM unit :=
  n ← file_tick;
  match file_fault n with
  | Some e => append_content inode (take_bytes (file_partial n) text) ;; lm_fail e
  | None => append_content inode text
  end.

(** Renaming a file: what was at the new path is replaced, unless it is a
    directory. *)
Definition root_Rename (old new : string) : FM unit :=
  file_call ;;
  f ← get_files;
  po ← lm_lift (locate f false old);
  pn ← lm_lift (locate f false new);
  match entry_at f po, entry_at f pn with
  | None, _ => lm_fail ErrNotExist
  | _, Some EntryDir => lm_fail ErrIsDir
  | Some e, _ => set_files (fun f => {| f with entries := <[pn := e]> (delete po (entries f)) |})
  end.

(** Removing a file. *)
Definition root_Remove (path : string) : FM unit :=
  file_call ;;
  f ← get_files;
  p ← lm_lift (locate f false path);
  match entry_at f p with
  | None => lm_fail ErrNotExist
  | Some EntryDir => lm_fail ErrIsDir
  | Some _ => set_files (fun f => {| f with entries := delete p (entries f) |})
  end.

End calls.

(* ------------------------------------------------------------------ *)
(** ** What resolution depends on *)

(** Nothing that leads somewhere in [g] does not in [f]. *)
Definition leads_less (g f : Files) : Prop :=
  ∀ p e, entry_at g p = Some e → is_directory e = true ∨ is_symlink e = true → entry_at f p = Some e.

Lemma walk_less link link' f g :
  leads_less g f → (∀ dir names p, link' dir names = Ok p → link dir names = Ok p) →
  ∀ dir names p, walk link' g false dir names = Ok p → walk link f false dir names = Ok p.
Proof.
  intros Hless Hlink dir names. revert dir. induction names as [|n names IH]; intros dir p; [done|]. cbn [walk].
  destruct (n =s ".."); [destruct dir; [done | apply IH]|].
  destruct (entry_at g (dir ++ [n])) as [[|i|t|]|] eqn:E.
  - rewrite (Hless _ _ E (or_introl eq_refl)). apply IH.
  - destruct names; [|done]. intros [= <-]. by destruct (entry_at f (dir ++ [n])) as [[| | |]|].
  - rewrite (Hless _ _ E (or_intror eq_refl)). destruct (_ && _); [done|]. destruct (is_abs t); [done | apply Hlink].
  - destruct names; [|done]. intros [= <-]. by destruct (entry_at f (dir ++ [n])) as [[| | |]|].
  - destruct names; [|done]. intros [= <-]. by destruct (entry_at f (dir ++ [n])) as [[| | |]|].
Qed.

Lemma resolve_less fuel f g dir names p :
  leads_less g f → resolve fuel g false dir names = Ok p → resolve fuel f false dir names = Ok p.
Proof.
  intros Hless. revert dir names p. induction fuel as [|fuel IH]; intros dir names p; cbn [resolve];
    apply walk_less; try done.
Qed.

(** What a path leads to without a final link is found in a tree that leads
    further, too; a path that names a directory leads to one. *)
Lemma locate_less f g path p :
  leads_less g f → locate g false path = Ok p → entry_at g p ≠ Some EntryDir → locate f false path = Ok p.
Proof.
  intros Hless. unfold locate. destruct (path =s ""), (is_abs path); try done.
  destruct (names_directory path); [|intros H _; by eapply resolve_less].
  rewrite bind_Ok. intros (q & _ & H). destruct (entry_at g q) as [[| | |]|] eqn:E; by simplify_eq.
Qed.

(** A path that ends with a name leads to an entry of this name. *)
Lemma walk_last link f name names :
  name ≠ ".." → (∀ dir names p, link dir (names ++ [name]) = Ok p → last p = Some name) →
  ∀ dir p, walk link f false dir (names ++ [name]) = Ok p → last p = Some name.
Proof.
  intros Hn Hlink. induction names as [|n names IH]; intros dir p; cbn [walk app].
  - rewrite (proj2 (String.eqb_neq _ _) Hn).
    destruct (entry_at f (dir ++ [name])) as [[| | |]|]; intros [= <-]; apply last_snoc.
  - assert (∃ x xs, names ++ [name] = x :: xs) as (x & xs & E) by (destruct names; eauto).
    destruct (n =s ".."); [destruct dir; [done | apply IH]|].
    destruct (entry_at f (dir ++ [n])) as [[|i|t|]|]; rewrite E; try done.
    + rewrite <-E. apply IH.
    + cbn [andb]. destruct (is_abs t); [done|]. rewrite <-E, app_assoc. apply Hlink.
Qed.

Lemma resolve_last fuel f name dir names p :
  name ≠ ".." → resolve fuel f false dir (names ++ [name]) = Ok p → last p = Some name.
Proof.
  intros Hn. revert dir names p. induction fuel as [|fuel IH]; intros dir names p; cbn [resolve]; by apply walk_last.
Qed.

Lemma locate_last f path name names p :
  name ≠ ".." → name_kept name → path_names path = names ++ [name] → last (split_slash path) = Some name →
  locate f false path = Ok p → last p = Some name.
Proof.
  intros Hn Hk Hp Hl. unfold locate, names_directory. rewrite Hl, bool_decide_true by done. cbn [negb].
  destruct (path =s ""), (is_abs path); try done. rewrite Hp. by apply resolve_last.
Qed.

(** Following a final link makes no difference where there is none. *)
Lemma walk_follow link link' f :
  (∀ dir names p, link dir names = Ok p → is_symlink <$> entry_at f p ≠ Some true → link' dir names = Ok p) →
  ∀ dir names p, walk link f false dir names = Ok p → is_symlink <$> entry_at f p ≠ Some true → walk link' f true dir names = Ok p.
Proof.
  intros Hlink dir names. revert dir. induction names as [|n names IH]; intros dir p; [done|]. cbn [walk].
  destruct (n =s ".."); [destruct dir; [done | apply IH]|].
  destruct (entry_at f (dir ++ [n])) as [[|i|t|]|] eqn:E; [apply IH|done| |done..].
  cbn [negb]. rewrite andb_true_r, andb_false_r. destruct names as [|m names].
  - intros [= <-]. by rewrite E.
  - destruct (is_abs t); [done|]. apply Hlink.
Qed.

Lemma resolve_follow fuel f dir names p :
  resolve fuel f false dir names = Ok p → is_symlink <$> entry_at f p ≠ Some true → resolve fuel f true dir names = Ok p.
Proof.
  revert dir names p. induction fuel as [|fuel IH]; intros dir names p; cbn [resolve]; apply walk_follow; done.
Qed.

Lemma locate_follow f path p :
  locate f false path = Ok p → is_symlink <$> entry_at f p ≠ Some true → locate f true path = Ok p.
Proof.
  unfold locate. destruct (path =s ""), (is_abs path), (names_directory path); try done. apply resolve_follow.
Qed.

(** Without links a path that stays below its start is never refused as an
    escape. *)
Lemma walk_contained link f follow dir names :
  (∀ p t, entry_at f p ≠ Some (EntryLink t)) → stays_below (length dir) names → walk link f follow dir names ≠ Err ErrPathEscapes.
Proof.
  intros Hno. revert dir. induction names as [|n names IH]; intros dir; [done|]. cbn [walk stays_below].
  destruct (n =s "..").
  - destruct (length dir) as [|d] eqn:L; [done|]. destruct dir as [|x dir'] eqn:D; [done|]. rewrite <-D in *. intros H. apply IH.
    rewrite removelast_firstn_len, length_firstn, L. cbn [pred]. by rewrite Nat.min_l by lia.
  - intros H. assert (S (length dir) = length (dir ++ [n])) as L by (rewrite length_app; cbn; lia). rewrite L in H.
    destruct (entry_at f (dir ++ [n])) as [[|i|t|]|] eqn:E; [by apply IH| |by apply Hno in E|..]; by destruct names.
Qed.

Lemma locate_contained f follow path :
  (∀ p t, entry_at f p ≠ Some (EntryLink t)) → is_abs path = false → stays_below 0 (path_names path) →
  locate f follow path ≠ Err ErrPathEscapes.
Proof.
  intros Hno Habs H. unfold locate. rewrite Habs. destruct (path =s ""); [done|].
  assert (∀ b, resolve rootMaxSymlinks f b [] (path_names path) ≠ Err ErrPathEscapes) as Hr by (intros b; by apply walk_contained).
  destruct (names_directory path); [|apply Hr].
  destruct (resolve _ f true [] (path_names path)) as [p|e] eqn:E.
  - change (Ok p ≫= ?k) with (k p). cbn beta. by destruct (entry_at f p) as [[| | |]|].
  - intros [= ->]. by apply (Hr true).
Qed.
