(* ===== verification/ToolOp.v ===== *)
(** * Bounded file operations (src/internal/toolop)

    The helper protocol of the file tools: decoding an input, the check of its
    path, reading, writing and editing a file below a root, and the helper
    program (src/cmd/fabricrunner-tool).  Decoding by encoding/json is a
    parameter; the text of a result is made here. *)

From Stdlib Require Import ZArith Lia DecimalString.
From S2P Require Import Prelude Effects GoNum GoText GoJson GoJsonText GoPath FileTree.

Definition MaxInput : Z := 8388608.

Record Input : Type := {
  Input_Path : string;
  Input_Text : string;
  Input_Old : string;
  Input_New : string;
  Input_Args : list string;
}.

Record Result : Type := {
  Result_Text : string;
  Result_Truncated : bool;
  Result_PartialEffects : bool;
  Result_ExitCode : Z;
  Result_Error : string;
}.

Definition empty_result : Result :=
  {| Result_Text := ""; Result_Truncated := false; Result_PartialEffects := false; Result_ExitCode := 0; Result_Error := "" |}.

(** [Decode] of an [Input] without unknown fields, and whether the next one finds
    the end. *)
Class InputDecoder := { decode_input : bytes → result (Input * bool) }.

Definition Decode `{InputDecoder} (data : bytes) : result Input :=
  require (negb (MaxInput <? Z.of_nat (String.length data))) "tool input exceeds 8 MiB" ;;
  '(input, last) ← decode_input data;
  require last "input must contain exactly one JSON object" ;;
  Ok input.

Definition refused_bytes : string := "\:" +:+ nul.

Definition ValidatePath (path : string) : result unit :=
  require (negb (negb (filepath_IsLocal path) || strings_ContainsAny path refused_bytes)) "path must be local to the tool root".

(* ------------------------------------------------------------------ *)
(** ** Operations *)

Definition temp_name (text : string) : string := ".fabricrunner-" +:+ text.

(** What a write or an edit returns. *)
Definition written_result : Result := {| empty_result with Result_Text := "ok"; Result_PartialEffects := true |}.

Section operations.
Context `{FileEnv}.
Notation FM := (EM FileState).

Definition context_ok : FM unit :=
  err ← context_Err;
  match err with Some e => lm_fail e | None => mret tt end.

Definition run_read (path : string) (maxOutput : Z) : FM (Result * option error) :=
  file ← open_read path;
  info ← file_Stat file;
  if negb (is_regular info) then lm_fail (errors_New "only regular files may be read")
  else
    data ← read_all file (add64 maxOutput 1);
    let long := maxOutput <? Z.of_nat (String.length data) in
    if long && (maxOutput <? 0) then lm_panic "slice bounds out of range"
    else
      err ← context_Err;
      mret ({| empty_result with Result_Text := if long then take_bytes (Z.to_nat maxOutput) data else data;
                                 Result_Truncated := long |}, err).

(** The text an edit writes. *)
Definition edit_text (input : Input) : FM string :=
  if Input_Old input =s "" then lm_fail (errors_New "edit match must not be empty")
  else
    file ← open_read (Input_Path input);
    info ← file_Stat file;
    if negb (is_regular info) then lm_fail (errors_New "only regular files may be edited")
    else
      data ← read_all file (MaxInput + 1);
      if MaxInput <? Z.of_nat (String.length data) then lm_fail (errors_New "file exceeds edit bound")
      else if negb (strings_Count data (Input_Old input) =? 1) then lm_fail (errors_New "edit requires exactly one match")
      else mret (replace_first data (Input_Old input) (Input_New input)).

(** The loop for a temporary file: its path and its inode. *)
Fixpoint create_temp (tries : nat) (parent : string) (last : error) : FM (string * nat) :=
  match tries with
  | O => lm_fail last
  | S tries' =>
      name ← randomName;
      let temp := filepath_Join parent (temp_name name) in
      created ← attempt (create_exclusive temp);
      match created with
      | Ok inode => mret (temp, inode)
      | Err e => if errors_Is e "file already exists" then create_temp tries' parent e else lm_fail e
      end
  end.

(** Fill the temporary file and put it in the place of the file at [path]. *)
Definition replace_file (temp : string) (inode : nat) (text path : string) : FM (Result * option error) :=
  written ← attempt (write_string inode text);
  synced ← attempt file_call;
  closed ← attempt file_call;
  err ← context_Err;
  match errors_Join [error_of written; error_of synced; error_of closed; err] with
  | Some e => lm_fail e
  | None =>
      root_Rename temp path ;;
      err ← context_Err;
      mret (written_result, err)
  end.

Definition not_a_link (path : string) : FM unit :=
  info ← attempt (root_Lstat path);
  match info with
  | Ok e => if is_symlink e then lm_fail (errors_New "write and edit refuse symlink targets") else mret tt
  | Err _ => mret tt
  end.

Definition may_be_written (path : string) : FM unit :=
  info ← attempt (root_Stat path);
  match info with
  | Ok _ => mret tt
  | Err e => if errors_Is e "file does not exist" then mret tt else lm_fail e
  end.

Definition run_write (operation : string) (input : Input) : FM (Result * option error) :=
  let path := Input_Path input in
  not_a_link path ;;
  may_be_written path ;;
  text ← (if operation =s "edit" then edit_text input else mret (Input_Text input));
  if MaxInput <? Z.of_nat (String.length text) then lm_fail (errors_New "write exceeds 8 MiB")
  else
    context_ok ;;
    '(temp, inode) ← create_temp 10 (filepath_Dir path) ErrExist;
    answer ← attempt (replace_file temp inode text path);
    attempt (root_Remove temp) ;;
    lm_lift answer.

(** [Run]: the result and the error with it, or an error with no result. *)
Definition Run (operation : string) (input : Input) (maxOutput : Z) : FM (Result * option error) :=
  context_ok ;;
  lm_lift (ValidatePath (Input_Path input)) ;;
  file_call ;;
  if operation =s "read" then run_read (Input_Path input) maxOutput
  else if (operation =s "write") || (operation =s "edit") then run_write operation input
  else lm_fail (errors_New "unknown filesystem operation").

End operations.

(* ------------------------------------------------------------------ *)
(** ** The text of a result *)

Definition json_bool (b : bool) : string := if b then "true" else "false".

(** strconv: decimal digits. *)
Definition json_int (z : Z) : string :=
  (if z <? 0 then "-" else "") +:+ NilZero.string_of_uint (N.to_uint (Z.abs_N z)).

(** [json.Marshal] of a [Result]; an empty error is left out. *)
Definition marshal_result (r : Result) : bytes :=
  "{" +:+ json_quote "text" +:+ ":" +:+ json_quote (Result_Text r) +:+
  "," +:+ json_quote "truncated" +:+ ":" +:+ json_bool (Result_Truncated r) +:+
  "," +:+ json_quote "partial_effects" +:+ ":" +:+ json_bool (Result_PartialEffects r) +:+
  "," +:+ json_quote "exit_code" +:+ ":" +:+ json_int (Result_ExitCode r) +:+
  (if Result_Error r =s "" then "" else "," +:+ json_quote "error" +:+ ":" +:+ json_quote (Result_Error r)) +:+ "}".

(* ------------------------------------------------------------------ *)
(** ** The helper program (src/cmd/fabricrunner-tool) *)

Section helper.
Context `{FileEnv} `{InputDecoder}.
Notation FM := (EM FileState).

(** What reaches the output of a text written to it, and the error. *)
Definition write_out (text : string) : FM (bytes * option error) :=
  n ← file_tick;
  mret (match file_fault n with Some e => (take_bytes (file_partial n) text, Some e) | None => (text, None) end).

(** [main]: what is written to the standard output and the standard error, and
    the exit code.  The root is the directory it is started in. *)
Definition helper_main (args : list string) (stdin : bytes) : FM (bytes * Z) :=
  match args with
  | [_; operation] =>
      data ← attempt (file_call ;; mret (take_bytes (Z.to_nat (MaxInput + 1)) stdin));
      match data with
      | Err _ => mret ("", 2)
      | Ok data =>
          match Decode data with
          | Err _ =>
              '(out, _) ← write_out ("invalid input" +:+ newline);
              mret (out, 2)
          | Ok input =>
              answer ← attempt (Run operation input 65536);
              let '(result, err) := match answer with Ok r => r | Err e => (empty_result, Some e) end in
              let result := match err with Some _ => {| result with Result_Error := "filesystem operation refused" |} | None => result end in
              '(out, failed) ← write_out (marshal_result result +:+ newline);
              mret (out, match failed, err with Some _, _ => 2 | None, Some _ => 1 | None, None => 0 end)
          end
      end
  | _ =>
      '(out, _) ← write_out ("one operation is required" +:+ newline);
      mret (out, 2)
  end.

End helper.
