(* ===== verification/ToolOpSpec.v ===== *)
(** * The bounded file operations: theorems

    A result is valid JSON; a read returns a bounded prefix of a regular file and
    changes nothing; a write or an edit replaces one entry by a new file or
    changes nothing, whatever fails on the way; an edit replaces the one match. *)

From Stdlib Require Import ZArith Lia Ascii DecimalString DecimalFacts DecimalN.
From S2P Require Import Prelude Effects GoNum GoText GoJson GoJsonText GoPath FileTree ToolOp.

(* ------------------------------------------------------------------ *)
(** ** Results are valid JSON *)

(** A byte that ends a number. *)
Definition ends_number (c : Ascii.ascii) : Prop := c = ","%char ∨ c = "}"%char.

Lemma scan_number_end st ps c t :
  st = state0 ∨ st = state1 → ends_number c →
  scan {| step := st; parseState := ps |} (String c t) = scan {| step := stateEndValue; parseState := ps |} (String c t).
Proof. by intros [->| ->] [->| ->]. Qed.

Lemma scan_digits ps d c t :
  ends_number c →
  scan {| step := state1; parseState := ps |} (NilEmpty.string_of_uint d +:+ String c t) =
  scan {| step := stateEndValue; parseState := ps |} (String c t).
Proof.
  intros Hc. induction d; [by apply scan_number_end; [right|]|..];
    cbn [NilEmpty.string_of_uint]; rewrite append_cons; exact IHd.
Qed.

(** A numeral without leading zeros, from where a number or its digits begin. *)
Lemma scan_numeral st ps n c t :
  st = stateBeginValue ∨ st = stateNeg → ends_number c →
  scan {| step := st; parseState := ps |} (NilZero.string_of_uint (N.to_uint n) +:+ String c t) =
  scan {| step := stateEndValue; parseState := ps |} (String c t).
Proof.
  intros Hst Hc. pose proof (Unsigned.to_of (N.to_uint n)) as E. rewrite Unsigned.of_to in E. rewrite E.
  unfold Decimal.unorm. destruct (Decimal.nzhead (N.to_uint n)) as [|d|d|d|d|d|d|d|d|d|d] eqn:Hd;
    [|by apply nzhead_nonzero in Hd|..]; cbn [NilZero.string_of_uint NilEmpty.string_of_uint]; rewrite append_cons.
  1: destruct Hst as [->| ->]; (etransitivity; [|apply (scan_number_end state0); auto]); reflexivity.
  all: destruct Hst as [->| ->]; (etransitivity; [|by apply (scan_digits ps d)]); reflexivity.
Qed.

Lemma scan_int ps z c t :
  ends_number c →
  scan {| step := stateBeginValue; parseState := ps |} (json_int z +:+ String c t) =
  scan {| step := stateEndValue; parseState := ps |} (String c t).
Proof.
  intros Hc. unfold json_int. destruct (z <? 0); rewrite append_assoc; [|by apply scan_numeral; [left|]].
  etransitivity; [|apply (scan_numeral stateNeg ps (Z.abs_N z)); [by right | done]]. reflexivity.
Qed.

Lemma scan_bool ps b t :
  scan {| step := stateBeginValue; parseState := ps |} (json_bool b +:+ t) = scan {| step := stateEndValue; parseState := ps |} t.
Proof. by destruct b. Qed.

(** The key of the first field and of the next ones. *)
Lemma scan_first_key key t :
  scan {| step := stateBeginValue; parseState := [] |} ("{" +:+ json_quote key +:+ ":" +:+ t) =
  scan {| step := stateBeginValue; parseState := [parseObjectValue] |} t.
Proof.
  rewrite (scan_append _ "{").
  change (scan {| step := stateBeginValue; parseState := [] |} "{") with (goto stateBeginStringOrEmpty [parseObjectKey]).
  cbn [goto]. rewrite scan_quote_append by auto. by rewrite (scan_append _ ":").
Qed.

Lemma scan_next_key key t :
  scan {| step := stateEndValue; parseState := [parseObjectValue] |} ("," +:+ json_quote key +:+ ":" +:+ t) =
  scan {| step := stateBeginValue; parseState := [parseObjectValue] |} t.
Proof.
  rewrite (scan_append _ ",").
  change (scan {| step := stateEndValue; parseState := [parseObjectValue] |} ",") with (goto stateBeginString [parseObjectKey]).
  cbn [goto]. rewrite scan_quote_append by auto. by rewrite (scan_append _ ":").
Qed.

(** Every result is a JSON text. *)
Lemma marshal_result_valid r : json_Valid (marshal_result r) = true.
Proof.
  unfold json_Valid, marshal_result. rewrite scan_first_key, scan_quote_append by auto.
  rewrite !scan_next_key, scan_bool, scan_next_key, scan_bool, scan_next_key.
  destruct (Result_Error r =s "").
  - rewrite append_nil_l, scan_int by (by right). reflexivity.
  - rewrite !append_assoc. rewrite (append_cons ",").
    rewrite scan_int by (by left). rewrite <-(append_cons ","), scan_next_key, scan_quote_append by auto. reflexivity.
Qed.

(* ------------------------------------------------------------------ *)
(** ** What the operations do to the files *)

Section files.
Context `{FileEnv}.
Notation FM := (EM FileState).

(** The files are [f]. *)
Definition files_are (f : Files) (s : FileState) : Prop := fs_files s = f.

Lemma file_tick_total P (F : error → FileState → Prop) :
  total (λ s, P (fs_files s)) file_tick (λ _ s, P (fs_files s)) F.
Proof. by intros s Hs. Qed.

Lemma file_call_total f : total (files_are f) file_call (λ _, files_are f) (λ _, files_are f).
Proof.
  unfold file_call. eapply total_bind; [apply (file_tick_total (λ g, g = f))|]. intros n.
  destruct (file_fault n); [by apply total_fail | by apply total_ret].
Qed.

Lemma context_Err_total P (F : error → FileState → Prop) :
  total (λ s, P (fs_files s)) context_Err (λ _ s, P (fs_files s)) F.
Proof. unfold context_Err. eapply total_bind; [apply file_tick_total|]. intros n. by apply total_ret. Qed.

Lemma context_ok_total f : total (files_are f) context_ok (λ _, files_are f) (λ _, files_are f).
Proof.
  unfold context_ok. eapply total_bind; [apply (context_Err_total (λ g, g = f))|].
  intros [e|]; [by apply total_fail | by apply total_ret].
Qed.

Lemma get_files_bind {A} f (k : Files → FM A) Q F :
  total (files_are f) (k f) Q F → total (files_are f) (get_files ≫= k) Q F.
Proof. intros Hk s Hs. specialize (Hk s Hs). unfold files_are in Hs. subst f. exact Hk. Qed.

Lemma find_entry_total f follow path :
  total (files_are f) (find_entry follow path)
    (λ e s, (∃ p, locate f follow path = Ok p ∧ entry_at f p = Some e) ∧ files_are f s) (λ _, files_are f).
Proof.
  unfold find_entry. eapply total_bind; [apply file_call_total|]. intros ?. apply get_files_bind.
  destruct (locate f follow path) as [p|e]; [|by apply total_fail].
  change (lm_lift (Ok p) ≫= ?k) with (k p). cbn beta.
  destruct (entry_at f p) eqn:E; [|by apply total_fail]. apply total_ret. naive_solver.
Qed.

Lemma file_Stat_total f e : total (files_are f) (file_Stat e) (λ e' s, e' = e ∧ files_are f s) (λ _, files_are f).
Proof. unfold file_Stat. eapply total_bind; [apply file_call_total|]. intros ?. by apply total_ret. Qed.

Lemma read_all_total f i n :
  total (files_are f) (read_all (EntryFile i) n)
    (λ data s, data = take_bytes (Z.to_nat n) (content f i) ∧ files_are f s) (λ _, files_are f).
Proof.
  unfold read_all. eapply total_bind; [apply file_call_total|]. intros ?. apply get_files_bind. by apply total_ret.
Qed.

(** A file found by following links: what an operation reads. *)
Definition regular_at (f : Files) (path : string) (i : nat) : Prop :=
  ∃ p, locate f true path = Ok p ∧ entry_at f p = Some (EntryFile i).

Lemma open_regular_total {A} f path text (k : Entry → FM A) Q (F : error → FileState → Prop) :
  (∀ e s, files_are f s → F e s) →
  (∀ i, regular_at f path i → total (files_are f) (k (EntryFile i)) Q F) →
  total (files_are f) (file ← open_read path; info ← file_Stat file;
    if negb (is_regular info) then lm_fail (errors_New text) else k file) Q F.
Proof.
  intros HF Hk. eapply total_bind; [eapply total_failure; [apply find_entry_total | auto]|].
  intros e. apply total_pure. intros (p & Hp & He).
  eapply total_bind; [eapply total_failure; [apply file_Stat_total | auto]|].
  intros e'. apply total_pure. intros ->. destruct e as [|i|t|]; cbn [is_regular negb]; try (apply total_fail; auto).
  apply Hk. by exists p.
Qed.

(** A read of a bounded prefix. *)
Lemma run_read_total f path max :
  0 <= max < int64_max →
  total (files_are f) (run_read path max)
    (λ r s, files_are f s ∧ ∃ i, regular_at f path i ∧ Result_Text (fst r) = take_bytes (Z.to_nat max) (content f i) ∧
       (Result_Truncated (fst r) = true ↔ max < Z.of_nat (String.length (content f i))) ∧ Result_PartialEffects (fst r) = false)
    (λ _, files_are f).
Proof.
  intros Hmax. apply open_regular_total; [auto|]. intros i Hi.
  eapply total_bind; [apply read_all_total|]. intros data. apply total_pure. intros ->.
  rewrite (add64_exact max 1) by (unfold is_int64, int64_min, int64_max in *; lia).
  cbv zeta. rewrite length_take_bytes.
  destruct (Z.ltb_spec max 0); [lia|]. rewrite andb_false_r.
  eapply total_bind; [apply (context_Err_total (λ g, g = f))|]. intros err. apply total_ret. intros s Hs.
  split; [exact Hs|]. exists i. cbn [fst Result_Text Result_Truncated Result_PartialEffects]. split_and!; try done.
  - destruct (Z.ltb_spec max (Z.of_nat (Nat.min (Z.to_nat (max + 1)) (String.length (content f i))))).
    + apply take_take_bytes. lia.
    + rewrite !take_bytes_ge; [done|lia..].
  - rewrite Z.ltb_lt. lia.
Qed.

(* ------------------------------------------------------------------ *)
(** ** Writing *)

(** [f] with a temporary file. *)
Definition with_temp (f : Files) (t : list string) (i : nat) (c : bytes) : Files :=
  {| entries := <[t := EntryFile i]> (entries f); contents := <[i := c]> (contents f) |}.

(** [t] is where the path [temp] leads, and nothing is there yet. *)
Record temp_at (f : Files) (temp : string) (t : list string) (i : nat) : Prop := {
  temp_found : locate f false temp = Ok t;
  temp_free : entry_at f t = None;
  temp_fresh : contents f !! i = None;
  temp_last : ∃ n, last t = Some (temp_name (random_text n));
}.

(** The file at [path] is a new one with the text, and nothing else changed. *)
Definition replaced (f f' : Files) (path text : string) : Prop :=
  ∃ p i, locate f false path = Ok p ∧ entry_at f p ≠ Some EntryDir ∧ contents f !! i = None ∧
    f' = with_temp f p i text.

(** Nothing changed, but that a temporary file may be left. *)
Definition untouched (f f' : Files) : Prop :=
  (∃ temp t i c, temp_at f temp t i ∧ f' = with_temp f t i c) ∨
  (entries f' = entries f ∧ contents f ⊆ contents f').

(** Random texts are names, and none of them is the name of the file. *)
Definition temp_names_ok (f : Files) (path : string) : Prop :=
  (∀ n, slashless (random_text n)) ∧
  ∀ n p, locate f false path = Ok p → last p ≠ Some (temp_name (random_text n)).

Lemma temp_name_plain text : slashless text → plain_name (temp_name text).
Proof. intros H0. unfold plain_name, name_kept, slashless, temp_name in *. split_and!; try done. Qed.

Lemma entry_insert f t i c q :
  t ≠ [] → entry_at (with_temp f t i c) q = if decide (q = t) then Some (EntryFile i) else entry_at f q.
Proof.
  intros Ht. destruct (decide (q = t)) as [->|Hq].
  - destruct t; [done|]. apply lookup_insert_eq.
  - destruct q; [done|]. apply lookup_insert_ne. congruence.
Qed.

Lemma temp_nonempty f temp t i : temp_at f temp t i → t ≠ [].
Proof. intros [_ Hf _ _] ->. done. Qed.

Lemma with_temp_less f t i c : t ≠ [] → leads_less (with_temp f t i c) f.
Proof.
  intros Ht q e. rewrite entry_insert by done. destruct (decide (q = t)); [intros [= <-] [?|?]; done | done].
Qed.
Lemma less_with_temp f t i c : entry_at f t = None → leads_less f (with_temp f t i c).
Proof.
  intros Hf q e He _. assert (t ≠ []) as Ht by (by intros ->). rewrite entry_insert by done.
  destruct (decide (q = t)) as [->|]; congruence.
Qed.

(** The temporary file is found where it was made. *)
Lemma temp_found_again f temp t i c : temp_at f temp t i → locate (with_temp f t i c) false temp = Ok t.
Proof.
  intros Ht. eapply locate_less; [apply less_with_temp, Ht | apply Ht|].
  by rewrite (temp_free _ _ _ _ Ht).
Qed.

Lemma create_exclusive_total f path name pre :
  plain_name (temp_name name) → path_names path = pre ++ [temp_name name] → last (split_slash path) = Some (temp_name name) →
  (∃ n, name = random_text n) →
  total (files_are f) (create_exclusive path)
    (λ i s, ∃ t, temp_at f path t i ∧ files_are (with_temp f t i "") s) (λ _, files_are f).
Proof.
  intros (_ & Hk & Hd) Hp Hl [n ->]. unfold create_exclusive. eapply total_bind; [apply file_call_total|]. intros ?. apply get_files_bind.
  destruct (locate f false path) as [t|e] eqn:E; [|by apply total_fail].
  change (lm_lift (Ok t) ≫= ?k) with (k t). cbn beta. destruct (entry_at f t) as [e|] eqn:Ht; [by apply total_fail|].
  eapply (total_bind _ _ (λ _, files_are (with_temp f t (fresh (dom (contents f))) ""))).
  - apply total_modify. intros s <-. done.
  - intros ?. apply total_ret. intros s Hs. exists t. split; [|exact Hs]. split; try done.
    + apply not_elem_of_dom, is_fresh.
    + exists n. by eapply locate_last.
Qed.

Lemma create_temp_total f tries parent e :
  (∀ n, slashless (random_text n)) →
  total (files_are f) (create_temp tries parent e)
    (λ r s, ∃ t, temp_at f (fst r) t (snd r) ∧ files_are (with_temp f t (snd r) "") s) (λ _, files_are f).
Proof.
  intros Hr. revert e. induction tries as [|tries IH]; intros e; cbn [create_temp]; [by apply total_fail|].
  eapply (total_bind _ _ (λ name s, (∃ n, name = random_text n) ∧ files_are f s)).
  { unfold randomName. eapply total_bind; [apply (file_tick_total (λ g, g = f))|]. intros n. apply total_ret. eauto. }
  intros name. apply total_pure. intros [n ->]. pose proof (temp_name_plain _ (Hr n)) as Hplain.
  destruct (Join_names parent _ Hplain) as (pre & Hp & Hl).
  eapply total_bind; [eapply total_attempt, (create_exclusive_total f _ (random_text n)); eauto|].
  intros [i|e']; [|destruct (errors_Is e' _); [apply IH | by apply total_fail]]. by apply total_ret.
Qed.

(** Somewhere on the way the temporary file holds a part of the text. *)
Definition filling (f : Files) (t : list string) (i : nat) (s : FileState) : Prop := ∃ c, files_are (with_temp f t i c) s.

Lemma append_content_total f t i c text (F : error → FileState → Prop) :
  total (files_are (with_temp f t i c)) (append_content i text) (λ _, files_are (with_temp f t i (c +:+ text))) F.
Proof.
  apply total_modify. intros s ->. unfold files_are, with_temp, content. cbn. rewrite lookup_insert_eq. cbn.
  by rewrite insert_insert_eq.
Qed.

Lemma write_string_total f t i text :
  total (files_are (with_temp f t i "")) (write_string i text) (λ _, files_are (with_temp f t i text)) (λ _, filling f t i).
Proof.
  unfold write_string. eapply total_bind; [apply (file_tick_total (λ g, g = with_temp f t i ""))|]. intros n.
  destruct (file_fault n) as [e|].
  - eapply total_bind; [apply (append_content_total f t i "")|]. intros ?. apply total_fail. intros s Hs. eexists. exact Hs.
  - eapply total_conseq; [apply (append_content_total f t i "" text (λ _ _, False))|..]; [done| |done]. intros ? s Hs. by rewrite append_nil_l in Hs.
Qed.

(** Renaming the temporary file puts it in the place of the file. *)
Lemma rename_total f temp t i path text :
  temp_at f temp t i →
  total (files_are (with_temp f t i text)) (root_Rename temp path)
    (λ _ s, replaced f (fs_files s) path text) (λ _, files_are (with_temp f t i text)).
Proof.
  intros Ht. pose proof (temp_nonempty _ _ _ _ Ht) as Hne. unfold root_Rename.
  eapply total_bind; [apply file_call_total|]. intros ?. apply get_files_bind. rewrite (temp_found_again _ _ _ _ _ Ht).
  change (lm_lift (Ok t) ≫= ?k) with (k t). cbn beta.
  destruct (locate (with_temp f t i text) false path) as [p|e] eqn:E; [|by apply total_fail].
  change (lm_lift (Ok p) ≫= ?k) with (k p). cbn beta. rewrite (entry_insert f t i text t), decide_True by done.
  destruct (decide (entry_at (with_temp f t i text) p = Some EntryDir)) as [Hd|Hd]; [rewrite Hd; by apply total_fail|].
  assert (locate f false path = Ok p) as Hp by (eapply locate_less; [by apply with_temp_less | done | done]).
  assert (entry_at f p ≠ Some EntryDir) as Hd'.
  { intros Hx. apply Hd. rewrite entry_insert by done. destruct (decide (p = t)) as [->|]; [|done].
    by rewrite (temp_free _ _ _ _ Ht) in Hx. }
  assert (total (files_are (with_temp f t i text)) (set_files (λ f, {| f with entries := <[p:=EntryFile i]> (delete t (entries f)) |}))
    (λ _ s, replaced f (fs_files s) path text) (λ _, files_are (with_temp f t i text))) as Hset.
  { apply total_modify. intros s ->. exists p, i. split_and!; try done; [by apply Ht|]. unfold with_temp. cbn. f_equal.
    rewrite delete_insert_eq, delete_id; [done|]. pose proof (temp_free _ _ _ _ Ht) as Hf. by destruct t. }
  destruct (entry_at (with_temp f t i text) p) as [[| | |]|]; done.
Qed.

(** Filling the temporary file and renaming it. *)
Lemma replace_file_total f temp t i text path :
  temp_at f temp t i →
  total (files_are (with_temp f t i "")) (replace_file temp i text path)
    (λ r s, fst r = written_result ∧ replaced f (fs_files s) path text) (λ _, filling f t i).
Proof.
  intros Ht. unfold replace_file. eapply total_bind; [eapply total_attempt, write_string_total|]. intros written. cbn beta.
  set (P := λ g, match written with Ok _ => g = with_temp f t i text | Err _ => ∃ c, g = with_temp f t i c end).
  assert (total (λ s, P (fs_files s)) file_call (λ _ s, P (fs_files s)) (λ _ s, P (fs_files s))) as Hcall.
  { intros s Hs. unfold file_call, file_tick. unfold mbind, lm_bind. cbn. by destruct (file_fault (fs_calls s)). }
  eapply (total_bind _ _ (λ _ s, P (fs_files s))).
  { eapply total_conseq; [eapply total_attempt, Hcall|..]; [by destruct written | by intros [] | intros e s Hs; exact Hs]. }
  intros synced. eapply (total_bind _ _ (λ _ s, P (fs_files s))).
  { eapply total_conseq; [eapply total_attempt, Hcall|..]; [done | by intros [] | intros e s Hs; exact Hs]. }
  intros closed. eapply total_bind; [apply (context_Err_total P)|]. intros err.
  assert (∀ g, P g → ∃ c, g = with_temp f t i c) as Hfill.
  { intros g. unfold P. destruct written; eauto. }
  destruct (errors_Join _) as [e|] eqn:E; [apply total_fail; intros s Hs; by apply Hfill|].
  destruct written as [u|e]; [|by destruct synced, closed, err]. cbn beta.
  eapply total_bind; [eapply total_failure; [by eapply rename_total | intros e s Hs; eexists; exact Hs]|].
  intros ?. eapply total_bind; [apply (context_Err_total (λ g, replaced f g path text))|]. intros err'. by apply total_ret.
Qed.

(** Removing what a path leads to, if anything. *)
Lemma remove_total g temp (F : error → FileState → Prop) :
  total (files_are g) (attempt (root_Remove temp))
    (λ _ s, fs_files s = g ∨ ∃ q e, locate g false temp = Ok q ∧ entry_at g q = Some e ∧ e ≠ EntryDir ∧
                               fs_files s = {| entries := delete q (entries g); contents := contents g |}) F.
Proof.
  set (Q := λ s, fs_files s = g ∨ _). eapply (total_conseq _ _ _ _ _ _ (λ _ _, False)).
  { apply (total_attempt (files_are g) _ (λ _, Q) (λ _, Q)). unfold root_Remove. eapply total_bind.
    { eapply total_failure; [apply file_call_total | by left]. }
    intros ?. apply get_files_bind. destruct (locate g false temp) as [q|e] eqn:E; [|apply total_fail; by left].
    change (lm_lift (Ok q) ≫= ?k) with (k q). cbn beta.
    destruct (decide (entry_at g q = Some EntryDir)) as [Hd|Hd]; [rewrite Hd; apply total_fail; by left|].
    destruct (entry_at g q) as [e|] eqn:Hq; [|apply total_fail; by left].
    assert (total (files_are g) (set_files (λ f, {| f with entries := delete q (entries f) |})) (λ _, Q) (λ _, Q)) as Hset.
    { apply total_modify. intros s ->. right. exists q, e. split_and!; try done. congruence. }
    by destruct e. }
  - done.
  - by intros [] s.
  - done.
Qed.

Lemma not_a_link_total f path : total (files_are f) (not_a_link path) (λ _, files_are f) (λ _, files_are f).
Proof.
  unfold not_a_link, root_Lstat. eapply total_bind; [eapply total_attempt, find_entry_total|].
  intros [e|e]; [|by apply total_ret]. apply total_pure. intros _. destruct (is_symlink e); [by apply total_fail | by apply total_ret].
Qed.

Lemma may_be_written_total f path : total (files_are f) (may_be_written path) (λ _, files_are f) (λ _, files_are f).
Proof.
  unfold may_be_written, root_Stat. eapply total_bind; [eapply total_attempt, find_entry_total|].
  intros [e|e]; [apply total_pure; intros _; by apply total_ret|].
  destruct (errors_Is e _); [by apply total_ret | by apply total_fail].
Qed.

(** What an edit makes of a file with one match: the match is replaced. *)
Definition edits (c old new text : string) : Prop :=
  ∃ before after, cut_at old c = Some (before, after) ∧ c = before +:+ old +:+ after ∧ ¬ occurs old after ∧
    text = before +:+ new +:+ after.

Lemma edit_text_total f input :
  total (files_are f) (edit_text input)
    (λ text s, (∃ i, regular_at f (Input_Path input) i ∧ Input_Old input ≠ "" ∧
                     Z.of_nat (String.length (content f i)) <= MaxInput ∧
                     edits (content f i) (Input_Old input) (Input_New input) text) ∧ files_are f s) (λ _, files_are f).
Proof.
  unfold edit_text. destruct (String.eqb_spec (Input_Old input) "") as [|Hold]; [by apply total_fail|].
  apply open_regular_total; [auto|]. intros i Hi. eapply total_bind; [apply read_all_total|]. intros data. apply total_pure. intros ->.
  rewrite length_take_bytes. destruct (Z.ltb_spec MaxInput (Z.of_nat (Nat.min (Z.to_nat (MaxInput + 1)) (String.length (content f i))))) as [|Hlen];
    [by apply total_fail|].
  assert (Z.of_nat (String.length (content f i)) <= MaxInput) as Hle by (unfold MaxInput in *; lia).
  rewrite take_bytes_ge by (unfold MaxInput in *; lia).
  destruct (Z.eqb_spec (strings_Count (content f i) (Input_Old input)) 1) as [Hc|]; [|by apply total_fail].
  apply Count_one in Hc as (before & after & Hcut & Hno); [|done].
  apply total_ret. intros s Hs. split; [|exact Hs]. exists i. split_and!; try done. exists before, after.
  split_and!; try done; [by apply cut_at_Some|]. unfold replace_first. by rewrite Hcut.
Qed.

(** The text a write or an edit puts there. *)
Definition writes (f : Files) (operation : string) (input : Input) (text : string) : Prop :=
  Z.of_nat (String.length text) <= MaxInput ∧
  if operation =s "edit"
  then ∃ i, regular_at f (Input_Path input) i ∧ Input_Old input ≠ "" ∧ edits (content f i) (Input_Old input) (Input_New input) text
  else text = Input_Text input.

Lemma untouched_refl f : untouched f f.
Proof. by right. Qed.

Lemma filling_untouched f temp t i c : temp_at f temp t i → untouched f (with_temp f t i c).
Proof. left. by exists temp, t, i, c. Qed.

Lemma removed_untouched f temp t i c :
  temp_at f temp t i → untouched f {| entries := delete t (entries (with_temp f t i c)); contents := contents (with_temp f t i c) |}.
Proof.
  intros Ht. right. unfold with_temp. cbn. split.
  - rewrite delete_insert_eq, delete_id; [done|]. pose proof (temp_free _ _ _ _ Ht) as Hf. by destruct t.
  - apply insert_subseteq, Ht.
Qed.

(** The temporary file is gone after the rename: removing it does nothing. *)
Lemma remove_replaced f f' temp t i path text q e :
  temp_names_ok f path → temp_at f temp t i → replaced f f' path text →
  locate f' false temp = Ok q → entry_at f' q = Some e → e ≠ EntryDir → False.
Proof.
  intros [_ Hname] Ht (p & j & Hp & Hd & Hj & ->) Hq He Hne.
  assert (p ≠ []) as Hpn by (by intros ->).
  assert (locate f false temp = Ok q) as Hq' by (eapply locate_less; [by apply with_temp_less | done | congruence]).
  rewrite (temp_found _ _ _ _ Ht) in Hq'. injection Hq' as <-. rewrite entry_insert in He by done.
  destruct (decide (t = p)) as [->|].
  - destruct (temp_last _ _ _ _ Ht) as [n Hn]. by apply (Hname n p).
  - by rewrite (temp_free _ _ _ _ Ht) in He.
Qed.

Lemma run_write_total f operation input :
  temp_names_ok f (Input_Path input) →
  total (files_are f) (run_write operation input)
    (λ r s, fst r = written_result ∧ ∃ text, writes f operation input text ∧ replaced f (fs_files s) (Input_Path input) text)
    (λ _ s, untouched f (fs_files s)).
Proof.
  intros Hok. assert (∀ s, files_are f s → untouched f (fs_files s)) as Hsame by (intros s ->; apply untouched_refl).
  assert (∀ (e : error) s, files_are f s → untouched f (fs_files s)) as Hfail by auto. unfold run_write.
  eapply total_bind; [eapply total_failure; [apply not_a_link_total | exact Hfail]|]. intros ?.
  eapply total_bind; [eapply total_failure; [apply may_be_written_total | exact Hfail]|]. intros ?.
  eapply (total_bind _ _ (λ text s, (Z.of_nat (String.length text) <= MaxInput → writes f operation input text) ∧ files_are f s)).
  { unfold writes. destruct (operation =s "edit").
    - eapply total_conseq; [apply edit_text_total|..]; [done | | exact Hfail]. intros text s [(i & Hi & Ho & _ & He) Hs]. split; [eauto 10 | exact Hs].
    - apply total_ret. intros s Hs. done. }
  intros text. apply total_pure. intros Hw.
  destruct (Z.ltb_spec MaxInput (Z.of_nat (String.length text))) as [|Hlen]; [apply total_fail; exact Hsame|]. specialize (Hw Hlen).
  eapply total_bind; [eapply total_failure; [apply context_ok_total | exact Hfail]|]. intros ?.
  eapply total_bind; [eapply total_failure; [apply create_temp_total, Hok | exact Hfail]|].
  intros [temp i] s (t & Ht & Hs). revert s Hs. cbn [fst snd] in *.
  eapply total_bind; [eapply total_attempt, replace_file_total, Ht|]. intros answer.
  eapply (total_bind _ _ (λ _ s, match answer with
    | Ok r => fst r = written_result ∧ replaced f (fs_files s) (Input_Path input) text
    | Err _ => untouched f (fs_files s) end)).
  - intros s. destruct answer as [r|e].
    + intros [Hr Hrep]. pose proof (remove_total (fs_files s) temp (λ _ _, False) s eq_refl) as Hx.
      destruct (attempt _ s) as [[?|?|?|] s']; try done. destruct Hx as [->|(q & e & Hq & He & Hne & _)]; [done|].
      by destruct (remove_replaced _ _ _ _ _ _ _ _ _ Hok Ht Hrep Hq He Hne).
    + intros [c Hs]. pose proof (remove_total (fs_files s) temp (λ _ _, False) s eq_refl) as Hx. rewrite Hs in Hx.
      destruct (attempt _ s) as [[?|?|?|] s']; try done. destruct Hx as [->|(q & e' & Hq & _ & _ & ->)].
      * by eapply filling_untouched.
      * rewrite (temp_found_again _ _ _ _ _ Ht) in Hq. injection Hq as <-. by eapply removed_untouched.
  - intros ?. destruct answer as [r|e]; [apply total_ret; naive_solver | by apply total_fail].
Qed.

(** Whatever fails before the operation. *)
Lemma Run_total f operation input max Q :
  (operation = "read" → total (files_are f) (run_read (Input_Path input) max) Q (λ _ s, untouched f (fs_files s))) →
  (operation = "write" ∨ operation = "edit" → total (files_are f) (run_write operation input) Q (λ _ s, untouched f (fs_files s))) →
  total (files_are f) (Run operation input max) Q (λ _ s, untouched f (fs_files s)).
Proof.
  intros Hread Hwrite.
  assert (∀ s, files_are f s → untouched f (fs_files s)) as Hsame by (intros s ->; apply untouched_refl).
  assert (∀ (e : error) s, files_are f s → untouched f (fs_files s)) as Hfail by auto. unfold Run.
  eapply total_bind; [eapply total_failure; [apply context_ok_total | exact Hfail]|]. intros ?.
  destruct (ValidatePath (Input_Path input)) as [[]|e]; [|apply total_fail; exact Hsame].
  change (lm_lift (Ok tt) ≫= ?k) with (k tt). cbn beta.
  eapply total_bind; [eapply total_failure; [apply file_call_total | exact Hfail]|]. intros ?.
  destruct (String.eqb_spec operation "read") as [->|]; [by apply Hread|].
  destruct (String.eqb_spec operation "write") as [->|]; [by apply Hwrite; left|].
  destruct (String.eqb_spec operation "edit") as [->|]; [by apply Hwrite; right|]. by apply total_fail.
Qed.

Lemma Run_write_total f operation input max :
  operation = "write" ∨ operation = "edit" → temp_names_ok f (Input_Path input) →
  total (files_are f) (Run operation input max)
    (λ r s, fst r = written_result ∧
            ∃ text, writes f operation input text ∧ replaced f (fs_files s) (Input_Path input) text) (λ _ s, untouched f (fs_files s)).
Proof.
  intros Hop Hok. apply Run_total; [intros ->; naive_solver|]. intros _. by apply run_write_total.
Qed.

(** C15. A write or an edit is all or nothing, whatever fails on the way (a full
    disk in the middle of the text, a failed rename, a cancelled context): it
    returns "ok" with its effects declared, and then the entry at the path is a
    new file with exactly the text, every other entry and the content of every
    old file, hard linked or not, is as before; or it fails, and nothing
    changed, but that a temporary file may be left.  The text is the given one,
    or that of the file with its one match replaced. *)
Theorem Run_write_atomic operation input max s :
  operation = "write" ∨ operation = "edit" → temp_names_ok (fs_files s) (Input_Path input) →
  match Run operation input max s with
  | (Done (r, _), s') => r = written_result ∧
      ∃ text, writes (fs_files s) operation input text ∧ replaced (fs_files s) (fs_files s') (Input_Path input) text
  | (Failed _, s') => untouched (fs_files s) (fs_files s')
  | _ => False
  end.
Proof.
  intros Hop Hok. pose proof (Run_write_total (fs_files s) operation input max Hop Hok s eq_refl) as T.
  by destruct (Run operation input max s) as [[[r err]|e|v|] s'].
Qed.

(** A read changes nothing, opens only a regular file, which the path leads to
    without leaving the root, and returns its first bytes up to the bound, saying
    whether there are more. *)
Theorem Run_read_bounded input max s :
  0 <= max < int64_max →
  match Run "read" input max s with
  | (Done (r, _), s') => fs_files s' = fs_files s ∧ ∃ i, regular_at (fs_files s) (Input_Path input) i ∧
      let c := content (fs_files s) i in
      Result_Text r = take_bytes (Z.to_nat max) c ∧ Z.of_nat (String.length (Result_Text r)) <= max ∧
      (Result_Truncated r = true ↔ max < Z.of_nat (String.length c)) ∧ Result_PartialEffects r = false
  | (Failed _, s') => fs_files s' = fs_files s
  | _ => False
  end.
Proof.
  intros Hmax. pose proof (run_read_total (fs_files s) (Input_Path input) max Hmax) as Hread.
  set (f := fs_files s) in *. set (Q := λ r s', files_are f s' ∧ ∃ i, _) in Hread.
  assert (total (files_are f) (Run "read" input max) Q (λ _, files_are f)) as Hrun.
  { unfold Run. eapply total_bind; [apply context_ok_total|]. intros ?.
    destruct (ValidatePath (Input_Path input)) as [[]|e]; [|by apply total_fail].
    change (lm_lift (Ok tt) ≫= ?k) with (k tt). cbn beta.
    eapply total_bind; [apply file_call_total|]. intros ?. exact Hread. }
  specialize (Hrun s eq_refl). destruct (Run "read" input max s) as [[[r err]|e|v|] s']; try done.
  destruct Hrun as [Hs (i & Hi & Ht & Htr & Hp)]. cbn [fst] in *. split; [exact Hs|]. exists i. cbv zeta. split_and!; try done.
  rewrite Ht, length_take_bytes. lia.
Qed.

End files.

(* ------------------------------------------------------------------ *)
(** ** Paths *)

(** A path is accepted exactly when it is a relative path that never climbs
    above its start and holds no backslash, colon or zero byte; in a tree
    without links such a path never leads out of the root. *)
Theorem ValidatePath_local path :
  (ValidatePath path = Ok tt ↔
     is_abs path = false ∧ path ≠ "" ∧ stays_below 0 (path_names path) ∧ strings_ContainsAny path refused_bytes = false) ∧
  (ValidatePath path = Ok tt → ∀ f follow, (∀ p t, entry_at f p ≠ Some (EntryLink t)) → locate f follow path ≠ Err ErrPathEscapes).
Proof.
  assert (ValidatePath path = Ok tt ↔
     is_abs path = false ∧ path ≠ "" ∧ stays_below 0 (path_names path) ∧ strings_ContainsAny path refused_bytes = false) as E.
  { unfold ValidatePath. rewrite require_Ok, negb_true_iff, orb_false_iff, negb_false_iff, IsLocal_stays. naive_solver. }
  split; [exact E|]. intros (Ha & _ & Hs & _)%E f follow Hno. by apply locate_contained.
Qed.

(* ------------------------------------------------------------------ *)
(** ** A healthy file system *)

Class FileHealthy `{FileEnv} : Prop := {
  no_file_fault : ∀ n, file_fault n = None;
  no_context_end : ∀ n, file_context n = None;
}.

Section healthy.
Context `{FileHealthy}.
Notation FM := (EM FileState).

(** From the files [f], [m] gives [a] and leaves [f']. *)
Definition gives {A} (m : FM A) (f : Files) (a : A) (f' : Files) : Prop :=
  ∀ n, ∃ n', m {| fs_files := f; fs_calls := n |} = (Done a, {| fs_files := f'; fs_calls := n' |}).
Definition refuses {A} (m : FM A) (f : Files) (e : error) : Prop :=
  ∀ n, ∃ n', m {| fs_files := f; fs_calls := n |} = (Failed e, {| fs_files := f; fs_calls := n' |}).

Lemma file_gives_bind {A B} (m : FM A) (k : A → FM B) f a f1 b f2 : gives m f a f1 → gives (k a) f1 b f2 → gives (m ≫= k) f b f2.
Proof. intros Hm Hk n. destruct (Hm n) as [n1 E]. destruct (Hk n1) as [n2 E2]. exists n2. unfold mbind, lm_bind. by rewrite E. Qed.
Lemma file_gives_ret {A} (a : A) f : gives (mret a) f a f.
Proof. intros n. by exists n. Qed.
Lemma gives_attempt {A} (m : FM A) f a f' : gives m f a f' → gives (attempt m) f (Ok a) f'.
Proof. intros Hm n. destruct (Hm n) as [n' E]. exists n'. unfold attempt. by rewrite E. Qed.
Lemma gives_attempt_err {A} (m : FM A) f e : refuses m f e → gives (attempt m) f (Err e) f.
Proof. intros Hm n. destruct (Hm n) as [n' E]. exists n'. unfold attempt. by rewrite E. Qed.
Lemma gives_call f : gives file_call f tt f.
Proof. intros n. exists (S n). unfold file_call, file_tick, mbind, lm_bind. cbn. by rewrite no_file_fault. Qed.
Lemma gives_context f : gives context_Err f None f.
Proof. intros n. exists (S n). unfold context_Err, file_tick, mbind, lm_bind. cbn. by rewrite no_context_end. Qed.
Lemma gives_context_ok f : gives context_ok f tt f.
Proof. unfold context_ok. eapply file_gives_bind; [apply gives_context | apply file_gives_ret]. Qed.
Lemma gives_set f g : gives (set_files g) f tt (g f).
Proof. intros n. by exists n. Qed.
Lemma gives_files {A} (k : Files → FM A) f a f' : gives (k f) f a f' → gives (get_files ≫= k) f a f'.
Proof. intros Hk. eapply file_gives_bind; [|exact Hk]. intros n. by exists n. Qed.
Lemma gives_find f follow path p e :
  locate f follow path = Ok p → entry_at f p = Some e → gives (find_entry follow path) f e f.
Proof.
  intros Hp He. unfold find_entry. eapply file_gives_bind; [apply gives_call|]. apply gives_files. rewrite Hp.
  change (lm_lift (Ok p) ≫= ?k) with (k p). cbn beta. rewrite He. apply file_gives_ret.
Qed.
Lemma refuses_find f follow path p :
  locate f follow path = Ok p → entry_at f p = None → refuses (find_entry follow path) f ErrNotExist.
Proof.
  intros Hp He n. exists (S n). unfold find_entry, file_call, file_tick, get_files, mbind, lm_bind. cbn.
  rewrite no_file_fault. cbn. rewrite Hp. cbn. by rewrite He.
Qed.

Lemma gives_read f i n : gives (read_all (EntryFile i) n) f (take_bytes (Z.to_nat n) (content f i)) f.
Proof. unfold read_all. eapply file_gives_bind; [apply gives_call|]. apply gives_files, file_gives_ret. Qed.

Lemma gives_create_exclusive f path t :
  locate f false path = Ok t → entry_at f t = None →
  let i := fresh (dom (contents f)) in gives (create_exclusive path) f i (with_temp f t i "").
Proof.
  intros Hp Ht. unfold create_exclusive. eapply file_gives_bind; [apply gives_call|]. apply gives_files. rewrite Hp.
  change (lm_lift (Ok t) ≫= ?k) with (k t). cbn beta. rewrite Ht. eapply file_gives_bind; [apply gives_set | apply file_gives_ret].
Qed.

(** The directory of the file can take a temporary file. *)
Definition has_room (f : Files) (path : string) : Prop :=
  ∀ n, ∃ t, locate f false (filepath_Join (filepath_Dir path) (temp_name (random_text n))) = Ok t ∧ entry_at f t = None.

(** The first try finds a name. *)
Lemma create_temp_gives f path tries e :
  (∀ n, slashless (random_text n)) → has_room f path →
  ∀ n, ∃ temp t i n', temp_at f temp t i ∧
    create_temp (S tries) (filepath_Dir path) e {| fs_files := f; fs_calls := n |} =
      (Done (temp, i), {| fs_files := with_temp f t i ""; fs_calls := n' |}).
Proof.
  intros Hr Hroom n. destruct (Hroom n) as (t & Ht & Hf).
  destruct (Join_names (filepath_Dir path) _ (temp_name_plain _ (Hr n))) as (pre & Hp & Hl).
  set (temp := filepath_Join _ _) in *. set (i := fresh (dom (contents f))).
  destruct (gives_create_exclusive f temp t Ht Hf (S n)) as [n' E]. exists temp, t, i, n'. split.
  { split; try done; [apply not_elem_of_dom, is_fresh|]. exists n. destruct (temp_name_plain _ (Hr n)) as (_ & Hk & Hd).
    by eapply locate_last. }
  cbn [create_temp]. unfold randomName, file_tick, attempt, mbind, lm_bind. cbn.
  change (filepath_Join _ _) with temp. by rewrite E.
Qed.

Lemma gives_write_string f t i text : gives (write_string i text) (with_temp f t i "") tt (with_temp f t i text).
Proof.
  intros n. exists (S n). unfold write_string, append_content, set_files, file_tick, mbind, lm_bind. cbn. rewrite no_file_fault.
  unfold lm_modify, with_temp, content. cbn. rewrite lookup_insert_eq. cbn. by rewrite insert_insert_eq, append_nil_l.
Qed.

(** A file, or nothing yet. *)
Definition file_or_none (f : Files) (p : list string) : Prop := entry_at f p = None ∨ ∃ i, entry_at f p = Some (EntryFile i).

Lemma file_or_none_leads f p i c : file_or_none f p → p ≠ [] ∧ leads_less f (with_temp f p i c).
Proof.
  intros Hf. assert (p ≠ []) as Hp by (intros ->; destruct Hf as [?|[? ?]]; done). split; [done|].
  intros q e He Hk. rewrite entry_insert by done. destruct (decide (q = p)) as [->|]; [|done].
  destruct Hf as [Hf|[j Hf]]; rewrite Hf in He; simplify_eq. by destruct Hk.
Qed.

Lemma gives_rename f temp t i path p text :
  temp_at f temp t i → locate f false path = Ok p → file_or_none f p →
  gives (root_Rename temp path) (with_temp f t i text) tt (with_temp f p i text).
Proof.
  intros Ht Hp Hf. pose proof (temp_nonempty _ _ _ _ Ht) as Hne. pose proof (temp_free _ _ _ _ Ht) as Hfree.
  unfold root_Rename. eapply file_gives_bind; [apply gives_call|]. apply gives_files. rewrite (temp_found_again _ _ _ _ _ Ht).
  change (lm_lift (Ok t) ≫= ?k) with (k t). cbn beta.
  assert (entry_at f p ≠ Some EntryDir) as Hd by (by destruct Hf as [->|[i' ->]]).
  rewrite (locate_less _ _ _ _ (less_with_temp f t i text Hfree) Hp Hd).
  change (lm_lift (Ok p) ≫= ?k) with (k p). cbn beta. rewrite !entry_insert by done. rewrite decide_True by done.
  assert (gives (set_files (λ f, {| f with entries := <[p:=EntryFile i]> (delete t (entries f)) |})) (with_temp f t i text) tt (with_temp f p i text)) as G.
  { intros n. exists n. unfold set_files, lm_modify, with_temp. cbn. rewrite delete_insert_eq, delete_id; [done|]. by destruct t. }
  destruct (decide (p = t)); [done|]. destruct Hf as [->|[i' ->]]; done.
Qed.

Lemma gives_remove_none g temp t :
  locate g false temp = Ok t → entry_at g t = None → gives (attempt (root_Remove temp)) g (Err ErrNotExist) g.
Proof.
  intros Hp Ht. apply gives_attempt_err. intros n. exists (S n). unfold root_Remove, file_call, file_tick, get_files, mbind, lm_bind. cbn.
  rewrite no_file_fault. cbn. rewrite Hp. cbn. by rewrite Ht.
Qed.

(** The text that a write or an edit of the file at [p] writes. *)
Definition new_text (f : Files) (p : list string) (operation : string) (input : Input) (text : string) : Prop :=
  (operation = "write" ∧ text = Input_Text input) ∨
  (operation = "edit" ∧ Input_Old input ≠ "" ∧ ∃ i, entry_at f p = Some (EntryFile i) ∧
     Z.of_nat (String.length (content f i)) <= MaxInput ∧ strings_Count (content f i) (Input_Old input) = 1 ∧
     text = replace_first (content f i) (Input_Old input) (Input_New input)).

Lemma gives_text f p operation input text :
  locate f true (Input_Path input) = Ok p → new_text f p operation input text →
  gives (if operation =s "edit" then edit_text input else mret (Input_Text input)) f text f.
Proof.
  intros Hp [[-> ->]|(-> & Ho & i & Hi & Hl & Hc & ->)]; [apply file_gives_ret|]. cbn [String.eqb Ascii.eqb Bool.eqb].
  unfold edit_text. rewrite (proj2 (String.eqb_neq _ _) Ho).
  eapply file_gives_bind; [by eapply gives_find|]. eapply file_gives_bind; [eapply file_gives_bind; [apply gives_call | apply file_gives_ret]|].
  cbn [is_regular negb]. eapply file_gives_bind; [apply gives_read|]. rewrite take_bytes_ge by (unfold MaxInput in *; lia).
  destruct (Z.ltb_spec MaxInput (Z.of_nat (String.length (content f i)))); [lia|]. rewrite Hc. apply file_gives_ret.
Qed.

Lemma gives_checks f path p :
  locate f false path = Ok p → file_or_none f p → gives (not_a_link path) f tt f ∧ gives (may_be_written path) f tt f.
Proof.
  intros Hp Hf. assert (locate f true path = Ok p) as Hp'.
  { apply locate_follow; [done|]. by destruct Hf as [->|[i ->]]. }
  unfold not_a_link, may_be_written, root_Lstat, root_Stat. destruct Hf as [Hf|[i Hf]].
  - split; (eapply file_gives_bind; [by eapply gives_attempt_err, refuses_find | apply file_gives_ret]).
  - split; (eapply file_gives_bind; [by eapply gives_attempt, gives_find | apply file_gives_ret]).
Qed.

Lemma run_write_gives f operation input p text :
  temp_names_ok f (Input_Path input) → has_room f (Input_Path input) → locate f false (Input_Path input) = Ok p → file_or_none f p →
  new_text f p operation input text → Z.of_nat (String.length text) <= MaxInput →
  ∀ n, ∃ s', run_write operation input {| fs_files := f; fs_calls := n |} = (Done (written_result, None), s').
Proof.
  intros Hok Hroom Hp Hf Htext Hlen n. assert (locate f true (Input_Path input) = Ok p) as Hp'.
  { apply locate_follow; [done|]. by destruct Hf as [->|[i ->]]. }
  destruct (gives_checks _ _ _ Hp Hf) as [G1 G2]. pose proof (gives_text _ _ _ _ _ Hp' Htext) as G3.
  unfold run_write, mbind, lm_bind. destruct (G1 n) as [n1 ->]. destruct (G2 n1) as [n2 ->]. destruct (G3 n2) as [n3 ->].
  destruct (Z.ltb_spec MaxInput (Z.of_nat (String.length text))); [lia|].
  destruct (gives_context_ok f n3) as [n4 ->].
  destruct (create_temp_gives f (Input_Path input) 9 ErrExist (proj1 Hok) Hroom n4) as (temp & t & i & n5 & Ht & ->). cbn iota beta.
  assert (gives (replace_file temp i text (Input_Path input)) (with_temp f t i "") (written_result, None) (with_temp f p i text)) as G.
  { unfold replace_file. eapply file_gives_bind; [apply gives_attempt, gives_write_string|].
    eapply file_gives_bind; [apply gives_attempt, gives_call|]. eapply file_gives_bind; [apply gives_attempt, gives_call|].
    eapply file_gives_bind; [apply gives_context|]. eapply file_gives_bind; [by eapply gives_rename|].
    eapply file_gives_bind; [apply gives_context | apply file_gives_ret]. }
  destruct (gives_attempt _ _ _ _ G n5) as [n6 ->].
  destruct (file_or_none_leads f p i text Hf) as [Hne Hleads]. pose proof (temp_free _ _ _ _ Ht) as Hfree.
  assert (locate (with_temp f p i text) false temp = Ok t) as Hagain.
  { eapply locate_less; [exact Hleads | apply Ht | congruence]. }
  assert (entry_at (with_temp f p i text) t = None) as Hgone.
  { rewrite entry_insert by done. destruct (decide (t = p)) as [->|]; [|done].
    destruct (temp_last _ _ _ _ Ht) as [m Hm]. by destruct (proj2 Hok m p Hp). }
  destruct (gives_remove_none _ _ _ Hagain Hgone n6) as [n7 ->]. by eexists.
Qed.

(** C38. On a healthy file system a write and an edit of a file succeed: the path
    is local and leads to a file or, for a write, to nothing yet, its directory
    can take a new file, the text is not too long, and for an edit there is one
    match in the file. *)
Theorem Run_write_succeeds operation input max s p text :
  ValidatePath (Input_Path input) = Ok tt → temp_names_ok (fs_files s) (Input_Path input) → has_room (fs_files s) (Input_Path input) →
  locate (fs_files s) false (Input_Path input) = Ok p → file_or_none (fs_files s) p →
  new_text (fs_files s) p operation input text → Z.of_nat (String.length text) <= MaxInput →
  fst (Run operation input max s) = Done (written_result, None).
Proof.
  intros Hv Hok Hroom Hp Hf Htext Hlen. destruct s as [f n]. cbn [fs_files] in *.
  unfold Run, mbind, lm_bind. destruct (gives_context_ok f n) as [n1 ->]. rewrite Hv.
  change (lm_lift (Ok tt) ?s) with (@Done unit tt, s). cbn iota beta. destruct (gives_call f n1) as [n2 ->].
  assert (operation ≠ "read" ∧ (operation =s "write") || (operation =s "edit") = true) as [Hr ->]
    by (destruct Htext as [[-> _]|[-> _]]; done).
  rewrite (proj2 (String.eqb_neq _ _) Hr).
  destruct (run_write_gives f operation input p text Hok Hroom Hp Hf Htext Hlen n2) as [s' ->]. done.
Qed.

End healthy.
