(* ===== verification/Sandbox.v ===== *)
(** * Sandboxes (src/sandbox)

    Establishing a confinement, the command lines of bubblewrap and Seatbelt,
    the bounded output of a process, and the lifecycle of a confinement shared by
    concurrent calls.  What the host answers may change with every call; a
    process is what it wrote, its exit code and the error of waiting for it. *)

From Stdlib Require Import ZArith Lia.
From S2P Require Import Prelude Effects GoNum GoText GoPath Policy Execution Engine FileTree.

Record SandboxConfig : Type := { Box_Root : string; Box_Helper : string }.

Record Command : Type := {
  Command_Args : list string;
  Command_Input : bytes;
  Command_MaxOutput : Z;
}.

Record SandboxResult : Type := {
  Box_Output : bytes;
  Box_Truncated : bool;
  Box_Started : bool;
  Box_ExitCode : Z;
}.

Definition no_result : SandboxResult := {| Box_Output := ""; Box_Truncated := false; Box_Started := false; Box_ExitCode := 0 |}.

(* ------------------------------------------------------------------ *)
(** ** The host *)

Inductive HostFile : Type :=
| HostDirectory
| HostRegular
| HostOther.

Inductive Process : Type :=
| NotStarted (e : error)
| Exited (written : list bytes) (code : Z) (waited : option error) (files : Files).

Class HostEnv := {
  runtime_GOOS : string;
  host_Abs : string → result string;
  host_EvalSymlinks : nat → string → result string;
  host_Stat : nat → string → result HostFile;
  host_LookPath : nat → string → result string;
  strconv_Quote : string → string;
  (** What the process does, and the files it leaves, from the files it finds. *)
  host_process : nat → string → list string → bytes → Files → Process;
  (** The n-th look at a context, and whether a [Close] sees the end of the
      active calls before that of its context. *)
  host_context : nat → option error;
  host_drained : nat → bool;
  (** What the sink of sandbox events returns. *)
  host_sink : nat → SandboxEvent → option error;
}.

Record Confinement : Type := {
  cf_config : SandboxConfig;
  cf_backend : string;
  cf_closed : bool;
  cf_cancelled : bool;
}.

(** The host so far: the processes started, with their arguments and input, the
    events given to the sink, the confinements made, and the files of the root of
    the tools. *)
Record HostState : Type := {
  host_calls : nat;
  host_started : list (string * list string * bytes);
  host_events : list SandboxEvent;
  host_boxes : list Confinement;
  host_files : FileState;
}.

Definition sandbox_event (phase backend : string) (partial : bool) : SandboxEvent :=
  {| SandboxEvent_Phase := phase; SandboxEvent_Backend := backend; SandboxEvent_PartialEffects := partial |}.

(* ------------------------------------------------------------------ *)
(** ** Bounded output *)

Record boundedBuffer : Type := { buf_data : bytes; buf_max : Z; buf_truncated : bool }.

Definition boundedBuffer_Write (b : boundedBuffer) (p : bytes) : boundedBuffer :=
  let left := buf_max b - Z.of_nat (String.length (buf_data b)) in
  if left <? Z.of_nat (String.length p)
  then {| buf_data := buf_data b +:+ take_bytes (Z.to_nat left) p; buf_max := buf_max b; buf_truncated := true |}
  else {| b with buf_data := buf_data b +:+ p |}.

Definition collect (max : Z) (written : list bytes) : boundedBuffer :=
  foldl boundedBuffer_Write {| buf_data := ""; buf_max := max; buf_truncated := false |} written.

(* ------------------------------------------------------------------ *)
(** ** Processes *)

Section host.
Context `{HostEnv}.
Notation HM := (EM HostState).

Definition host_tick : HM nat :=
  s ← lm_get;
  lm_modify (fun s => {| s with host_calls := S (host_calls s) |}) ;;
  mret (host_calls s).

Definition host_ask {A} (f : nat → A) : HM A := n ← host_tick; mret (f n).

(** [fr.RecordSandboxEvent] *)
Definition RecordSandboxEvent (event : SandboxEvent) : HM (option error) :=
  lm_modify (fun s => {| s with host_events := host_events s ++ [event] |}) ;;
  host_ask (fun n => host_sink n event).

(** [runProcess]: the result and the error with it. *)
Definition runProcess (command : Command) (path : string) (args : list string) : HM (SandboxResult * option error) :=
  s ← lm_get;
  process ← host_ask (fun n => host_process n path args (Command_Input command) (fs_files (host_files s)));
  match process with
  | NotStarted e => mret (no_result, Some e)
  | Exited written code waited files =>
      lm_modify (fun s => {| s with host_started := host_started s ++ [(path, args, Command_Input command)];
                                    host_files := {| fs_files := files; fs_calls := fs_calls (host_files s) |} |}) ;;
      let output := collect (Command_MaxOutput command) written in
      ended ← host_ask host_context;
      mret ({| Box_Output := buf_data output; Box_Truncated := buf_truncated output; Box_Started := true; Box_ExitCode := code |},
            errors_Join [waited; ended])
  end.

(** The directories and the cache that are there are bound read-only. *)
Fixpoint bind_existing (paths : list string) : HM (list string) :=
  match paths with
  | [] => mret []
  | path :: paths' =>
      info ← host_ask (fun n => host_Stat n path);
      rest ← bind_existing paths';
      mret (match info with Ok _ => ["--ro-bind"; path; path] | Err _ => [] end ++ rest)
  end.

Definition runtime_paths : list string := ["/usr"; "/bin"; "/lib"; "/lib64"; "/etc/ld.so.cache"].

Definition isolation_flags : list string := ["--die-with-parent"; "--new-session"; "--unshare-all"; "--cap-drop"; "ALL"; "--clearenv"].

Definition workspace_flags (config : SandboxConfig) : list string :=
  ["--proc"; "/proc"; "--dev"; "/dev"; "--tmpfs"; "/tmp"; "--bind"; Box_Root config; "/workspace"; "--chdir"; "/workspace";
   "--setenv"; "PATH"; "/usr/bin:/bin"; "--setenv"; "HOME"; "/tmp"; "--setenv"; "TMPDIR"; "/tmp"; "--setenv"; "LANG"; "C"].

Definition helper_flags (config : SandboxConfig) : list string :=
  if Box_Helper config ≠s "" then ["--ro-bind"; Box_Helper config; "/runner-helper"] else [].

(** The helper is started by its path inside. *)
Definition confined_argv (config : SandboxConfig) (args : list string) : list string :=
  match args with
  | arg :: args' => (if (arg =s Box_Helper config) && (Box_Helper config ≠s "") then "/runner-helper" else arg) :: args'
  | [] => []
  end.

Definition runNative_linux (config : SandboxConfig) (command : Command) : HM (SandboxResult * option error) :=
  found ← host_ask (fun n => host_LookPath n "bwrap");
  match found with
  | Err e => mret (no_result, Some e)
  | Ok path =>
      bound ← bind_existing runtime_paths;
      deref (head (Command_Args command)) ;;
      runProcess command path
        (isolation_flags ++ bound ++ workspace_flags config ++ helper_flags config ++ ["--"] ++ confined_argv config (Command_Args command))
  end.

Definition seatbelt_profile (config : SandboxConfig) : string :=
  let sub (path : string) := "(subpath " +:+ dquote +:+ path +:+ dquote +:+ ") " in
  let root := strconv_Quote (Box_Root config) in
  "(version 1)(deny default)(allow process-exec)(allow sysctl-read)(allow file-read-metadata)(allow file-read* " +:+
  sub "/usr" +:+ sub "/bin" +:+ sub "/System" +:+ sub "/Library/Apple" +:+
  "(literal " +:+ dquote +:+ "/dev/null" +:+ dquote +:+ ") (literal " +:+ dquote +:+ "/dev/urandom" +:+ dquote +:+ ") " +:+
  "(subpath " +:+ root +:+ ")) (allow file-write* (subpath " +:+ root +:+ "))" +:+
  (if Box_Helper config ≠s "" then "(allow file-read* (literal " +:+ strconv_Quote (Box_Helper config) +:+ "))" else "").

Definition runNative_darwin (config : SandboxConfig) (command : Command) : HM (SandboxResult * option error) :=
  runProcess command "/usr/bin/sandbox-exec" (["-p"; seatbelt_profile config; "--"] ++ Command_Args command).

Definition runNative_other : HM (SandboxResult * option error) :=
  mret (no_result, Some (Errorf "unsupported platform" [ErrSandboxDenied])).

(** The file of the platform that is built. *)
Definition runNative (config : SandboxConfig) (command : Command) : HM (SandboxResult * option error) :=
  if runtime_GOOS =s "linux" then runNative_linux config command
  else if runtime_GOOS =s "darwin" then runNative_darwin config command
  else runNative_other.

(* ------------------------------------------------------------------ *)
(** ** Confinements *)

Definition get_box (box : nat) : HM Confinement := s ← lm_get; deref (host_boxes s !! box).
Definition set_box (box : nat) (f : Confinement → Confinement) : HM unit :=
  lm_modify (fun s => {| s with host_boxes := alter f box (host_boxes s) |}).

Definition max_box_bytes : Z := 16777216.

Definition confinement_Run (box : nat) (command : Command) : HM (SandboxResult * option error) :=
  b ← get_box box;
  if cf_closed b then mret (no_result, Some ErrSandboxDenied)
  else if match Command_Args command with arg :: _ => arg =s "" | [] => true end
  then mret (no_result, Some (errors_New "argument vector is required"))
  else if (Command_MaxOutput command <=? 0) || (max_box_bytes <? Command_MaxOutput command)
  then mret (no_result, Some (errors_New "output bound must be between 1 and 16 MiB"))
  else if max_box_bytes <? Z.of_nat (String.length (Command_Input command))
  then mret (no_result, Some (errors_New "input exceeds 16 MiB"))
  else
    ended ← host_ask host_context;
    match ended with
    | Some e => mret (no_result, Some e)
    | None => runNative (cf_config b) command
    end.

Definition confinement_Capability (box : nat) : HM SandboxCapability :=
  b ← get_box box;
  mret {| Sandbox_Established := negb (cf_closed b); Sandbox_Backend := cf_backend b |}.

Definition confinement_Close (box : nat) : HM unit :=
  b ← get_box box;
  if cf_closed b then mret tt
  else
    set_box box (fun b => {| b with cf_closed := true; cf_cancelled := true |}) ;;
    drained ← host_ask host_drained;
    if drained : bool
    then
      err ← RecordSandboxEvent (sandbox_event "teardown" (cf_backend b) false);
      match err with Some e => lm_fail e | None => mret tt end
    else
      err ← host_ask host_context;
      match err with Some e => lm_fail e | None => mret tt end.

(* ------------------------------------------------------------------ *)
(** ** Establishing *)

Definition backend : string :=
  if runtime_GOOS =s "linux" then "bubblewrap" else if runtime_GOOS =s "darwin" then "seatbelt" else "unsupported:" +:+ runtime_GOOS.

Definition deny {A} (cause : error) : HM A :=
  err ← RecordSandboxEvent (sandbox_event "denied" backend false);
  lm_fail (Joined (Errorf "denied" [ErrSandboxDenied; cause] :: option_list err)).

Definition or_deny {A} (r : result A) : HM A := match r with Ok a => mret a | Err e => deny e end.

(** The checks on the helper: a regular file outside the root. *)
Definition check_helper (root helper : string) : HM string :=
  if helper =s "" then mret ""
  else
    helper ← or_deny (host_Abs helper);
    resolved ← host_ask (fun n => host_EvalSymlinks n helper);
    helper ← or_deny resolved;
    info ← host_ask (fun n => host_Stat n helper);
    match info with
    | Ok HostRegular =>
        if filepath_IsLocal (filepath_Rel root helper) then deny (errors_New "trusted helper must be outside writable root")
        else mret helper
    | _ => deny (errors_New "helper is not a regular file")
    end.

Definition check_root (root : string) : HM string :=
  absolute ← (if root =s "" then deny (errors_New "explicit root required")
              else match host_Abs root with Ok r => mret r | Err _ => deny (errors_New "explicit root required") end);
  resolved ← host_ask (fun n => host_EvalSymlinks n absolute);
  root ← or_deny resolved;
  info ← host_ask (fun n => host_Stat n root);
  match info with
  | Ok HostDirectory => mret root
  | _ => deny (errors_New "root is not a directory")
  end.

Definition probe : Command := {| Command_Args := ["/usr/bin/true"]; Command_Input := ""; Command_MaxOutput := 1024 |}.

Definition native_Establish (config : SandboxConfig) : HM nat :=
  ended ← host_ask host_context;
  match ended with Some e => deny e | None =>
    root ← check_root (Box_Root config);
    helper ← check_helper root (Box_Helper config);
    s ← lm_get;
    let box := length (host_boxes s) in
    lm_modify (fun s => {| s with host_boxes := host_boxes s ++
      [{| cf_config := {| Box_Root := root; Box_Helper := helper |}; cf_backend := backend; cf_closed := false; cf_cancelled := false |}] |}) ;;
    answer ← confinement_Run box probe;
    match snd answer with
    | Some e => set_box box (fun b => {| b with cf_cancelled := true |}) ;; deny (Errorf "probe failed" [e])
    | None =>
        err ← RecordSandboxEvent (sandbox_event "established" backend false);
        match err with
        | Some e => set_box box (fun b => {| b with cf_cancelled := true |}) ;; lm_fail e
        | None => mret box
        end
    end
  end.

(** [Deny.Establish] *)
Definition Deny_Establish : HM nat :=
  err ← RecordSandboxEvent (sandbox_event "denied" "none" false);
  lm_fail (Joined (ErrSandboxDenied :: option_list err)).

End host.
