(* ===== verification/SandboxSpec.v ===== *)
(** * Sandboxes: theorems

    A process is only started by the isolation program, with options that the
    command has no part in, in a confinement whose root and helper were resolved
    and checked; establishing one fails closed; output is a bounded prefix; and
    whatever calls interleave, a closed confinement stays closed. *)

From Stdlib Require Import ZArith Lia.
From stdpp Require Import relations.
From S2P Require Import Prelude Effects GoNum GoText GoPath Policy Execution Engine FileTree Sandbox.

(* ------------------------------------------------------------------ *)
(** ** Bounded output *)

Lemma buffer_Write_take max c p :
  0 <= max →
  boundedBuffer_Write {| buf_data := take_bytes (Z.to_nat max) c; buf_max := max; buf_truncated := bool_decide (max < Z.of_nat (String.length c)) |} p =
  {| buf_data := take_bytes (Z.to_nat max) (c +:+ p); buf_max := max; buf_truncated := bool_decide (max < Z.of_nat (String.length (c +:+ p))) |}.
Proof.
  intros Hmax. unfold boundedBuffer_Write. cbn [buf_data buf_max]. rewrite length_take_bytes, take_bytes_app, length_append.
  destruct (Z.ltb_spec (max - Z.of_nat (Nat.min (Z.to_nat max) (String.length c))) (Z.of_nat (String.length p))) as [Hl|Hl].
  - rewrite (bool_decide_true (max < Z.of_nat (String.length c + String.length p))) by lia. do 3 f_equal. lia.
  - destruct (decide (String.length p = 0)%nat) as [Hp|Hp].
    + destruct p; [|done]. by rewrite (take_bytes_ge _ ""), Nat.add_0_r by (cbn; lia).
    + cbn [buf_truncated]. by rewrite !bool_decide_false, (take_bytes_ge _ p) by lia.
Qed.

(** What is kept of the output of a process, whatever pieces it comes in, is
    its first bytes up to the bound, and it is marked as truncated exactly when
    there was more. *)
Theorem collect_bounded max written :
  0 <= max →
  collect max written =
    {| buf_data := take_bytes (Z.to_nat max) (String.concat "" written); buf_max := max;
       buf_truncated := bool_decide (max < Z.of_nat (String.length (String.concat "" written))) |}.
Proof.
  intros Hmax. unfold collect. rewrite <-(append_nil_l (String.concat "" written)).
  assert (∀ c, foldl boundedBuffer_Write {| buf_data := take_bytes (Z.to_nat max) c; buf_max := max; buf_truncated := bool_decide (max < Z.of_nat (String.length c)) |} written =
    {| buf_data := take_bytes (Z.to_nat max) (c +:+ String.concat "" written); buf_max := max;
       buf_truncated := bool_decide (max < Z.of_nat (String.length (c +:+ String.concat "" written))) |}) as E.
  { induction written as [|p written IH]; intros c; cbn [foldl]; [by rewrite append_nil_r|].
    by rewrite buffer_Write_take, IH, concat_nil_cons, append_assoc by done. }
  rewrite <-E. f_equal. rewrite take_bytes_ge by (cbn; lia). by rewrite bool_decide_false by (cbn; lia).
Qed.

Lemma collect_bounded_witness :
  collect 4 ["ab"; "cd"; "e"] = {| buf_data := "abcd"; buf_max := 4; buf_truncated := true |}.
Proof. exact (collect_bounded 4 ["ab"; "cd"; "e"] ltac:(lia)). Defined.

(* ------------------------------------------------------------------ *)
(** ** What is started *)

Section processes.
Context `{HostEnv}.
Notation HM := (EM HostState).

(** The configuration of a confinement is the one asked for, resolved: the root
    is a directory, and the helper is a regular file outside of it. *)
Record resolved (asked config : SandboxConfig) : Prop := {
  root_resolved : Box_Root asked ≠ "" ∧
    ∃ a n, host_Abs (Box_Root asked) = Ok a ∧ host_EvalSymlinks n a = Ok (Box_Root config);
  root_directory : ∃ n, host_Stat n (Box_Root config) = Ok HostDirectory;
  helper_resolved :
    if Box_Helper asked =s "" then Box_Helper config = ""
    else (∃ a n, host_Abs (Box_Helper asked) = Ok a ∧ host_EvalSymlinks n a = Ok (Box_Helper config)) ∧
         (∃ n, host_Stat n (Box_Helper config) = Ok HostRegular) ∧
         ¬ abs_names (Box_Root config) `prefix_of` abs_names (Box_Helper config);
}.

Definition bound_flags (paths : list string) : list string := flat_map (fun path => ["--ro-bind"; path; path]) paths.

(** The process is the isolation program with the options of the confinement,
    which the command has no part in, before the arguments of the command. *)
Definition runs (config : SandboxConfig) (args : list string) (process : string * list string * bytes) : Prop :=
  let '(path, given, _) := process in
  (runtime_GOOS = "linux" ∧ (∃ n, host_LookPath n "bwrap" = Ok path) ∧ ∃ paths, paths `sublist_of` runtime_paths ∧
     given = isolation_flags ++ bound_flags paths ++ workspace_flags config ++ helper_flags config ++ ["--"] ++ confined_argv config args) ∨
  (runtime_GOOS = "darwin" ∧ path = "/usr/bin/sandbox-exec" ∧ given = ["-p"; seatbelt_profile config; "--"] ++ args).

Definition contained (config : SandboxConfig) (process : string * list string * bytes) : Prop :=
  ∃ args, args ≠ [] ∧ runs config args process.

(** What a state holds. *)
Definition stands (boxes : list Confinement) (started : list (string * list string * bytes)) (events : list SandboxEvent)
    (s : HostState) : Prop :=
  host_boxes s = boxes ∧ host_started s = started ∧ host_events s = events.

(** An answer of the host is one it has for some count of calls. *)
Lemma ask_total {A} (f : nat → A) B P E F :
  total (stands B P E) (host_ask f) (λ a s, (∃ n, a = f n) ∧ stands B P E s) F.
Proof. intros s Hs. split; [by eexists | exact Hs]. Qed.

Lemma record_total event B P E F :
  total (stands B P E) (RecordSandboxEvent event) (λ r s, (∃ n, r = host_sink n event) ∧ stands B P (E ++ [event]) s) F.
Proof.
  unfold RecordSandboxEvent. eapply total_bind; [|intros ?; apply ask_total].
  apply total_modify. intros s (<- & <- & <-). done.
Qed.

Lemma deny_total {A} e B P E (Q : A → HostState → Prop) :
  total (stands B P E) (deny e) Q
    (λ e' s, errors_Is e' "sandbox execution denied" = true ∧ stands B P (E ++ [sandbox_event "denied" backend false]) s).
Proof. unfold deny. eapply total_bind; [apply record_total|]. intros r. apply total_pure. intros _. by apply total_fail. Qed.

(** Starting a process: without an error it was started. *)
Lemma runProcess_total command path args B P E F :
  total (stands B P E) (runProcess command path args)
    (λ r s, (snd r ≠ None ∧ stands B P E s) ∨ stands B (P ++ [(path, args, Command_Input command)]) E s) F.
Proof.
  unfold runProcess. apply total_get_bind. intros s0 Hs0. eapply (total_pre _ (stands B P E)); [|by intros s ->].
  eapply total_bind; [apply ask_total|]. intros process. apply total_pure. intros _.
  destruct process as [e|written code waited files]; [apply total_ret; by left|].
  eapply (total_bind _ _ (λ _, stands B (P ++ [(path, args, Command_Input command)]) E)).
  { apply total_modify. intros s (<- & <- & <-). done. }
  intros ?. eapply total_bind; [apply ask_total|]. intros ended. apply total_pure. intros _. apply total_ret. by right.
Qed.

Lemma bind_existing_total paths B P E F :
  total (stands B P E) (bind_existing paths)
    (λ flags s, (∃ kept, kept `sublist_of` paths ∧ flags = bound_flags kept) ∧ stands B P E s) F.
Proof.
  induction paths as [|path paths IH]; cbn [bind_existing]; [apply total_ret; intros s Hs; split; [by exists [] | exact Hs]|].
  eapply total_bind; [apply ask_total|]. intros info. apply total_pure. intros _.
  eapply total_bind; [exact IH|]. intros rest. apply total_pure. intros (kept & Hk & ->). apply total_ret. intros s Hs.
  split; [|exact Hs]. destruct info; [exists (path :: kept) | exists kept]; (split; [by constructor | done]).
Qed.

(** Running a command: without an error its contained process was started. *)
Definition ran (config : SandboxConfig) (args : list string) (B : list Confinement) (P : list (string * list string * bytes)) (E : list SandboxEvent)
    (r : SandboxResult * option error) (s : HostState) : Prop :=
  (snd r ≠ None ∧ stands B P E s) ∨ ∃ p, args ≠ [] ∧ runs config args p ∧ stands B (P ++ [p]) E s.

Lemma runNative_total config command B P E F :
  Command_Args command ≠ [] → total (stands B P E) (runNative config command) (ran config (Command_Args command) B P E) F.
Proof.
  intros Ha. unfold runNative. destruct (String.eqb_spec runtime_GOOS "linux") as [Hos|_].
  - unfold runNative_linux. eapply total_bind; [apply ask_total|]. intros found. apply total_pure. intros [n Hn].
    destruct found as [path|]; [|apply total_ret; by left]. eapply total_bind; [apply bind_existing_total|]. intros flags.
    apply total_pure. intros (paths & Hp & ->). destruct (Command_Args command) as [|arg args]; [done|].
    change (deref (head (arg :: args)) ≫= ?k) with (k arg). cbn beta.
    eapply total_conseq; [apply runProcess_total|done| |done]. intros r s [Hr|Hr]; [by left|]. right.
    eexists. split; [|split; [|exact Hr]]; [done|]. left. eauto 10.
  - destruct (String.eqb_spec runtime_GOOS "darwin") as [Hos|_]; [|apply total_ret; by left].
    eapply total_conseq; [apply runProcess_total|done| |done]. intros r s [Hr|Hr]; [by left|]. right.
    eexists. split; [|split; [|exact Hr]]; [exact Ha | by right].
Qed.

Lemma confinement_Run_total box b command B P E F :
  B !! box = Some b → total (stands B P E) (confinement_Run box command) (ran (cf_config b) (Command_Args command) B P E) F.
Proof.
  intros Hb. unfold confinement_Run, get_box.
  eapply (total_bind _ _ (λ x s, x = b ∧ stands B P E s)).
  { intros s Hs. unfold mbind, lm_bind. cbn. by rewrite (proj1 Hs), Hb. }
  intros x. apply total_pure. intros ->.
  destruct (cf_closed b); [apply total_ret; by left|].
  destruct (Command_Args command) as [|arg args] eqn:Eq; [apply total_ret; by left|]. destruct (arg =s ""); [apply total_ret; by left|].
  destruct (_ || _); [apply total_ret; by left|]. destruct (_ <? _); [apply total_ret; by left|].
  eapply total_bind; [apply ask_total|]. intros [e|]; apply total_pure; intros _; [apply total_ret; by left|].
  rewrite <-Eq. apply runNative_total. by rewrite Eq.
Qed.

(* ------------------------------------------------------------------ *)
(** ** Establishing *)

Lemma or_deny_total {A} (r : result A) B P E :
  total (stands B P E) (or_deny r) (λ a s, r = Ok a ∧ stands B P E s)
    (λ e' s, errors_Is e' "sandbox execution denied" = true ∧ stands B P (E ++ [sandbox_event "denied" backend false]) s).
Proof. destruct r as [a|e]; [by apply total_ret | apply deny_total]. Qed.

Lemma check_root_total root B P E :
  total (stands B P E) (check_root root)
    (λ r s, ((root ≠ "" ∧ ∃ a n, host_Abs root = Ok a ∧ host_EvalSymlinks n a = Ok r) ∧
             ∃ n, host_Stat n r = Ok HostDirectory) ∧ stands B P E s)
    (λ e' s, errors_Is e' "sandbox execution denied" = true ∧ stands B P (E ++ [sandbox_event "denied" backend false]) s).
Proof.
  unfold check_root. eapply (total_bind _ _ (λ a s, (root ≠ "" ∧ host_Abs root = Ok a) ∧ stands B P E s)).
  { destruct (String.eqb_spec root "") as [|Hne]; [apply deny_total|].
    destruct (host_Abs root) as [a|] eqn:Ha; [by apply total_ret | apply deny_total]. }
  intros a. apply total_pure. intros [Hne Ha].
  eapply total_bind; [apply ask_total|]. intros r. apply total_pure. intros [n ->].
  eapply total_bind; [apply or_deny_total|]. intros r. apply total_pure. intros Hr.
  eapply total_bind; [apply ask_total|]. intros info. apply total_pure. intros [m Hm].
  destruct info as [[]|]; try apply deny_total. apply total_ret. intros s Hs.
  split; [|done]. split; [split; [done|]; by exists a, n | by exists m].
Qed.

Lemma check_helper_total root asked B P E :
  total (stands B P E) (check_helper root asked)
    (λ helper s, (if asked =s "" then helper = ""
                  else (∃ a n, host_Abs asked = Ok a ∧ host_EvalSymlinks n a = Ok helper) ∧
                       (∃ n, host_Stat n helper = Ok HostRegular) ∧ ¬ abs_names root `prefix_of` abs_names helper) ∧
                 stands B P E s)
    (λ e' s, errors_Is e' "sandbox execution denied" = true ∧ stands B P (E ++ [sandbox_event "denied" backend false]) s).
Proof.
  unfold check_helper. destruct (asked =s ""); [by apply total_ret|].
  eapply total_bind; [apply or_deny_total|]. intros a. apply total_pure. intros Ha.
  eapply total_bind; [apply ask_total|]. intros r. apply total_pure. intros [n ->].
  eapply total_bind; [apply or_deny_total|]. intros helper. apply total_pure. intros Hh.
  eapply total_bind; [apply ask_total|]. intros info. apply total_pure. intros [m Hm].
  destruct info as [[]|]; try apply deny_total.
  destruct (filepath_IsLocal (filepath_Rel root helper)) eqn:Hl; [apply deny_total|]. apply total_ret.
  intros s Hs. split; [|done]. rewrite <-Rel_local, Hl. split_and!; [by exists a, n | by exists m | done].
Qed.

(** A confinement that [Establish] makes. *)
Definition new_box (asked : SandboxConfig) (cancelled : bool) (b : Confinement) : Prop :=
  resolved asked (cf_config b) ∧ cf_backend b = backend ∧ cf_closed b = false ∧ cf_cancelled b = cancelled.

(** The process of a probe in a confinement that was asked for. *)
Definition probes (asked : SandboxConfig) (process : string * list string * bytes) : Prop :=
  ∃ config, resolved asked config ∧ runs config (Command_Args probe) process.

(** What a failure leaves: confinements that nobody has, all cancelled, and
    probes. *)
Definition refused (asked : SandboxConfig) (B : list Confinement) (P : list (string * list string * bytes)) (E : list SandboxEvent)
    (e : error) (s : HostState) : Prop :=
  ∃ bs ps event, Forall (new_box asked true) bs ∧ Forall (probes asked) ps ∧
    stands (B ++ bs) (P ++ ps) (E ++ [event]) s ∧
    (SandboxEvent_Phase event = "denied" ∧ errors_Is e "sandbox execution denied" = true ∨
     SandboxEvent_Phase event = "established" ∧ ∃ n, host_sink n event = Some e).

Lemma denied_refused asked B P E bs ps e s :
  Forall (new_box asked true) bs → Forall (probes asked) ps →
  errors_Is e "sandbox execution denied" = true ∧ stands (B ++ bs) (P ++ ps) (E ++ [sandbox_event "denied" backend false]) s →
  refused asked B P E e s.
Proof. intros Hb Hp [He Hs]. exists bs, ps, (sandbox_event "denied" backend false). split_and!; [done..|by left]. Qed.

Lemma ask_refused {A} (f : nat → A) asked B P E :
  total (stands B P E) (host_ask f) (λ a s, (∃ n, a = f n) ∧ stands B P E s) (refused asked B P E).
Proof. apply ask_total. Qed.

(** A confinement that cannot be given to the caller is cancelled. *)
Lemma cancel_total B b P E F :
  total (stands (B ++ [b]) P E) (set_box (length B) (fun b => {| b with cf_cancelled := true |}))
    (λ _, stands (B ++ [{| b with cf_cancelled := true |}]) P E) F.
Proof.
  apply total_modify. intros s (HB & HP & HE). split; [|done]. cbn. rewrite HB.
  apply list_eq. intros i. destruct (decide (i = length B)) as [->|Hi].
  - by rewrite list_lookup_alter_eq, !list_lookup_middle.
  - rewrite list_lookup_alter_ne by done. destruct (decide (i < length B)%nat).
    + by rewrite !lookup_app_l.
    + by rewrite !lookup_ge_None_2 by (rewrite length_app; cbn; lia).
Qed.

(** From the new confinement on. *)
Lemma establish_box_total asked config B P E s0 :
  resolved asked config → stands B P E s0 →
  total (λ s, s = s0)
    (lm_modify (fun s => {| s with host_boxes := host_boxes s ++
      [{| cf_config := config; cf_backend := backend; cf_closed := false; cf_cancelled := false |}] |}) ;;
    answer ← confinement_Run (length B) probe;
    match snd answer with
    | Some e => set_box (length B) (fun b => {| b with cf_cancelled := true |}) ;; deny (Errorf "probe failed" [e])
    | None =>
        err ← RecordSandboxEvent (sandbox_event "established" backend false);
        match err with
        | Some e => set_box (length B) (fun b => {| b with cf_cancelled := true |}) ;; lm_fail e
        | None => mret (length B)
        end
    end)
    (λ box s, box = length B ∧ ∃ b p, new_box asked false b ∧ runs (cf_config b) (Command_Args probe) p ∧
              stands (B ++ [b]) (P ++ [p]) (E ++ [sandbox_event "established" backend false]) s)
    (refused asked B P E).
Proof.
  intros Hr Hs0. set (b := {| cf_config := config; cf_backend := backend; cf_closed := false; cf_cancelled := false |}).
  assert (Forall (new_box asked true) [{| b with cf_cancelled := true |}]) as Hb by (by apply Forall_singleton).
  eapply (total_bind _ _ (λ _, stands (B ++ [b]) P E)).
  { apply total_modify. intros s ->. destruct Hs0 as (<- & <- & <-). done. }
  intros ?. eapply total_bind; [apply (confinement_Run_total _ b); by apply list_lookup_middle|]. intros [r err]. cbn [snd].
  destruct err as [e|].
  - (* The probe failed, whether it ran or not. *)
    assert (∀ P', P `prefix_of` P' → Forall (probes asked) (drop (length P) P') →
      total (stands (B ++ [b]) P' E) (set_box (length B) (fun b => {| b with cf_cancelled := true |}) ;; deny (Errorf "probe failed" [e]))
        (λ box s, box = length B ∧ ∃ b p, new_box asked false b ∧ runs (cf_config b) (Command_Args probe) p ∧
              stands (B ++ [b]) (P ++ [p]) (E ++ [sandbox_event "established" backend false]) s) (refused asked B P E)) as Hcancel.
    { intros P' [ps ->] Hps. rewrite drop_app_length in Hps. eapply total_bind; [apply cancel_total|]. intros ?.
      eapply total_failure; [apply deny_total|]. intros e' s He. by eapply denied_refused. }
    intros s [[_ Hs]|(p & _ & Hp & Hs)].
    + apply (Hcancel P); [done | by rewrite drop_all | exact Hs].
    + apply (Hcancel (P ++ [p])); [by eexists | | exact Hs]. rewrite drop_app_length. apply Forall_singleton. by exists config.
  - apply (total_pre _ (λ s, ∃ p, runs config (Command_Args probe) p ∧ stands (B ++ [b]) (P ++ [p]) E s)); [|intros s [[? _]|(p & _ & Hs)]; [done | by exists p]].
    intros s (p & Hp & Hs). revert s Hs. eapply total_bind; [apply record_total|]. intros err. apply total_pure. intros [n Hn].
    destruct err as [e|].
    + eapply total_bind; [apply cancel_total|]. intros ?. apply total_fail. intros s Hs.
      eexists _, [p], _. split_and!; [exact Hb | apply Forall_singleton; by exists config | exact Hs | right; eauto].
    + apply total_ret. intros s Hs. split; [done|]. exists b, p. done.
Qed.

Lemma native_Establish_total asked B P E :
  total (stands B P E) (native_Establish asked)
    (λ box s, box = length B ∧ ∃ b p, new_box asked false b ∧ runs (cf_config b) (Command_Args probe) p ∧
              stands (B ++ [b]) (P ++ [p]) (E ++ [sandbox_event "established" backend false]) s)
    (refused asked B P E).
Proof.
  assert (∀ e s, errors_Is e "sandbox execution denied" = true ∧ stands B P (E ++ [sandbox_event "denied" backend false]) s →
    refused asked B P E e s) as Hden.
  { intros e s He. apply (denied_refused _ _ _ _ [] []); [done..|]. by rewrite !app_nil_r. }
  unfold native_Establish. eapply total_bind; [apply ask_total|]. intros [e|]; apply total_pure; intros _.
  { eapply total_failure; [apply deny_total | exact Hden]. }
  eapply total_bind; [eapply total_failure; [apply check_root_total | exact Hden]|]. intros root. apply total_pure. intros [Hr Hd].
  eapply total_bind; [eapply total_failure; [apply check_helper_total | exact Hden]|]. intros helper. apply total_pure. intros Hh.
  apply total_get_bind. intros s0 Hs0. cbv zeta. rewrite (proj1 Hs0). by apply establish_box_total.
Qed.

(** C24. Establishing fails closed.  Either it returns a new confinement, with the
    resolved configuration that was asked for, after the probe ran in it,
    and the event "established" was recorded; or it returns an error, after a
    refusal was recorded (the error is then ErrSandboxDenied) or because
    "established" could not be, and every confinement it made is cancelled.  Where
    there is no isolation program it never returns one. *)
Theorem Establish_fail_closed asked s :
  match native_Establish asked s with
  | (Done box, s') => (runtime_GOOS = "linux" ∨ runtime_GOOS = "darwin") ∧ box = length (host_boxes s) ∧
      ∃ b p, new_box asked false b ∧ runs (cf_config b) (Command_Args probe) p ∧
        stands (host_boxes s ++ [b]) (host_started s ++ [p]) (host_events s ++ [sandbox_event "established" backend false]) s'
  | (Failed e, s') => refused asked (host_boxes s) (host_started s) (host_events s) e s'
  | _ => False
  end.
Proof.
  pose proof (native_Establish_total asked (host_boxes s) (host_started s) (host_events s) s) as T.
  specialize (T ltac:(done)). destruct (native_Establish asked s) as [[box|e|v|] s']; try done.
  destruct T as (Hb & b & p & Hm & Hp & Hs). split_and!; [|done|by exists b, p].
  destruct p as [[path args] input]. destruct Hp as [[? _]|[? _]]; auto.
Qed.

(* ------------------------------------------------------------------ *)
(** ** Every process is contained *)

(** Every confinement is one that was asked for, and every process is contained
    in such a one. *)
Definition confined (asked : SandboxConfig) (s : HostState) : Prop :=
  Forall (λ b, resolved asked (cf_config b)) (host_boxes s) ∧
  Forall (λ p, ∃ config, resolved asked config ∧ contained config p) (host_started s).

Lemma probes_contained asked p : probes asked p → ∃ config, resolved asked config ∧ contained config p.
Proof. intros (config & Hr & Hp). exists config. split; [exact Hr|]. by exists (Command_Args probe). Qed.

Lemma confined_extends asked s s' bs ps E :
  confined asked s → Forall (λ b, resolved asked (cf_config b)) bs →
  Forall (λ p, ∃ config, resolved asked config ∧ contained config p) ps →
  stands (host_boxes s ++ bs) (host_started s ++ ps) E s' → confined asked s'.
Proof. intros [B P] Hb Hp (EB & EP & _). split; rewrite ?EB, ?EP; by apply Forall_app. Qed.

Lemma native_Establish_confined asked : invariant (confined asked) (native_Establish asked).
Proof.
  intros s Hs. pose proof (native_Establish_total asked _ _ _ s ltac:(done)) as T.
  destruct (native_Establish asked s) as [[box|e|v|] s']; try done.
  - destruct T as (_ & b & p & [Hr _] & Hp & T). eapply (confined_extends asked s s' [b] [p] _ Hs); [by apply Forall_singleton | | exact T].
    apply Forall_singleton, probes_contained. by exists (cf_config b).
  - destruct T as (bs & ps & event & Hb & Hp & T & _). eapply (confined_extends asked s s' bs ps _ Hs); [| |done].
    + eapply Forall_impl; [exact Hb|]. by intros b [].
    + eapply Forall_impl; [exact Hp | apply probes_contained].
Qed.

Lemma confinement_Run_confined asked box command : invariant (confined asked) (confinement_Run box command).
Proof.
  intros s Hs. destruct (host_boxes s !! box) as [b|] eqn:Eb.
  - pose proof (confinement_Run_total box b command _ (host_started s) (host_events s) (λ _ _, False) Eb s ltac:(done)) as T.
    destruct (confinement_Run box command s) as [[r|e|v|] s']; try done.
    assert (resolved asked (cf_config b)) as Hr by (by eapply Forall_lookup_1 in Eb; [|apply Hs]).
    destruct T as [[_ T]|(p & Ha & Hp & T)].
    + eapply (confined_extends asked s s' [] [] (host_events s) Hs); [done..|]. by rewrite !app_nil_r.
    + eapply (confined_extends asked s s' [] [p] (host_events s) Hs); [done | | by rewrite app_nil_r]. apply Forall_singleton. exists (cf_config b). split; [exact Hr|]. by exists (Command_Args command).
  - unfold confinement_Run, get_box, mbind, lm_bind. cbn. by rewrite Eb.
Qed.

Lemma host_ask_confined {A} asked (f : nat → A) : invariant (confined asked) (host_ask f).
Proof. unfold host_ask, host_tick. by invariant_steps. Qed.

Lemma RecordSandboxEvent_confined asked event : invariant (confined asked) (RecordSandboxEvent event).
Proof. unfold RecordSandboxEvent. invariant_steps; [done | apply host_ask_confined]. Qed.

Lemma set_box_confined asked box f : (∀ b, cf_config (f b) = cf_config b) → invariant (confined asked) (set_box box f).
Proof.
  intros Hf. apply invariant_modify. intros s [B P]. split; [|exact P]. cbn. apply Forall_alter; [exact B|].
  intros b _ Hb. by rewrite Hf.
Qed.

Lemma confinement_Close_confined asked box : invariant (confined asked) (confinement_Close box).
Proof.
  unfold confinement_Close, get_box. invariant_steps; try apply host_ask_confined; [by apply set_box_confined | apply RecordSandboxEvent_confined].
Qed.

Lemma confinement_Capability_confined asked box : invariant (confined asked) (confinement_Capability box).
Proof. unfold confinement_Capability, get_box. invariant_steps. Qed.

Lemma Deny_Establish_confined asked : invariant (confined asked) Deny_Establish.
Proof. unfold Deny_Establish. invariant_steps. apply RecordSandboxEvent_confined. Qed.

End processes.

(* ------------------------------------------------------------------ *)
(** ** Calls of one confinement that interleave

    The critical sections of [Run] and [Close] and what lies between them, for any
    number of concurrent calls: the runs that are active, and the calls of [Close]
    that wait for them. *)

Record BoxLife : Type := {
  life_closed : bool;
  life_cancelled : bool;
  life_active : nat;
  life_waiting : nat;
  life_teardowns : nat;
}.

Definition new_life : BoxLife :=
  {| life_closed := false; life_cancelled := false; life_active := 0; life_waiting := 0; life_teardowns := 0 |}.

Inductive life_step : BoxLife → BoxLife → Prop :=
(** [Run] under the mutex: refused, or counted. *)
| run_denied l : life_closed l = true → life_step l l
| run_enter l : life_closed l = false → life_step l {| l with life_active := S (life_active l) |}
(** [active.Done] *)
| run_leave l n : life_active l = S n → life_step l {| l with life_active := n |}
(** [Close] under the mutex. *)
| close_again l : life_closed l = true → life_step l l
| close_begin l : life_closed l = false →
    life_step l {| l with life_closed := true; life_cancelled := true; life_waiting := S (life_waiting l) |}
(** Its select: every run has left, or its context ends. *)
| close_finish l n : life_waiting l = S n → life_active l = 0%nat →
    life_step l {| l with life_waiting := n; life_teardowns := S (life_teardowns l) |}
| close_give_up l n : life_waiting l = S n → life_step l {| l with life_waiting := n |}.

(** What holds of a confinement at any time. *)
Record life_ok (l : BoxLife) : Prop := {
  open_quiet : life_closed l = false → life_waiting l = 0%nat ∧ life_teardowns l = 0%nat ∧ life_cancelled l = false;
  closed_cancelled : life_closed l = true → life_cancelled l = true;
  one_teardown : (life_waiting l + life_teardowns l <= 1)%nat;
  teardown_drained : (0 < life_teardowns l)%nat → life_active l = 0%nat;
}.

Lemma life_step_ok l l' : life_step l l' → life_ok l → life_ok l'.
Proof.
  intros Hs [H1 H2 H3 H4]. destruct Hs; split; cbn; try done; try naive_solver lia.
Qed.

(** C35. Whatever calls of [Run] and [Close] interleave: the teardown of a
    confinement is recorded at most once, only after it was closed and cancelled
    and when no run is active; and once it is closed it stays closed and no run
    enters any more. *)
Theorem confinement_lifecycle l l' :
  rtc life_step new_life l → rtc life_step l l' →
  life_ok l ∧ (0 < life_teardowns l → life_closed l = true ∧ life_cancelled l = true ∧ life_active l = 0)%nat ∧
  (life_closed l = true → life_closed l' = true ∧ life_active l' <= life_active l)%nat.
Proof.
  intros Hl Hl'.
  assert (life_ok l) as Hok.
  { clear Hl'. assert (life_ok new_life) as Hnew by (split; cbn; done || lia). revert Hnew. induction Hl; eauto using life_step_ok. }
  split_and!; [exact Hok| |].
  - intros Ht. destruct Hok as [H1 H2 H3 H4]. destruct (life_closed l); [naive_solver | naive_solver lia].
  - clear Hl Hok. induction Hl' as [l|l m l' Hs _ IH]; [done|]. intros Hc.
    assert (life_closed m = true ∧ life_active m <= life_active l)%nat as [Hm Ha] by (destruct Hs; cbn in *; simplify_eq; split; done || lia || congruence).
    destruct (IH Hm). split; [done | lia].
Qed.

Lemma confinement_lifecycle_witness :
  let l := {| life_closed := true; life_cancelled := true; life_active := 0; life_waiting := 0; life_teardowns := 1 |} in
  life_ok l ∧ (0 < life_teardowns l → life_closed l = true ∧ life_cancelled l = true ∧ life_active l = 0)%nat ∧
  (life_closed l = true → life_closed l = true ∧ life_active l <= life_active l)%nat.
Proof.
  intros l. apply (confinement_lifecycle l l); [|done].
  eapply rtc_l; [by apply run_enter|]. eapply rtc_l; [by apply close_begin|].
  eapply rtc_l; [by apply (run_leave _ 0)|]. apply rtc_once.
  exact (close_finish {| life_closed := true; life_cancelled := true; life_active := 0; life_waiting := 1; life_teardowns := 0 |} 0 eq_refl eq_refl).
Defined.
