(* ===== verification/Bwrap.v ===== *)
(** * The command line of bubblewrap

    What the manual of bwrap says of the options that native_linux.go gives it:
    options are read from the left up to "--", mounts are made in that order and
    hide what was there, "--chdir" sets the directory of the command.  Here such a
    command line is read, and the one of a confinement is found to show its root
    and its helper, and to let nothing but the root be written. *)

From Stdlib Require Import ZArith Lia.
From S2P Require Import Prelude Effects GoNum GoText GoPath Policy Execution Engine FileTree Sandbox SandboxSpec.

(* ------------------------------------------------------------------ *)
(** ** Reading a command line *)

Inductive BwrapOption : Type :=
| BwrapBind (source target : string) (writable : bool)
| BwrapMount (target : string)
| BwrapChdir (dir : string).

Definition prepend {A B} (a : A) (r : option (list A * B)) : option (list A * B) := '(l, b) ← r; Some (a :: l, b).

(** The options that bear on files, and the command; [None] with any other option. *)
Fixpoint bwrap_parse (args : list string) : option (list BwrapOption * list string) :=
  match args with
  | [] => None
  | flag :: rest =>
      if flag =s "--" then Some ([], rest)
      else if existsb (String.eqb flag) ["--die-with-parent"; "--new-session"; "--unshare-all"; "--clearenv"] then bwrap_parse rest
      else
        match rest with
        | [] => None
        | a :: rest' =>
            if flag =s "--cap-drop" then bwrap_parse rest'
            else if flag =s "--chdir" then prepend (BwrapChdir a) (bwrap_parse rest')
            else if existsb (String.eqb flag) ["--proc"; "--dev"; "--tmpfs"] then prepend (BwrapMount a) (bwrap_parse rest')
            else
              match rest' with
              | [] => None
              | b :: rest'' =>
                  if flag =s "--bind" then prepend (BwrapBind a b true) (bwrap_parse rest'')
                  else if flag =s "--ro-bind" then prepend (BwrapBind a b false) (bwrap_parse rest'')
                  else if flag =s "--setenv" then bwrap_parse rest''
                  else None
              end
        end
  end.

(** One of two directories is in the other. *)
Definition overlap (p q : string) : bool :=
  bool_decide (abs_names p `prefix_of` abs_names q) || bool_decide (abs_names q `prefix_of` abs_names p).

Definition mount_shows (path : string) (shown : option (string * bool)) (o : BwrapOption) : option (string * bool) :=
  match o with
  | BwrapBind source target writable => if target =s path then Some (source, writable) else if overlap target path then None else shown
  | BwrapMount target => if overlap target path then None else shown
  | BwrapChdir _ => shown
  end.

(** The path outside that is seen, all of it, at a path inside, and whether it can
    be written there. *)
Definition bwrap_shows (path : string) (options : list BwrapOption) : option (string * bool) := foldl (mount_shows path) None options.

Definition bwrap_dir (options : list BwrapOption) : option string :=
  foldl (fun dir o => match o with BwrapChdir d => Some d | _ => dir end) None options.

(* ------------------------------------------------------------------ *)
(** ** The command line of a confinement *)

Definition bound_options (paths : list string) : list BwrapOption := (fun path => BwrapBind path path false) <$> paths.

Definition native_options (config : SandboxConfig) (paths : list string) : list BwrapOption :=
  bound_options paths ++
  [BwrapMount "/proc"; BwrapMount "/dev"; BwrapMount "/tmp"; BwrapBind (Box_Root config) "/workspace" true; BwrapChdir "/workspace"] ++
  (if Box_Helper config ≠s "" then [BwrapBind (Box_Helper config) "/runner-helper" false] else []).

Lemma parse_bound paths rest : bwrap_parse (bound_flags paths ++ rest) = ('(l, c) ← bwrap_parse rest; Some (bound_options paths ++ l, c)).
Proof.
  induction paths as [|path paths IH]; [change (bound_flags [] ++ rest) with rest; by destruct (bwrap_parse rest) as [[]|]|].
  change (bwrap_parse (bound_flags (path :: paths) ++ rest)) with (prepend (BwrapBind path path false) (bwrap_parse (bound_flags paths ++ rest))).
  rewrite IH. by destruct (bwrap_parse rest) as [[]|].
Qed.

(** What the options of a confinement say, whatever the command. *)
Lemma native_command_line config paths command :
  bwrap_parse (isolation_flags ++ bound_flags paths ++ workspace_flags config ++ helper_flags config ++ ["--"] ++ command) =
    Some (native_options config paths, command).
Proof.
  change (bwrap_parse (isolation_flags ++ ?rest)) with (bwrap_parse rest). rewrite parse_bound. unfold native_options, helper_flags.
  by destruct (Box_Helper config ≠s "").
Qed.

(** The root is seen at the directory of the command, to be written, and the helper
    at its place, to be read. *)
Lemma native_shows config paths :
  bwrap_dir (native_options config paths) = Some "/workspace" ∧
  bwrap_shows "/workspace" (native_options config paths) = Some (Box_Root config, true) ∧
  (Box_Helper config ≠ "" → bwrap_shows "/runner-helper" (native_options config paths) = Some (Box_Helper config, false)).
Proof.
  unfold native_options, bwrap_dir, bwrap_shows. rewrite !foldl_app.
  destruct (String.eqb_spec (Box_Helper config) "") as [->|]; cbn [negb]; split_and!; try done; by vm_compute.
Qed.

(** Nothing that can be written is seen inside but the root. *)
Theorem only_root_writable config paths source target :
  BwrapBind source target true ∈ native_options config paths → source = Box_Root config ∧ target = "/workspace".
Proof.
  unfold native_options, bound_options. rewrite !elem_of_app, list_elem_of_fmap, !elem_of_cons.
  destruct (Box_Helper config ≠s ""); rewrite ?list_elem_of_singleton; intros [(? & [=] & _)|[[[=]|[[=]|[[=]|[[= <- <-]|[[=]|[]%elem_of_nil]]]]]|H]];
    done || by (try apply elem_of_nil in H).
Qed.
