(* ===== verification/Tools.v ===== *)
(** * The tools (src/tool/tools.go)

    [New] and the handlers of read, write, edit and command: preparing a sandbox
    once, executing a call inside it (reading goes without), and closing.  What a
    handler needs of sandboxes and files is the interface [ToolWorld]; [HostWorld]
    is the program's own, with the executors of src/sandbox and the file
    operations of src/internal/toolop. *)

From Stdlib Require Import ZArith Lia Ascii.
From S2P Require Import Prelude Effects GoNum GoText GoJson GoJsonText GoPath Domain Model Policy LoopTypes Execution Engine FileTree ToolOp Sandbox.

(** [json.Unmarshal] into a result: the fields that are there replace its own. *)
Class ResultDecoder := { decode_result : bytes → Result → result Result }.

Class ToolWorld := {
  World : Type;
  Box : Type;
  Executor : Type;
  (** [sandbox.Deny{}] *)
  Deny : Executor;
  executor_Establish : Executor → SandboxConfig → EM World Box;
  box_Capability : Box → EM World SandboxCapability;
  box_Run : Box → Command → EM World (SandboxResult * option error);
  box_Close : Box → EM World unit;
  record_event : SandboxEvent → EM World (option error);
  os_Stat : string → EM World (result HostFile);
  (** [toolop.Run] below a root. *)
  toolop_Run : string → string → Input → Z → EM World (Result * option error);
}.

(* ------------------------------------------------------------------ *)
(** ** Schemas *)

(** JSON text, written with single quotes. *)
Fixpoint with_quotes (s : string) : string :=
  match s with
  | "" => ""
  | String a s' => String (if Ascii.eqb a "'" then "034"%char else a) (with_quotes s')
  end.

Definition tool_specs : list (string * string * string) :=
  [("read", with_quotes "'path':{'type':'string','minLength':1}", with_quotes "'path'");
   ("write", with_quotes "'path':{'type':'string','minLength':1},'text':{'type':'string'}", with_quotes "'path','text'");
   ("edit", with_quotes "'path':{'type':'string','minLength':1},'old':{'type':'string','minLength':1},'new':{'type':'string'}",
      with_quotes "'path','old','new'");
   ("command", with_quotes "'args':{'type':'array','minItems':1,'maxItems':256,'items':{'type':'string'}}", with_quotes "'args'")].

Definition output_schema : string := with_quotes
  "{'type':'object','properties':{'text':{'type':'string'},'truncated':{'type':'boolean'},'partial_effects':{'type':'boolean'},'exit_code':{'type':'integer'},'error':{'type':'string'}},'required':['text','truncated','partial_effects','exit_code'],'additionalProperties':false}".

Definition tool_definition (spec : string * string * string) : ToolDefinition :=
  let '(name, properties, required) := spec in
  {| Tool_SideEffecting := name ≠s "read"; Tool_Name := name; Tool_Description := "Bounded workspace " +:+ name;
     Tool_InputSchema := with_quotes "{'type':'object','properties':{" +:+ properties +:+ with_quotes "},'required':[" +:+ required +:+
                         with_quotes "],'additionalProperties':false}";
     Tool_OutputSchema := output_schema; Tool_Strict := true |}.

(* ------------------------------------------------------------------ *)
(** ** Handlers *)

Section tools.
Context `{ToolWorld} `{InputDecoder} `{ResultDecoder}.

Record ToolConfig : Type := {
  Config_Root : string;
  Config_Helper : string;
  Config_Executor : option Executor;
  Config_MaxOutput : Z;
  Config_Timeout : Z;
  Config_Classification : Classification;
}.

Record ToolHandler : Type := {
  h_config : ToolConfig;
  h_name : string;
  h_box : option Box;
  h_closed : bool;
}.

(** The handlers that were made, found by their position, and the outside. *)
Record ToolState : Type := { handlers : list ToolHandler; world : World }.
Notation TM := (EM ToolState).

Definition on_world {A} (m : EM World A) : TM A := fun s =>
  let '(r, w) := m (world s) in (r, {| s with world := w |}).

Definition get_handler (h : nat) : TM ToolHandler := s ← lm_get; deref (handlers s !! h).
Definition set_handler (h : nat) (f : ToolHandler → ToolHandler) : TM unit :=
  lm_modify (fun s => {| s with handlers := alter f h (handlers s) |}).

(** The configuration with its defaults, or what is wrong with it. *)
Definition tool_config (config : ToolConfig) : result ToolConfig :=
  let config := if Config_MaxOutput config =? 0 then {| config with Config_MaxOutput := 65536 |} else config in
  require (negb ((Config_MaxOutput config <? 1) || (1048576 <? Config_MaxOutput config))) "output bound must be between 1 and 1 MiB" ;;
  let config := if Config_Timeout config =? 0 then {| config with Config_Timeout := 60000000000 |} else config in
  require (negb (Config_Timeout config <? 0)) "negative timeout" ;;
  let config := if Config_Classification config =s "" then {| config with Config_Classification := ClassConfidential |} else config in
  Classification_Validate (Config_Classification config) ;;
  Ok (match Config_Executor config with None => {| config with Config_Executor := Some Deny |} | Some _ => config end).

(** The loop over the specifications. *)
Fixpoint bind_tools (config : ToolConfig) (specs : list (string * string * string)) : TM (list (ToolBinding nat)) :=
  match specs with
  | [] => mret []
  | spec :: specs' =>
      let name := fst (fst spec) in
      s ← lm_get;
      lm_modify (fun s => {| s with handlers := handlers s ++ [{| h_config := config; h_name := name; h_box := None; h_closed := false |}] |}) ;;
      rest ← bind_tools config specs';
      mret ({| Binding_Definition := tool_definition spec; Binding_Handler := Some (length (handlers s)); Binding_ParallelSafe := name =s "read" |} :: rest)
  end.

Definition New (config : ToolConfig) : TM (list (ToolBinding nat)) :=
  if Config_Root config =s "" then lm_fail (errors_New "explicit tool root required")
  else
    info ← on_world (os_Stat (Config_Root config));
    match info with
    | Ok HostDirectory =>
        config ← lm_lift (tool_config config);
        bind_tools config tool_specs
    | _ => lm_fail (errors_New "tool root must be a directory")
    end.

Definition asked_config (config : ToolConfig) : SandboxConfig :=
  {| Box_Root := Config_Root config; Box_Helper := Config_Helper config |}.

Definition PrepareSandbox (h : nat) : TM SandboxCapability :=
  hd ← get_handler h;
  if h_closed hd then lm_fail (errors_New "tool is closed")
  else if h_name hd =s "read" then mret zero_SandboxCapability
  else
    box ← (match h_box hd with
           | Some box => mret box
           | None =>
               executor ← deref (Config_Executor (h_config hd));
               box ← on_world (executor_Establish executor (asked_config (h_config hd)));
               set_handler h (fun hd => {| hd with h_box := Some box |}) ;;
               mret box
           end);
    on_world (box_Capability box).

(** The argument vector of a call, and the bound of its output. *)
Definition tool_args (hd : ToolHandler) (input : Input) : result (list string * Z) :=
  '(args, bound) ← (if h_name hd =s "command" then Ok (Input_Args input, Config_MaxOutput (h_config hd))
                    else
                      require_w (Config_Helper (h_config hd) ≠s "") ErrSandboxDenied "trusted helper is required" ;;
                      Ok ([Config_Helper (h_config hd); h_name hd], 65536));
  require (negb ((Z.of_nat (length args) =? 0) || (256 <? Z.of_nat (length args)))) "bounded argument vector required" ;;
  Ok (args, bound).

(** A call inside the sandbox: the result and the error with it. *)
Definition run_confined (h : nat) (input : Input) (raw : bytes) : TM (Result * option error) :=
  hd ← get_handler h;
  '(args, bound) ← lm_lift (tool_args hd input);
  hd ← get_handler h;
  box ← deref (h_box hd);
  '(execution, err) ← on_world (box_Run box {| Command_Args := args; Command_Input := raw; Command_MaxOutput := bound |});
  capability ← on_world (box_Capability box);
  recordErr ← on_world (record_event (sandbox_event (match err with Some _ => "execution_failed" | None => "execution_completed" end)
                                        (Sandbox_Backend capability) (Box_Started execution)));
  match recordErr with
  | Some e => lm_fail e
  | None =>
      let result := {| Result_Text := Box_Output execution; Result_Truncated := Box_Truncated execution;
                       Result_PartialEffects := Box_Started execution; Result_ExitCode := Box_ExitCode execution; Result_Error := "" |} in
      if (h_name hd ≠s "command") && negb (bool_decide (is_Some err))
      then result ← lm_lift (decode_result (Box_Output execution) result); mret (result, None)
      else mret (result, err)
  end.

(** The output that a result and its error make. *)
Definition tool_output (config : ToolConfig) (answer : Result * option error) : result ToolOutput :=
  let '(result, err) := answer in
  result ← match err with
           | Some e => if negb (Result_PartialEffects result) then Err e
                       else Ok {| result with Result_Error := "tool failed; effects may have occurred" |}
           | None => Ok result
           end;
  let result := if Config_MaxOutput config <? Z.of_nat (String.length (Result_Text result))
                then {| result with Result_Text := take_bytes (Z.to_nat (Config_MaxOutput config)) (Result_Text result); Result_Truncated := true |}
                else result in
  Ok {| ToolOutput_JSON := marshal_result result; ToolOutput_Content := []; ToolOutput_Classification := Config_Classification config;
        ToolOutput_IsError := bool_decide (is_Some err) |}.

(** A call that returns an error returns no result with it. *)
Definition with_error {A} (zero : A) (r : result (A * option error)) : A * option error :=
  match r with Ok a => a | Err e => (zero, Some e) end.

Definition Execute (h : nat) (call : ToolInvocation) : TM ToolOutput :=
  hd ← get_handler h;
  let raw := Call_Input (Invocation_Call call) in
  input ← lm_lift (Decode raw);
  lm_lift (when (h_name hd ≠s "command") (ValidatePath (Input_Path input))) ;;
  PrepareSandbox h ;;
  answer ← (if h_name hd =s "read"
            then r ← attempt (on_world (toolop_Run (Config_Root (h_config hd)) (h_name hd) input (Config_MaxOutput (h_config hd))));
                 mret (with_error empty_result r)
            else run_confined h input raw);
  lm_lift (tool_output (h_config hd) answer).

Definition handler_Close (h : nat) : TM unit :=
  hd ← get_handler h;
  set_handler h (fun hd => {| hd with h_closed := true |}) ;;
  match h_box hd with
  | Some box => on_world (box_Close box)
  | None => mret tt
  end.

End tools.

(* ------------------------------------------------------------------ *)
(** ** The program's own world *)

Inductive HostExecutor : Type := NativeExecutor | DenyExecutor.

Section host_world.
Context `{HostEnv} `{FileEnv}.

(** The file operations see the files of the host. *)
Definition on_files {A} (m : EM FileState A) : EM HostState A := fun s =>
  let '(r, f) := m (host_files s) in (r, {| s with host_files := f |}).

Definition HostWorld : ToolWorld := {|
  World := HostState;
  Box := nat;
  Executor := HostExecutor;
  Deny := DenyExecutor;
  executor_Establish := fun executor config => match executor with NativeExecutor => native_Establish config | DenyExecutor => Deny_Establish end;
  box_Capability := confinement_Capability;
  box_Run := confinement_Run;
  box_Close := confinement_Close;
  record_event := RecordSandboxEvent;
  os_Stat := fun path => host_ask (fun n => host_Stat n path);
  toolop_Run := fun _ operation input max => on_files (Run operation input max);
|}.

End host_world.
