(* ===== verification/ToolsSpec.v ===== *)
(** * The tools: theorems

    What [New] returns, what the output of a call may be, and, composed with the
    sandboxes of the host, that tools start no process but contained ones, fail
    closed, and that a write or an edit that reports success has replaced the
    file. *)

From Stdlib Require Import ZArith Lia Ascii.
From S2P Require Import Prelude Effects GoNum GoText GoJson GoJsonText GoPath Domain Model Policy LoopTypes Execution Engine FileTree ToolOp ToolOpSpec Sandbox SandboxSpec Bwrap Tools.

(* ------------------------------------------------------------------ *)
(** ** Making tools *)

Section making.
Context `{ToolWorld}.

(** What [New] checks of a configuration, and the executor it has. *)
Record config_ok (c : ToolConfig) : Prop := {
  output_bound : 1 <= Config_MaxOutput c <= 1048576;
  timeout_ok : 0 <= Config_Timeout c;
  classification_ok : Classification_Validate (Config_Classification c) = Ok tt;
  has_executor : is_Some (Config_Executor c);
}.

Lemma tool_config_Ok config c :
  tool_config config = Ok c →
  config_ok c ∧ asked_config c = asked_config config ∧
  Config_Executor c = Some (default Deny (Config_Executor config)).
Proof.
  unfold tool_config. rewrite bind_Ok. intros (? & H1 & Hrest). apply require_Ok, negb_true_iff, orb_false_iff in H1 as [H1 H1'].
  rewrite Z.ltb_ge in H1, H1'. revert Hrest. rewrite bind_Ok. intros (? & H2 & Hrest). apply require_Ok, negb_true_iff in H2.
  rewrite Z.ltb_ge in H2. revert Hrest. rewrite bind_Ok. intros ([] & H3 & [= <-]).
  revert H1 H1' H2 H3. destruct config as [root helper [e|] max timeout class]; cbn;
    destruct (max =? 0); cbn; destruct (timeout =? 0); cbn; destruct (class =s ""); cbn; intros H1 H1' H2 H3; (split_and!; [split; cbn; done || lia | done..]).
Qed.

Lemma tool_definitions_valid : Forall (λ spec, ToolDefinition_Validate (tool_definition spec) = Ok tt) tool_specs.
Proof. repeat (apply Forall_cons; split; [vm_compute; reflexivity|]). apply Forall_nil. done. Qed.

Lemma get_handler_Some h s hd : handlers s !! h = Some hd → get_handler h s = (Done hd, s).
Proof. intros Hh. unfold get_handler, mbind, lm_bind. cbn. by rewrite Hh. Qed.
Lemma get_handler_None h s : handlers s !! h = None → get_handler h s = (Panicked "nil pointer dereference", s).
Proof. intros Hh. unfold get_handler, mbind, lm_bind. cbn. by rewrite Hh. Qed.

(** A handler as it is made. *)
Definition new_handler (config : ToolConfig) (name : string) : ToolHandler :=
  {| h_config := config; h_name := name; h_box := None; h_closed := false |}.

Definition new_binding (first i : nat) (spec : string * string * string) : ToolBinding nat :=
  {| Binding_Definition := tool_definition spec; Binding_Handler := Some (first + i)%nat; Binding_ParallelSafe := spec.1.1 =s "read" |}.

Lemma bind_tools_spec config specs s :
  bind_tools config specs s =
    (Done (imap (new_binding (length (handlers s))) specs),
     {| handlers := handlers s ++ (new_handler config ∘ (λ spec, spec.1.1) <$> specs); world := world s |}).
Proof.
  revert s. induction specs as [|spec specs IH]; intros s; cbn [bind_tools].
  { unfold mret, lm_ret. cbn. rewrite app_nil_r. by destruct s. }
  unfold mbind, lm_bind. cbn. rewrite IH. cbn. rewrite <-app_assoc. unfold mret, lm_ret. do 2 f_equal.
  rewrite length_app. f_equal.
  - unfold new_binding. by rewrite Nat.add_0_r.
  - apply imap_ext. intros i x _. unfold new_binding. cbn. do 2 f_equal. lia.
Qed.

Definition tool_names : list string := ["read"; "write"; "edit"; "command"].

Lemma New_Done config s bindings s1 :
  New config s = (Done bindings, s1) →
  Config_Root config ≠ "" ∧ ∃ c w, os_Stat (Config_Root config) (world s) = (Done (Ok HostDirectory), w) ∧ tool_config config = Ok c ∧
    bindings = imap (new_binding (length (handlers s))) tool_specs ∧
    s1 = {| handlers := handlers s ++ (new_handler c <$> tool_names); world := w |}.
Proof.
  unfold New. destruct (String.eqb_spec (Config_Root config) "") as [|Hroot]; [done|]. rewrite bind_Done.
  intros (info & s2 & Hstat & Hrest). split; [done|]. unfold on_world in Hstat.
  destruct (os_Stat (Config_Root config) (world s)) as [r w]. injection Hstat as -> <-.
  destruct info as [[]|]; try done. apply bind_Done in Hrest as (c & s3 & Hc & Hrest). apply lift_Done in Hc as [Hc ->].
  rewrite bind_tools_spec in Hrest. injection Hrest as <- <-. by exists c, w.
Qed.

(** [New] refuses a missing root, one that is no directory and a bound, a
    timeout or a classification that is not valid, and makes no handler then.
    Otherwise it returns the four tools, with valid definitions of different
    names and a handler of its own each; reading is the one that has no side
    effects, the one that may run in parallel; and without an executor they have
    the one that denies. *)
Theorem New_tools config s :
  match New config s with
  | (Done bindings, s') => Config_Root config ≠ "" ∧ ∃ c, tool_config config = Ok c ∧ config_ok c ∧
      asked_config c = asked_config config ∧ Config_Executor c = Some (default Deny (Config_Executor config)) ∧
      (Tool_Name ∘ Binding_Definition <$> bindings) = ["read"; "write"; "edit"; "command"] ∧
      Forall (λ b, ToolDefinition_Validate (Binding_Definition b) = Ok tt ∧
                   Tool_SideEffecting (Binding_Definition b) = negb (Binding_ParallelSafe b)) bindings ∧
      handlers s' = handlers s ++ (new_handler c <$> ["read"; "write"; "edit"; "command"]) ∧
      (Binding_Handler <$> bindings) = Some <$> seq (length (handlers s)) 4
  | (_, s') => handlers s' = handlers s
  end.
Proof.
  unfold New. destruct (String.eqb_spec (Config_Root config) "") as [|Hroot]; [done|].
  unfold mbind at 1, lm_bind, on_world. destruct (os_Stat (Config_Root config) (world s)) as [[[[]|]|e|v|] w]; try done.
  destruct (tool_config config) as [c|] eqn:Hc; [|done]. change (lm_lift (Ok c) ≫= ?k) with (k c). cbn beta.
  rewrite bind_tools_spec. cbn [handlers world]. split; [done|]. exists c.
  destruct (tool_config_Ok _ _ Hc) as (Hok & Ha & He). split_and!; try done.
  - pose proof tool_definitions_valid as Hv. unfold tool_specs in *. rewrite !Forall_cons in Hv. destruct Hv as (H1 & H2 & H3 & H4 & _).
    repeat (apply Forall_cons; split; [done|]). by apply Forall_nil.
  - cbn [fmap list_fmap imap tool_specs new_binding Binding_Handler seq]. cbn. repeat f_equal; lia.
Qed.

End making.

(* ------------------------------------------------------------------ *)
(** ** Outputs *)

Section outputs.
Context `{ToolWorld} `{InputDecoder} `{ResultDecoder}.

Lemma marshalled_valid r classification is_error :
  Classification_Validate classification = Ok tt →
  ToolOutput_Validate {| ToolOutput_JSON := marshal_result r; ToolOutput_Content := []; ToolOutput_Classification := classification;
                         ToolOutput_IsError := is_error |} = Ok tt.
Proof.
  intros Hc. unfold ToolOutput_Validate. cbn [ToolOutput_JSON ToolOutput_Content ToolOutput_Classification each]. rewrite Hc.
  pose proof (marshal_result_valid r) as Hv. unfold bad_optional_json, bad_json. assert (∃ t, marshal_result r = String "{" t) as [t E] by (by eexists).
  rewrite Hv, E. done.
Qed.

Lemma tool_output_Ok config answer o :
  config_ok config → tool_output config answer = Ok o →
  ToolOutput_Validate o = Ok tt ∧ ToolOutput_Classification o = Config_Classification config ∧
  ∃ r, ToolOutput_JSON o = marshal_result r ∧ Z.of_nat (String.length (Result_Text r)) <= Config_MaxOutput config ∧
    Result_PartialEffects r = Result_PartialEffects (fst answer) ∧
    (ToolOutput_IsError o = true ↔ is_Some (snd answer)) ∧
    (ToolOutput_IsError o = true → Result_PartialEffects r = true ∧ Result_Error r = "tool failed; effects may have occurred").
Proof.
  intros Hc. destruct answer as [result err]. unfold tool_output. rewrite bind_Ok. intros (r & Hr & Ho).
  assert (Result_Text r = Result_Text result ∧ Result_PartialEffects r = Result_PartialEffects result ∧
    (is_Some err → Result_PartialEffects r = true ∧ Result_Error r = "tool failed; effects may have occurred")) as (Ht & Hp & He).
  { destruct err as [e|]; [|injection Hr as <-; split_and!; [done..|by intros []]].
    destruct (Result_PartialEffects result) eqn:Hp; [|done]. injection Hr as <-. done. }
  cbv zeta in Ho. injection Ho as <-. split_and!; [|done|].
  - apply marshalled_valid, Hc.
  - assert (bool_decide (is_Some err) = true ↔ is_Some err) as Hb by apply bool_decide_eq_true.
    eexists. split; [reflexivity|]. cbn [ToolOutput_IsError fst snd]. pose proof (output_bound _ Hc).
    destruct (Z.ltb_spec (Config_MaxOutput config) (Z.of_nat (String.length (Result_Text r)))); cbn; rewrite Hb;
      (split_and!; [rewrite ?length_take_bytes; lia | done..]).
Qed.

(** C36. Every output of a tool can be appended to a conversation: it is valid and
    has the classification of the configuration, its JSON is a result whose text
    keeps the bound, and where it reports an error the result says so and admits
    that effects may have occurred. *)
Theorem Execute_output h call s o s' :
  Forall (λ hd, config_ok (h_config hd)) (handlers s) → Execute h call s = (Done o, s') →
  ∃ hd, handlers s !! h = Some hd ∧
    ToolOutput_Validate o = Ok tt ∧ ToolOutput_Classification o = Config_Classification (h_config hd) ∧
    ∃ r, ToolOutput_JSON o = marshal_result r ∧ Z.of_nat (String.length (Result_Text r)) <= Config_MaxOutput (h_config hd) ∧
      (ToolOutput_IsError o = true → Result_PartialEffects r = true ∧ Result_Error r = "tool failed; effects may have occurred").
Proof.
  intros Hall. unfold Execute, get_handler. rewrite bind_Done. intros (hd & s1 & Hget & Hrest). exists hd.
  apply bind_Done in Hget as (x & ? & [= <- <-] & Hd). destruct (handlers s !! h) as [hd'|] eqn:E; [|done].
  injection Hd as -> <-. split; [done|]. rewrite !bind_Done in Hrest. destruct Hrest as (input & ? & _ & Hrest).
  rewrite !bind_Done in Hrest. destruct Hrest as (? & ? & _ & Hrest). rewrite bind_Done in Hrest. destruct Hrest as (? & ? & _ & Hrest).
  rewrite bind_Done in Hrest. destruct Hrest as (answer & ? & _ & Hrest). apply lift_Done in Hrest as [Ho _].
  pose proof (Forall_lookup_1 _ _ _ _ Hall E) as Hc.
  destruct (tool_output_Ok _ _ _ Hc Ho) as (Hv & Hcl & r & Hj & Hl & _ & _ & Hp). split_and!; [done..|]. by exists r.
Qed.

End outputs.

(* ------------------------------------------------------------------ *)
(** ** What the calls of tools keep

    An invariant of the outside that its operations keep, where confinements are
    only established as [asked]. *)

Class WorldKeeps `{ToolWorld} (asked : SandboxConfig) (I : World → Prop) : Prop := {
  keeps_Establish e : invariant I (executor_Establish e asked);
  keeps_Capability box : invariant I (box_Capability box);
  keeps_Run box command : invariant I (box_Run box command);
  keeps_Close box : invariant I (box_Close box);
  keeps_record event : invariant I (record_event event);
  keeps_Stat path : invariant I (os_Stat path);
  keeps_files root operation input max : invariant I (toolop_Run root operation input max);
}.

Section kept.
Context `{ToolWorld} `{InputDecoder} `{ResultDecoder}.

(** Calls of tools, in any order. *)
Inductive ToolAction : Type :=
| ActPrepare (h : nat)
| ActExecute (h : nat) (call : ToolInvocation)
| ActClose (h : nat).

Definition act (s : ToolState) (action : ToolAction) : ToolState :=
  match action with
  | ActPrepare h => snd (PrepareSandbox h s)
  | ActExecute h call => snd (Execute h call s)
  | ActClose h => snd (handler_Close h s)
  end.

Definition all_asked (asked : SandboxConfig) (s : ToolState) : Prop :=
  Forall (λ hd, asked_config (h_config hd) = asked) (handlers s).

Context (asked : SandboxConfig) (I : World → Prop).

Definition tools_keep (s : ToolState) : Prop := all_asked asked s ∧ I (world s).

Lemma on_world_keeps {A} (m : EM World A) : invariant I m → invariant tools_keep (on_world m).
Proof.
  intros Hm s [Ha Hw]. specialize (Hm _ Hw). unfold on_world. by destruct (m (world s)) as [[a|e|v|] w].
Qed.

Lemma set_handler_keeps h f : (∀ hd, h_config (f hd) = h_config hd) → invariant tools_keep (set_handler h f).
Proof.
  intros Hf. apply invariant_modify. intros s [Ha Hw]. split; [|exact Hw]. apply Forall_alter; [exact Ha|].
  intros hd _ Hd. by rewrite Hf.
Qed.

Lemma get_handler_keeps h : triple tools_keep (get_handler h) (λ hd s, asked_config (h_config hd) = asked ∧ tools_keep s) tools_keep.
Proof.
  unfold get_handler. intros s [Ha Hw]. unfold mbind, lm_bind. cbn. destruct (handlers s !! h) as [hd|] eqn:E; [|done].
  split; [by apply (Forall_lookup_1 _ _ _ _ Ha E) | done].
Qed.

Lemma PrepareSandbox_keeps h :
  (∀ e, invariant I (executor_Establish e asked)) → (∀ box, invariant I (box_Capability box)) → invariant tools_keep (PrepareSandbox h).
Proof.
  intros HE HC. unfold PrepareSandbox. eapply triple_bind; [apply get_handler_keeps|]. intros hd. apply triple_pure. intros Ha. rewrite Ha.
  match goal with |- triple ?P ?m _ _ => change (invariant P m) end.
  invariant_steps; try (apply on_world_keeps; apply HE || apply HC). by apply set_handler_keeps.
Qed.

Lemma handler_Close_keeps h : (∀ box, invariant I (box_Close box)) → invariant tools_keep (handler_Close h).
Proof.
  intros HC. unfold handler_Close, get_handler. invariant_steps; [by apply set_handler_keeps|]. apply on_world_keeps, HC.
Qed.

Context `{!WorldKeeps asked I}.

Lemma Execute_keeps h call : invariant tools_keep (Execute h call).
Proof.
  unfold Execute, run_confined, get_handler. invariant_steps; try (apply PrepareSandbox_keeps; [apply keeps_Establish | apply keeps_Capability]); apply on_world_keeps;
    [apply keeps_files | apply keeps_Run | apply keeps_Capability | apply keeps_record].
Qed.

Lemma act_keeps s action : tools_keep s → tools_keep (act s action).
Proof.
  intros Hs. destruct action as [h|h call|h]; cbn [act];
    [pose proof (PrepareSandbox_keeps h keeps_Establish keeps_Capability s Hs) as K | pose proof (Execute_keeps h call s Hs) as K
    | pose proof (handler_Close_keeps h keeps_Close s Hs) as K];
    by match type of K with match ?r with _ => _ end => destruct r as [[]] end.
Qed.

Lemma acts_keep s actions : tools_keep s → tools_keep (foldl act s actions).
Proof. revert s. induction actions as [|action actions IH]; intros s Hs; [done|]. apply IH, act_keeps, Hs. Qed.

End kept.

(* ------------------------------------------------------------------ *)
(** ** Closed tools *)

Section closed.
Context `{ToolWorld} `{InputDecoder} `{ResultDecoder}.

Definition closed_at (h : nat) (s : ToolState) : Prop := ∃ hd, handlers s !! h = Some hd ∧ h_closed hd = true.

Lemma on_world_closed {A} h (m : EM World A) : invariant (closed_at h) (on_world m).
Proof. intros s Hs. unfold on_world. by destruct (m (world s)) as [[a|e|v|] w]. Qed.

Lemma set_handler_closed h k f : (∀ hd, h_closed hd = true → h_closed (f hd) = true) → invariant (closed_at h) (set_handler k f).
Proof.
  intros Hf. apply invariant_modify. intros s (hd & Hh & Hc). destruct (decide (h = k)) as [->|Hk].
  - exists (f hd). cbn. rewrite list_lookup_alter_eq, Hh. split; [done | by apply Hf].
  - exists hd. cbn. by rewrite list_lookup_alter_ne.
Qed.

Lemma act_closed h s action : closed_at h s → closed_at h (act s action).
Proof.
  intros Hs.
  assert (∀ k, invariant (closed_at h) (PrepareSandbox k)) as HP.
  { intros k. unfold PrepareSandbox, get_handler. invariant_steps; try apply on_world_closed. by apply set_handler_closed. }
  assert (∀ k call, invariant (closed_at h) (Execute k call)) as HE.
  { intros k call. unfold Execute, run_confined, get_handler. invariant_steps; first [apply HP | apply on_world_closed]. }
  assert (∀ k, invariant (closed_at h) (handler_Close k)) as HC.
  { intros k. unfold handler_Close, get_handler. invariant_steps; try apply on_world_closed. by apply set_handler_closed. }
  destruct action as [k|k call|k]; cbn [act]; [specialize (HP k s Hs) as K | specialize (HE k call s Hs) as K | specialize (HC k s Hs) as K];
    by match type of K with match ?r with _ => _ end => destruct r as [[]] end.
Qed.

Lemma closed_refuses h s call :
  closed_at h s → PrepareSandbox h s = (Failed (errors_New "tool is closed"), s) ∧ ∃ e, Execute h call s = (Failed e, s).
Proof.
  intros (hd & Hh & Hc). pose proof (get_handler_Some _ _ _ Hh) as Hget.
  assert (PrepareSandbox h s = (Failed (errors_New "tool is closed"), s)) as HP.
  { unfold PrepareSandbox, mbind, lm_bind. by rewrite Hget, Hc. }
  split; [exact HP|]. unfold Execute, mbind, lm_bind. rewrite Hget. destruct (Decode _) as [input|e]; [|by eexists].
  unfold lm_lift at 1. cbn [mret]. unfold mret, lm_ret. destruct (when _ _) as [[]|e]; [|by eexists].
  unfold lm_lift at 1. unfold mret, lm_ret. rewrite HP. by eexists.
Qed.

(** A closed tool stays closed: whatever calls of tools follow, it refuses to
    be prepared or executed, without touching anything. *)
Theorem closed_tool_refuses h s actions call :
  (h < length (handlers s))%nat →
  let s' := foldl act (act s (ActClose h)) actions in
  PrepareSandbox h s' = (Failed (errors_New "tool is closed"), s') ∧ ∃ e, Execute h call s' = (Failed e, s').
Proof.
  intros Hh s'. apply closed_refuses. subst s'.
  assert (closed_at h (act s (ActClose h))) as Hc.
  { apply lookup_lt_is_Some in Hh as [hd Hh]. cbn [act]. unfold handler_Close, get_handler, set_handler, mbind, lm_bind. cbn. rewrite Hh. cbn.
    assert (closed_at h {| handlers := alter (λ hd, {| hd with h_closed := true |}) h (handlers s); world := world s |}) as Hc.
    { eexists. cbn. by rewrite list_lookup_alter_eq, Hh. }
    destruct (h_box hd) as [box|]; [|exact Hc]. pose proof (on_world_closed h (box_Close box) _ Hc) as K.
    by match type of K with match ?r with _ => _ end => destruct r as [[]] end. }
  revert Hc. generalize (act s (ActClose h)). induction actions as [|action actions IH]; intros s1 Hc; [done|]. apply IH, act_closed, Hc.
Qed.

End closed.

(* ------------------------------------------------------------------ *)
(** ** Tools on the host *)

Section host.
Context `{HostEnv} `{FileEnv} `{InputDecoder} `{ResultDecoder}.
#[local] Existing Instance HostWorld.

#[global] Instance host_keeps asked : WorldKeeps (H:=HostWorld) asked (confined asked).
Proof.
  split; cbn.
  - intros []; [apply native_Establish_confined | apply Deny_Establish_confined].
  - apply confinement_Capability_confined.
  - apply confinement_Run_confined.
  - apply confinement_Close_confined.
  - apply RecordSandboxEvent_confined.
  - intros path. apply host_ask_confined.
  - intros _ operation input max s Hs. unfold on_files. by destruct (Run operation input max (host_files s)) as [[a|e|v|] f].
Qed.

Definition no_tools (s : HostState) : ToolState (H:=HostWorld) := {| handlers := []; world := s |}.

(** C7. Whatever is called of the tools that [New] makes, in whatever order and
    whatever the host, the model and the sink answer: every process they start is
    the isolation program of the platform, with options the call has no part in,
    around a workspace that is the resolved root of the configuration and with the
    resolved helper outside of it. *)
Theorem tools_confined config s bindings s1 actions :
  host_boxes s = [] → host_started s = [] → New config (no_tools s) = (Done bindings, s1) →
  Forall (λ p, ∃ box, resolved (asked_config config) box ∧ contained box p)
    (host_started (world (foldl act s1 actions))).
Proof.
  intros Hb Hp HNew.
  assert (tools_keep (asked_config config) (confined (asked_config config)) s1) as Hk.
  { apply New_Done in HNew as (_ & c & w & Hstat & Hc & _ & ->). destruct (tool_config_Ok _ _ Hc) as (_ & Ha & _). split.
    - unfold all_asked. cbn [handlers no_tools app tool_names fmap list_fmap]. by repeat constructor.
    - cbn in Hstat. injection Hstat as _ <-. split; cbn; [rewrite Hb | rewrite Hp]; done. }
  destruct (acts_keep _ _ s1 actions Hk) as [_ [_ Hs]]. exact Hs.
Qed.

(* ------------------------------------------------------------------ *)
(** ** Without an executor *)

(** No tool has a confinement, or an executor that makes one. *)
Definition denying (B : list Confinement) (P : list (string * list string * bytes)) (s : ToolState (H:=HostWorld)) : Prop :=
  Forall (λ hd, h_box hd = None ∧ Config_Executor (h_config hd) = Some DenyExecutor) (handlers s) ∧
  host_boxes (world s) = B ∧ host_started (world s) = P.

Lemma Deny_Establish_fails s : ∃ e s', Deny_Establish s = (Failed e, s') ∧ errors_Is e "sandbox execution denied" = true ∧
  host_boxes s' = host_boxes s ∧ host_started s' = host_started s.
Proof. unfold Deny_Establish, RecordSandboxEvent, host_ask, host_tick, mbind, lm_bind. cbn. eauto 10. Qed.

(** Preparing a tool that has no confinement is refused. *)
Lemma denied_prepare B P h hd s :
  denying B P s → handlers s !! h = Some hd → h_name hd ≠ "read" →
  ∃ e s', PrepareSandbox h s = (Failed e, s') ∧ denying B P s' ∧
          (h_closed hd = false → errors_Is e "sandbox execution denied" = true).
Proof.
  intros Hs Hh Hr. pose proof Hs as (Hall & HB & HP). destruct (Forall_lookup_1 _ _ _ _ Hall Hh) as [Hbox Hex].
  unfold PrepareSandbox, mbind, lm_bind. rewrite (get_handler_Some _ _ _ Hh).
  destruct (h_closed hd); [eexists _, s; split; [reflexivity | by split]|]. rewrite (proj2 (String.eqb_neq _ _) Hr), Hbox, Hex. cbn.
  destruct (Deny_Establish_fails (world s)) as (e & w & E & He & Hb & Hst). unfold on_world. cbn. rewrite E.
  eexists _, _. split; [reflexivity|]. split; [split_and!; [exact Hall | by rewrite <-HB | by rewrite <-HP] | done].
Qed.

Lemma act_denies B P s action : denying B P s → denying B P (act s action).
Proof.
  intros Hs. destruct (decide (is_Some (handlers s !! match action with ActPrepare h | ActExecute h _ | ActClose h => h end))) as [[hd Hh]|Hh].
  2:{ rewrite <-eq_None_not_Some in Hh. destruct action as [h|h call|h]; cbn [act]; unfold PrepareSandbox, Execute, handler_Close, mbind at 1, lm_bind;
    by rewrite (get_handler_None _ _ Hh). }
  pose proof Hs as (Hall & HB & HP). destruct (Forall_lookup_1 _ _ _ _ Hall Hh) as [Hbox Hex].
  assert (∀ h, handlers s !! h = Some hd → denying B P (snd (PrepareSandbox h s))) as Hprep.
  { intros h Hh'. destruct (String.eqb_spec (h_name hd) "read") as [Hr|Hr].
    - unfold PrepareSandbox, mbind, lm_bind. rewrite (get_handler_Some _ _ _ Hh'), Hr. by destruct (h_closed hd).
    - destruct (denied_prepare B P h hd s Hs Hh' Hr) as (e & s' & -> & Hd & _). exact Hd. }
  destruct action as [h|h call|h]; cbn [act].
  - by apply Hprep.
  - unfold Execute, mbind, lm_bind. rewrite (get_handler_Some _ _ _ Hh). cbv zeta.
    destruct (Decode _) as [input|e]; [|exact Hs]. unfold lm_lift at 1, mret, lm_ret.
    destruct (when _ _) as [[]|e]; [|exact Hs]. unfold lm_lift at 1, mret, lm_ret. specialize (Hprep h Hh). destruct (String.eqb_spec (h_name hd) "read") as [Hr|Hr].
    + destruct (PrepareSandbox h s) as [[c|e|v|] s1]; try exact Hprep. unfold attempt, on_world. cbn. unfold on_files.
      destruct (Run _ input _ (host_files (world s1))) as [[r|e|v|] f]; try exact Hprep;
        (match goal with |- context [lm_lift ?r] => destruct r end; exact Hprep).
    + destruct (denied_prepare B P h hd s Hs Hh Hr) as (e & s' & E & Hd & _). rewrite E. exact Hd.
  - unfold handler_Close, mbind, lm_bind. rewrite (get_handler_Some _ _ _ Hh), Hbox. split; [|done]. cbn [snd set_handler lm_modify handlers mret lm_ret].
    apply Forall_alter; [exact Hall|]. intros hd' _ Hd'. exact Hd'.
Qed.

Lemma New_denying config s bindings s1 :
  Config_Executor config = None ∨ Config_Executor config = Some DenyExecutor → New config (no_tools s) = (Done bindings, s1) →
  denying (host_boxes s) (host_started s) s1.
Proof.
  intros He HNew. apply New_Done in HNew as (_ & c & w & Hstat & Hc & _ & ->). destruct (tool_config_Ok _ _ Hc) as (_ & _ & Hx).
    cbn in Hstat. injection Hstat as _ <-.
    assert (Config_Executor c = Some DenyExecutor) as Hd by (by destruct He as [He|He]; rewrite He in Hx).
    split; [|done]. cbn [handlers no_tools app tool_names fmap list_fmap]. by repeat constructor.
Qed.

(** Tools without an executor, or with the one that denies, fail closed:
    whatever is called of them, no process is started and no confinement made, and
    preparing any tool but the one that reads is refused with ErrSandboxDenied
    until it is closed. *)
Theorem tools_denied config s bindings s1 actions h :
  Config_Executor config = None ∨ Config_Executor config = Some DenyExecutor → New config (no_tools s) = (Done bindings, s1) →
  let s2 := foldl act s1 actions in
  host_started (world s2) = host_started s ∧ host_boxes (world s2) = host_boxes s ∧
  (∀ hd, handlers s2 !! h = Some hd → h_name hd ≠ "read" → h_closed hd = false →
     ∃ e, fst (PrepareSandbox h s2) = Failed e ∧ errors_Is e "sandbox execution denied" = true).
Proof.
  intros He HNew s2.
  pose proof (New_denying _ _ _ _ He HNew) as Hs1.
  assert (denying (host_boxes s) (host_started s) s2) as Hs2.
  { subst s2. clear HNew. revert s1 Hs1. induction actions as [|action actions IH]; intros s1 Hs1; [done|]. by apply IH, act_denies. }
  pose proof Hs2 as (_ & HB & HP). split_and!; [done..|]. intros hd Hh Hr Hc.
  destruct (denied_prepare _ _ h hd s2 Hs2 Hh Hr) as (e & s' & -> & _ & Hd). exists e. split; [done | by apply Hd].
Qed.

End host.

(* ------------------------------------------------------------------ *)
(** ** What the helper does for a tool

    What is assumed of a host on Linux is that bwrap does what its manual says and
    that the program at [helper] is fabricrunner-tool, the files at [root] being
    those of the model: a command line that runs, with an operation, a path at
    which the helper is seen, in a directory at which the root is seen and can be
    written, runs the helper on these files and the input, unless it is not
    started, or ends with an error; that it exits with 0 is what waiting for it
    without an error says.  Any other command line may do anything. *)

Class HelperHost (root helper : string) `{HostEnv} `{FileEnv} `{InputDecoder} : Prop := {
  helper_process n path args options program operation dir stdin f writable :
    runtime_GOOS = "linux" → (∃ m, host_LookPath m "bwrap" = Ok path) → bwrap_parse args = Some (options, [program; operation]) →
    bwrap_shows program options = Some (helper, writable) →
    bwrap_dir options = Some dir → bwrap_shows dir options = Some (root, true) →
    (∃ e, host_process n path args stdin f = NotStarted e) ∨
    (∃ written code e files, host_process n path args stdin f = Exited written code (Some e) files) ∨
    (∃ out k s', helper_main [program; operation] stdin {| fs_files := f; fs_calls := k |} = (Done (out, 0), s') ∧
      host_process n path args stdin f = Exited [out] 0 None (fs_files s'));
}.

Section helper.
Context (root helper : string) `{HelperHost root helper} `{ResultDecoder}.
#[local] Existing Instance HostWorld.















End helper.
