(* ===== verification/EngineTools.v ===== *)
(** * The engine with the tools of the program

    The engine of Engine.v, whose collaborators answer by the history of calls,
    composed with the tools of Tools.v on a host: after any history the tools are
    in the state that the calls made of them lead to.  What they start is then
    read off the history of a run, together with the verdicts it has. *)

From Stdlib Require Import ZArith Lia.
From S2P Require Import Prelude Effects GoNum GoText GoJson GoJsonText GoPath Ident Domain Event Model Stream Policy Telemetry Routing LoopTypes Loop Execution Projection.
From S2P Require Import Engine EngineTurn EngineRun EngineInvariant EngineLedger EngineSafety FileTree ToolOp Sandbox SandboxSpec Tools ToolsSpec.

(* ------------------------------------------------------------------ *)
(** ** What one call of a tool starts *)

Section starts.
Context `{HostEnv} `{FileEnv} `{InputDecoder} `{ResultDecoder}.
#[local] Existing Instance HostWorld.

(** Since [P] processes with [R] were started. *)
Definition started_since (P : list (string * list string * bytes)) (R : string * list string * bytes → Prop) (w : HostState) : Prop :=
  ∃ ps, host_started w = P ++ ps ∧ Forall R ps.

Lemma host_ask_since {A} P R (f : nat → A) : invariant (started_since P R) (host_ask f).
Proof. unfold host_ask, host_tick. by invariant_steps. Qed.

Lemma record_since P R event : invariant (started_since P R) (RecordSandboxEvent event).
Proof. unfold RecordSandboxEvent. invariant_steps; [done | apply host_ask_since]. Qed.

Lemma Capability_since P R box : invariant (started_since P R) (confinement_Capability box).
Proof. unfold confinement_Capability, get_box. invariant_steps. Qed.

Lemma Close_since P R box : invariant (started_since P R) (confinement_Close box).
Proof.
  unfold confinement_Close, get_box. invariant_steps; try apply host_ask_since; [unfold set_box; by apply invariant_modify | apply record_since].
Qed.

Lemma Establish_since P asked : invariant (started_since P (probes asked)) (native_Establish asked).
Proof.
  intros s (ps & Es & Hps). pose proof (native_Establish_total asked (host_boxes s) (host_started s) (host_events s) s ltac:(done)) as T.
  destruct (native_Establish asked s) as [[box|e|v|] s']; try done.
  - destruct T as (_ & b & p & [Hr _] & Hp & (_ & T & _)). exists (ps ++ [p]). rewrite T, Es, app_assoc. split; [done|].
    apply Forall_app. split; [exact Hps|]. apply Forall_singleton. by exists (cf_config b).
  - destruct T as (bs & qs & event & _ & Hq & (_ & T & _) & _). exists (ps ++ qs). rewrite T, Es, app_assoc. split; [done|].
    by apply Forall_app.
Qed.

Lemma Deny_since P R : invariant (started_since P R) Deny_Establish.
Proof. unfold Deny_Establish. invariant_steps. apply record_since. Qed.

Lemma Run_since P box command : invariant (started_since P (λ _, True)) (confinement_Run box command).
Proof.
  intros s (ps & Es & _). destruct (host_boxes s !! box) as [b|] eqn:Eb.
  - pose proof (confinement_Run_total box b command (host_boxes s) (host_started s) (host_events s) (λ _ _, False) Eb s ltac:(done)) as T.
    destruct (confinement_Run box command s) as [[r|e|v|] s']; try done.
    destruct T as [[_ (_ & T & _)]|(p & _ & _ & (_ & T & _))]; [exists ps | exists (ps ++ [p])]; rewrite T, Es, ?app_assoc;
      (split; [done | by apply Forall_true]).
  - unfold confinement_Run, get_box, mbind, lm_bind. cbn. rewrite Eb. cbn. exists ps. split; [done | by apply Forall_true].
Qed.

Lemma Establish_any P asked : invariant (started_since P (λ _, True)) (native_Establish asked).
Proof.
  intros s (ps & Es & _).
  assert (started_since (host_started s) (probes asked) s) as Hs by (exists []; by rewrite app_nil_r).
  pose proof (Establish_since (host_started s) asked s Hs) as T.
  assert (∀ w, started_since (host_started s) (probes asked) w → started_since P (λ _, True) w) as Hw.
  { intros w (qs & Ew & _). exists (ps ++ qs). rewrite Ew, Es, app_assoc. split; [done | by apply Forall_true]. }
  destruct (native_Establish asked s) as [[box|e|v|] s']; by apply Hw.
Qed.

#[local] Instance since_kept asked P : WorldKeeps (H:=HostWorld) asked (started_since P (λ _, True)).
Proof.
  split; cbn.
  - intros []; [apply Establish_any | apply Deny_since].
  - apply Capability_since.
  - apply Run_since.
  - apply Close_since.
  - apply record_since.
  - intros path. apply host_ask_since.
  - intros _ operation input max s Hs. unfold on_files. by destruct (Run operation input max (host_files s)) as [[a|e|v|] f].
Qed.

(** What an action starts: preparing starts probes only, closing nothing. *)
Definition allowed (asked : SandboxConfig) (action : ToolAction) (p : string * list string * bytes) : Prop :=
  match action with ActPrepare _ => probes asked p | ActExecute _ _ => True | ActClose _ => False end.

Lemma act_starts asked s action :
  all_asked asked s →
  all_asked asked (act s action) ∧ started_since (host_started (world s)) (allowed asked action) (world (act s action)).
Proof.
  intros Ha.
  assert (∀ R, tools_keep asked (started_since (host_started (world s)) R) s) as Hs.
  { intros R. split; [exact Ha|]. exists []. by rewrite app_nil_r. }
  destruct action as [h|h call|h]; cbn [act allowed].
  - assert (invariant (tools_keep asked (started_since (host_started (world s)) (probes asked))) (PrepareSandbox h)) as K.
    { apply PrepareSandbox_keeps; [|apply Capability_since]. intros []; [apply Establish_since | apply Deny_since]. }
    specialize (K s (Hs _)). by destruct (PrepareSandbox h s) as [[c|e|v|] s'].
  - pose proof (Execute_keeps asked _ h call s (Hs (λ _, True))) as K. by destruct (Execute h call s) as [[o|e|v|] s'].
  - assert (invariant (tools_keep asked (started_since (host_started (world s)) (λ _, False))) (handler_Close h)) as K.
    { apply handler_Close_keeps. intros box. apply Close_since. }
    specialize (K s (Hs _)). by destruct (handler_Close h s) as [[o|e|v|] s'].
Qed.

End starts.

(* ------------------------------------------------------------------ *)
(** ** Runs with these tools *)

Section runs.
Context `{HostEnv} `{FileEnv} `{InputDecoder} `{ResultDecoder}.
#[local] Existing Instance HostWorld.
Context `{Hcarriers : EngineCarriers, Henv : !EngineEnv, Hencoder : !PayloadEncoder, Hquoting : Quoting,
  Hlibrary : SchemaLibrary, Hdecoder : PayloadDecoder}.

(** The tools among the handlers of a request, and the tools as they were made. *)
Context (tool_of : ExternalHandler → option nat) (first : ToolState (H:=HostWorld)).

(** What a call of the engine is for the tools. *)
Definition tool_action (k : ECall) : option ToolAction :=
  match k with
  | EPrepareSandbox handler => ActPrepare <$> tool_of handler
  | EExecute handler call => (fun h => ActExecute h call) <$> tool_of handler
  | ECloseHandler handler => ActClose <$> tool_of handler
  | _ => None
  end.

Definition tools_after (h : list ECall) : ToolState (H:=HostWorld) := foldl act first (omap tool_action h).

(** The answer of a tool, as a call of the engine returns it. *)
Definition tool_answer {A} (e : ending A) : outcome (result A) :=
  match e with Done a => Returns (Ok a) | Failed e => Returns (Err e) | Panicked v => Panics v | Exhausted => Panics "exhausted" end.

(** The tools answer the engine from the state its calls lead to. *)
Definition answers_engine : Prop :=
  ∀ h handler i, tool_of handler = Some i →
    is_sandboxed handler = true ∧
    prepare_sandbox h handler = tool_answer (fst (PrepareSandbox i (tools_after h))) ∧
    ∀ call, external_execute h handler call = tool_answer (fst (Execute i call (tools_after h))).

Lemma tools_after_snoc h k :
  tools_after (h ++ [k]) = match tool_action k with Some a => act (tools_after h) a | None => tools_after h end.
Proof. unfold tools_after. rewrite omap_app, foldl_app. cbn. by destruct (tool_action k). Qed.

(** Every process was started by a call. *)
Lemma started_by asked h p :
  all_asked asked first → host_started (world first) = [] → p ∈ host_started (world (tools_after h)) →
  ∃ h0 k a, made h0 k h ∧ tool_action k = Some a ∧ allowed asked a p.
Proof.
  intros Ha Hs. assert (all_asked asked (tools_after h) ∧ (p ∈ host_started (world (tools_after h)) →
    ∃ h0 k a, made h0 k h ∧ tool_action k = Some a ∧ allowed asked a p)) as [_ HH]; [|exact HH].
  induction h as [|k h [IHa IH]] using rev_ind; [split; [exact Ha|]; cbn; rewrite Hs; by intros ?%elem_of_nil|].
  rewrite tools_after_snoc.
  assert (∀ h0 k', made h0 k' h → made h0 k' (h ++ [k])) as Hm by (intros h0 k' Hm; apply made_snoc; by left).
  destruct (tool_action k) as [a|] eqn:Ek; [|split; [exact IHa|]; naive_solver].
  destruct (act_starts asked (tools_after h) a IHa) as [Ha' (ps & E & Hps)]. split; [exact Ha'|]. rewrite E, elem_of_app.
  intros [Hp|Hp]; [naive_solver|]. exists h, k, a. split_and!; [apply made_snoc; by right | exact Ek |].
  rewrite Forall_forall in Hps. by apply Hps.
Qed.

(** C5. In every run of the engine, fresh or resumed, with tools that [New] made,
    whatever the loop, the model and the host do: every process that was started
    is contained in a confinement of the configuration, and it is the probe of one,
    started when the engine asked a tool about its sandbox, or was started in the
    execution of a call that a recorded verdict on this call allowed. *)
Theorem workspace_processes config s bindings e raw resume p :
  host_boxes s = [] → host_started s = [] → New config (no_tools s) = (Done bindings, first) →
  let h := engine_history (snd (Engine_run e raw resume initial_state)) in
  p ∈ host_started (world (tools_after h)) →
  (∃ box, resolved (asked_config config) box ∧ contained box p) ∧
  ∃ h0, (∃ handler, made h0 (EPrepareSandbox handler) h ∧ probes (asked_config config) p) ∨
        (∃ handler call, made h0 (EExecute handler call) h ∧ tool_permission (normalise raw) handler call h0).
Proof.
  intros Hb Hp HNew h Hin. apply New_Done in HNew as (_ & c & w & Hstat & Hc & _ & Hfirst).
  destruct (tool_config_Ok _ _ Hc) as (_ & Ha & _). cbn in Hstat. injection Hstat as _ <-.
  assert (all_asked (asked_config config) first) as Hall.
  { rewrite Hfirst. unfold all_asked. cbn [handlers no_tools app tool_names fmap list_fmap]. by repeat constructor. }
  split.
  - assert (tools_keep (asked_config config) (confined (asked_config config)) first) as Hk.
    { split; [exact Hall|]. rewrite Hfirst. split; cbn; [rewrite Hb | rewrite Hp]; done. }
    destruct (acts_keep _ _ first (omap tool_action h) Hk) as [_ [_ Hs]]. rewrite Forall_forall in Hs. by apply Hs.
  - destruct (started_by (asked_config config) h p Hall) as (h0 & k & a & Hm & Hk & Hal); [by rewrite Hfirst | exact Hin|].
    exists h0. destruct k; cbn [tool_action] in Hk; try done;
      apply fmap_Some in Hk as (i & _ & ->); cbn [allowed] in Hal; [left; eauto | right | done].
    eexists _, _. split; [exact Hm|]. by eapply run_tools_permitted.
Qed.

Lemma tools_after_denying B P h : denying B P first → denying B P (tools_after h).
Proof.
  intros Hd. induction h as [|k h IH] using rev_ind; [exact Hd|]. rewrite tools_after_snoc. destruct (tool_action k); [by apply act_denies | exact IH].
Qed.

Lemma denied_capability B P i s c s' : denying B P s → PrepareSandbox i s = (Done c, s') → Sandbox_Established c = false.
Proof.
  intros Hd Hc. destruct (handlers s !! i) as [hd|] eqn:Hh.
  - destruct (decide (h_name hd = "read")) as [Hr|Hr].
    + unfold PrepareSandbox in Hc. rewrite bind_Done, (get_handler_Some _ _ _ Hh) in Hc. destruct Hc as (x & s1 & [= <- <-] & Hc).
      rewrite Hr in Hc. destruct (h_closed hd); [done|]. by injection Hc as <- _.
    + destruct (denied_prepare B P i hd s Hd Hh Hr) as (e & s'' & E & _). by rewrite E in Hc.
  - unfold PrepareSandbox in Hc. rewrite bind_Done, (get_handler_None _ _ Hh) in Hc. by destruct Hc as (? & ? & ? & _).
Qed.

(** C6. Without an executor the whole composition fails closed: in every run of the
    engine with tools that have none, no process is started, and a tool that is
    bound as one with side effects does not execute at all, whatever policies,
    approvers and the model say. *)
Theorem denied_tools_never_execute config s bindings e raw resume :
  Config_Executor config = None ∨ Config_Executor config = Some DenyExecutor → New config (no_tools s) = (Done bindings, first) →
  answers_engine →
  let h := engine_history (snd (Engine_run e raw resume initial_state)) in
  host_started (world (tools_after h)) = host_started s ∧
  ∀ h0 handler call i, made h0 (EExecute handler call) h → tool_of handler = Some i →
    ∃ binding, binding ∈ Eng_Tools (normalise raw) ∧ Binding_Handler binding = Some handler ∧
      Tool_SideEffecting (Binding_Definition binding) = false.
Proof.
  intros He HNew Hanswers h.
  assert (denying (host_boxes s) (host_started s) first) as Hd by by eapply New_denying.
  split; [apply (tools_after_denying _ _ h Hd)|]. intros h0 handler call i Hm Hi.
  destruct (run_tools_permitted e raw resume h0 handler call Hm) as (index & binding & c & Hb & Hh & Hside & Hprep & _).
  exists binding. split_and!; [by eapply list_elem_of_lookup_2 | done |]. apply not_true_is_false. intros Heff.
  destruct (Hprep (Hside Heff)) as (h1 & _ & Hans). destruct (Hanswers h1 handler i Hi) as (_ & Ep & _). rewrite Ep in Hans.
  destruct (PrepareSandbox i (tools_after h1)) as [[c'|e'|v|] s'] eqn:E; cbn in Hans; try done. injection Hans as ->.
  pose proof (denied_capability _ _ _ _ _ _ (tools_after_denying _ _ h1 Hd) E) as Hc. by rewrite (Hside Heff) in Hc.
Qed.

End runs.
