(* ===== verification/ToolExample.v ===== *)
(** * Concrete tools

    A small tree, a host on Linux whose helper can be named through a symbolic
    link, and tools on them, at which the theorems of ToolOpSpec.v and
    ToolsSpec.v are applied. *)

From Stdlib Require Import ZArith Lia Ascii.
From S2P Require Import Prelude Effects GoNum GoText GoJson GoJsonText GoPath Domain Model Policy LoopTypes Execution Engine FileTree ToolOp ToolOpSpec Sandbox SandboxSpec Bwrap Tools ToolsSpec.

(* ------------------------------------------------------------------ *)
(** ** Files *)

Definition steady_files : FileEnv :=
  {| file_fault := fun _ => None; file_partial := fun _ => 0%nat; file_context := fun _ => None; random_text := fun _ => "R" |}.

#[local] Existing Instance steady_files.

#[local] Instance steady_healthy : FileHealthy.
Proof. by split. Defined.

Definition small_tree : Files :=
  {| entries := {[ ["a"] := EntryFile 0; ["d"] := EntryDir ]}; contents := {[ 0%nat := "hello" ]} |}.

Definition small_state : FileState := {| fs_files := small_tree; fs_calls := 0 |}.

Definition write_input : Input := {| Input_Path := "a"; Input_Text := "world"; Input_Old := ""; Input_New := ""; Input_Args := [] |}.
Definition edit_input : Input := {| Input_Path := "a"; Input_Text := ""; Input_Old := "ell"; Input_New := "ipp"; Input_Args := [] |}.

Lemma small_names_ok : temp_names_ok small_tree "a".
Proof. split; [done|]. intros n p. vm_compute. intros [= <-]. done. Qed.

Lemma small_room : has_room small_tree "a".
Proof. intros n. exists [".fabricrunner-R"]. by vm_compute. Qed.

Lemma Run_write_atomic_witness :
  ∃ r err s', Run "edit" edit_input 100 small_state = (Done (r, err), s') ∧ r = written_result ∧
    ∃ text, writes small_tree "edit" edit_input text ∧ replaced small_tree (fs_files s') "a" text.
Proof.
  pose proof (Run_write_atomic "edit" edit_input 100 small_state (or_intror eq_refl) small_names_ok) as T.
  assert (∃ x, fst (Run "edit" edit_input 100 small_state) = Done x) as [[r err] E] by (eexists; vm_compute; reflexivity).
  destruct (Run "edit" edit_input 100 small_state) as [e s']. cbn [fst] in E. subst e. by exists r, err, s'.
Defined.

Lemma Run_read_bounded_witness :
  match Run "read" write_input 3 small_state with
  | (Done (r, _), s') => fs_files s' = small_tree ∧ ∃ i, regular_at small_tree "a" i ∧
      let c := content small_tree i in
      Result_Text r = take_bytes (Z.to_nat 3) c ∧ Z.of_nat (String.length (Result_Text r)) <= 3 ∧
      (Result_Truncated r = true ↔ 3 < Z.of_nat (String.length c)) ∧ Result_PartialEffects r = false
  | (Failed _, s') => fs_files s' = small_tree
  | _ => False
  end.
Proof. apply (Run_read_bounded write_input 3 small_state). split; [lia | reflexivity]. Defined.

Lemma Run_write_succeeds_witness : fst (Run "write" write_input 100 small_state) = Done (written_result, None).
Proof.
  apply (Run_write_succeeds "write" write_input 100 small_state ["a"] "world").
  - reflexivity.
  - exact small_names_ok.
  - exact small_room.
  - vm_compute. reflexivity.
  - right. exists 0%nat. vm_compute. reflexivity.
  - by left.
  - done.
Defined.

Lemma ValidatePath_local_witness : ∀ f follow, (∀ p t, entry_at f p ≠ Some (EntryLink t)) → locate f follow "d/../a" ≠ Err ErrPathEscapes.
Proof. apply (ValidatePath_local "d/../a"). reflexivity. Defined.

(* ------------------------------------------------------------------ *)
(** ** A host on Linux *)

(** Decoding by table. *)
#[local] Instance table_inputs : InputDecoder := {|
  decode_input := fun data => if data =s "W" then Ok (write_input, true) else if data =s "E" then Ok (edit_input, true) else Err (errors_New "input") |}.
#[local] Instance helper_results : ResultDecoder := {| decode_result := fun _ r => Ok {| r with Result_Text := "ok" |} |}.

(** What is run is what its path inside shows, where the directory shows the root. *)
Definition linux_process (args : list string) (stdin : bytes) (f : Files) : Process :=
  match bwrap_parse args with
  | Some (options, program :: rest) =>
      if bool_decide (fst <$> bwrap_shows program options = Some "/opt/helper") &&
         bool_decide (bwrap_dir options ≫= (fun dir => bwrap_shows dir options) = Some ("/work", true))
      then
        match helper_main (program :: rest) stdin {| fs_files := f; fs_calls := 0 |} with
        | (Done (out, code), s') => Exited [out] code (if code =? 0 then None else Some (errors_New "exit status")) (fs_files s')
        | (_, s') => Exited [] 2 (Some (errors_New "exit status")) (fs_files s')
        end
      else if program =s "/usr/bin/true" then Exited ["done"] 0 None f
      else Exited ["bwrap: execvp " +:+ program] 1 (Some (errors_New "exit status")) f
  | _ => Exited ["usage"] 1 (Some (errors_New "exit status")) f
  end.

#[local] Instance linux_host : HostEnv := {|
  runtime_GOOS := "linux";
  host_Abs := fun path => Ok path;
  host_EvalSymlinks := fun _ path => Ok (if path =s "/opt/link" then "/opt/helper" else path);
  host_Stat := fun _ path => if path =s "/work" then Ok HostDirectory else if path =s "/opt/helper" then Ok HostRegular else Ok HostOther;
  host_LookPath := fun _ _ => Ok "/usr/bin/bwrap";
  strconv_Quote := fun s => dquote +:+ s +:+ dquote;
  host_process := fun _ _ args stdin f => linux_process args stdin f;
  host_context := fun _ => None;
  host_drained := fun _ => true;
  host_sink := fun _ _ => None |}.

#[local] Instance linux_helper : HelperHost "/work" "/opt/helper".
Proof.
  split. intros n path args options program operation dir stdin f writable _ _ Hparse Hshown Hdir Hroot. cbn [host_process linux_host].
  unfold linux_process. rewrite Hparse, Hshown, Hdir. cbn [mbind option_bind fmap option_fmap option_map fst]. rewrite Hroot, !bool_decide_true by done. cbn [andb].
  destruct (helper_main _ stdin _) as [[[out code]|e|v|] s'] eqn:E; [|right; left; eauto..].
  destruct (Z.eqb_spec code 0) as [->|]; [|right; left; eauto]. right. right. by exists out, 0%nat, s'.
Defined.

#[local] Existing Instance HostWorld.

Definition idle_host : HostState := {| host_calls := 0; host_started := []; host_events := []; host_boxes := []; host_files := small_state |}.

Definition linux_config (helper : string) (executor : option HostExecutor) : ToolConfig (H:=HostWorld) :=
  {| Config_Root := "/work"; Config_Helper := helper; Config_Executor := executor; Config_MaxOutput := 1024; Config_Timeout := 0; Config_Classification := "" |}.

Definition tool_call (input : bytes) : ToolInvocation :=
  {| Invocation_WorkloadID := ""; Invocation_StepID := ""; Invocation_AttemptID := ""; Invocation_Turn := 1;
     Invocation_Call := {| Call_ID := "1"; Call_Name := "tool"; Call_Input := input |} |}.

(** Tools that [New] made; the second one writes. *)
Definition made_tools (helper : string) (executor : option HostExecutor) : ToolState (H:=HostWorld) :=
  snd (New (linux_config helper executor) (no_tools idle_host)).
Lemma made_by_New helper executor :
  (∃ bindings, fst (New (linux_config helper executor) (no_tools idle_host)) = Done bindings) →
  ∃ bindings, New (linux_config helper executor) (no_tools idle_host) = (Done bindings, made_tools helper executor).
Proof. intros [bindings E]. exists bindings. unfold made_tools. by destruct (New _ _) as [e s]; cbn in *; subst. Qed.

Definition written (helper : string) : ToolState (H:=HostWorld) := act (made_tools helper (Some NativeExecutor)) (ActPrepare 1).


(** The same call with the helper named through a link: [Establish] resolves the
    name and [Execute] does not, so that the program inside is not the helper that
    was bound there, and nothing is written. *)
Example linked_helper_not_run :
  let '(answer, s') := Execute 1 (tool_call "W") (written "/opt/link") in
  (drop 44 <$> (p ← last (host_started (world s')); Some (snd (fst p)))) =
    Some ["--ro-bind"; "/opt/helper"; "/runner-helper"; "--"; "/opt/link"; "write"] ∧
  (ToolOutput_IsError <$> match answer with Done o => Some o | _ => None end) = Some true ∧
  fs_files (host_files (world s')) = small_tree.
Proof. vm_compute. split_and!; reflexivity. Qed.

(* ------------------------------------------------------------------ *)
(** ** The theorems on these tools *)



Lemma Execute_output_witness :
  ∃ o s' hd, Execute 0 (tool_call "W") (made_tools "" None) = (Done o, s') ∧ handlers (made_tools "" None) !! 0%nat = Some hd ∧
    ToolOutput_Validate o = Ok tt ∧ ToolOutput_Classification o = Config_Classification (h_config hd) ∧
    ∃ r, ToolOutput_JSON o = marshal_result r ∧ Z.of_nat (String.length (Result_Text r)) <= Config_MaxOutput (h_config hd) ∧
      (ToolOutput_IsError o = true → Result_PartialEffects r = true ∧ Result_Error r = "tool failed; effects may have occurred").
Proof.
  assert (∃ o, fst (Execute 0 (tool_call "W") (made_tools "" None)) = Done o) as [o Ho] by (eexists; vm_compute; reflexivity).
  destruct (Execute 0 (tool_call "W") (made_tools "" None)) as [e s'] eqn:E. cbn [fst] in Ho. subst e.
  destruct (Execute_output 0 (tool_call "W") (made_tools "" None) o s') as (hd & Hd); [|exact E|by exists o, s', hd].
  repeat constructor; done.
Defined.

Lemma closed_tool_refuses_witness :
  let s' := foldl act (act (made_tools "" None) (ActClose 0)) [ActExecute 0 (tool_call "W")] in
  PrepareSandbox 0 s' = (Failed (errors_New "tool is closed"), s') ∧ ∃ e, Execute 0 (tool_call "E") s' = (Failed e, s').
Proof. apply (closed_tool_refuses 0 (made_tools "" None) [ActExecute 0 (tool_call "W")] (tool_call "E")). vm_compute. lia. Defined.

Lemma tools_confined_witness :
  Forall (λ p, ∃ box, resolved {| Box_Root := "/work"; Box_Helper := "/opt/helper" |} box ∧ contained box p)
    (host_started (world (foldl act (made_tools "/opt/helper" (Some NativeExecutor)) [ActExecute 1 (tool_call "W"); ActExecute 2 (tool_call "E")]))).
Proof.
  destruct (made_by_New "/opt/helper" (Some NativeExecutor)) as [bindings E]; [eexists; vm_compute; reflexivity|].
  exact (tools_confined (linux_config "/opt/helper" (Some NativeExecutor)) idle_host bindings _ _ eq_refl eq_refl E).
Defined.

Lemma tools_denied_witness :
  let s2 := foldl act (made_tools "" None) [ActExecute 0 (tool_call "W"); ActPrepare 3] in
  host_started (world s2) = [] ∧ host_boxes (world s2) = [] ∧
  (∀ hd, handlers s2 !! 3%nat = Some hd → h_name hd ≠ "read" → h_closed hd = false →
     ∃ e, fst (PrepareSandbox 3 s2) = Failed e ∧ errors_Is e "sandbox execution denied" = true).
Proof.
  destruct (made_by_New "" None) as [bindings E]; [eexists; vm_compute; reflexivity|].
  exact (tools_denied (linux_config "" None) idle_host bindings _ [ActExecute 0 (tool_call "W"); ActPrepare 3] 3 (or_introl eq_refl) E).
Defined.
