(* ===== verification/EngineToolsExample.v ===== *)
(** * The engine with the tools, at concrete runs

    The engine of EngineExample.v whose one tool is the write tool of
    ToolExample.v: a run in which the tool prepares its confinement and executes
    a call, and the same run with tools that have no executor. *)

From Stdlib Require Import ZArith Lia.
From S2P Require Import Prelude Effects GoNum GoText GoJson GoJsonText GoPath GoHash Ident Domain Event Store Model Stream Policy Routing Baseline Deterministic Telemetry LoopTypes Loop LoopTools LoopRun Execution Projection.
From S2P Require Import Engine EngineTurn EngineRun EngineInvariant EngineLedger EngineSafety EngineExample FileTree ToolOp Sandbox SandboxSpec Tools ToolsSpec EngineTools ToolExample.

#[local] Existing Instance script_carriers.
#[local] Existing Instance script_encoder.
#[local] Existing Instance script_library.
#[local] Existing Instance example_quoting.
#[local] Existing Instance table_decoder.
#[local] Existing Instance steady_files.
#[local] Existing Instance linux_host.
#[local] Existing Instance helper_results.
#[local] Existing Instance HostWorld.

(** Every input is the one that writes. *)
#[local] Instance write_inputs : InputDecoder := {| decode_input := fun _ => Ok (write_input, true) |}.

(** The handler that is a tool, and it is the second one. *)
Definition script_tool (handler : string) : option nat := if handler =s "handler" then Some 1%nat else None.

(** The environment of the script, with the answers of the tools. *)
Definition tool_env (first : ToolState (H:=HostWorld)) : EngineEnv (H:=script_carriers) :=
  let env := script_env script_loaded in
  {| env with
     prepare_sandbox := fun h _ => tool_answer (fst (PrepareSandbox 1 (tools_after (Hcarriers:=script_carriers) script_tool first h)));
     external_execute := fun h _ call => tool_answer (fst (Execute 1 call (tools_after (Hcarriers:=script_carriers) script_tool first h))) |}.

Definition tool_history (first : ToolState (H:=HostWorld)) : list (ECall (H:=script_carriers)) :=
  engine_history (snd (Engine_run (Henv:=tool_env first) script_engine script_request false initial_state)).

Definition tool_started (first : ToolState (H:=HostWorld)) : list (string * list string * bytes) :=
  host_started (world (tools_after (Hcarriers:=script_carriers) script_tool first (tool_history first))).

(** The probe of the confinement, and the helper it ran. *)
Definition native_tools : ToolState (H:=HostWorld) := made_tools "/opt/helper" (Some NativeExecutor).
Definition started_at (n : nat) : string * list string * bytes := nth n (tool_started native_tools) ("", [], "").

Example tools_ran : length (tool_started native_tools) = 2%nat ∧ last (snd (fst (started_at 1))) = Some "write".
Proof. vm_compute. split; reflexivity. Qed.

Lemma workspace_processes_witness :
  let h := tool_history native_tools in
  (∃ box, resolved {| Box_Root := "/work"; Box_Helper := "/opt/helper" |} box ∧ contained box (started_at 1)) ∧
  ∃ h0, (∃ handler, made h0 (EPrepareSandbox handler) h ∧ probes {| Box_Root := "/work"; Box_Helper := "/opt/helper" |} (started_at 1)) ∨
        (∃ handler call, made h0 (EExecute handler call) h ∧
           tool_permission (Henv:=tool_env native_tools) (normalise script_request) handler call h0).
Proof.
  destruct (made_by_New "/opt/helper" (Some NativeExecutor)) as [bindings E]; [eexists; vm_compute; reflexivity|].
  refine (workspace_processes (Henv:=tool_env native_tools) script_tool native_tools (linux_config "/opt/helper" (Some NativeExecutor)) idle_host bindings
    script_engine script_request false (started_at 1) eq_refl eq_refl E _).
  apply list_elem_of_lookup_2 with 1%nat. vm_compute. reflexivity.
Defined.

Lemma tool_env_answers first : answers_engine (Henv:=tool_env first) script_tool first.
Proof.
  intros h handler i. unfold script_tool at 1. destruct (handler =s "handler"); [intros [= <-] | done]. by split_and!.
Qed.

Lemma denied_tools_never_execute_witness :
  let first := made_tools "" None in
  tool_started first = [] ∧
  ∀ h0 handler call i, made h0 (EExecute handler call) (tool_history first) → script_tool handler = Some i →
    ∃ binding, binding ∈ Eng_Tools (normalise script_request) ∧ Binding_Handler binding = Some handler ∧
      Tool_SideEffecting (Binding_Definition binding) = false.
Proof.
  destruct (made_by_New "" None) as [bindings E]; [eexists; vm_compute; reflexivity|].
  exact (denied_tools_never_execute (Henv:=tool_env (made_tools "" None)) script_tool (made_tools "" None) (linux_config "" None) idle_host bindings
    script_engine script_request false (or_introl eq_refl) E (tool_env_answers _)).
Defined.
